(* ===== verification/_CoqProject ===== *)
-Q . S2P
Prelude.v
KeyMap.v
CmdCount.v
Masks.v
XiRope.v
XiRopeRef.v
ByteRope.v
Selection.v
SelectionMap.v
SelectionMoves.v
SelectionQueries.v
Operations.v
Edits.v
History.v
SelectionExact.v
SelectionParts.v
SelectionTheorems.v
SelectionDelta.v
CurrentBuffer.v
BufferTheorems.v
DirtyBytes.v
CopyEditor.v
Text.v
Mode.v
NormalMode.v
InsertMode.v
ReplaceMode.v
JumpToMode.v
SearchMode.v
CommandMode.v
Modes.v
Matches.v
SearchTheorems.v
CommandTheorems.v
Names.v
Style.v
ByteProperties.v
Prompt.v
View.v
EventLoop.v
ViewMarks.v
ViewRows.v
ViewTheorems.v
StatusLine.v
Window.v
Redraw.v
Program.v
ModeTheorems.v
