(* ===== verification/Prelude.v ===== *)
(** * Tofu: a verification development of the modal hex editor

    Tofu shows a file as bytes and edits it with modal commands on multiple
    selections.  The program, and the file that models each part of it:

    - [byte_rope.rs], the document as a rope of byte leaves: [ByteRope].  The
      tree, delta and subset algorithms are those of the crate xi-rope and not
      part of the repository; [XiRope] is the class of the operations the
      editor calls, [XiRopeLaws] their documented behaviour, [Masks] the lists
      of booleans in which that behaviour is stated, and [XiRopeRef] an
      executable instance that satisfies every law.
    - [selection.rs], sorted regions with a caret, a tail and one main region:
      [Selection] (data, operations, the invariant [selection_ok]).
      [SelectionMap], [SelectionMoves], [SelectionQueries], [SelectionExact]
      and [SelectionParts] hold the lemmas: closures that yield one region,
      movements, searches, closures that merge nothing, closures that cut
      regions into parts.
    - [operations.rs], the deltas of the editing operations: [Operations], with
      their effect on the bytes in [Edits] and on selections in
      [SelectionDelta].
    - [history.rs], undo and redo with inverse deltas: [History].
    - [current_buffer.rs], a buffer (document, selection, registers, history)
      and the collection of open buffers: [CurrentBuffer].  Calls into the
      operating system are the class [FileSystem]; its laws leave open which
      paths name the same file ([fs_same]).
    - [keymap.rs] and [cmd_count.rs], key maps and count prefixes: [KeyMap],
      [CmdCount].
    - [modes/]: [Mode] (data), [NormalMode], [InsertMode], [ReplaceMode],
      [JumpToMode], [SearchMode] (with split.rs and collapse.rs),
      [CommandMode], and [Modes] (dispatch).  The substring and regular
      expression searchers are other crates: the class [SearchLib], whose
      laws are stated in [Matches] with the meaning of patterns.  [Text]
      models what the code uses of strings and characters (UTF-8, UTF-16,
      number formats), [Names] the names of modes, counts and buffers.
    - [hex_view/mod.rs], colours and the drawing of single bytes: [Style].
    - [hex_view/byte_properties.rs], the readings of the bytes at the caret:
      [ByteProperties].  The escaped form of characters that cannot be printed
      is the class [CharDebug].
    - [hex_view/view.rs]: [Prompt] (the search and command prompts), [View]
      (the record [HexView] and everything that only reads it: marks, rows,
      status line) and [EventLoop] (everything that changes it: the window and
      its trimming, scrolling, transitions, the event loop).  [ViewMarks] and
      [ViewRows] hold the lemmas on marks and rows.
    - [bin/tofu.rs], the start of the program: [EventLoop.main].  The size of
      the terminal and the events it delivers are the class [Terminal].

    A key event goes through [Modes.mode_transition]: the mode looks the key up
    in its key map, computes a delta from the current buffer's rope and
    selection, lets the buffer apply it (which records history and moves the
    selection), and returns the next mode and what has to be drawn again;
    [EventLoop.view_transition] installs the mode, moves the window to the main
    caret and draws the invalidated rows.  A key that the mode does not handle
    goes to [EventLoop.handle_event_default].

    ** How the code is represented

    A Rust computation is a value of [outcome]: a result or a panic with its
    cause; state is passed explicitly.  A [usize], [isize] or [u8] is an
    integer of Z; additions, subtractions and multiplications that the code
    leaves unchecked go through [uadd], [usub], [umul] and so on, which panic
    or wrap around as the build profile ([Profile]) says, so every theorem
    covers the debug and the release build.  Bytes are lists of Z.  A panic
    in a closure or a callee is the panic of the caller.  Methods of the view
    that change it run in the monad [EventLoop.M] over the view, the world and
    the commands queued for the terminal; [io] values are the results of calls
    into the system, and [?] stops at the first error with the state as it is
    at that point.  What is queued is the list of commands of crossterm, in
    order.

    Loops that are not structural take fuel, with enough supplied by their
    callers and the exhausted case, [PanicFuel], excluded by the theorems
    wherever the loop of the code ends:
    reading chunks takes one round per leaf and one more, cutting a vector into
    leaves one per byte, the binary search one per region, the search for
    matches one per byte of the region and one more, splitting by width one per
    byte of the region, printing a number 20 digits.  The loop that draws the
    rows below the document has as much fuel as there are rows up to the end of
    the screen and lines of properties ([fill_fuel]), which is enough on
    terminals of five rows or more; on smaller ones the loop of the code does not end either, and
    a theorem shows it for any fuel.  The event loop takes one unit of fuel per
    event, and its theorems hold for every amount, or for every amount of at
    least a given number of events.

    ** What the theorems show

    - The history ([History], [BufferTheorems], [CopyEditor]): inversion and
      chaining of deltas are right on every document; an insertion session is
      one undo step; a buffer is in lock step with an editor that keeps full
      copies of every version ([CopyEditor]): the same calls give the same
      answers, panics, documents, selections and registers.
      [ModeTheorems] shows that the modes meet the precondition: edits are
      pending only in insert mode.
    - Selections ([SelectionTheorems], [SelectionDelta]): movement, extension,
      jumps, swapping, cycling, removal and the passage through a delta keep
      the invariant, with the exact carets or regions, and where they do not
      (merging regions of different directions, removal before the main
      region, huge counts) the theorem says so.
    - Edits ([Edits], [SelectionDelta], [ModeTheorems]): which bytes each
      operation changes, and the delete command end to end.
    - Searching and splitting ([Matches], [SearchTheorems]): the leftmost
      matches of a pattern of literals and wildcards are found,
      the selection afterwards is exactly the matches or exactly the rest, and
      when the editor panics instead.
    - Buffers and files ([BufferTheorems], [CommandTheorems]): what loading a
      chunk does, what the write commands put into the files, and that no
      command but the forced quit discards unsaved changes.
    - Redrawing ([DirtyBytes], [Redraw]): the reported intervals cover exactly
      the old and the new regions, and on a model of the screen ([paint]) the
      commands queued for a change in place lead from the rows of the old state
      to those of the new one, except for rows that a load during the drawing
      fills.
    - The rope and the count prefix ([ByteRope], [CmdCount]): round trips,
      bounds on leaves, overflow of counts.
    - Drawing ([ViewTheorems], [StatusLine], [Prompt], [ByteProperties]): the
      rows show exactly the bytes of the window, with the styles of a reference
      function; drawing only invalidated rows queues for them what drawing
      everything does; where the status line is placed, in columns, and that
      the search prompt fits into the line; the properties read characters and numbers back from their encodings.
    - The window and the program ([Window], [Program]): the window follows the
      caret after an edit, stays aligned to rows under every event, and the
      event loop can be left; what goes wrong on resizing, on small terminals,
      after trimming, and when a long file is opened and saved.

    Each theorem has a witness at a concrete document, evaluated on the
    instances [ref_rope], [map_fs], [naive_search], [script_fs],
    [script_terminal] and [escape_debug].

    ** What is not modelled

    Log output ([debug_log], switched off by a constant); the time stamp of the
    last drawing, which nothing reads; the debug texts of ropes and regions;
    failing writes to the terminal and failing allocations.  The terminal that
    executes the queued commands is not part of the program: theorems speak of
    the commands, of the text they print, with one column for each character,
    and in [Redraw] of the commands that each row of the screen was last
    written with.

    To be added next: an event of any kind handled without a panic from a
    well-formed view (where the findings do not exclude it), bytes staying
    bytes under every event, hex entry of whole bytes, pasting. *)

From Stdlib Require Export ZArith Lia.
From stdpp Require Export base tactics numbers list gmap strings.
From stdpp Require Import options.

#[global] Open Scope Z_scope.

(** ** Outcomes: a Rust computation returns a value or panics *)

Inductive panic : Type :=
  | PanicOverflow      (* arithmetic overflow, when overflow checks are on *)
  | PanicIndex         (* slice or Vec index out of bounds *)
  | PanicUnwrap        (* [unwrap] / [expect] on [None] or [Err] *)
  | PanicAssert        (* [assert!] / [assert_eq!] / [debug_assert!] *)
  | PanicDivZero       (* remainder or division by zero *)
  | PanicUnreachable   (* [unreachable!] *)
  | PanicExplicit      (* [panic!] *)
  | PanicFuel.         (* a loop ran out of fuel: shown impossible where it ends *)

Inductive outcome (A : Type) : Type :=
  | Ok (a : A)
  | Panic (p : panic).
Arguments Ok {A} a.
Arguments Panic {A} p.

#[export] Instance panic_eq_dec : EqDecision panic.
Proof. solve_decision. Defined.

#[export] Instance outcome_ret : MRet outcome := @Ok.

#[export] Instance outcome_bind : MBind outcome := λ A B f m,
  match m with Ok a => f a | Panic p => Panic p end.

#[export] Instance outcome_fmap : FMap outcome := λ A B f m,
  match m with Ok a => Ok (f a) | Panic p => Panic p end.

(** The build profile decides what an arithmetic overflow does: a panic when
    [overflow_checks] is on (the debug profile), wrap-around when it is off
    (the [release] and [release-small] profiles of Cargo.toml). *)
Class Profile := overflow_checks : bool.

(** ** Machine integers: [usize], [isize] and [u8] at their width *)

Definition two64 : Z := 18446744073709551616.
Definition two63 : Z := 9223372036854775808.
Definition usize_max : Z := two64 - 1.
Definition isize_max : Z := two63 - 1.
Definition isize_min : Z := - two63.

Definition is_usize (z : Z) : Prop := 0 ≤ z ≤ usize_max.
Definition is_u8 (z : Z) : Prop := 0 ≤ z < 256.
Definition is_u16 (z : Z) : Prop := 0 ≤ z < 65536.

(** [x as isize] and [x as usize]: reinterpretation of the 64 bits. *)
Definition as_isize (z : Z) : Z := if z <? two63 then z else z - two64.
Definition as_usize (z : Z) : Z := z mod two64.
Definition as_u8 (z : Z) : Z := z mod 256.
Definition as_u16 (z : Z) : Z := z mod 65536.

Section arith.
Context `{Profile}.

Definition uwrap (z : Z) : outcome Z :=
  if (0 <=? z) && (z <=? usize_max) then Ok z
  else if overflow_checks then Panic PanicOverflow else Ok (z mod two64).

Definition uadd (a b : Z) : outcome Z := uwrap (a + b).
Definition usub (a b : Z) : outcome Z := uwrap (a - b).
Definition umul (a b : Z) : outcome Z := uwrap (a * b).

Definition iwrap (z : Z) : outcome Z :=
  if (isize_min <=? z) && (z <=? isize_max) then Ok z
  else if overflow_checks then Panic PanicOverflow
  else Ok (as_isize (z mod two64)).

(** [-] of [u16] *)
Definition u16sub (a b : Z) : outcome Z :=
  if (0 <=? a - b) && (a - b <? 65536) then Ok (a - b)
  else if overflow_checks then Panic PanicOverflow else Ok ((a - b) mod 65536).

Definition iadd (a b : Z) : outcome Z := iwrap (a + b).
Definition isub (a b : Z) : outcome Z := iwrap (a - b).
End arith.

Definition udiv (a b : Z) : outcome Z :=
  if b =? 0 then Panic PanicDivZero else Ok (a / b).
Definition urem (a b : Z) : outcome Z :=
  if b =? 0 then Panic PanicDivZero else Ok (a mod b).

Definition usize_saturating_mul (a b : Z) : Z := Z.min usize_max (a * b).
Definition usize_saturating_sub (a b : Z) : Z := Z.max 0 (a - b).
Definition isize_saturating_mul (a b : Z) : Z :=
  Z.max isize_min (Z.min isize_max (a * b)).

(** ** Lists addressed by [usize] *)

Abbreviation bytes := (list Z).

Definition zlen {A} (l : list A) : Z := Z.of_nat (length l).
Definition ztake {A} (n : Z) (l : list A) : list A := take (Z.to_nat n) l.
Definition zdrop {A} (n : Z) (l : list A) : list A := drop (Z.to_nat n) l.

(** The elements at the positions [s <= p < e] that the list has. *)
Definition zslice {A} (s e : Z) (l : list A) : list A := ztake (e - s) (zdrop s l).

Definition zlookup {A} (l : list A) (i : Z) : option A :=
  if i <? 0 then None else l !! Z.to_nat i.

Definition unwrap {A} (o : option A) : outcome A :=
  match o with Some a => Ok a | None => Panic PanicUnwrap end.

(** [v[i]] *)
Definition vec_index {A} (l : list A) (i : Z) : outcome A :=
  match zlookup l i with Some a => Ok a | None => Panic PanicIndex end.

(** [&v[s..e]] *)
Definition slice_range {A} (l : list A) (s e : Z) : outcome (list A) :=
  if (0 <=? s) && (s <=? e) && (e <=? zlen l) then Ok (zslice s e l)
  else Panic PanicIndex.

(** [v[i] = f(v[i])] *)
Definition vec_update {A} (l : list A) (i : Z) (f : A → A) : outcome (list A) :=
  a ← vec_index l i; Ok (<[Z.to_nat i := f a]> l).

(** [v.remove(i)] *)
Definition vec_remove {A} (l : list A) (i : Z) : outcome (list A) :=
  _ ← vec_index l i; Ok (ztake i l ++ zdrop (i + 1) l).

(** [v.insert(i, a)] *)
Definition vec_insert {A} (l : list A) (i : Z) (a : A) : outcome (list A) :=
  if (0 <=? i) && (i <=? zlen l) then Ok (ztake i l ++ a :: zdrop i l)
  else Panic PanicIndex.

Fixpoint mapM_outcome {A B} (f : A → outcome B) (l : list A) : outcome (list B) :=
  match l with
  | [] => Ok []
  | x :: l' => y ← f x; ys ← mapM_outcome f l'; Ok (y :: ys)
  end.

(** A [for] loop over a list that threads a state and may panic. *)
Fixpoint foldM {A S} (f : S → A → outcome S) (s : S) (l : list A) : outcome S :=
  match l with
  | [] => Ok s
  | x :: l' => s' ← f s x; foldM f s' l'
  end.

(** ** Tactics *)

(** Case analysis on every boolean comparison of integers that a conditional
    of the goal or of a hypothesis tests. *)
Ltac zcase_step :=
  match goal with
  | |- context [if ?b then _ else _] => zcase_on b
  | H : context [if ?b then _ else _] |- _ => zcase_on b
  end
with zcase_on b :=
  lazymatch b with
  | ?x && ?y => zcase_on x
  | ?x || ?y => zcase_on x
  | negb ?x => zcase_on x
  | ?x <? ?y => destruct (Z.ltb_spec x y)
  | ?x <=? ?y => destruct (Z.leb_spec x y)
  | ?x =? ?y => destruct (Z.eqb_spec x y)
  | _ => let E := fresh "E" in destruct b eqn:E
  end.
Ltac zcases := repeat (zcase_step; simpl andb in *; simpl orb in *; simpl negb in *;
                       cbv beta iota in *; try lia).

Ltac unfold_usize :=
  unfold is_usize, is_u8, is_u16, usize_max, isize_max, isize_min, two64, two63 in *.

(** Inversion of monadic code that returned: every [bind] in a hypothesis of
    the form [_ = Ok _] is split into its steps. *)
Ltac outcome_inv_step :=
  match goal with
  | H : Ok _ = Ok _ |- _ => injection H; clear H; intros; try discriminate; subst
  | H : Panic _ = Ok _ |- _ => discriminate H
  | H : Ok _ = Panic _ |- _ => discriminate H
  | H : mbind _ ?m = Ok _ |- _ =>
      let E := fresh "E" in destruct m eqn:E; simpl in H; [|discriminate H]
  | H : match ?m with Ok _ => _ | Panic _ => _ end = Ok _ |- _ =>
      let E := fresh "E" in destruct m eqn:E; simpl in H; [|discriminate H]
  | H : _ <$> ?m = Ok _ |- _ =>
      let E := fresh "E" in destruct m eqn:E; simpl in H; [|discriminate H]
  | p : _ * _ |- _ => destruct p
  end.
Ltac outcome_inv := repeat outcome_inv_step.

(** ** Generic lemmas *)

Create HintDb tofu.
Create Rewrite HintDb tofu_arith.
Create Rewrite HintDb zlen.

Lemma mapM_outcome_Ok {A B} (f : A → outcome B) (g : A → B) l :
  (∀ x, x ∈ l → f x = Ok (g x)) → mapM_outcome f l = Ok (g <$> l).
Proof.
  induction l as [|x l IH]; intros Hf; simpl; [done|].
  rewrite Hf; [|left]. simpl. rewrite IH; [done|]. intros y Hy. apply Hf. by right.
Qed.

Section arith_lemmas.
Context `{Profile}.

Lemma uwrap_ok z : is_usize z → uwrap z = Ok z.
Proof. unfold is_usize, uwrap. intros ?. zcases. done. Qed.

Lemma uadd_ok a b : is_usize (a + b) → uadd a b = Ok (a + b).
Proof. apply uwrap_ok. Qed.

Lemma usub_ok a b : is_usize (a - b) → usub a b = Ok (a - b).
Proof. apply uwrap_ok. Qed.

Lemma umul_ok a b : is_usize (a * b) → umul a b = Ok (a * b).
Proof. apply uwrap_ok. Qed.

Lemma iwrap_ok z : isize_min ≤ z ≤ isize_max → iwrap z = Ok z.
Proof. unfold iwrap. intros ?. zcases. done. Qed.

Lemma iadd_ok a b : isize_min ≤ a + b ≤ isize_max → iadd a b = Ok (a + b).
Proof. apply iwrap_ok. Qed.

Lemma isub_ok a b : isize_min ≤ a - b ≤ isize_max → isub a b = Ok (a - b).
Proof. apply iwrap_ok. Qed.

Lemma u16sub_ok a b : 0 ≤ a - b < 65536 → u16sub a b = Ok (a - b).
Proof. unfold u16sub. intros ?. zcases. done. Qed.

(** Whatever the profile, a value that [uwrap] returns is a [usize]. *)
Lemma uwrap_range z r : uwrap z = Ok r → is_usize r.
Proof.
  pose proof (Z.mod_pos_bound z two64 ltac:(done)) as Hm.
  unfold uwrap. intros Hw. zcases; simplify_eq; unfold_usize; lia.
Qed.

End arith_lemmas.

Lemma udiv_ok a b : b ≠ 0 → udiv a b = Ok (a / b).
Proof. unfold udiv. intros. by zcases. Qed.
Lemma urem_ok a b : b ≠ 0 → urem a b = Ok (a mod b).
Proof. unfold urem. intros. by zcases. Qed.

Lemma as_isize_small z : 0 ≤ z < two63 → as_isize z = z.
Proof. unfold as_isize. intros. by zcases. Qed.
Lemma as_usize_small z : is_usize z → as_usize z = z.
Proof. unfold as_usize. intros. apply Z.mod_small. unfold_usize. lia. Qed.

Lemma as_u16_small z : is_u16 z → as_u16 z = z.
Proof. apply Z.mod_small. Qed.

#[export] Hint Rewrite @uadd_ok @usub_ok @umul_ok @u16sub_ok @iadd_ok @isub_ok udiv_ok urem_ok
  as_isize_small as_usize_small as_u16_small using (unfold_usize; lia) : tofu_arith.

(** Discharge checked arithmetic whose operands are known to be in range. *)
Ltac arith_ok := autorewrite with tofu_arith.

(** *** Lists *)

Lemma zlen_nonneg {A} (l : list A) : 0 ≤ zlen l.
Proof. unfold zlen. lia. Qed.
Lemma zlen_nil {A} : zlen (@nil A) = 0.
Proof. done. Qed.
Lemma zlen_cons {A} (x : A) l : zlen (x :: l) = 1 + zlen l.
Proof. unfold zlen. simpl. lia. Qed.
Lemma zlen_app {A} (l1 l2 : list A) : zlen (l1 ++ l2) = zlen l1 + zlen l2.
Proof. unfold zlen. rewrite length_app. lia. Qed.
Lemma zlen_snoc {A} (l : list A) x : zlen (l ++ [x]) = zlen l + 1.
Proof. unfold zlen. rewrite length_app. simpl. lia. Qed.
Lemma zlen_0 {A} (l : list A) : zlen l = 0 ↔ l = [].
Proof. unfold zlen. destruct l; simpl; split; intros; done || lia. Qed.
Lemma zlen_fmap {A B} (f : A → B) l : zlen (f <$> l) = zlen l.
Proof. unfold zlen. by rewrite length_fmap. Qed.
Lemma zlen_insert {A} i (x : A) l : zlen (<[i:=x]> l) = zlen l.
Proof. unfold zlen. by rewrite length_insert. Qed.
Lemma zlen_ztake {A} n (l : list A) : zlen (ztake n l) = Z.max 0 (Z.min n (zlen l)).
Proof. unfold zlen, ztake. rewrite length_take. lia. Qed.
Lemma zlen_zdrop {A} n (l : list A) : zlen (zdrop n l) = Z.max 0 (zlen l - Z.max 0 n).
Proof. unfold zlen, zdrop. rewrite length_drop. lia. Qed.
Lemma zlen_zslice {A} s e (l : list A) : 0 ≤ s →
  zlen (zslice s e l) = Z.max 0 (Z.min e (zlen l) - s).
Proof. intros. unfold zslice. rewrite zlen_ztake, zlen_zdrop. lia. Qed.

#[export] Hint Rewrite @zlen_nil @zlen_cons @zlen_app @zlen_fmap @zlen_insert
  @zlen_ztake @zlen_zdrop : zlen.
#[export] Hint Rewrite @zlen_zslice using lia : zlen.
#[export] Hint Resolve zlen_nonneg : tofu.

Lemma ztake_le0 {A} n (l : list A) : n ≤ 0 → ztake n l = [].
Proof. intros. unfold ztake. by replace (Z.to_nat n) with 0%nat by lia. Qed.
Lemma zdrop_le0 {A} n (l : list A) : n ≤ 0 → zdrop n l = l.
Proof. intros. unfold zdrop. by replace (Z.to_nat n) with 0%nat by lia. Qed.
Lemma ztake_ge {A} n (l : list A) : zlen l ≤ n → ztake n l = l.
Proof. unfold zlen, ztake. intros. apply take_ge. lia. Qed.
Lemma zdrop_ge {A} n (l : list A) : zlen l ≤ n → zdrop n l = [].
Proof. unfold zlen, zdrop. intros. apply drop_ge. lia. Qed.
Lemma ztake_zdrop {A} n (l : list A) : ztake n l ++ zdrop n l = l.
Proof. apply take_drop. Qed.
Lemma ztake_app {A} n (l1 l2 : list A) :
  ztake n (l1 ++ l2) = ztake n l1 ++ ztake (n - zlen l1) l2.
Proof. unfold ztake, zlen. rewrite take_app. do 2 f_equal. lia. Qed.
Lemma zdrop_app {A} n (l1 l2 : list A) :
  zdrop n (l1 ++ l2) = zdrop n l1 ++ zdrop (n - zlen l1) l2.
Proof. unfold zdrop, zlen. rewrite drop_app. do 2 f_equal. lia. Qed.

Lemma zslice_nil {A} s e (l : list A) : e ≤ s → zslice s e l = [].
Proof. intros. unfold zslice. apply ztake_le0. lia. Qed.
Lemma zslice_ge {A} s e (l : list A) : zlen l ≤ s → zslice s e l = [].
Proof. intros. unfold zslice. rewrite zdrop_ge by done. apply take_nil. Qed.
Lemma zslice_full {A} e (l : list A) : zlen l ≤ e → zslice 0 e l = l.
Proof. intros. unfold zslice. rewrite zdrop_le0 by lia. apply ztake_ge. lia. Qed.
Lemma zslice_to_end {A} s e (l : list A) : zlen l ≤ e → 0 ≤ s → zslice s e l = zdrop s l.
Proof.
  intros. unfold zslice. destruct (Z.le_ge_cases s (zlen l)).
  - apply ztake_ge. rewrite zlen_zdrop. lia.
  - rewrite zdrop_ge by lia. unfold ztake. apply take_nil.
Qed.
Lemma zslice_clamp {A} s e (l : list A) : 0 ≤ s →
  zslice s e l = zslice s (Z.min e (zlen l)) l.
Proof.
  intros. destruct (Z.le_ge_cases e (zlen l)); [by rewrite Z.min_l|].
  rewrite Z.min_r, !zslice_to_end by lia. done.
Qed.
Lemma ztake_zslice {A} n (l : list A) : ztake n l = zslice 0 n l.
Proof. unfold zslice. by rewrite zdrop_le0, Z.sub_0_r. Qed.

Lemma zslice_app_split {A} s m e (l : list A) : 0 ≤ s ≤ m → m ≤ e →
  zslice s e l = zslice s m l ++ zslice m e l.
Proof.
  intros ??. unfold zslice, ztake, zdrop.
  replace (Z.to_nat (e - s)) with (Z.to_nat (m - s) + Z.to_nat (e - m))%nat by lia.
  rewrite <-take_take_drop, drop_drop. do 3 f_equal. lia.
Qed.

Lemma zslice_zdrop {A} s m (l : list A) : 0 ≤ s ≤ m →
  zdrop s l = zslice s m l ++ zdrop m l.
Proof.
  intros ?. unfold zslice, ztake, zdrop.
  rewrite <-(take_drop (Z.to_nat (m - s)) (drop (Z.to_nat s) l)) at 1.
  f_equal. rewrite drop_drop. f_equal. lia.
Qed.

Lemma zslice_app_r {A} s e (l1 l2 : list A) : zlen l1 ≤ s →
  zslice s e (l1 ++ l2) = zslice (s - zlen l1) (e - zlen l1) l2.
Proof.
  intros. unfold zslice. rewrite zdrop_app, (zdrop_ge s l1) by done. simpl. f_equal. lia.
Qed.

Lemma zslice_app_l {A} s e (l1 l2 : list A) : 0 ≤ s → e ≤ zlen l1 →
  zslice s e (l1 ++ l2) = zslice s e l1.
Proof.
  intros. destruct (Z.le_gt_cases e s); [by rewrite !zslice_nil by lia|].
  unfold zslice. rewrite zdrop_app, ztake_app, zlen_zdrop.
  rewrite (ztake_le0 _ (zdrop _ l2)) by lia. apply app_nil_r.
Qed.

Lemma zlookup_Some {A} (l : list A) i x :
  zlookup l i = Some x → 0 ≤ i < zlen l ∧ l !! Z.to_nat i = Some x.
Proof.
  unfold zlookup, zlen. intros Hl. zcases; [done|]. split; [|done].
  apply lookup_lt_Some in Hl. lia.
Qed.

Lemma zlookup_lt {A} (l : list A) i : 0 ≤ i < zlen l → ∃ x, zlookup l i = Some x.
Proof.
  unfold zlookup, zlen. intros ?. zcases.
  destruct (lookup_lt_is_Some_2 l (Z.to_nat i)); [lia|eauto].
Qed.

Lemma vec_index_Ok {A} (l : list A) i x : vec_index l i = Ok x ↔ zlookup l i = Some x.
Proof. unfold vec_index. destruct (zlookup l i); naive_solver. Qed.

Lemma slice_range_ok {A} (l : list A) s e :
  0 ≤ s ≤ e → e ≤ zlen l → slice_range l s e = Ok (zslice s e l).
Proof. intros. unfold slice_range. by zcases. Qed.

Lemma last_snoc_removelast {A} (l : list A) x : last l = Some x → l = removelast l ++ [x].
Proof.
  intros Hl. destruct l as [|y l _] using rev_ind; [done|].
  rewrite last_snoc in Hl. simplify_eq. by rewrite removelast_last.
Qed.
