(* ===== verification/KeyMap.v ===== *)
(** * KeyMap: key events and key maps of [src/src/keymap.rs]

    The event types are those of the [crossterm] crate, with the constructors
    the sources name and one constructor for all others. *)

From S2P Require Import Prelude.
From Stdlib Require Import Ascii.
From stdpp Require Import countable.
Local Open Scope Z_scope.

(** ** Events *)

(** A set of modifier flags. *)
Record KeyModifiers := mkMods { mod_shift : bool; mod_control : bool; mod_alt : bool }.

Definition NONE : KeyModifiers := mkMods false false false.
Definition SHIFT : KeyModifiers := mkMods true false false.
Definition CONTROL : KeyModifiers := mkMods false true false.
Definition ALT : KeyModifiers := mkMods false false true.

(** [modifiers & !KeyModifiers::SHIFT] *)
Definition without_shift (m : KeyModifiers) : KeyModifiers :=
  mkMods false (mod_control m) (mod_alt m).
Definition mods_is_empty (m : KeyModifiers) : bool :=
  negb (mod_shift m) && negb (mod_control m) && negb (mod_alt m).
(** [a |= b] *)
Definition mods_union (a b : KeyModifiers) : KeyModifiers :=
  mkMods (mod_shift a || mod_shift b) (mod_control a || mod_control b) (mod_alt a || mod_alt b).

Inductive KeyCode :=
  | KChar (c : Z)          (* a Unicode scalar value *)
  | KEsc | KBackspace | KDelete | KEnter | KLeft | KRight | KUp | KDown
  | KOther (n : Z).        (* any other key *)

Record KeyEvent := mkKeyEvent { code : KeyCode; modifiers : KeyModifiers }.

Inductive Event :=
  | Key (e : KeyEvent)
  | Resize (x y : Z)
  | Mouse.                 (* any other event *)

#[export] Instance KeyModifiers_eq_dec : EqDecision KeyModifiers.
Proof. solve_decision. Defined.
#[export] Instance KeyCode_eq_dec : EqDecision KeyCode.
Proof. solve_decision. Defined.
#[export] Instance KeyEvent_eq_dec : EqDecision KeyEvent.
Proof. solve_decision. Defined.

#[export] Instance KeyModifiers_countable : Countable KeyModifiers.
Proof.
  apply (inj_countable' (λ m, (mod_shift m, mod_control m, mod_alt m))
                        (λ '(a, b, c), mkMods a b c)). by intros [].
Defined.

Definition keycode_tag (k : KeyCode) : Z * Z :=
  match k with
  | KChar c => (0, c) | KOther n => (1, n) | KEsc => (2, 0) | KBackspace => (3, 0)
  | KDelete => (4, 0) | KEnter => (5, 0) | KLeft => (6, 0) | KRight => (7, 0)
  | KUp => (8, 0) | KDown => (9, 0)
  end.
Definition keycode_untag (p : Z * Z) : KeyCode :=
  match p.1 with
  | 0 => KChar p.2 | 1 => KOther p.2 | 2 => KEsc | 3 => KBackspace
  | 4 => KDelete | 5 => KEnter | 6 => KLeft | 7 => KRight | 8 => KUp | _ => KDown
  end.

#[export] Instance KeyCode_countable : Countable KeyCode.
Proof. apply (inj_countable' keycode_tag keycode_untag). by intros []. Defined.
#[export] Instance KeyEvent_countable : Countable KeyEvent.
Proof.
  apply (inj_countable' (λ e, (code e, modifiers e)) (λ '(c, m), mkKeyEvent c m)). by intros [].
Defined.

(** ** Key maps *)

Definition KeyMap (T : Type) : Type := gmap KeyEvent T.

Definition event_to_action {T} (self : KeyMap T) (evt : Event) : option T :=
  match evt with
  | Key e => self !! mkKeyEvent (code e) (without_shift (modifiers e))
  | _ => None
  end.

(** A character literal. *)
Definition chr (a : ascii) : Z := Z.of_N (N_of_ascii a).

(** The four forms of the [k!] macro. *)
Inductive mapping :=
  | Plain (a : ascii) | Alt (a : ascii) | Ctrl (a : ascii) | KeyOf (k : KeyCode).

Definition normalized_char (a : ascii) : KeyEvent := mkKeyEvent (KChar (chr a)) NONE.

Definition mapping_event (m : mapping) : KeyEvent :=
  match m with
  | Plain a => normalized_char a
  | Alt a => let norm := normalized_char a in
             mkKeyEvent (code norm) (mods_union (modifiers norm) ALT)
  | Ctrl a => let norm := normalized_char a in
              mkKeyEvent (code norm) (mods_union (modifiers norm) CONTROL)
  | KeyOf k => mkKeyEvent k NONE
  end.

(** The [keys!] macro: later mappings replace earlier ones. *)
Definition keys {T} (l : list (mapping * T)) : KeyMap T :=
  foldl (λ m '(k, a), <[mapping_event k := a]> m) ∅ l.

(** A key without modifiers and one with the shift modifier do the same. *)
Lemma event_to_action_shift {T} (m : KeyMap T) c :
  event_to_action m (Key (mkKeyEvent c SHIFT)) = event_to_action m (Key (mkKeyEvent c NONE)).
Proof. done. Qed.

(** Key events of printable characters. *)
Definition key_char (a : ascii) : Event := Key (mkKeyEvent (KChar (chr a)) NONE).
