(* ===== verification/CmdCount.v ===== *)
(** * CmdCount: the count prefix of a command, [src/src/cmd_count.rs]

    A count is entered digit by digit, in decimal or hexadecimal, before a
    command.  The theorems say that the entered digits denote the number they
    spell, that backspace takes back the last digit, and what happens when the
    number does not fit the machine integer. *)

From S2P Require Import Prelude KeyMap.
From Stdlib Require Import Ascii.
Local Open Scope char_scope.
Local Open Scope Z_scope.

Inductive State :=
  | CNone
  | CSome (hex : bool) (count : Z).

Inductive Action :=
  | AppendDigit (d : Z)
  | CancelEntry
  | SwitchHexEntry
  | RemoveLast.

Definition default_maps : KeyMap Action := keys [
  (KeyOf KEsc, CancelEntry);
  (KeyOf KBackspace, RemoveLast);
  (Plain "x", SwitchHexEntry);
  (Plain "0", AppendDigit 0);
  (Plain "1", AppendDigit 1);
  (Plain "2", AppendDigit 2);
  (Plain "3", AppendDigit 3);
  (Plain "4", AppendDigit 4);
  (Plain "5", AppendDigit 5);
  (Plain "6", AppendDigit 6);
  (Plain "7", AppendDigit 7);
  (Plain "8", AppendDigit 8);
  (Plain "9", AppendDigit 9);
  (Plain "a", AppendDigit 10);
  (Plain "b", AppendDigit 11);
  (Plain "c", AppendDigit 12);
  (Plain "d", AppendDigit 13);
  (Plain "e", AppendDigit 14);
  (Plain "f", AppendDigit 15)].

Inductive Transition :=
  | NotHandled
  | Update (s : State).

#[export] Instance State_eq_dec : EqDecision State.
Proof. solve_decision. Defined.
#[export] Instance Transition_eq_dec : EqDecision Transition.
Proof. solve_decision. Defined.

Section cmd_count.
Context `{Profile}.

Definition apply_action (self : State) (action : Action) : outcome Transition :=
  match self, action with
  | CNone, AppendDigit d =>
      if 9 <? d then Ok NotHandled else Ok (Update (CSome false d))
  | CNone, CancelEntry => Ok NotHandled
  | CNone, SwitchHexEntry => Ok (Update (CSome true 0))
  | CNone, RemoveLast => Ok NotHandled
  | CSome false count, AppendDigit d =>
      if 9 <? d then Ok NotHandled
      else
        m ← umul count 10;
        c ← uadd m d;
        Ok (Update (CSome false c))
  | CSome true count, AppendDigit d =>
      Ok (Update (CSome true (Z.lor (as_usize (Z.shiftl count 4)) d)))
  | CSome true count, RemoveLast =>
      if 16 <=? count then Ok (Update (CSome true (Z.shiftr count 4))) else Ok (Update CNone)
  | CSome false count, RemoveLast =>
      if 10 <=? count then Ok (Update (CSome false (count / 10))) else Ok (Update CNone)
  | CSome _ _, CancelEntry => Ok (Update CNone)
  | CSome hex count, SwitchHexEntry => Ok (Update (CSome (negb hex) count))
  end.

Definition transition (self : State) (event : Event) : outcome Transition :=
  match event_to_action default_maps event with
  | Some action => apply_action self action
  | None => Ok NotHandled
  end.

Definition to_count (self : State) : Z :=
  match self with CSome _ count => count | CNone => 1 end.

(** Typing several digits in a row; a digit that is not handled leaves the
    count prefix. *)
Fixpoint type_digits (s : State) (ds : list Z) : outcome (option State) :=
  match ds with
  | [] => Ok (Some s)
  | d :: ds' =>
      t ← apply_action s (AppendDigit d);
      match t with
      | Update s' => type_digits s' ds'
      | NotHandled => Ok None
      end
  end.

(** ** Theorems *)

Definition state_ok (s : State) : Prop :=
  match s with CNone => True | CSome _ c => is_usize c end.

(** The number that digits spell in a base, after the number [n]. *)
Definition spell (base n : Z) (ds : list Z) : Z := foldl (λ acc d, acc * base + d) n ds.

Lemma spell_mono base n ds : 1 ≤ base → 0 ≤ n → Forall (λ d, 0 ≤ d) ds → n ≤ spell base n ds.
Proof.
  revert n. induction ds as [|d ds IH]; intros n Hb Hn Hf; cbn [spell foldl]; [lia|].
  apply Forall_cons in Hf as [Hd Hf]. specialize (IH (n * base + d) Hb ltac:(nia) Hf).
  unfold spell in IH. nia.
Qed.

Lemma type_decimal n ds : 0 ≤ n → Forall (λ d, 0 ≤ d ≤ 9) ds → spell 10 n ds ≤ usize_max →
  type_digits (CSome false n) ds = Ok (Some (CSome false (spell 10 n ds))).
Proof.
  revert n. induction ds as [|d ds IH]; intros n Hn Hf Hs; [done|].
  apply Forall_cons in Hf as [Hd Hf]. cbn [type_digits apply_action].
  pose proof (spell_mono 10 (n * 10 + d) ds ltac:(lia) ltac:(lia)
    (Forall_impl _ _ _ Hf (λ x H, proj1 H))) as Hle.
  change (spell 10 n (d :: ds)) with (spell 10 (n * 10 + d) ds) in *.
  rewrite (proj2 (Z.ltb_ge 9 d)) by lia.
  rewrite umul_ok by (unfold_usize; lia). cbn [mbind outcome_bind].
  rewrite uadd_ok by (unfold_usize; lia). cbn [mbind outcome_bind]. apply IH; [lia|done|done].
Qed.

Lemma hex_append n d : 0 ≤ n → 0 ≤ d < 16 → n * 16 + d ≤ usize_max →
  Z.lor (as_usize (Z.shiftl n 4)) d = n * 16 + d.
Proof.
  intros Hn Hd Hm. rewrite Z.shiftl_mul_pow2 by lia. change (2 ^ 4) with 16.
  rewrite as_usize_small by (unfold_usize; lia).
  assert (Z.land (n * 16) d = 0) as Hz.
  { apply Z.bits_inj'. intros i Hi. rewrite Z.land_spec, Z.bits_0.
    destruct (Z.lt_ge_cases i 4).
    - change 16 with (2 ^ 4). by rewrite Z.mul_pow2_bits_low.
    - rewrite (Z.bits_above_log2 d), andb_false_r; [done|lia|].
      destruct (Z.eq_dec d 0) as [->|]; [simpl; lia|].
      apply Z.log2_lt_pow2; [lia|]. apply Z.lt_le_trans with (2 ^ 4); [lia|].
      apply Z.pow_le_mono_r; lia. }
  by rewrite <-Z.lxor_lor, <-Z.add_nocarry_lxor.
Qed.

Lemma type_hex n ds : 0 ≤ n → Forall (λ d, 0 ≤ d ≤ 15) ds → spell 16 n ds ≤ usize_max →
  type_digits (CSome true n) ds = Ok (Some (CSome true (spell 16 n ds))).
Proof.
  revert n. induction ds as [|d ds IH]; intros n Hn Hf Hs; [done|].
  apply Forall_cons in Hf as [Hd Hf]. cbn [type_digits apply_action mbind outcome_bind].
  pose proof (spell_mono 16 (n * 16 + d) ds ltac:(lia) ltac:(lia)
    (Forall_impl _ _ _ Hf (λ x H, proj1 H))) as Hle.
  change (spell 16 n (d :: ds)) with (spell 16 (n * 16 + d) ds) in *.
  rewrite hex_append by lia. apply IH; [lia|done|done].
Qed.

(** C35: the digits typed before a command spell its count: decimal digits
    in base ten, digits after an x in base sixteen, whenever the number fits a
    machine integer. *)
Theorem typed_count_spelled d ds :
  0 ≤ d → (Forall (λ d, 0 ≤ d ≤ 9) (d :: ds) → spell 10 0 (d :: ds) ≤ usize_max →
     type_digits CNone (d :: ds) = Ok (Some (CSome false (spell 10 0 (d :: ds))))) ∧
  (Forall (λ d, 0 ≤ d ≤ 15) (d :: ds) → spell 16 0 (d :: ds) ≤ usize_max →
     apply_action CNone SwitchHexEntry = Ok (Update (CSome true 0)) ∧
     type_digits (CSome true 0) (d :: ds) = Ok (Some (CSome true (spell 16 0 (d :: ds))))).
Proof.
  intros Hd. split; intros Hf Hs; [|split; [done|by apply type_hex]].
  apply Forall_cons in Hf as [H9 Hf]. cbn [type_digits apply_action].
  rewrite (proj2 (Z.ltb_ge 9 d)) by lia. cbn [mbind outcome_bind].
  change (spell 10 0 (d :: ds)) with (spell 10 (0 * 10 + d) ds) in *. by apply type_decimal.
Qed.

(** backspace takes back exactly the digit that was typed last, in both
    bases, as long as the number is not zero and the longer number fits. *)
Theorem remove_last_undoes_digit (hex : bool) n d :
  let base := if hex then 16 else 10 in
  0 < n → 0 ≤ d < base → n * base + d ≤ usize_max →
  ∃ s, apply_action (CSome hex n) (AppendDigit d) = Ok (Update s) ∧ state_ok s ∧
    apply_action s RemoveLast = Ok (Update (CSome hex n)).
Proof.
  intros base Hn Hd Hm. exists (CSome hex (n * base + d)). destruct hex; unfold base in *;
    cbn [apply_action state_ok].
  - rewrite hex_append by lia. split; [done|]. split; [unfold_usize; lia|].
    rewrite (proj2 (Z.leb_le _ _)), Z.shiftr_div_pow2 by lia. change (2 ^ 4) with 16.
    rewrite Z.div_add_l, (Z.div_small d) by lia. do 3 f_equal. lia.
  - rewrite (proj2 (Z.ltb_ge 9 d)), umul_ok by (unfold_usize; lia). cbn [mbind outcome_bind].
    rewrite uadd_ok by (unfold_usize; lia). split; [done|]. split; [unfold_usize; lia|].
    rewrite (proj2 (Z.leb_le _ _)) by lia. rewrite Z.div_add_l, (Z.div_small d) by lia.
    do 3 f_equal. lia.
Qed.

(** one decimal digit too many overflows the count: with overflow checks
    the editor panics, without them the count wraps around; a hexadecimal
    digit too many silently drops the highest digit instead. *)
Theorem count_overflow n d :
  0 ≤ n ≤ usize_max → 0 ≤ d ≤ 9 →
  (usize_max < n * 10 →
    apply_action (CSome false n) (AppendDigit d) =
      if overflow_checks then Panic PanicOverflow
      else m ← Ok ((n * 10) `mod` two64); c ← uadd m d; Ok (Update (CSome false c))) ∧
  apply_action (CSome true n) (AppendDigit d) =
    Ok (Update (CSome true ((n `mod` (two64 / 16)) * 16 + d))).
Proof.
  intros Hn Hd. split.
  - intros Ho. cbn [apply_action]. rewrite (proj2 (Z.ltb_ge 9 d)) by lia.
    unfold umul, uwrap at 1. rewrite (proj2 (Z.leb_gt (n * 10) usize_max)), andb_false_r by lia.
    by destruct overflow_checks.
  - cbn [apply_action]. do 3 f_equal.
    assert (as_usize (Z.shiftl n 4) = as_usize (Z.shiftl (n mod (two64 / 16)) 4)) as ->.
    { rewrite !Z.shiftl_mul_pow2 by lia. change (2 ^ 4) with 16. unfold as_usize.
      change two64 with (two64 / 16 * 16) at 1 3. rewrite !Z.mul_mod_distr_r by (unfold two64; done).
      by rewrite Z.mod_mod by done. }
    pose proof (Z.mod_pos_bound n (two64 / 16) ltac:(done)).
    apply hex_append; [lia|lia|]. unfold_usize. change (18446744073709551616 / 16) with 1152921504606846976 in *. lia.
Qed.

End cmd_count.

(** ** The theorems at concrete digits *)

Lemma typed_count_spelled_witness :
  @type_digits true CNone [4; 2; 0] = Ok (Some (CSome false 420)) ∧
  @type_digits true (CSome true 0) [4; 2; 0] = Ok (Some (CSome true 1056)).
Proof.
  destruct (@typed_count_spelled true 4 [2; 0] ltac:(lia)) as [Hd Hh]. split.
  - apply Hd; [repeat constructor; lia|vm_compute; done].
  - apply Hh; [repeat constructor; lia|vm_compute; done].
Defined.

Lemma remove_last_undoes_digit_witness :
  ∃ s, @apply_action false (CSome true 171) (AppendDigit 12) = Ok (Update s) ∧ state_ok s ∧
    @apply_action false s RemoveLast = Ok (Update (CSome true 171)).
Proof. apply (@remove_last_undoes_digit false true 171 12); vm_compute; done. Defined.

Lemma count_overflow_witness :
  @apply_action true (CSome false 1844674407370955162) (AppendDigit 0) = Panic PanicOverflow ∧
  @apply_action true (CSome true 1152921504606846977) (AppendDigit 5) = Ok (Update (CSome true 21)).
Proof.
  split.
  - apply (@count_overflow true 1844674407370955162 0); vm_compute; done.
  - apply (@count_overflow true 1152921504606846977 5); vm_compute; done.
Defined.

Example transition_sample :
  @transition true (CSome true 1) (key_char "f") = Ok (Update (CSome true 31)) ∧
  @transition true (CSome false 1) (key_char "f") = Ok NotHandled ∧
  @transition true CNone (key_char "7") = Ok (Update (CSome false 7)).
Proof. vm_compute. done. Qed.
