(* ===== verification/Masks.v ===== *)
(** * Masks: the element-wise algebra behind subsets of a string

    A subset of a string of length [n] is a list of [n] booleans, [true] for a
    member.  The operations below are the element-wise readings of the subset
    operations that [src/src/history.rs] calls; the lemmas are the facts about
    deleting one subset after another on which undo and redo rest. *)

From S2P Require Import Prelude.

(** Delete the members of the subset from a list. *)
Fixpoint mdel {A} (m : list bool) (l : list A) : list A :=
  match m, l with
  | b :: m', x :: l' => if b then mdel m' l' else x :: mdel m' l'
  | _, _ => []
  end.

Definition mcompl (m : list bool) : list bool := negb <$> m.

Definition munion (a b : list bool) : list bool := zip_with orb a b.

(** Carry the subset [a] of the string without [b] over to the whole string. *)
Fixpoint mexpand (a b : list bool) : list bool :=
  match b with
  | [] => []
  | true :: b' => false :: mexpand a b'
  | false :: b' => match a with
                   | [] => false :: mexpand [] b'
                   | x :: a' => x :: mexpand a' b'
                   end
  end.

(** Restrict the subset [a] of a string to the string without [b]. *)
Definition mshrink (a b : list bool) : list bool := mdel b a.

(** Number of elements that are not members. *)
Definition mcount (m : list bool) : nat := length (mdel m m).

Definition mempty (m : list bool) : bool := forallb negb m.

(** ** Lengths *)

Lemma length_mexpand a b : length (mexpand a b) = length b.
Proof.
  revert a. induction b as [|[] b IH]; intros a; simpl; [done|by rewrite IH|].
  destruct a; simpl; by rewrite IH.
Qed.

Lemma length_mcompl m : length (mcompl m) = length m.
Proof. apply length_fmap. Qed.

Lemma length_munion a b : length (munion a b) = Nat.min (length a) (length b).
Proof. apply length_zip_with. Qed.

Lemma length_mdel {A} m (l : list A) : length m = length l → length (mdel m l) = mcount m.
Proof.
  unfold mcount. revert l. induction m as [|[] m IH]; intros [|x l] Hl; simplify_eq/=; [done|..].
  - by rewrite (IH l) by done.
  - by rewrite (IH l) by done.
Qed.

Lemma length_mshrink a b : length a = length b → length (mshrink a b) = mcount b.
Proof. intros. by apply length_mdel. Qed.

Lemma mcount_le m : (mcount m ≤ length m)%nat.
Proof.
  assert (∀ l : list bool, (length (mdel m l) ≤ length m)%nat) as H; [|apply H].
  induction m as [|[] m IH]; intros [|x l]; simpl; try lia; specialize (IH l); lia.
Qed.

Create Rewrite HintDb masks.
#[export] Hint Rewrite length_mexpand length_mcompl length_munion : masks.

(** ** Deletions compose *)

Section laws.
Context {A : Type}.
Implicit Types (l : list A) (a b : list bool).

(** Induction over a mask, a list of the same length and a mask of the
    elements that remain. *)
Local Ltac mask_ind b l :=
  revert l; induction b as [|[] b IH]; intros [|x l] ?; simplify_eq/=.

Lemma mdel_empty m l : length m = length l → mempty m = true → mdel m l = l.
Proof.
  revert l. induction m as [|[] m IH]; intros [|x l] Hl He; simplify_eq/=; [done|].
  f_equal. by apply IH.
Qed.

(** Deleting a union is deleting one part and then what is left of the other. *)
Lemma mdel_munion a b l : length a = length l → length b = length l →
  mdel (munion a b) l = mdel (mshrink b a) (mdel a l).
Proof.
  revert b l. induction a as [|x a IH]; intros [|y b] [|z l] Ha Hb; simplify_eq/=; [done|].
  unfold mshrink, munion in *. simpl. destruct x, y; simpl; rewrite IH by done; done.
Qed.

Lemma munion_comm a b : munion a b = munion b a.
Proof.
  unfold munion. revert b. induction a as [|x a IH]; intros [|y b]; simpl; try done.
  by rewrite IH, orb_comm.
Qed.

(** The part of an expanded subset that survives the deletion is the subset
    itself. *)
Lemma mshrink_mexpand a b : length a = mcount b → mshrink (mexpand a b) b = a.
Proof.
  unfold mshrink, mcount. revert a. induction b as [|[] b IH]; intros a Ha; simpl in *.
  - by destruct a.
  - rewrite <-(IH a) at 2; [done|].
    rewrite Ha. rewrite !length_mdel; done.
  - destruct a as [|x a]; simpl in *; [done|]. f_equal. apply IH.
    injection Ha as ->. rewrite !length_mdel; done.
Qed.

(** Deleting [b] and then [a] is deleting the expansion of [a] and [b]. *)
Lemma mdel_expand_union a b l : length b = length l → length a = mcount b →
  mdel (munion (mexpand a b) b) l = mdel a (mdel b l).
Proof.
  intros Hb Ha. rewrite munion_comm, mdel_munion; [|done|by rewrite length_mexpand].
  by rewrite mshrink_mexpand.
Qed.

(** What the expansion of [a] selects from the whole string is what [a]
    selects from the string without [b]. *)
Lemma mdel_compl_expand a b l : length b = length l → length a = mcount b →
  mdel (mcompl (mexpand a b)) l = mdel (mcompl a) (mdel b l).
Proof.
  revert a l. unfold mcount. induction b as [|[] b IH]; intros a [|x l] Hb Ha; simplify_eq/=.
  - by destruct a.
  - apply IH; [done|]. rewrite Ha, !length_mdel; done.
  - destruct a as [|y a]; simplify_eq/=.
    rewrite IH; [by destruct y|done|]. rewrite !length_mdel in *; done.
Qed.

(** Selecting a subset that avoids [b] is unaffected by deleting [b]. *)
Lemma mdel_compl_disjoint a b l : length a = length l → length b = length l →
  zip_with andb a b = replicate (length l) false →
  mdel (mcompl a) l = mdel (mcompl (mshrink a b)) (mdel b l).
Proof.
  unfold mshrink, mcompl. revert b l.
  induction a as [|x a IH]; intros [|y b] [|z l] Ha Hb Hd; simplify_eq/=; [done|].
  destruct x, y; simplify_eq/=; rewrite (IH b) by done; done.
Qed.

End laws.

(** ** Mask-level laws of expansion *)

Lemma mshrink_munion a b c : length a = length b →
  mshrink (munion a b) c = munion (mshrink a c) (mshrink b c).
Proof.
  unfold mshrink, munion. revert b c.
  induction a as [|x a IH]; intros [|y b] [|[] c] Ha; simplify_eq/=; try done.
  - by apply IH.
  - f_equal. by apply IH.
Qed.

(** An expansion avoids what it is expanded over. *)
Lemma mexpand_disjoint a b : zip_with andb (mexpand a b) b = replicate (length b) false.
Proof.
  revert a. induction b as [|[] b IH]; intros a; simpl; [done|by rewrite IH|].
  destruct a; simpl; rewrite IH; f_equal; by rewrite ?andb_false_r.
Qed.

(** Expanding disjoint subsets keeps them disjoint. *)
Lemma mexpand_disjoint_both a a' b : zip_with andb a a' = replicate (length a) false →
  length a = length a' → length a = mcount b →
  zip_with andb (mexpand a b) (mexpand a' b) = replicate (length b) false.
Proof.
  unfold mcount. revert a a'.
  induction b as [|[] b IH]; intros a a' Hd Hl Hc; simplify_eq/=; [done|..].
  - f_equal. apply IH; [done..|]. rewrite Hc, !length_mdel; done.
  - destruct a as [|x a], a' as [|y a']; simplify_eq/=.
    f_equal; [done|by apply IH].
Qed.

(** Shrinking commutes with expanding both sets by a third one. *)
Lemma mshrink_mexpand_both a d n : length a = length d → length d = mcount n →
  mshrink (mexpand a n) (mexpand d n) = mexpand (mshrink a d) (mshrink n (mexpand d n)).
Proof.
  unfold mshrink, mcount. revert a d. induction n as [|[] n IH]; intros a d Ha Hd; simpl in *.
  - done.
  - by rewrite (IH a d).
  - destruct d as [|y d], a as [|x a]; simplify_eq/=.
    destruct y; simpl; by rewrite (IH a d).
Qed.

Lemma mexpand_empty a b : length a = length b → mempty b = true → mexpand a b = a.
Proof.
  revert a. induction b as [|[] b IH]; intros [|x a] Hl He; simplify_eq/=; [done|].
  f_equal. by apply IH.
Qed.

Lemma zip_with_andb_orb (a b c : list bool) : length a = length b → length b = length c →
  zip_with andb a c = replicate (length c) false →
  zip_with andb b c = replicate (length c) false →
  zip_with andb (munion a b) c = replicate (length c) false.
Proof.
  unfold munion. revert b c. induction a as [|x a IH]; intros [|y b] [|z c] Hab Hbc Ha Hb;
    simpl in *; [done|lia..|]. injection Hab as Hab. injection Hbc as Hbc.
  injection Ha as Hx Ha. injection Hb as Hy Hb. rewrite IH by done. by destruct x, y, z.
Qed.

Lemma zip_with_andb_comm (a b : list bool) : zip_with andb a b = zip_with andb b a.
Proof. revert b. induction a as [|x a IH]; intros [|y b]; simpl; [done..|]. by rewrite IH, andb_comm. Qed.

(** The masks of two edits in a row.  [I1] and [D1] are the insertions and
    deletions of the first edit in the string [u1] with its insertions; [N]
    are the insertions of the second edit in the string [U] with both; [P] is
    what [U] is after the deletions of the first edit. *)
Lemma chain_mask_algebra {A} (I1 D1 N I2 del2 : list bool) (U u1 P : list A) :
  length I1 = length u1 → length D1 = length u1 →
  zip_with andb I1 D1 = replicate (length u1) false →
  length N = length U → mdel N U = u1 →
  mdel (mexpand D1 N) U = P → mshrink N (mexpand D1 N) = I2 →
  length del2 = mcount D1 →
  mdel (munion (mexpand I1 N) N) U = mdel I1 u1 ∧
  mdel (munion (mexpand D1 N) (mexpand (mexpand del2 D1) N)) U = mdel (mexpand del2 I2) P ∧
  mdel (mcompl (munion (mexpand (mshrink I1 D1) I2) I2)) P =
    mdel (mcompl (munion (mexpand I1 N) N)) U.
Proof.
  intros HI1 HD1 Hdis HN Hu1 HP HI2 Hdel2.
  assert (length u1 = mcount N) as Hc by (rewrite <-Hu1; by apply length_mdel).
  assert (length (mexpand D1 N) = length U) as HlD by by rewrite length_mexpand.
  split; [|split].
  - rewrite mdel_expand_union by congruence. by rewrite Hu1.
  - rewrite mdel_munion by (rewrite ?length_mexpand; done). rewrite HP.
    rewrite mshrink_mexpand_both by (rewrite ?length_mexpand; congruence).
    by rewrite HI2, mshrink_mexpand.
  - rewrite (mdel_compl_disjoint (munion (mexpand I1 N) N) (mexpand D1 N) U), HP.
    + rewrite mshrink_munion by by rewrite length_mexpand.
      rewrite mshrink_mexpand_both by congruence. by rewrite HI2.
    + rewrite length_munion, length_mexpand. lia.
    + done.
    + rewrite <-HlD. apply zip_with_andb_orb; rewrite ?length_mexpand; [done..| |].
      * apply mexpand_disjoint_both; congruence.
      * rewrite zip_with_andb_comm. apply mexpand_disjoint.
Qed.
