(* ===== verification/XiRope.v ===== *)
(** * XiRope: the interface of the rope library the editor calls

    The editor keeps its document in a rope of the [xi-rope] crate and edits
    it through that crate's deltas, subsets and transformers.  The crate is
    not part of the repository, so it is a parameter of the development: the
    class [XiRope] lists the types and operations the sources under
    [src/src/] use, and the class [XiRopeLaws] states what the crate documents
    about them.  [XiRopeRef] builds one instance and discharges every law. *)

From S2P Require Import Prelude Masks.

(** [xi_rope::Interval], a half-open interval; the sources build and
    destructure it by its two fields. *)
Record Interval := mkInterval { iv_start : Z; iv_end : Z }.

#[export] Instance Interval_eq_dec : EqDecision Interval.
Proof. solve_decision. Defined.

(** ** What a list of edits does to a string

    A delta builder records edits: replace the interval [s, e) by some bytes.
    [splice] is the document they describe and [edits_pos] where a coordinate
    of the old document goes. *)

Record edit := mkEdit { ed_start : Z; ed_end : Z; ed_text : bytes }.

Fixpoint edits_sorted (pos : Z) (es : list edit) : Prop :=
  match es with
  | [] => True
  | ed :: es' => pos ≤ ed_start ed ≤ ed_end ed ∧ edits_sorted (ed_end ed) es'
  end.

(** Where the next edit may start. *)
Definition edits_end (es : list edit) : Z :=
  match last es with Some ed => ed_end ed | None => 0 end.

Fixpoint splice (pos : Z) (es : list edit) (l : bytes) : bytes :=
  match es with
  | [] => zdrop pos l
  | ed :: es' => zslice pos (ed_start ed) l ++ ed_text ed ++ splice (ed_end ed) es' l
  end.

(** The new coordinate of [p] in the "after" reading: a coordinate of a copied
    section keeps its place in it, any other one goes to the start of the
    first copied section that follows. [pos] is the end of the previous edit
    and [out] the length of the output so far. *)
Fixpoint edits_pos (pos out : Z) (es : list edit) (p : Z) : Z :=
  match es with
  | [] => out + Z.max 0 (p - pos)
  | ed :: es' =>
      if (p <? ed_start ed) && (pos <? ed_start ed) then out + Z.max 0 (p - pos)
      else edits_pos (ed_end ed) (out + (ed_start ed - pos) + zlen (ed_text ed)) es' p
  end.

(** ** Operations *)

Class XiRope := {
  (* tree::Node, tree::TreeBuilder *)
  Node : Type;
  node_leaves : Node → list bytes;
  node_len : Node → Z;
  TreeBuilder : Type;
  tb_bytes : TreeBuilder → bytes;
  tb_new : TreeBuilder;
  tb_push_leaf : TreeBuilder → bytes → TreeBuilder;
  tb_build : TreeBuilder → Node;

  (* tree::Cursor *)
  Cursor : Type;
  cursor_focus : Cursor → option (list bytes * bytes * list bytes);
  cursor_new : Node → Z → Cursor;
  cursor_pos : Cursor → Z;
  cursor_get_leaf : Cursor → option (bytes * Z);
  cursor_next_leaf : Cursor → Cursor;

  (* interval::Interval *)
  iv_new : Z → Z → Interval;
  iv_from_inclusive : Z → Z → Interval;
  iv_is_empty : Interval → bool;
  iv_contains : Interval → Z → bool;
  iv_union : Interval → Interval → Interval;
  iv_intersect : Interval → Interval → Interval;

  (* multiset::Subset *)
  Subset : Type;
  sub_mask : Subset → list bool;
  sub_complement : Subset → Subset;
  sub_union : Subset → Subset → Subset;
  sub_transform_expand : Subset → Subset → Subset;
  sub_transform_shrink : Subset → Subset → Subset;
  sub_transform_union : Subset → Subset → Subset;
  sub_is_empty : Subset → bool;
  sub_delete_from : Subset → Node → Node;

  (* delta::Delta, delta::InsertDelta *)
  Delta : Type;
  InsertDelta : Type;
  delta_base_len : Delta → Z;
  delta_apply : Delta → Node → Node;
  delta_new_document_len : Delta → Z;
  delta_factor : Delta → InsertDelta * Subset;
  delta_synthesize : Node → Subset → Subset → Delta;
  delta_simple_edit : Interval → Node → Z → Delta;
  ins_delta : InsertDelta → Delta;
  ins_inserted_subset : InsertDelta → Subset;
  ins_transform_expand : InsertDelta → Subset → bool → InsertDelta;

  (* delta::Builder *)
  DeltaBuilder : Type;
  db_base_len : DeltaBuilder → Z;
  db_edits : DeltaBuilder → list edit;
  db_new : Z → DeltaBuilder;
  db_delete : DeltaBuilder → Interval → outcome DeltaBuilder;
  db_replace : DeltaBuilder → Interval → Node → outcome DeltaBuilder;
  db_build : DeltaBuilder → Delta;

  (* delta::Transformer *)
  Transformer : Type;
  tf_delta : Transformer → Delta;
  tf_new : Delta → Transformer;
  tf_transform : Transformer → Z → bool → Z * Transformer;
}.

(** The bytes a node holds: its leaves in order. *)
Definition node_bytes `{XiRope} (n : Node) : bytes := concat (node_leaves n).

(** ** Laws: what the crate documents *)

Class XiRopeLaws `{XiRope} : Prop := {
  node_len_bytes n : node_len n = zlen (node_bytes n);
  tb_new_bytes : tb_bytes tb_new = [];
  tb_push_leaf_bytes b l : tb_bytes (tb_push_leaf b l) = tb_bytes b ++ l;
  tb_build_bytes b : node_bytes (tb_build b) = tb_bytes b;

  (* A cursor stands in a leaf, or past the last one. *)
  cursor_new_focus n p : 0 ≤ p ≤ node_len n →
    cursor_pos (cursor_new n p) = p ∧
    ∃ pre leaf post, cursor_focus (cursor_new n p) = Some (pre, leaf, post) ∧
      node_leaves n = pre ++ leaf :: post ∧
      zlen (concat pre) ≤ p ∧
      (p < zlen (concat pre) + zlen leaf ∨
       (post = [] ∧ p = zlen (concat pre) + zlen leaf));
  cursor_get_leaf_some c pre leaf post :
    cursor_focus c = Some (pre, leaf, post) →
    cursor_get_leaf c = Some (leaf, cursor_pos c - zlen (concat pre));
  cursor_get_leaf_none c : cursor_focus c = None → cursor_get_leaf c = None;
  cursor_next_leaf_last c pre leaf :
    cursor_focus c = Some (pre, leaf, []) →
    cursor_focus (cursor_next_leaf c) = None ∧
    cursor_pos (cursor_next_leaf c) = zlen (concat pre) + zlen leaf;
  cursor_next_leaf_more c pre leaf leaf' post :
    cursor_focus c = Some (pre, leaf, leaf' :: post) →
    cursor_focus (cursor_next_leaf c) = Some (pre ++ [leaf], leaf', post) ∧
    cursor_pos (cursor_next_leaf c) = zlen (concat pre) + zlen leaf;

  iv_new_spec s e : s ≤ e → iv_new s e = mkInterval s e;
  iv_from_inclusive_spec s e : s ≤ e → e < usize_max →
    iv_from_inclusive s e = mkInterval s (e + 1);
  iv_is_empty_spec i : iv_is_empty i = (iv_end i <=? iv_start i);
  iv_contains_spec i p : iv_contains i p = (iv_start i <=? p) && (p <? iv_end i);
  iv_union_spec i j : iv_start i < iv_end i → iv_start j < iv_end j →
    iv_union i j = mkInterval (Z.min (iv_start i) (iv_start j))
                              (Z.max (iv_end i) (iv_end j));
  iv_intersect_spec i j p :
    (iv_start (iv_intersect i j) ≤ p < iv_end (iv_intersect i j)) ↔
    (iv_start i ≤ p < iv_end i ∧ iv_start j ≤ p < iv_end j);

  sub_complement_mask s : sub_mask (sub_complement s) = mcompl (sub_mask s);
  sub_union_mask s t : length (sub_mask s) = length (sub_mask t) →
    sub_mask (sub_union s t) = munion (sub_mask s) (sub_mask t);
  sub_expand_mask s t : length (sub_mask s) = mcount (sub_mask t) →
    sub_mask (sub_transform_expand s t) = mexpand (sub_mask s) (sub_mask t);
  sub_shrink_mask s t : length (sub_mask s) = length (sub_mask t) →
    sub_mask (sub_transform_shrink s t) = mshrink (sub_mask s) (sub_mask t);
  sub_transform_union_mask s t : length (sub_mask s) = mcount (sub_mask t) →
    sub_mask (sub_transform_union s t) =
      munion (mexpand (sub_mask s) (sub_mask t)) (sub_mask t);
  sub_is_empty_mask s : sub_is_empty s = mempty (sub_mask s);
  sub_delete_from_bytes s n : length (sub_mask s) = length (node_bytes n) →
    node_bytes (sub_delete_from s n) = mdel (sub_mask s) (node_bytes n);

  delta_new_document_len_spec d n : node_len n = delta_base_len d →
    node_len (delta_apply d n) = delta_new_document_len d;
  delta_apply_bytes d n m : node_bytes n = node_bytes m →
    node_bytes (delta_apply d n) = node_bytes (delta_apply d m);

  (* Applying the insertions and then the deletions is applying the delta. *)
  delta_factor_len d i del : delta_factor d = (i, del) →
    delta_base_len (ins_delta i) = delta_base_len d ∧
    zlen (sub_mask del) = delta_base_len d;
  delta_factor_apply d i del n : delta_factor d = (i, del) →
    node_len n = delta_base_len d →
    node_bytes (delta_apply d n) =
      mdel (mexpand (sub_mask del) (sub_mask (ins_inserted_subset i)))
           (node_bytes (delta_apply (ins_delta i) n));

  (* Deleting the inserted ranges undoes an insert-only delta. *)
  ins_inserted_len i n : node_len n = delta_base_len (ins_delta i) →
    zlen (sub_mask (ins_inserted_subset i)) = node_len (delta_apply (ins_delta i) n);
  ins_inserted_delete i n : node_len n = delta_base_len (ins_delta i) →
    mdel (sub_mask (ins_inserted_subset i)) (node_bytes (delta_apply (ins_delta i) n))
      = node_bytes n;

  (* An insert-only delta moved to a longer string, its insertions after what
     the longer string has in addition, commutes with deleting that. *)
  ins_expand_len i x : delta_base_len (ins_delta i) = Z.of_nat (mcount (sub_mask x)) →
    delta_base_len (ins_delta (ins_transform_expand i x true)) = zlen (sub_mask x);
  ins_expand_apply i x n m :
    delta_base_len (ins_delta i) = Z.of_nat (mcount (sub_mask x)) →
    length (node_bytes n) = length (sub_mask x) →
    node_bytes m = mdel (sub_mask x) (node_bytes n) →
    mdel (mexpand (sub_mask x)
                  (sub_mask (ins_inserted_subset (ins_transform_expand i x true))))
         (node_bytes (delta_apply (ins_delta (ins_transform_expand i x true)) n))
      = node_bytes (delta_apply (ins_delta i) m);
  ins_expand_inserted i x :
    delta_base_len (ins_delta i) = Z.of_nat (mcount (sub_mask x)) →
    mshrink (sub_mask (ins_inserted_subset (ins_transform_expand i x true)))
            (mexpand (sub_mask x)
                     (sub_mask (ins_inserted_subset (ins_transform_expand i x true))))
      = sub_mask (ins_inserted_subset i);

  (* [synthesize] goes from the union string without [from] to the union
     string without [to]; the tombstones are what [from] deleted. *)
  delta_synthesize_len tomb from to u :
    length (sub_mask from) = length u → length (sub_mask to) = length u →
    node_bytes tomb = mdel (mcompl (sub_mask from)) u →
    delta_base_len (delta_synthesize tomb from to) = zlen (mdel (sub_mask from) u);
  delta_synthesize_apply tomb from to u n :
    length (sub_mask from) = length u → length (sub_mask to) = length u →
    node_bytes tomb = mdel (mcompl (sub_mask from)) u →
    node_bytes n = mdel (sub_mask from) u →
    node_bytes (delta_apply (delta_synthesize tomb from to) n) = mdel (sub_mask to) u;

  delta_simple_edit_len iv r n : 0 ≤ iv_start iv ≤ iv_end iv → iv_end iv ≤ n →
    delta_base_len (delta_simple_edit iv r n) = n;
  delta_simple_edit_apply iv r n m : 0 ≤ iv_start iv ≤ iv_end iv → iv_end iv ≤ n →
    node_len m = n →
    node_bytes (delta_apply (delta_simple_edit iv r n) m) =
      splice 0 [mkEdit (iv_start iv) (iv_end iv) (node_bytes r)] (node_bytes m);

  (* A builder panics on intervals that are not properly sorted. *)
  db_new_spec n : db_base_len (db_new n) = n ∧ db_edits (db_new n) = [];
  db_replace_ok b iv r : edits_end (db_edits b) ≤ iv_start iv ≤ iv_end iv →
    ∃ b', db_replace b iv r = Ok b' ∧ db_base_len b' = db_base_len b ∧
      db_edits b' = db_edits b ++ [mkEdit (iv_start iv) (iv_end iv) (node_bytes r)];
  db_replace_unsorted b iv r : iv_start iv < edits_end (db_edits b) →
    db_replace b iv r = Panic PanicAssert;
  db_delete_ok b iv : edits_end (db_edits b) ≤ iv_start iv ≤ iv_end iv →
    ∃ b', db_delete b iv = Ok b' ∧ db_base_len b' = db_base_len b ∧
      db_edits b' = db_edits b ++ [mkEdit (iv_start iv) (iv_end iv) []];
  db_delete_unsorted b iv : iv_start iv < edits_end (db_edits b) →
    db_delete b iv = Panic PanicAssert;
  db_build_len b : edits_sorted 0 (db_edits b) →
    Forall (λ ed, ed_start ed ≤ db_base_len b) (db_edits b) → 0 ≤ db_base_len b →
    delta_base_len (db_build b) = db_base_len b;
  db_build_apply b n : edits_sorted 0 (db_edits b) →
    Forall (λ ed, ed_start ed ≤ db_base_len b) (db_edits b) →
    node_len n = db_base_len b →
    node_bytes (delta_apply (db_build b) n) = splice 0 (db_edits b) (node_bytes n);

  tf_new_delta d : tf_delta (tf_new d) = d;
  tf_transform_delta t p after : tf_delta (tf_transform t p after).2 = tf_delta t;
  tf_transform_build t b p : tf_delta t = db_build b →
    edits_sorted 0 (db_edits b) →
    Forall (λ ed, ed_start ed ≤ db_base_len b) (db_edits b) →
    0 ≤ p ≤ db_base_len b →
    (tf_transform t p true).1 = edits_pos 0 0 (db_edits b) p;
}.
