(* ===== verification/XiRopeRef.v ===== *)
(** * XiRopeRef: an instance of the rope interface

    The laws of [XiRope] are satisfiable: this file gives an executable
    instance, in which a delta is a script over single bytes, and proves every
    law of it.  The witnesses of the development evaluate the editor on this
    instance. *)

From S2P Require Import Prelude Masks XiRope.

(** ** Data *)

(** A node is a non-empty list of leaves. *)
Record rnode := mkRNode { rn_first : bytes; rn_rest : list bytes }.

Definition rn_leaves (n : rnode) : list bytes := rn_first n :: rn_rest n.
Definition rn_bytes (n : rnode) : bytes := concat (rn_leaves n).
Definition rn_of_bytes (l : bytes) : rnode := mkRNode l [].
Definition rn_of_leaves (ls : list bytes) : rnode :=
  match ls with [] => mkRNode [] [] | l :: ls' => mkRNode l ls' end.

Record rcursor := mkRCursor {
  rc_focus : option (list bytes * bytes * list bytes);
  rc_pos : Z;
}.

Fixpoint rc_find (pre : list bytes) (leaf : bytes) (post : list bytes) (off p : Z) :
    list bytes * bytes * list bytes :=
  match post with
  | [] => (pre, leaf, [])
  | leaf' :: post' =>
      if p <? off + zlen leaf then (pre, leaf, post)
      else rc_find (pre ++ [leaf]) leaf' post' (off + zlen leaf) p
  end.

Definition rc_new (n : rnode) (p : Z) : rcursor :=
  mkRCursor (Some (rc_find [] (rn_first n) (rn_rest n) 0 p)) p.

Definition rc_get_leaf (c : rcursor) : option (bytes * Z) :=
  match rc_focus c with
  | Some (pre, leaf, _) => Some (leaf, rc_pos c - zlen (concat pre))
  | None => None
  end.

Definition rc_next_leaf (c : rcursor) : rcursor :=
  match rc_focus c with
  | Some (pre, leaf, post) =>
      mkRCursor (match post with
                 | [] => None
                 | leaf' :: post' => Some (pre ++ [leaf], leaf', post')
                 end) (zlen (concat pre) + zlen leaf)
  | None => c
  end.

(** A delta: keep, delete or insert one byte at a time. *)
Inductive item := Keep | Del | Ins (b : Z).

Definition script := list item.

Fixpoint run (s : script) (l : bytes) : bytes :=
  match s with
  | [] => []
  | Keep :: s' => match l with x :: l' => x :: run s' l' | [] => run s' [] end
  | Del :: s' => run s' (tail l)
  | Ins b :: s' => b :: run s' l
  end.

Definition item_base (i : item) : nat := match i with Ins _ => 0 | _ => 1 end.
Definition item_out (i : item) : nat := match i with Del => 0 | _ => 1 end.
Definition script_base (s : script) : nat := sum_list_with item_base s.
Definition script_out (s : script) : nat := sum_list_with item_out s.

(** An insert-only delta: keep a byte ([None]) or insert one. *)
Definition iscript := list (option Z).

Definition iscript_item (o : option Z) : item :=
  match o with None => Keep | Some b => Ins b end.
Definition item_iscript (i : item) : option Z :=
  match i with Ins b => Some b | _ => None end.

Definition ins_mask (s : iscript) : list bool :=
  (λ o : option Z, match o with Some _ => true | None => false end) <$> s.

Fixpoint del_mask (s : script) : list bool :=
  match s with
  | [] => []
  | Keep :: s' => false :: del_mask s'
  | Del :: s' => true :: del_mask s'
  | Ins _ :: s' => del_mask s'
  end.

(** Insertions before the next kept byte, and the script after that byte. *)
Fixpoint lead (s : iscript) : iscript :=
  match s with Some b :: s' => Some b :: lead s' | _ => [] end.
Fixpoint after_keep (s : iscript) : iscript :=
  match s with Some _ :: s' => after_keep s' | None :: s' => s' | [] => [] end.

Fixpoint expand_script (s : iscript) (x : list bool) : iscript :=
  match x with
  | [] => lead s
  | true :: x' => None :: expand_script s x'
  | false :: x' => lead s ++ None :: expand_script (after_keep s) x'
  end.

Fixpoint synth (tomb : bytes) (from to : list bool) : script :=
  match from, to with
  | true :: from', t :: to' =>
      match tomb with
      | b :: tomb' => if t then synth tomb' from' to' else Ins b :: synth tomb' from' to'
      | [] => synth [] from' to'
      end
  | false :: from', t :: to' => (if t then Del else Keep) :: synth tomb from' to'
  | _, _ => []
  end.

(** The script of a list of edits of a string of length [n], from [pos] on. *)
Fixpoint edits_script (n pos : Z) (es : list edit) : script :=
  match es with
  | [] => replicate (Z.to_nat (n - pos)) Keep
  | ed :: es' =>
      replicate (Z.to_nat (ed_start ed - pos)) Keep ++ (Ins <$> ed_text ed) ++
      replicate (Z.to_nat (Z.min n (ed_end ed) - ed_start ed)) Del ++
      edits_script n (ed_end ed) es'
  end.

(** Where a coordinate goes: to the first kept byte at or after it. *)
Fixpoint script_pos (s : script) (p out : Z) : Z :=
  match s with
  | [] => out
  | Keep :: s' => if p <=? 0 then out else script_pos s' (p - 1) (out + 1)
  | Del :: s' => script_pos s' (p - 1) out
  | Ins _ :: s' => script_pos s' p (out + 1)
  end.

Record rbuilder := mkRBuilder { rb_len : Z; rb_edits : list edit }.

Definition script_apply (s : script) (n : rnode) : rnode :=
  rn_of_bytes (run s (rn_bytes n)).

Definition rb_add (b : rbuilder) (iv : Interval) (t : bytes) : outcome rbuilder :=
  if iv_start iv <? edits_end (rb_edits b) then Panic PanicAssert
  else Ok (mkRBuilder (rb_len b) (rb_edits b ++ [mkEdit (iv_start iv) (iv_end iv) t])).

#[export] Instance ref_rope : XiRope := {|
  Node := rnode;
  node_leaves := rn_leaves;
  node_len n := zlen (rn_bytes n);
  TreeBuilder := list bytes;
  tb_bytes ls := concat ls;
  tb_new := [];
  tb_push_leaf b l := b ++ [l];
  tb_build := rn_of_leaves;
  Cursor := rcursor;
  cursor_focus := rc_focus;
  cursor_new := rc_new;
  cursor_pos := rc_pos;
  cursor_get_leaf := rc_get_leaf;
  cursor_next_leaf := rc_next_leaf;
  iv_new := mkInterval;
  iv_from_inclusive s e := mkInterval s (e + 1);
  iv_is_empty i := iv_end i <=? iv_start i;
  iv_contains i p := (iv_start i <=? p) && (p <? iv_end i);
  iv_union i j := mkInterval (Z.min (iv_start i) (iv_start j)) (Z.max (iv_end i) (iv_end j));
  iv_intersect i j := mkInterval (Z.max (iv_start i) (iv_start j)) (Z.min (iv_end i) (iv_end j));
  Subset := list bool;
  sub_mask m := m;
  sub_complement := mcompl;
  sub_union := munion;
  sub_transform_expand := mexpand;
  sub_transform_shrink := mshrink;
  sub_transform_union s t := munion (mexpand s t) t;
  sub_is_empty := mempty;
  sub_delete_from m n := rn_of_bytes (mdel m (rn_bytes n));
  Delta := script;
  InsertDelta := iscript;
  delta_base_len s := Z.of_nat (script_base s);
  delta_apply := script_apply;
  delta_new_document_len s := Z.of_nat (script_out s);
  delta_factor s := (item_iscript <$> s, del_mask s);
  delta_synthesize tomb from to := synth (rn_bytes tomb) from to;
  delta_simple_edit iv r n := edits_script n 0 [mkEdit (iv_start iv) (iv_end iv) (rn_bytes r)];
  ins_delta s := iscript_item <$> s;
  ins_inserted_subset := ins_mask;
  ins_transform_expand s x _ := expand_script s x;
  DeltaBuilder := rbuilder;
  db_base_len := rb_len;
  db_edits := rb_edits;
  db_new n := mkRBuilder n [];
  db_delete b iv := rb_add b iv [];
  db_replace b iv r := rb_add b iv (rn_bytes r);
  db_build b := edits_script (rb_len b) 0 (rb_edits b);
  Transformer := script;
  tf_delta s := s;
  tf_new s := s;
  tf_transform s p _ := (script_pos s p 0, s);
|}.

(** ** Scripts *)

Lemma length_run s l : script_base s = length l → length (run s l) = script_out s.
Proof.
  unfold script_base, script_out. revert l.
  induction s as [|[| |b] s IH]; intros [|x l] Hl; simplify_eq/=; try done; by rewrite IH.
Qed.

Lemma run_app s1 s2 l : (script_base s1 ≤ length l)%nat →
  run (s1 ++ s2) l = run s1 (take (script_base s1) l) ++ run s2 (drop (script_base s1) l).
Proof.
  unfold script_base. revert l.
  induction s1 as [|[| |b] s1 IH]; intros l Hl; simpl in *; [done|..].
  - destruct l as [|x l]; simpl in *; [lia|]. rewrite IH by lia. done.
  - destruct l as [|x l]; simpl in *; [lia|]. rewrite IH by lia. done.
  - rewrite IH by lia. done.
Qed.

Lemma script_base_app s1 s2 : script_base (s1 ++ s2) = (script_base s1 + script_base s2)%nat.
Proof. apply sum_list_with_app. Qed.
Lemma script_base_keep n : script_base (replicate n Keep) = n.
Proof. unfold script_base. induction n; simpl; lia. Qed.
Lemma script_base_del n : script_base (replicate n Del) = n.
Proof. unfold script_base. induction n; simpl; lia. Qed.
Lemma script_base_ins t : script_base (Ins <$> t) = 0%nat.
Proof. unfold script_base. induction t; csimpl; auto. Qed.
Lemma run_keep l : run (replicate (length l) Keep) l = l.
Proof. induction l; simpl; congruence. Qed.
Lemma run_del n l : run (replicate n Del) l = [].
Proof. revert l. induction n; intros l; simpl; auto. Qed.
Lemma run_ins t l : run (Ins <$> t) l = t.
Proof. induction t; csimpl; congruence. Qed.

(** ** Factoring *)

Lemma script_base_ins_delta s :
  script_base (iscript_item <$> (item_iscript <$> s)) = script_base s.
Proof. unfold script_base. induction s as [|[] s IH]; csimpl; congruence. Qed.

Lemma length_del_mask s : length (del_mask s) = script_base s.
Proof. unfold script_base. induction s as [|[] s IH]; csimpl; congruence. Qed.

Lemma factor_run s l : script_base s = length l →
  run s l = mdel (mexpand (del_mask s) (ins_mask (item_iscript <$> s)))
                 (run (iscript_item <$> (item_iscript <$> s)) l).
Proof.
  unfold script_base. revert l.
  induction s as [|[| |b] s IH]; intros [|x l] Hl; simplify_eq/=; try done;
    f_equal; by apply IH.
Qed.

Lemma length_ins_mask s l : script_base (iscript_item <$> s) = length l →
  length (ins_mask s) = length (run (iscript_item <$> s) l).
Proof.
  unfold script_base. revert l.
  induction s as [|[b|] s IH]; intros [|x l] Hl; simplify_eq/=; try done; f_equal; by apply IH.
Qed.

Lemma ins_mask_delete s l : script_base (iscript_item <$> s) = length l →
  mdel (ins_mask s) (run (iscript_item <$> s) l) = l.
Proof.
  unfold script_base. revert l.
  induction s as [|[b|] s IH]; intros [|x l] Hl; simplify_eq/=; try done.
  - by apply IH.
  - by apply IH.
  - f_equal. by apply IH.
Qed.

(** ** Moving an insert-only script to a longer string *)

Abbreviation ibase s := (script_base (iscript_item <$> s)).

Lemma lead_split s :
  (ibase s = 0%nat ∧ s = lead s) ∨
  (ibase s = S (ibase (after_keep s)) ∧ s = lead s ++ None :: after_keep s).
Proof.
  unfold script_base. induction s as [|[b|] s IH]; csimpl; [by left|..].
  - destruct IH as [[? <-]|[Hb IH]]; [by left|right]. split; [done|]. by rewrite <-IH.
  - right. done.
Qed.

Lemma length_lead_text s : length (omap id (lead s)) = length (lead s).
Proof. induction s as [|[b|] s IH]; csimpl; auto. Qed.

Lemma run_lead s s2 l :
  run (iscript_item <$> lead s ++ s2) l = omap id (lead s) ++ run (iscript_item <$> s2) l.
Proof. induction s as [|[b|] s IH]; csimpl; congruence. Qed.

Lemma mexpand_lead x s m :
  mexpand x (ins_mask (lead s) ++ m) = replicate (length (lead s)) false ++ mexpand x m.
Proof. unfold ins_mask. induction s as [|[b|] s IH]; csimpl; congruence. Qed.

Lemma mdel_falses {A} k m (t l : list A) : length t = k →
  mdel (replicate k false ++ m) (t ++ l) = t ++ mdel m l.
Proof. intros <-. induction t; simpl; congruence. Qed.

Lemma expand_base s x : ibase s = mcount x → ibase (expand_script s x) = length x.
Proof.
  unfold mcount. revert s. induction x as [|[] x IH]; intros s Hs; csimpl in *.
  - destruct (lead_split s) as [[? ?]|[? ?]]; [congruence|lia].
  - rewrite length_mdel in Hs by done.
    change (S (ibase (expand_script s x)) = S (length x)). f_equal.
    apply IH. by rewrite length_mdel.
  - rewrite length_mdel in Hs by done.
    destruct (lead_split s) as [[H0 ?]|[Hs' ?]]; [lia|].
    rewrite fmap_app, script_base_app. csimpl.
    assert (ibase (lead s) = 0%nat) as ->.
    { clear. unfold script_base. induction s as [|[b|] s IH]; csimpl; auto. }
    change (S (ibase (expand_script (after_keep s) x)) = S (length x)). f_equal.
    apply IH. rewrite length_mdel by done. lia.
Qed.

Lemma expand_run s x l : ibase s = mcount x → length l = length x →
  mdel (mexpand x (ins_mask (expand_script s x))) (run (iscript_item <$> expand_script s x) l)
  = run (iscript_item <$> s) (mdel x l).
Proof.
  unfold mcount. revert s l. induction x as [|[] x IH]; intros s [|y l] Hs Hl; simplify_eq/=.
  - destruct (lead_split s) as [[? Hl]|[? ?]]; [|lia].
    pose proof (run_lead s [] []) as Hr. pose proof (mexpand_lead [] s []) as Hm.
    rewrite !app_nil_r in *. csimpl in *. rewrite Hm, Hr.
    rewrite <-(app_nil_r (replicate _ _)), <-(app_nil_r (omap id (lead s))).
    rewrite mdel_falses, !app_nil_r by apply length_lead_text.
    transitivity (run (iscript_item <$> lead s) []); [by rewrite Hr|by rewrite <-Hl].
  - apply IH; [|done]. by rewrite length_mdel in * by done.
  - destruct (lead_split s) as [[? ?]|[Hb Hsp]]; [lia|].
    unfold ins_mask. rewrite fmap_app. csimpl. fold (ins_mask (lead s)).
    fold (ins_mask (expand_script (after_keep s) x)).
    rewrite run_lead, mexpand_lead. csimpl.
    rewrite mdel_falses by apply length_lead_text. simpl.
    rewrite IH; [|rewrite !length_mdel in * by done; lia|done].
    transitivity (run (iscript_item <$> lead s ++ None :: after_keep s) (y :: mdel x l));
      [by rewrite run_lead|by rewrite <-Hsp].
Qed.

Lemma expand_ins_mask s x : ibase s = mcount x →
  mshrink (ins_mask (expand_script s x)) (mexpand x (ins_mask (expand_script s x))) = ins_mask s.
Proof.
  unfold mcount, mshrink. revert s. induction x as [|[] x IH]; intros s Hs; simplify_eq/=.
  - destruct (lead_split s) as [[? Hl]|[? ?]]; [|lia].
    pose proof (mexpand_lead [] s []) as Hm. rewrite !app_nil_r in Hm. csimpl in *.
    rewrite Hm. rewrite <-(app_nil_r (replicate _ _)), <-(app_nil_r (ins_mask (lead s))) at 1.
    rewrite mdel_falses by (unfold ins_mask; by rewrite length_fmap).
    simpl. rewrite app_nil_r. by rewrite <-Hl.
  - apply IH. by rewrite length_mdel in * by done.
  - destruct (lead_split s) as [[? ?]|[Hb Hsp]]; [lia|].
    unfold ins_mask at 1 2. rewrite fmap_app. csimpl. fold (ins_mask (lead s)).
    fold (ins_mask (expand_script (after_keep s) x)).
    rewrite mexpand_lead. csimpl.
    rewrite mdel_falses by (unfold ins_mask; by rewrite length_fmap). simpl.
    rewrite IH by (rewrite !length_mdel in * by done; lia).
    transitivity (ins_mask (lead s ++ None :: after_keep s)); [|by rewrite <-Hsp].
    unfold ins_mask. by rewrite fmap_app.
Qed.

(** ** Synthesis *)

Lemma synth_base tomb from to : length from = length to →
  (length tomb = length from - mcount from)%nat →
  script_base (synth tomb from to) = mcount from.
Proof.
  unfold mcount, script_base. revert tomb to.
  induction from as [|[] from IH]; intros tomb [|t to] Hl Ht; simplify_eq/=; [done|..].
  - rewrite !length_mdel in * by done. pose proof (mcount_le from).
    destruct tomb as [|b tomb]; simpl in *; [lia|].
    destruct t; simpl; rewrite IH; rewrite ?length_mdel by done; lia.
  - rewrite !length_mdel in * by done.
    destruct t; simpl; rewrite IH; rewrite ?length_mdel by done; lia.
Qed.

Lemma length_mdel_compl {A} m (l : list A) : length m = length l →
  (length (mdel (mcompl m) l) = length m - mcount m)%nat.
Proof.
  unfold mcount, mcompl. revert l. induction m as [|[] m IH]; intros [|x l] Hl; simplify_eq/=; [done|..].
  - rewrite IH, !length_mdel by done. pose proof (mcount_le m). lia.
  - by rewrite IH, !length_mdel by done.
Qed.

Lemma synth_run from to u : length from = length u → length to = length u →
  run (synth (mdel (mcompl from) u) from to) (mdel from u) = mdel to u.
Proof.
  unfold mcompl. revert to u.
  induction from as [|[] from IH]; intros [|t to] [|x u] Hf Ht; simplify_eq/=; try done;
    destruct t; simpl; rewrite IH by done; done.
Qed.

(** ** Builders *)

Abbreviation edits_in n es := (Forall (λ ed, ed_start ed ≤ n) es).

Lemma edits_script_base n pos es : edits_sorted pos es → edits_in n es → 0 ≤ pos →
  script_base (edits_script n pos es) = Z.to_nat (n - pos).
Proof.
  revert pos. induction es as [|ed es IH]; intros pos Hs Hn Hp; simpl in *.
  - apply script_base_keep.
  - apply Forall_cons in Hn as [? ?]. destruct Hs as [? Hs].
    rewrite !script_base_app, script_base_keep, script_base_ins, script_base_del.
    rewrite IH by (done || lia). lia.
Qed.

Lemma run_app_base s1 s2 l1 l2 : script_base s1 = length l1 →
  run (s1 ++ s2) (l1 ++ l2) = run s1 l1 ++ run s2 l2.
Proof.
  intros Hb. rewrite run_app by (rewrite length_app; lia).
  rewrite Hb, take_app_length, drop_app_length. done.
Qed.

Lemma edits_script_run n pos es l : edits_sorted pos es → edits_in n es → 0 ≤ pos →
  zlen l = n → run (edits_script n pos es) (zdrop pos l) = splice pos es l.
Proof.
  intros Hs Hn Hp Hl. revert pos Hs Hp. induction es as [|ed es IH]; intros pos Hs Hp; simpl in *.
  - replace (Z.to_nat (n - pos)) with (length (zdrop pos l)); [apply run_keep|].
    unfold zdrop, zlen in *. rewrite length_drop. lia.
  - apply Forall_cons in Hn as [? ?]. destruct Hs as [? Hs].
    rewrite (zslice_zdrop pos (ed_start ed)), (zslice_zdrop (ed_start ed) (Z.min n (ed_end ed)))
      by lia.
    assert (zdrop (Z.min n (ed_end ed)) l = zdrop (ed_end ed) l) as ->.
    { destruct (Z.le_ge_cases n (ed_end ed)).
      - by rewrite !zdrop_ge by lia.
      - by rewrite Z.min_r by lia. }
    assert (∀ a b, 0 ≤ a → b ≤ n → length (zslice a b l) = Z.to_nat (b - a)) as Hlen.
    { intros a b ??. pose proof (zlen_zslice a b l). unfold zlen in *. lia. }
    rewrite run_app_base by (rewrite script_base_keep, Hlen; lia).
    rewrite <-(app_nil_l (zslice _ _ l ++ zdrop _ l)).
    rewrite run_app_base by apply script_base_ins.
    rewrite run_app_base by (rewrite script_base_del, Hlen; lia).
    rewrite run_ins, run_del, IH by (done || lia). simpl. f_equal.
    rewrite <-(Hlen pos (ed_start ed)) by lia. apply run_keep.
Qed.

Lemma script_pos_keep k s q out :
  script_pos (replicate k Keep ++ s) q out =
    if (q <? Z.of_nat k) && (0 <? Z.of_nat k) then out + Z.max 0 q
    else script_pos s (q - Z.of_nat k) (out + Z.of_nat k).
Proof.
  revert q out. induction k as [|k IH]; intros q out.
  - simpl. zcases; f_equal; lia.
  - cbn [replicate app script_pos]. rewrite IH. zcases; try (f_equal; lia).
Qed.

Lemma script_pos_ins t s q out :
  script_pos ((Ins <$> t) ++ s) q out = script_pos s q (out + zlen t).
Proof.
  revert out. induction t as [|b t IH]; intros out; csimpl.
  - f_equal. unfold zlen. simpl. lia.
  - rewrite IH, zlen_cons. f_equal. lia.
Qed.

Lemma script_pos_del k s q out :
  script_pos (replicate k Del ++ s) q out = script_pos s (q - Z.of_nat k) out.
Proof.
  revert q. induction k as [|k IH]; intros q; cbn [replicate app script_pos].
  - f_equal. lia.
  - rewrite IH. f_equal. lia.
Qed.

Lemma edits_script_pos n pos out es p : edits_sorted pos es → edits_in n es →
  0 ≤ pos → 0 ≤ p ≤ n →
  script_pos (edits_script n pos es) (p - pos) out = edits_pos pos out es p.
Proof.
  revert pos out. induction es as [|ed es IH]; intros pos out Hs Hn Hp Hpn; simpl in *.
  - rewrite <-(app_nil_r (replicate _ _)), script_pos_keep. simpl. zcases; lia.
  - apply Forall_cons in Hn as [? Hn]. destruct Hs as [? Hs].
    rewrite script_pos_keep. rewrite !Z2Nat.id by lia.
    replace (p - pos <? ed_start ed - pos) with (p <? ed_start ed)
      by (apply Bool.eq_true_iff_eq; rewrite !Z.ltb_lt; lia).
    replace (0 <? ed_start ed - pos) with (pos <? ed_start ed)
      by (apply Bool.eq_true_iff_eq; rewrite !Z.ltb_lt; lia).
    destruct ((p <? ed_start ed) && (pos <? ed_start ed)); [done|].
    rewrite script_pos_ins, script_pos_del.
    destruct (Z.le_gt_cases (ed_end ed) n).
    + rewrite <-IH by (done || lia). f_equal. lia.
    + destruct es as [|ed' es]; simpl in *.
      * replace (Z.to_nat (n - ed_end ed)) with 0%nat by lia. simpl. lia.
      * apply Forall_cons in Hn as [? ?]. lia.
Qed.

(** ** Cursors *)

Lemma rc_find_spec pre leaf post off p : zlen (concat pre) = off → off ≤ p →
  p ≤ off + zlen (concat (leaf :: post)) →
  ∃ pre' leaf' post', rc_find pre leaf post off p = (pre', leaf', post') ∧
    pre ++ leaf :: post = pre' ++ leaf' :: post' ∧
    zlen (concat pre') ≤ p ∧
    (p < zlen (concat pre') + zlen leaf' ∨
     (post' = [] ∧ p = zlen (concat pre') + zlen leaf')).
Proof.
  revert pre leaf off. induction post as [|l post IH]; intros pre leaf off Ho Hp Hle.
  - exists pre, leaf, []. simpl in *. rewrite app_nil_r in Hle.
    split_and!; [done|done|lia|]. destruct (Z.lt_ge_cases p (off + zlen leaf)); [left; lia|].
    right. split; [done|lia].
  - cbn [rc_find]. destruct (Z.ltb_spec p (off + zlen leaf)).
    + exists pre, leaf, (l :: post). split_and!; [done|done|lia|left; lia].
    + destruct (IH (pre ++ [leaf]) l (off + zlen leaf)) as (a & b & c & E & H1 & H2); [..|exists a, b, c].
      * rewrite concat_app, zlen_app. simpl. rewrite app_nil_r. lia.
      * lia.
      * cbn [concat] in *. rewrite !zlen_app in *. lia.
      * rewrite <-app_assoc in H1. done.
Qed.

Lemma rc_new_focus n p : 0 ≤ p ≤ zlen (rn_bytes n) →
  ∃ pre leaf post, rc_focus (rc_new n p) = Some (pre, leaf, post) ∧
    rn_leaves n = pre ++ leaf :: post ∧ zlen (concat pre) ≤ p ∧
    (p < zlen (concat pre) + zlen leaf ∨ (post = [] ∧ p = zlen (concat pre) + zlen leaf)).
Proof.
  intros ?. destruct (rc_find_spec [] (rn_first n) (rn_rest n) 0 p) as (a & b & c & E & ?);
    [done|lia|simpl; unfold rn_bytes, rn_leaves in *; simpl in *; lia|].
  exists a, b, c. simpl. by rewrite E.
Qed.

(** ** The laws *)

Lemma rn_of_leaves_bytes ls : rn_bytes (rn_of_leaves ls) = concat ls.
Proof. by destruct ls. Qed.

Lemma script_apply_bytes s n : rn_bytes (script_apply s n) = run s (rn_bytes n).
Proof. unfold rn_bytes. simpl. apply app_nil_r. Qed.

Lemma script_base_zlen s (l : bytes) : zlen l = Z.of_nat (script_base s) → script_base s = length l.
Proof. unfold zlen. lia. Qed.

Lemma rb_add_ok b iv t : edits_end (rb_edits b) ≤ iv_start iv →
  rb_add b iv t = Ok (mkRBuilder (rb_len b) (rb_edits b ++ [mkEdit (iv_start iv) (iv_end iv) t])).
Proof. unfold rb_add. intros. zcases. done. Qed.

Lemma rb_add_unsorted b iv t : iv_start iv < edits_end (rb_edits b) →
  rb_add b iv t = Panic PanicAssert.
Proof. unfold rb_add. intros. zcases. done. Qed.

Lemma edits_script_run0 n es l : edits_sorted 0 es → edits_in n es → zlen l = n →
  run (edits_script n 0 es) l = splice 0 es l.
Proof. intros. rewrite <-(edits_script_run n) by done. by rewrite zdrop_le0 by lia. Qed.

Lemma edits_script_len0 n es : edits_sorted 0 es → edits_in n es → 0 ≤ n →
  Z.of_nat (script_base (edits_script n 0 es)) = n.
Proof. intros. rewrite edits_script_base by (done || lia). lia. Qed.

Lemma edits_sorted_one iv t n : 0 ≤ iv_start iv ≤ iv_end iv → iv_end iv ≤ n →
  edits_sorted 0 [mkEdit (iv_start iv) (iv_end iv) t] ∧
  edits_in n [mkEdit (iv_start iv) (iv_end iv) t].
Proof. intros. split; [simpl; lia|]. apply Forall_singleton. simpl. lia. Qed.

Lemma synth_tomb_len tomb from to (u : bytes) : length from = length u → length to = length u →
  tomb = mdel (mcompl from) u →
  Z.of_nat (script_base (synth tomb from to)) = zlen (mdel from u).
Proof.
  intros ?? ->. unfold zlen. rewrite synth_base, length_mdel; [done|done|congruence|].
  by rewrite length_mdel_compl.
Qed.

#[export] Instance ref_rope_laws : XiRopeLaws.
Proof.
  split; change (@node_bytes ref_rope) with rn_bytes;
    cbn -[edits_script edits_sorted splice rn_bytes script_apply]; intros;
    rewrite ?script_apply_bytes; try done.
  - by rewrite concat_app; simpl; rewrite app_nil_r.
  - apply rn_of_leaves_bytes.
  - split; [done|]. by apply rc_new_focus.
  - unfold rc_get_leaf. match goal with E : rc_focus _ = _ |- _ => by rewrite E end.
  - unfold rc_get_leaf. match goal with E : rc_focus _ = _ |- _ => by rewrite E end.
  - unfold rc_next_leaf. match goal with E : rc_focus _ = _ |- _ => by rewrite E end.
  - unfold rc_next_leaf. match goal with E : rc_focus _ = _ |- _ => by rewrite E end.
  - lia.
  - unfold rn_bytes. simpl. apply app_nil_r.
  - unfold zlen. f_equal. apply length_run. by apply script_base_zlen.
  - match goal with E : rn_bytes _ = _ |- _ => by rewrite E end.
  - simplify_eq. by rewrite script_base_ins_delta; unfold zlen; rewrite length_del_mask.
  - simplify_eq. apply factor_run. by apply script_base_zlen.
  - unfold zlen. f_equal. apply length_ins_mask. by apply script_base_zlen.
  - apply ins_mask_delete. by apply script_base_zlen.
  - unfold zlen. f_equal. apply expand_base. by apply Nat2Z.inj.
  - match goal with E : rn_bytes _ = mdel _ _ |- _ => rewrite E end. apply expand_run; [by apply Nat2Z.inj|done].
  - apply expand_ins_mask. by apply Nat2Z.inj.
  - by apply synth_tomb_len.
  - do 2 match goal with E : rn_bytes _ = mdel _ _ |- _ => rewrite E; clear E end.
    by apply synth_run.
  - apply edits_script_len0; [by apply (edits_sorted_one iv _ n)..|lia].
  - apply edits_script_run0; [by apply (edits_sorted_one iv _ n)..|done].
  - rewrite rb_add_ok by lia. eexists. split_and!; [done|done|done].
  - by apply rb_add_unsorted.
  - rewrite rb_add_ok by lia. eexists. split_and!; [done|done|done].
  - by apply rb_add_unsorted.
  - by apply edits_script_len0.
  - by apply edits_script_run0.
  - subst. rewrite <-(edits_script_pos (rb_len b)) by (done || lia). f_equal. lia.
Qed.
