(* ===== verification/ByteRope.v ===== *)
(** * ByteRope: the byte rope of [src/src/byte_rope.rs]

    The leaves ([Bytes]), the rope, its chunk iterator and the conversions
    from and to byte vectors.  The tree itself is the interface [XiRope]. *)

From S2P Require Import Prelude Masks XiRope XiRopeRef.

Definition MIN_LEAF : Z := 511.
Definition MAX_LEAF : Z := 1024.

(** ** Leaves *)

Definition is_ok_child (self : bytes) : bool := MIN_LEAF <=? zlen self.

(** The leaf after the call and the part that was split off. *)
Definition push_maybe_split (self other : bytes) (iv : Interval) :
    outcome (bytes * option bytes) :=
  ext ← slice_range other (iv_start iv) (iv_end iv);
  let self := self ++ ext in
  if zlen self <=? MAX_LEAF then Ok (self, None)
  else Ok (ztake MAX_LEAF self, Some (zdrop MAX_LEAF self)).

(** ** The base metric: every offset is a boundary *)

Definition metric_measure (len : Z) : Z := len.
Definition metric_is_boundary (_ : bytes) (_ : Z) : bool := true.
Definition metric_prev (_ : bytes) (offset : Z) : option Z :=
  if offset =? 0 then None else Some (offset - 1).
Definition metric_next (b : bytes) (offset : Z) : option Z :=
  if offset =? zlen b then None else Some (offset + 1).

(** ** Ropes *)

Section byte_rope.
Context `{Profile} `{XiRope}.

Record Rope := mkRope { rope_node : Node }.

(** The document a rope holds. *)
Definition rope_bytes (r : Rope) : bytes := node_bytes (rope_node r).

Definition rope_len (self : Rope) : Z := node_len (rope_node self).
Definition rope_is_empty (self : Rope) : bool := node_len (rope_node self) =? 0.

Record ChunkIter := mkChunkIter { ci_cursor : Cursor; ci_end : Z }.

Definition iter_chunks (self : Rope) (range : Interval) : ChunkIter :=
  mkChunkIter (cursor_new (rope_node self) (iv_start range)) (iv_end range).

(** [ChunkIter::next] *)
Definition chunk_next (self : ChunkIter) : outcome (option bytes * ChunkIter) :=
  if ci_end self <=? cursor_pos (ci_cursor self) then Ok (None, self)
  else match cursor_get_leaf (ci_cursor self) with
       | Some (leaf, start_pos) =>
           a ← usub (ci_end self) (cursor_pos (ci_cursor self));
           b ← usub (zlen leaf) start_pos;
           let len := Z.min a b in
           e ← uadd start_pos len;
           chunk ← slice_range leaf start_pos e;
           Ok (Some chunk, mkChunkIter (cursor_next_leaf (ci_cursor self)) (ci_end self))
       | None => Ok (None, self)
       end.

(** All remaining chunks, appended one after the other: the loop
    [for chunk in iter { result.extend_from_slice(chunk) }]. *)
Fixpoint extend_chunks (fuel : nat) (it : ChunkIter) (acc : bytes) : outcome bytes :=
  match fuel with
  | O => Panic PanicFuel
  | S fuel' =>
      '(c, it') ← chunk_next it;
      match c with
      | Some chunk => extend_chunks fuel' it' (acc ++ chunk)
      | None => Ok acc
      end
  end.

(** One call of [next] per leaf and one more. *)
Definition chunk_fuel (self : Rope) : nat := S (length (node_leaves (rope_node self))).

Definition slice_to_cow (self : Rope) (range : Interval) : outcome bytes :=
  let iter := iter_chunks self range in
  '(first, iter) ← chunk_next iter;
  '(second, iter) ← chunk_next iter;
  match first, second with
  | None, None => Ok []
  | Some b, None => Ok b
  | Some one, Some two => extend_chunks (chunk_fuel self) iter (one ++ two)
  | None, Some _ => Panic PanicUnreachable
  end.

(** The full range [..]. *)
Definition full_range (self : Rope) : Interval := mkInterval 0 (rope_len self).

Definition rope_apply_delta (self : Rope) (delta : Delta) : Rope :=
  mkRope (delta_apply delta (rope_node self)).

Definition without_subset (self : Rope) (subset : Subset) : Rope :=
  mkRope (sub_delete_from subset (rope_node self)).

Definition into_node (self : Rope) : Node := rope_node self.

(** [impl From<Vec<u8>> for Rope] *)
Fixpoint push_pieces (fuel : nat) (source : bytes) (builder : TreeBuilder) : outcome TreeBuilder :=
  match source with
  | [] => Ok builder
  | _ => match fuel with
         | O => Panic PanicFuel
         | S fuel' =>
             let split_point := Z.min (zlen source) MAX_LEAF in
             push_pieces fuel' (zdrop split_point source)
                         (tb_push_leaf builder (ztake split_point source))
         end
  end.

Definition rope_from_vec (vec : bytes) : outcome Rope :=
  if zlen vec <=? MAX_LEAF then
    let builder := if zlen vec =? 0 then tb_new else tb_push_leaf tb_new vec in
    Ok (mkRope (tb_build builder))
  else
    builder ← push_pieces (length vec) vec tb_new;
    Ok (mkRope (tb_build builder)).

(** [impl From<&Rope> for Vec<u8>] *)
Definition vec_from_rope (self : Rope) : outcome bytes :=
  extend_chunks (chunk_fuel self) (iter_chunks self (full_range self)) [].

End byte_rope.

(** ** Leaves: nothing is lost and the leaf stays within its maximum *)

(** Pushing keeps all bytes in order, and never leaves more than [MAX_LEAF]
    bytes behind in a leaf that had to be split. *)
Lemma push_maybe_split_spec self other s e :
  0 ≤ s ≤ e → e ≤ zlen other →
  ∃ self' rest, push_maybe_split self other (mkInterval s e) = Ok (self', rest) ∧
    self' ++ default [] rest = self ++ zslice s e other ∧
    zlen self' ≤ MAX_LEAF ∧
    (rest = None ↔ zlen self + (e - s) ≤ MAX_LEAF).
Proof.
  intros. unfold push_maybe_split. simpl. rewrite slice_range_ok by lia. simpl.
  assert (zlen (self ++ zslice s e other) = zlen self + (e - s)) as Hl.
  { autorewrite with zlen. lia. }
  destruct (Z.leb_spec (zlen (self ++ zslice s e other)) MAX_LEAF).
  - eexists _, None. split_and!; [done|simpl; by rewrite app_nil_r|lia|split; [lia|done]].
  - eexists _, (Some _). split_and!; [done|simpl; apply ztake_zdrop|..|split; [done|lia]].
    rewrite zlen_ztake. unfold MAX_LEAF. lia.
Qed.

Section byte_rope_laws.
Context `{Profile} `{XiRopeLaws}.

Lemma rope_len_bytes r : rope_len r = zlen (rope_bytes r).
Proof. apply node_len_bytes. Qed.

(** Where the iterator stands: in the leaf after [pre]. *)
Record chunk_at (r : Rope) (it : ChunkIter) (pre : list bytes) (leaf : bytes)
    (post : list bytes) (p : Z) : Prop := {
  ca_focus : cursor_focus (ci_cursor it) = Some (pre, leaf, post);
  ca_leaves : node_leaves (rope_node r) = pre ++ leaf :: post;
  ca_pos : cursor_pos (ci_cursor it) = p;
  ca_range : zlen (concat pre) ≤ p ≤ zlen (concat pre) + zlen leaf;
}.

Lemma chunk_at_bytes r it pre leaf post p : chunk_at r it pre leaf post p →
  rope_bytes r = concat pre ++ leaf ++ concat post.
Proof. intros []. unfold rope_bytes, node_bytes. rewrite ca_leaves0, concat_app. done. Qed.

Lemma chunk_next_done it : ci_end it ≤ cursor_pos (ci_cursor it) → chunk_next it = Ok (None, it).
Proof. unfold chunk_next. intros. by zcases. Qed.

Lemma chunk_next_past it : cursor_focus (ci_cursor it) = None → chunk_next it = Ok (None, it).
Proof.
  unfold chunk_next. intros Hf. rewrite cursor_get_leaf_none by done. by zcases.
Qed.

(** One call of [next] yields what the current leaf contributes. *)
Lemma chunk_next_at r it pre leaf post p : chunk_at r it pre leaf post p →
  rope_len r ≤ usize_max → p < ci_end it ≤ usize_max →
  let off := zlen (concat pre) in
  chunk_next it =
    Ok (Some (zslice (p - off) (Z.min (ci_end it - off) (zlen leaf)) leaf),
        mkChunkIter (cursor_next_leaf (ci_cursor it)) (ci_end it)).
Proof.
  intros Hat Hr He off. pose proof (chunk_at_bytes _ _ _ _ _ _ Hat) as Hb.
  pose proof (rope_len_bytes r) as Hrl. rewrite Hb in Hrl.
  autorewrite with zlen in Hrl. pose proof (zlen_nonneg (concat post)).
  destruct Hat as [Hf Hl Hp Hrg]. unfold chunk_next. rewrite Hp.
  destruct (Z.leb_spec (ci_end it) p); [lia|].
  rewrite (cursor_get_leaf_some _ _ _ _ Hf), Hp. fold off.
  pose proof (zlen_nonneg (concat pre)) as Hoff. fold off in Hrg, Hrl, Hoff.
  arith_ok. simpl. arith_ok. simpl.
  rewrite slice_range_ok by (unfold_usize; lia). simpl. do 4 f_equal. lia.
Qed.

(** What the leaf contributes, and what the later leaves do. *)
Lemma chunk_at_slice r it pre leaf post p e : chunk_at r it pre leaf post p → p < e →
  let off := zlen (concat pre) in
  zslice p e (rope_bytes r) =
    zslice (p - off) (Z.min (e - off) (zlen leaf)) leaf ++
    zslice (off + zlen leaf) e (rope_bytes r).
Proof.
  intros Hat Hpe off. rewrite (chunk_at_bytes _ _ _ _ _ _ Hat). destruct Hat as [_ _ _ Hrg].
  fold off in Hrg. pose proof (zlen_nonneg (concat pre)) as Hoff. fold off in Hoff.
  destruct (Z.le_gt_cases e (off + zlen leaf)).
  - rewrite Z.min_l by lia. rewrite (zslice_nil (off + _)) by lia. rewrite app_nil_r.
    rewrite zslice_app_r by (subst off; lia). rewrite zslice_app_l by lia. done.
  - rewrite (zslice_app_split p (off + zlen leaf) e) by lia. f_equal.
    rewrite zslice_app_r by (subst off; lia). fold off. rewrite zslice_app_l by lia.
    f_equal. lia.
Qed.

Lemma chunk_at_next r it pre leaf leaf' post p : chunk_at r it pre leaf (leaf' :: post) p →
  chunk_at r (mkChunkIter (cursor_next_leaf (ci_cursor it)) (ci_end it))
    (pre ++ [leaf]) leaf' post (zlen (concat pre) + zlen leaf).
Proof.
  intros [Hf Hl Hp Hrg]. destruct (cursor_next_leaf_more _ _ _ _ _ Hf).
  split; simpl; [done|by rewrite <-app_assoc|done|].
  rewrite concat_app, zlen_app. simpl. rewrite app_nil_r.
  pose proof (zlen_nonneg leaf'). lia.
Qed.

Lemma extend_chunks_past it acc fuel : (0 < fuel)%nat →
  cursor_focus (ci_cursor it) = None → extend_chunks fuel it acc = Ok acc.
Proof. intros Hf Hn. destruct fuel; [lia|]. simpl. by rewrite chunk_next_past. Qed.

(** Draining the iterator appends exactly the bytes from here to its end. *)
Lemma extend_chunks_at r it pre leaf post p acc fuel : chunk_at r it pre leaf post p →
  rope_len r ≤ usize_max → ci_end it ≤ usize_max → (S (length post) < fuel)%nat →
  extend_chunks fuel it acc = Ok (acc ++ zslice p (ci_end it) (rope_bytes r)).
Proof.
  revert it pre leaf p acc fuel. induction post as [|leaf' post IH];
    intros it pre leaf p acc fuel Hat Hr He Hfuel; destruct fuel as [|fuel]; try (simpl in *; lia);
    cbn [extend_chunks]; (destruct (Z.le_gt_cases (ci_end it) p) as [|Hlt];
      [rewrite chunk_next_done by (rewrite (ca_pos _ _ _ _ _ _ Hat); lia);
       simpl; by rewrite zslice_nil, app_nil_r by lia|]);
    rewrite (chunk_next_at _ _ _ _ _ _ Hat) by lia; simpl;
    rewrite (chunk_at_slice _ _ _ _ _ _ _ Hat Hlt).
  - destruct (cursor_next_leaf_last _ _ _ (ca_focus _ _ _ _ _ _ Hat)).
    rewrite extend_chunks_past by (done || simpl in *; lia). f_equal.
    rewrite (zslice_ge (_ + _)), app_nil_r; [done|].
    rewrite (chunk_at_bytes _ _ _ _ _ _ Hat). simpl. rewrite app_nil_r, zlen_app. lia.
  - rewrite (IH _ _ _ _ _ _ (chunk_at_next _ _ _ _ _ _ _ Hat)) by (done || simpl in *; lia).
    simpl. by rewrite app_assoc.
Qed.

Lemma chunk_next_none it it' : chunk_next it = Ok (None, it') → it' = it.
Proof.
  unfold chunk_next. destruct (_ <=? _); [by intros [= <-]|].
  destruct (cursor_get_leaf _) as [[leaf q]|]; [|by intros [= <-]].
  intros Hn. outcome_inv.
Qed.

(** The special cases of [slice_to_cow] for no chunk and for one chunk agree
    with the plain loop. *)
Lemma slice_to_cow_loop r range :
  slice_to_cow r range = extend_chunks (S (S (chunk_fuel r))) (iter_chunks r range) [].
Proof.
  unfold slice_to_cow. cbn [extend_chunks].
  destruct (chunk_next (iter_chunks r range)) as [[[one|] it]|] eqn:E1; simpl; [|..|done].
  - by destruct (chunk_next it) as [[[two|] it2]|] eqn:E2; simpl.
  - apply chunk_next_none in E1 as E. subst it. rewrite E1. done.
Qed.

Lemma iter_chunks_at r s e : 0 ≤ s ≤ rope_len r →
  ∃ pre leaf post, chunk_at r (iter_chunks r (mkInterval s e)) pre leaf post s ∧
    (length post < length (node_leaves (rope_node r)))%nat.
Proof.
  intros Hs. destruct (cursor_new_focus (rope_node r) s Hs) as (Hp & pre & leaf & post & Hf & Hl & Hlo & Hhi).
  exists pre, leaf, post. split; [split; simpl; try done; lia|].
  rewrite Hl, length_app. simpl. lia.
Qed.

(** C: slicing a rope is slicing its bytes, also when the range reaches past
    the end of the document. *)
Lemma slice_to_cow_bytes r s e : 0 ≤ s ≤ rope_len r → rope_len r ≤ usize_max →
  e ≤ usize_max → slice_to_cow r (mkInterval s e) = Ok (zslice s e (rope_bytes r)).
Proof.
  intros Hs Hr He. destruct (iter_chunks_at r s e Hs) as (pre & leaf & post & Hat & Hpost).
  rewrite slice_to_cow_loop, (extend_chunks_at _ _ _ _ _ _ _ _ Hat) by (done || unfold chunk_fuel; lia).
  done.
Qed.

Lemma vec_from_rope_bytes r : rope_len r ≤ usize_max → vec_from_rope r = Ok (rope_bytes r).
Proof.
  intros Hr. pose proof (rope_len_bytes r). pose proof (zlen_nonneg (rope_bytes r)).
  destruct (iter_chunks_at r 0 (rope_len r)) as (pre & leaf & post & Hat & Hpost); [lia|].
  unfold vec_from_rope, full_range.
  rewrite (extend_chunks_at _ _ _ _ _ _ _ _ Hat) by (done || unfold chunk_fuel; lia).
  simpl. by rewrite zslice_full by lia.
Qed.

Lemma push_pieces_bytes fuel source builder : (length source ≤ fuel)%nat →
  ∃ b, push_pieces fuel source builder = Ok b ∧ tb_bytes b = tb_bytes builder ++ source.
Proof.
  revert source builder. induction fuel as [|fuel IH]; intros source builder Hf.
  - destruct source; [|simpl in Hf; lia]. exists builder. by rewrite app_nil_r.
  - destruct source as [|x source]; [exists builder; by rewrite app_nil_r|].
    cbn [push_pieces]. set (sp := Z.min (zlen (x :: source)) MAX_LEAF).
    assert (1 ≤ sp) as Hsp.
    { subst sp. rewrite zlen_cons. pose proof (zlen_nonneg source). unfold MAX_LEAF. lia. }
    destruct (IH (zdrop sp (x :: source)) (tb_push_leaf builder (ztake sp (x :: source))))
      as (b & -> & Hb).
    { unfold zdrop. rewrite length_drop. simpl in *. lia. }
    exists b. split; [done|]. rewrite Hb, tb_push_leaf_bytes, <-app_assoc. f_equal.
    apply ztake_zdrop.
Qed.

Lemma rope_from_vec_bytes v : ∃ r, rope_from_vec v = Ok r ∧ rope_bytes r = v.
Proof.
  unfold rope_from_vec. destruct (Z.leb_spec (zlen v) MAX_LEAF).
  - eexists. split; [done|]. unfold rope_bytes. simpl. rewrite tb_build_bytes.
    destruct (Z.eqb_spec (zlen v) 0) as [E|]; rewrite ?tb_push_leaf_bytes, tb_new_bytes; [|done].
    apply zlen_0 in E. congruence.
  - destruct (push_pieces_bytes (length v) v tb_new) as (b & -> & Hb); [done|].
    eexists. split; [done|]. unfold rope_bytes. simpl. rewrite tb_build_bytes, Hb, tb_new_bytes. done.
Qed.

Lemma without_subset_bytes r s : length (sub_mask s) = length (rope_bytes r) →
  rope_bytes (without_subset r s) = mdel (sub_mask s) (rope_bytes r).
Proof. apply sub_delete_from_bytes. Qed.

End byte_rope_laws.

#[export] Hint Rewrite @rope_len_bytes : tofu_arith.

(** A rope of the reference instance that holds the given bytes in leaves of
    at most two bytes, for concrete examples. *)
Fixpoint ref_pairs (l : bytes) : list bytes :=
  match l with
  | a :: b :: l' => [a; b] :: ref_pairs l'
  | [] => []
  | _ => [l]
  end.

Definition ref_doc (l : bytes) : @Rope ref_rope :=
  mkRope (tb_build (foldl tb_push_leaf tb_new (ref_pairs l))).

Section rope_theorems.
Context `{Profile} `{XiRopeLaws}.

(** C34: a byte vector that is cut into leaves and read back through the chunk
    iterator comes back unchanged, whatever its length, and so does every
    slice of it: an interval yields exactly its bytes, clipped to the end. *)
Theorem rope_vec_round_trip (v : bytes) (s e : Z) :
  zlen v ≤ usize_max → 0 ≤ s ≤ zlen v → e ≤ usize_max →
  ∃ r, rope_from_vec v = Ok r ∧ vec_from_rope r = Ok v ∧
    slice_to_cow r (mkInterval s e) = Ok (zslice s e v).
Proof.
  intros Hv Hs He. destruct (rope_from_vec_bytes v) as (r & -> & Hr). exists r.
  pose proof (rope_len_bytes r) as Hl. rewrite Hr in Hl.
  rewrite vec_from_rope_bytes, slice_to_cow_bytes, Hr by lia. done.
Qed.

End rope_theorems.

(** pushing onto a leaf loses no byte and keeps the order; the leaf
    never exceeds its maximum, and it is split exactly when it would. *)
Theorem push_maybe_split_correct self other s e :
  0 ≤ s ≤ e → e ≤ zlen other →
  ∃ self' rest, push_maybe_split self other (mkInterval s e) = Ok (self', rest) ∧
    self' ++ default [] rest = self ++ zslice s e other ∧
    zlen self' ≤ MAX_LEAF ∧
    (rest = None ↔ zlen self + (e - s) ≤ MAX_LEAF).
Proof. apply push_maybe_split_spec. Qed.

Definition sample_vec : bytes := Z.of_nat <$> seq 0 3000.

Lemma rope_vec_round_trip_witness : ∃ r, @rope_from_vec ref_rope sample_vec = Ok r ∧
  @vec_from_rope true ref_rope r = Ok sample_vec ∧
  @slice_to_cow true ref_rope r (mkInterval 1000 2500) = Ok (zslice 1000 2500 sample_vec).
Proof. apply rope_vec_round_trip; vm_compute; done. Defined.

Lemma push_maybe_split_correct_witness :
  ∃ self' rest, push_maybe_split (replicate 1000 7) sample_vec (mkInterval 10 60) = Ok (self', rest) ∧
    self' ++ default [] rest = replicate 1000 7 ++ zslice 10 60 sample_vec ∧
    zlen self' ≤ MAX_LEAF ∧ (rest = None ↔ zlen (replicate 1000 7) + (60 - 10) ≤ MAX_LEAF).
Proof. apply (push_maybe_split_correct (replicate 1000 7)); vm_compute; done. Defined.
