(* ===== verification/Selection.v ===== *)
(** * Selection: regions and selections of [src/src/selection.rs]

    A selection is a list of regions, one of which is the main one.  The two
    comments of the source, that regions are sorted and do not overlap, are
    the invariant [selection_ok]; the theorems say which operations keep it,
    which of them can panic, and what each computes. *)

From S2P Require Import Prelude Masks XiRope XiRopeRef ByteRope.

(** ** Regions *)

Record SelRegion := mkSelRegion { caret : Z; tail : Z; is_main : bool }.

#[export] Instance SelRegion_eq_dec : EqDecision SelRegion.
Proof. solve_decision. Defined.

Inductive Direction := Up | Down | Left | Right.

#[export] Instance Direction_eq_dec : EqDecision Direction.
Proof. solve_decision. Defined.

Definition region_new (c t : Z) : SelRegion := mkSelRegion c t false.
Definition region_default : SelRegion := region_new 0 0.
Definition with_main (r : SelRegion) (b : bool) : SelRegion :=
  mkSelRegion (caret r) (tail r) b.

Definition rmax (self : SelRegion) : Z := Z.max (caret self) (tail self).
Definition rmin (self : SelRegion) : Z := Z.min (caret self) (tail self).

Definition with_direction (self : SelRegion) (backward : bool) : SelRegion :=
  let max := Z.max (caret self) (tail self) in
  let min := Z.min (caret self) (tail self) in
  if backward then region_new min max else region_new max min.

Definition overlaps (self other : SelRegion) : bool := rmin other <=? rmax self.

Definition jump_to (_ : SelRegion) (offset : Z) : SelRegion := region_new offset offset.
Definition extend_to (self : SelRegion) (offset : Z) : SelRegion := region_new offset (tail self).

Definition swap_caret (self : SelRegion) : SelRegion := region_new (tail self) (caret self).
Definition collapse (self : SelRegion) : SelRegion := region_new (caret self) (caret self).

Definition forward (self : SelRegion) : bool := tail self <=? caret self.
Definition backward (self : SelRegion) : bool := caret self <=? tail self.
Definition to_backward (self : SelRegion) : SelRegion := region_new (rmin self) (rmax self).
Definition to_forward (self : SelRegion) : SelRegion := region_new (rmax self) (rmin self).

Definition merge (self other : SelRegion) : outcome SelRegion :=
  let both_forward := forward self && forward other in
  let both_backward := backward self && backward other in
  merged ←
    match both_forward, both_backward with
    | true, true =>
        if caret self =? caret other then Ok self else Panic PanicAssert
    | true, false =>
        Ok (region_new (Z.max (caret self) (caret other)) (Z.min (tail self) (tail other)))
    | false, true =>
        Ok (region_new (Z.min (caret self) (caret other)) (Z.max (tail self) (tail other)))
    | false, false => Panic PanicExplicit
    end;
  Ok (if is_main self || is_main other then with_main merged true else merged).

Definition inherit_direction (self parent : SelRegion) : SelRegion :=
  if forward parent then to_forward self else to_backward self.

(** ** Selections *)

Record Selection := mkSelection { regions : list SelRegion; main_selection : Z }.

#[export] Instance Selection_eq_dec : EqDecision Selection.
Proof. solve_decision. Defined.

Definition selection_default : Selection :=
  mkSelection [with_main (region_new 0 0) true] 0.
Definition selection_new : Selection := selection_default.

Definition clear (_ : Selection) : Selection :=
  mkSelection [with_main region_default true] 0.

Definition retain (self : Selection) (index : Z) : outcome Selection :=
  main ← vec_index (regions self) index;
  Ok (mkSelection [with_main main true] 0).

Definition main_region (self : Selection) : outcome SelRegion :=
  vec_index (regions self) (main_selection self).

Definition main_cursor_offset (self : Selection) : outcome Z :=
  r ← vec_index (regions self) (main_selection self); Ok (caret r).

Definition selection_len (self : Selection) : Z := zlen (regions self).

(** [slice::binary_search_by] on the maxima of the regions; both the position
    found and the position to insert at are returned as they are. *)
Fixpoint binary_search_max (fuel : nat) (rs : list SelRegion) (offset left right : Z) : outcome Z :=
  if left <? right then
    match fuel with
    | O => Panic PanicFuel
    | S fuel' =>
        let mid := left + (right - left) / 2 in
        r ← vec_index rs mid;
        if rmax r <? offset then binary_search_max fuel' rs offset (mid + 1) right
        else if offset <? rmax r then binary_search_max fuel' rs offset left mid
        else Ok mid
    end
  else Ok left.

Definition search (self : Selection) (offset : Z) : outcome Z :=
  l ← unwrap (last (regions self));
  if rmax l <? offset then Ok (zlen (regions self))
  else binary_search_max (length (regions self)) (regions self) offset 0 (zlen (regions self)).

Section selection.
Context `{Profile}.

Definition rlen (self : SelRegion) : outcome Z :=
  d ← usub (rmax self) (rmin self); uadd d 1.

(** The caret of [simple_move] and [simple_extend]. *)
Definition moved_caret (self : SelRegion) (direction : Direction)
    (bytes_per_line max_size count : Z) : outcome Z :=
  let old_caret := caret self in
  match direction with
  | Up =>
      d ← isub (as_isize old_caret)
               (isize_saturating_mul (as_isize bytes_per_line) (as_isize count));
      Ok (as_usize (Z.max 0 d))
  | Down =>
      s ← uadd old_caret (usize_saturating_mul bytes_per_line count);
      Ok (Z.min max_size s)
  | Left =>
      d ← isub (as_isize old_caret) (as_isize count);
      Ok (as_usize (Z.max 0 d))
  | Right =>
      s ← uadd old_caret count;
      Ok (Z.min max_size s)
  end.

Definition simple_move (self : SelRegion) (direction : Direction)
    (bytes_per_line max_size count : Z) : outcome SelRegion :=
  if max_size =? 0 then Ok self
  else
    caret_location ← moved_caret self direction bytes_per_line max_size count;
    Ok (region_new caret_location caret_location).

Definition simple_extend (self : SelRegion) (direction : Direction)
    (bytes_per_line max_size count : Z) : outcome SelRegion :=
  if max_size =? 0 then Ok self
  else
    caret_location ← moved_caret self direction bytes_per_line max_size count;
    Ok (region_new caret_location (tail self)).

(** The caret of [jump_to_boundary] and [extend_to_boundary]. *)
Definition boundary_caret (self : SelRegion) (direction : Direction)
    (bytes_per_line max_size : Z) : outcome Z :=
  match direction with
  | Up => Ok 0
  | Down => usub max_size 1
  | Left =>
      m ← urem (caret self) bytes_per_line;
      usub (caret self) m
  | Right =>
      a ← uadd (caret self) bytes_per_line;
      m ← urem (caret self) bytes_per_line;
      b ← usub a m;
      c ← usub b 1;
      e ← usub max_size 1;
      Ok (Z.min c e)
  end.

Definition jump_to_boundary (self : SelRegion) (direction : Direction)
    (bytes_per_line max_size : Z) : outcome SelRegion :=
  if max_size =? 0 then Ok self
  else
    caret_location ← boundary_caret self direction bytes_per_line max_size;
    Ok (region_new caret_location caret_location).

Definition extend_to_boundary (self : SelRegion) (direction : Direction)
    (bytes_per_line max_size : Z) : outcome SelRegion :=
  if max_size =? 0 then Ok self
  else
    caret_location ← boundary_caret self direction bytes_per_line max_size;
    Ok (region_new caret_location (tail self)).

Definition split_at_region (self : SelRegion) (start end_ : Z) :
    outcome (option SelRegion * option SelRegion) :=
  if start <=? rmin self then
    if rmax self <=? end_ then Ok (None, None)
    else
      e ← uadd end_ 1;
      Ok (None, Some (inherit_direction (region_new e (rmax self)) self))
  else if rmax self <=? end_ then
    s ← usub start 1;
    Ok (Some (inherit_direction (region_new (rmin self) s) self), None)
  else
    s ← usub start 1;
    e ← uadd end_ 1;
    Ok (Some (region_new (rmin self) s), Some (region_new e (rmax self))).

Definition len_bytes (self : Selection) : outcome Z :=
  foldM (λ acc r, n ← rlen r; uadd acc n) 0 (regions self).

Definition remove (self : Selection) (index : Z) : outcome Selection :=
  if zlen (regions self) =? 1 then Ok self
  else
    rs ← vec_remove (regions self) index;
    n ← usub (zlen rs) 1;
    let m := Z.min n (main_selection self) in
    rs ← vec_update rs m (λ r, with_main r true);
    Ok (mkSelection rs m).

Definition select_all (self : Selection) (buf_size : Z) : outcome Selection :=
  let self := clear self in
  if buf_size =? 0 then Ok self
  else
    c ← usub buf_size 1;
    rs ← vec_update (regions self) 0 (λ r, mkSelRegion c 0 (is_main r));
    Ok (mkSelection rs (main_selection self)).

Definition regions_in_range (self : Selection) (start end_ : Z) : outcome (list SelRegion) :=
  first ← search self start;
  last ← search self end_;
  last ←
    (if last <? zlen (regions self) then
       r ← vec_index (regions self) last;
       if rmin r <=? end_ then uadd last 1 else Ok last
     else Ok last);
  slice_range (regions self) first last.

(** [regions_out.push(new_region)], merged into the last region when the two
    overlap. *)
Definition push_region (regions_out : list SelRegion) (new_region : SelRegion) :
    outcome (list SelRegion) :=
  match last regions_out with
  | None => Ok [new_region]
  | Some l =>
      if overlaps l new_region then
        m ← merge l new_region; Ok (removelast regions_out ++ [m])
      else Ok (regions_out ++ [new_region])
  end.

(** The loop of [map_selections]: [f] is a closure with its own state. *)
Fixpoint map_loop {S} (f : S → SelRegion → outcome (list SelRegion * S)) (main_sel i : Z)
    (rs : list SelRegion) (s : S) (out : list SelRegion) (new_main : Z) :
    outcome (list SelRegion * Z * S) :=
  match rs with
  | [] => Ok (out, new_main, s)
  | region :: rest =>
      '(news, s) ← f s region;
      out ← foldM push_region out news;
      '(out, new_main) ←
        (if i =? main_sel then
           new_main ← usub (zlen out) 1;
           l ← unwrap (last out);
           Ok (removelast out ++ [with_main l true], new_main)
         else Ok (out, new_main));
      map_loop f main_sel (i + 1) rest s out new_main
  end.

Definition map_selections {S} (self : Selection)
    (f : S → SelRegion → outcome (list SelRegion * S)) (s : S) : outcome (Selection * S) :=
  '(out, new_main, s) ← map_loop f (main_selection self) 0 (regions self) s [] 0;
  Ok (mkSelection out new_main, s).

(** A closure without state that yields one region. *)
Definition one_region (f : SelRegion → outcome SelRegion) (u : unit) (r : SelRegion) :
    outcome (list SelRegion * unit) :=
  r' ← f r; Ok ([r'], u).

Definition select_next (self : Selection) (count : Z) : outcome Selection :=
  rs ← vec_update (regions self) (main_selection self) (λ r, with_main r false);
  a ← uadd (main_selection self) count;
  m ← urem a (zlen rs);
  rs ← vec_update rs m (λ r, with_main r true);
  Ok (mkSelection rs m).

Definition select_prev (self : Selection) (count : Z) : outcome Selection :=
  rs ← vec_update (regions self) (main_selection self) (λ r, with_main r false);
  a ← uadd (main_selection self) (zlen rs);
  c ← urem count (zlen rs);
  b ← usub a c;
  m ← urem b (zlen rs);
  rs ← vec_update rs m (λ r, with_main r true);
  Ok (mkSelection rs m).

Context `{XiRope}.

(** [impl From<SelRegion> for Interval] *)
Definition region_interval (r : SelRegion) : Interval := iv_from_inclusive (rmin r) (rmax r).

Definition selection_apply_delta (self : Selection) (delta : Delta) (max_len : Z) :
    outcome Selection :=
  let new_max_len := delta_new_document_len delta in
  if new_max_len =? 0 then Ok (clear self)
  else
    let move (tf : Transformer) (p : Z) : Z * Transformer :=
      if max_len =? p then (new_max_len, tf)
      else let '(q, tf) := tf_transform tf p true in (Z.min new_max_len q, tf) in
    '(sel, _) ← map_selections self
      (λ tf region,
        let '(c, tf) := move tf (caret region) in
        let '(t, tf) := move tf (tail region) in
        Ok ([region_new c t], tf)) (tf_new delta);
    Ok sel.

Definition selection_apply_delta_offset_carets (self : Selection) (delta : Delta)
    (caret_offset tail_offset max_len : Z) : outcome Selection :=
  let new_max_len := delta_new_document_len delta in
  if new_max_len =? 0 then Ok (clear self)
  else
    let move (tf : Transformer) (p offset : Z) : outcome (Z * Transformer) :=
      if max_len =? p then
        s ← iadd (as_isize new_max_len) offset; Ok (as_usize s, tf)
      else
        let '(q, tf) := tf_transform tf p true in
        s ← iadd (as_isize q) offset; Ok (Z.min new_max_len (as_usize s), tf) in
    '(sel, _) ← map_selections self
      (λ tf region,
        '(c, tf) ← move tf (caret region) caret_offset;
        '(t, tf) ← move tf (tail region) tail_offset;
        Ok ([region_new c t], tf)) (tf_new delta);
    Ok sel.

End selection.

(** ** The invariant *)

(** Sorted and not overlapping, from [lo] on. *)
Fixpoint regions_from (lo : Z) (rs : list SelRegion) : Prop :=
  match rs with
  | [] => True
  | r :: rs' => lo ≤ rmin r ∧ regions_from (rmax r + 1) rs'
  end.

(** Exactly the region with the index [m] carries the main flag. *)
Definition main_flags (m : Z) (rs : list SelRegion) : Prop :=
  ∀ i r, rs !! i = Some r → is_main r = (Z.of_nat i =? m).

Record selection_ok (max_size : Z) (s : Selection) : Prop := {
  sel_main_range : 0 ≤ main_selection s < zlen (regions s);
  sel_sorted : regions_from 0 (regions s);
  sel_bounded : Forall (λ r, rmax r ≤ max_size) (regions s);
  sel_flags : main_flags (main_selection s) (regions s);
}.

(** The same as a computation. *)
Fixpoint regions_fromb (lo : Z) (rs : list SelRegion) : bool :=
  match rs with
  | [] => true
  | r :: rs' => (lo <=? rmin r) && regions_fromb (rmax r + 1) rs'
  end.

Definition selection_okb (max_size : Z) (s : Selection) : bool :=
  (0 <=? main_selection s) && (main_selection s <? zlen (regions s)) &&
  regions_fromb 0 (regions s) &&
  forallb (λ r, rmax r <=? max_size) (regions s) &&
  forallb id (imap (λ i r, eqb (is_main r) (Z.of_nat i =? main_selection s)) (regions s)).

(** ** Lemmas on regions *)

Ltac region_lia :=
  unfold rmin, rmax, region_new, with_main, forward, backward in *; simpl in *;
  zcases; try lia.

Lemma rmin_le_rmax r : rmin r ≤ rmax r.
Proof. region_lia. Qed.

(** The three ways in which merging succeeds. *)
Lemma merge_inv a b m : merge a b = Ok m →
  is_main m = is_main a || is_main b ∧
  ((caret a = tail a ∧ caret b = tail b ∧ caret a = caret b ∧
    caret m = caret a ∧ tail m = tail a) ∨
   (tail a ≤ caret a ∧ tail b ≤ caret b ∧ (tail a < caret a ∨ tail b < caret b) ∧
    caret m = Z.max (caret a) (caret b) ∧ tail m = Z.min (tail a) (tail b)) ∨
   (caret a ≤ tail a ∧ caret b ≤ tail b ∧ (caret a < tail a ∨ caret b < tail b) ∧
    caret m = Z.min (caret a) (caret b) ∧ tail m = Z.max (tail a) (tail b))).
Proof.
  unfold merge, forward, backward.
  destruct a as [ac at_ am], b as [bc bt bm]; simpl.
  destruct (Z.leb_spec at_ ac), (Z.leb_spec bt bc), (Z.leb_spec ac at_), (Z.leb_spec bc bt);
    simpl; try done; try lia;
    try (destruct (Z.eqb_spec ac bc); [|done]);
    intros [= <-]; destruct am, bm; (split; [done|simpl; lia]).
Qed.

(** When merging succeeds it yields the hull of the two regions. *)
Lemma merge_hull a b m : merge a b = Ok m →
  rmin m = Z.min (rmin a) (rmin b) ∧ rmax m = Z.max (rmax a) (rmax b) ∧
  is_main m = is_main a || is_main b.
Proof. intros [Hm ?]%merge_inv. split_and!; [..|done]; region_lia. Qed.

(** Merging fails exactly for regions of opposite directions and for distinct
    cursors. *)
Definition mergeable (a b : SelRegion) : Prop :=
  ((tail a ≤ caret a ∧ tail b ≤ caret b) ∨ (caret a ≤ tail a ∧ caret b ≤ tail b)) ∧
  (caret a = tail a → caret b = tail b → caret a = caret b).

Lemma merge_Ok_iff a b : (∃ m, merge a b = Ok m) ↔ mergeable a b.
Proof.
  unfold merge, mergeable, forward, backward.
  destruct a as [ac at_ am], b as [bc bt bm]; simpl.
  destruct (Z.leb_spec at_ ac), (Z.leb_spec bt bc), (Z.leb_spec ac at_), (Z.leb_spec bc bt);
    simpl; try lia;
    try (split; [intros _; lia|intros _; eexists; done]);
    try (split; [intros [? [=]]|lia]).
  destruct (Z.eqb_spec ac bc); simpl.
  - split; [intros _; lia|intros _; eexists; done].
  - split; [intros [? [=]]|lia].
Qed.

(** The caret of a merged region lies between the carets, the tail between
    the tails. *)
Lemma merge_between a b m : merge a b = Ok m → caret a ≤ caret b → tail a ≤ tail b →
  caret a ≤ caret m ≤ caret b ∧ tail a ≤ tail m ≤ tail b.
Proof. intros [_ ?]%merge_inv ??. lia. Qed.

Lemma merge_forward a b m : merge a b = Ok m →
  tail a ≤ caret a → tail b ≤ caret b → tail m ≤ caret m.
Proof. intros [_ ?]%merge_inv ??. lia. Qed.

Lemma merge_backward a b m : merge a b = Ok m →
  caret a ≤ tail a → caret b ≤ tail b → caret m ≤ tail m.
Proof. intros [_ ?]%merge_inv ??. lia. Qed.

(** ** Lemmas on sorted regions *)

(** Where the next region may start. *)
Fixpoint regions_end (lo : Z) (rs : list SelRegion) : Z :=
  match rs with [] => lo | r :: rs' => regions_end (rmax r + 1) rs' end.

Lemma regions_from_app lo rs1 rs2 :
  regions_from lo (rs1 ++ rs2) ↔ regions_from lo rs1 ∧ regions_from (regions_end lo rs1) rs2.
Proof. revert lo. induction rs1 as [|r rs1 IH]; intros lo; simpl; [tauto|]. rewrite IH. tauto. Qed.

Lemma regions_from_weaken lo lo' rs : lo' ≤ lo → regions_from lo rs → regions_from lo' rs.
Proof. destruct rs; simpl; [done|]. intros ? [??]. split; [lia|done]. Qed.

Lemma regions_from_lookup lo rs i r : regions_from lo rs → rs !! i = Some r → lo ≤ rmin r.
Proof.
  revert lo i. induction rs as [|x rs IH]; intros lo [|i] Hr Hi; simplify_eq/=; [lia|].
  destruct Hr as [? Hr]. pose proof (rmin_le_rmax x). specialize (IH _ _ Hr Hi). lia.
Qed.

(** Earlier regions end before later ones start. *)
Lemma regions_from_lt lo rs i j a b : regions_from lo rs →
  rs !! i = Some a → rs !! j = Some b → (i < j)%nat → rmax a < rmin b.
Proof.
  revert lo i j. induction rs as [|x rs IH]; intros lo i j Hr Hi Hj Hij; [done|].
  destruct Hr as [? Hr], i as [|i], j as [|j]; simplify_eq/=; try lia.
  - pose proof (regions_from_lookup _ _ _ _ Hr Hj). lia.
  - by apply (IH _ i j Hr); [..|lia].
Qed.

Lemma regions_fromb_spec lo rs : regions_fromb lo rs = true ↔ regions_from lo rs.
Proof.
  revert lo. induction rs as [|r rs IH]; intros lo; simpl; [done|].
  by rewrite andb_true_iff, IH, Z.leb_le.
Qed.

Lemma main_flags_spec m rs :
  forallb id (imap (λ i r, eqb (is_main r) (Z.of_nat i =? m)) rs) = true ↔ main_flags m rs.
Proof.
  rewrite <-Is_true_true, forallb_True, Forall_lookup. unfold main_flags. split; intros Hf i r Hr.
  - specialize (Hf i (eqb (is_main r) (Z.of_nat i =? m))).
    rewrite list_lookup_imap, Hr in Hf. specialize (Hf eq_refl).
    by apply Is_true_true, eqb_prop in Hf.
  - rewrite list_lookup_imap in Hr. destruct (rs !! i) as [x|] eqn:E; simplify_eq/=.
    rewrite (Hf i x E). apply Is_true_true, eqb_reflx.
Qed.

(** The computed invariant is the invariant. *)
Lemma selection_okb_spec max_size s : selection_okb max_size s = true ↔ selection_ok max_size s.
Proof.
  unfold selection_okb. rewrite !andb_true_iff, main_flags_spec, regions_fromb_spec.
  rewrite <-(Is_true_true (forallb _ _)), forallb_True, Z.leb_le, Z.ltb_lt.
  assert (Forall (λ r, Is_true (rmax r <=? max_size)) (regions s) ↔
          Forall (λ r, rmax r ≤ max_size) (regions s)) as ->.
  { apply Forall_iff. intros r. by rewrite Is_true_true, Z.leb_le. }
  split; [intros ((([??]&?)&?)&?); by split|intros [[??]???]; done].
Qed.

#[export] Instance selection_ok_dec max_size s : Decision (selection_ok max_size s).
Proof.
  destruct (selection_okb max_size s) eqn:E; [left|right].
  - by apply selection_okb_spec.
  - by rewrite <-selection_okb_spec, E.
Defined.

(** A selection given by its (caret, tail) pairs and its main index, for
    concrete examples. *)
Definition selection_of (cts : list (Z * Z)) (m : Z) : Selection :=
  mkSelection (imap (λ i '(c, t), mkSelRegion c t (Z.of_nat i =? m)) cts) m.

(** Decide a closed instance of the invariant. *)
Ltac selection_ok_compute := apply selection_okb_spec; vm_compute; reflexivity.
