(* ===== verification/SelectionMap.v ===== *)
(** * SelectionMap: what [map_selections] preserves

    Every movement, extension and edit maps the regions of the selection one
    by one and merges a new region into the last one when they overlap.  This
    file proves the loop once, for any closure that yields one region per
    region, and instantiates it for the operations of
    [src/src/selection.rs]. *)

From S2P Require Import Prelude Masks XiRope XiRopeRef ByteRope Selection.

(** ** Pushing a region *)

Lemma push_region_nil r : push_region [] r = Ok [r].
Proof. done. Qed.

Lemma push_region_snoc out m r :
  push_region (out ++ [m]) r =
    if overlaps m r then m' ← merge m r; Ok (out ++ [m']) else Ok (out ++ [m] ++ [r]).
Proof. unfold push_region. rewrite last_snoc, removelast_last, <-app_assoc. done. Qed.

Definition covers (o r : SelRegion) : Prop := rmin o ≤ rmin r ∧ rmax r ≤ rmax o.

Lemma covers_refl r : covers r r.
Proof. unfold covers. lia. Qed.
Lemma covers_trans a b c : covers a b → covers b c → covers a c.
Proof. unfold covers. lia. Qed.
Lemma covers_with_main a b m : covers a b → covers (with_main a m) b.
Proof. done. Qed.

(** ** The loop, for one region per region *)

Section single.
Context `{Profile}.
Context {S : Type} (f : S → SelRegion → outcome (list SelRegion * S)) (P : S → Prop).
Context (g : SelRegion → SelRegion) (inp : SelRegion → Prop).
Context (J : SelRegion → SelRegion → Prop) (Q : SelRegion → Prop) (main_sel hi : Z).

(** [f] computes [g]; [J m r] relates the last region of the output to the
    last region that was read; every region of the output satisfies [Q]. *)
Hypothesis f_ok : ∀ s r, P s → inp r → ∃ s', f s r = Ok ([g r], s') ∧ P s'.
Hypothesis g_flag : ∀ r, inp r → is_main (g r) = true → is_main r = true.
Hypothesis J_start : ∀ r, inp r → J (g r) r ∧ 0 ≤ rmin (g r).
Hypothesis J_flag : ∀ m r b, J m r → J (with_main m b) r.
Hypothesis J_bound : ∀ m r, J m r → rmax m ≤ hi ∧ Q m.
Hypothesis J_step : ∀ m r r', J m r → inp r → inp r' → rmax r < rmin r' →
  rmin m ≤ rmin (g r') ∧
  (rmin (g r') ≤ rmax m → mergeable m (g r') ∧ ∀ m', merge m (g r') = Ok m' → J m' r').

(** Before the main region no output is marked; afterwards exactly the one
    that covers the image of the main region is. *)
Definition flag_inv (i nm : Z) (out : list SelRegion) (mr : SelRegion) : Prop :=
  (i ≤ main_sel ∧ Forall (λ r, is_main r = false) out) ∨
  (main_sel < i ∧ main_flags nm out ∧
   ∃ o, zlookup out nm = Some o ∧ covers o (g mr)).

Lemma main_flags_snoc nm out r : nm < zlen out → main_flags nm out → is_main r = false →
  main_flags nm (out ++ [r]).
Proof.
  intros Hn Hm Hr i x [Hi|[Hi Hx]]%lookup_app_Some; [by apply Hm|].
  apply list_lookup_singleton_Some in Hx as [Hi0 <-]. rewrite Hr. symmetry.
  apply Z.eqb_neq. unfold zlen in *. lia.
Qed.

Lemma main_flags_last nm out m m' : is_main m' = is_main m →
  main_flags nm (out ++ [m]) → main_flags nm (out ++ [m']).
Proof.
  intros He Hm i x [Hi|[Hi Hx]]%lookup_app_Some.
  - apply Hm. by apply lookup_app_l_Some.
  - apply list_lookup_singleton_Some in Hx as [Hi0 <-]. rewrite He. apply (Hm i).
    rewrite lookup_app_r, Hi0 by done. done.
Qed.

Lemma zlookup_snoc_l {A} (out : list A) x i : i < zlen out →
  zlookup (out ++ [x]) i = zlookup out i.
Proof. unfold zlookup, zlen. intros. zcases; [done|]. apply lookup_app_l. lia. Qed.

Lemma zlookup_snoc_r {A} (out : list A) x : zlookup (out ++ [x]) (zlen out) = Some x.
Proof.
  unfold zlookup, zlen. zcases. rewrite Nat2Z.id, lookup_app_r by lia.
  by rewrite Nat.sub_diag.
Qed.

Lemma regions_end_snoc lo out m : regions_end lo (out ++ [m]) = rmax m + 1.
Proof. revert lo. induction out as [|x out IH]; intros lo; simpl; [done|apply IH]. Qed.

(** One push: a new last region or one merged into the last. *)
Definition pushed (out0 : list SelRegion) (m r' : SelRegion) (out1 : list SelRegion)
    (m1 : SelRegion) : Prop :=
  (out1 = out0 ++ [m] ∧ m1 = g r') ∨ (out1 = out0 ∧ merge m (g r') = Ok m1).

Lemma push_ok out0 m r r' : J m r → inp r → inp r' → rmax r < rmin r' →
  regions_from 0 (out0 ++ [m]) → Forall (λ x, rmax x ≤ hi ∧ Q x) out0 →
  ∃ out1 m1, push_region (out0 ++ [m]) (g r') = Ok (out1 ++ [m1]) ∧
    pushed out0 m r' out1 m1 ∧ J m1 r' ∧
    regions_from 0 (out1 ++ [m1]) ∧ Forall (λ x, rmax x ≤ hi ∧ Q x) out1.
Proof.
  intros HJ Hr Hr' Hlt Hs Hb. destruct (J_step m r r') as [Hmin Hov]; [done..|].
  rewrite push_region_snoc. unfold overlaps.
  destruct (Z.leb_spec (rmin (g r')) (rmax m)) as [Hle|Hgt].
  - destruct (Hov Hle) as [[m' Hm']%merge_Ok_iff HJ'].
    exists out0, m'. rewrite Hm'. simpl. split_and!; [done|by right|auto| |done].
    apply merge_hull in Hm' as (Hmn & _).
    rewrite regions_from_app in Hs |- *. simpl in *. destruct Hs as (? & ? & _).
    split_and!; [done|lia|done].
  - exists (out0 ++ [m]), (g r'). simpl.
    split_and!; [by rewrite <-app_assoc|by left|by apply J_start| |].
    + rewrite regions_from_app, regions_end_snoc. simpl. split_and!; [done|lia|done].
    + apply Forall_app. split; [done|]. apply Forall_singleton. by apply (J_bound _ r).
Qed.

Lemma pushed_covers out0 m r' out1 m1 : pushed out0 m r' out1 m1 →
  covers m1 (g r') ∧ ∀ x, x ∈ out0 ++ [m] → ∃ o, o ∈ out1 ++ [m1] ∧ covers o x.
Proof.
  intros [[-> ->]|[-> Hm]].
  - split; [apply covers_refl|]. intros x Hx. exists x. split; [|apply covers_refl].
    apply elem_of_app. by left.
  - apply merge_hull in Hm as (? & ? & _). split; [unfold covers; lia|].
    intros x [Hx|Hx]%elem_of_app; [exists x|exists m1].
    + split; [apply elem_of_app; by left|apply covers_refl].
    + apply list_elem_of_singleton in Hx as ->.
      split; [apply elem_of_app; right; by left|unfold covers; lia].
Qed.

(** The state of the loop after a region has been processed. *)
Record loop_inv (i nm : Z) (out : list SelRegion) (r mr : SelRegion) (seen : list SelRegion) :
    Prop := {
  li_last : ∃ out0 m, out = out0 ++ [m] ∧ J m r ∧ Forall (λ x, rmax x ≤ hi ∧ Q x) out0;
  li_sorted : regions_from 0 out;
  li_flags : flag_inv i nm out mr;
  li_cover : ∀ x, x ∈ seen → ∃ o, o ∈ out ∧ covers o (g x);
}.

(** Marking the last region as main. *)
Definition mark (i nm : Z) (out : list SelRegion) : outcome (list SelRegion * Z) :=
  if i =? main_sel then
    new_main ← usub (zlen out) 1;
    l ← unwrap (last out);
    Ok (removelast out ++ [with_main l true], new_main)
  else Ok (out, nm).

Lemma mark_snoc i nm out m : zlen out < usize_max →
  mark i nm (out ++ [m]) =
    if i =? main_sel then Ok (out ++ [with_main m true], zlen out) else Ok (out ++ [m], nm).
Proof.
  intros Hl. unfold mark. destruct (i =? main_sel); [|done].
  pose proof (zlen_nonneg out). rewrite zlen_app, zlen_cons, zlen_nil.
  rewrite usub_ok by (unfold_usize; lia). simpl.
  rewrite last_snoc, removelast_last. simpl. do 2 f_equal. lia.
Qed.

Lemma main_flags_mark out m : Forall (λ x, is_main x = false) out →
  main_flags (zlen out) (out ++ [with_main m true]).
Proof.
  intros Hf i x [Hi|[Hi Hx]]%lookup_app_Some.
  - rewrite Forall_lookup in Hf. rewrite (Hf i x Hi). symmetry. apply Z.eqb_neq.
    apply lookup_lt_Some in Hi. unfold zlen. lia.
  - apply list_lookup_singleton_Some in Hx as [Hi0 <-]. simpl. symmetry. apply Z.eqb_eq.
    unfold zlen. lia.
Qed.

(** The flags after a push and the marking. *)
Lemma pushed_flags i nm out0 m r' out1 m1 mr :
  pushed out0 m r' out1 m1 → flag_inv i nm (out0 ++ [m]) mr → zlen out1 < usize_max →
  inp r' → is_main r' = (i =? main_sel) → (i = main_sel → r' = mr) →
  ∃ m2 nm', mark i nm (out1 ++ [m1]) = Ok (out1 ++ [m2], nm') ∧
    (m2 = m1 ∨ m2 = with_main m1 true) ∧ flag_inv (i + 1) nm' (out1 ++ [m2]) mr.
Proof.
  intros Hp Hfl Hlen Hin Hmr Hmain. rewrite mark_snoc by done.
  assert (i ≠ main_sel → is_main (g r') = false) as Hg.
  { intros Hne. destruct (is_main (g r')) eqn:E; [|done]. apply g_flag in E; [|done].
    rewrite Hmr in E. by apply Z.eqb_eq in E. }
  destruct Hfl as [[Hi Hf]|[Hi (Hf & o & Ho & Hco)]].
  - apply Forall_app in Hf as [Hf0 Hfm]. apply Forall_cons in Hfm as [Hfm _].
    destruct (Z.eqb_spec i main_sel) as [->|Hne].
    + exists (with_main m1 true), (zlen out1). split_and!; [done|by right|]. right.
      split; [lia|]. split.
      * apply main_flags_mark. destruct Hp as [[-> _]|[-> _]]; [|done].
        apply Forall_app. split; [done|]. constructor; [exact Hfm|constructor].
      * exists (with_main m1 true). rewrite zlookup_snoc_r. split; [done|].
        rewrite <-(Hmain eq_refl). by apply covers_with_main, (pushed_covers _ _ _ _ _ Hp).
    + exists m1, nm. split_and!; [done|by left|]. left. split; [lia|].
      apply Forall_app. destruct Hp as [[-> ->]|[-> Hm]]; rewrite !Forall_singleton.
      * rewrite Forall_app, Forall_singleton. auto.
      * apply merge_hull in Hm as (_ & _ & ->). rewrite Hfm, Hg by done. done.
  - destruct (Z.eqb_spec i main_sel) as [->|Hne]; [lia|].
    exists m1, nm. split_and!; [done|by left|]. right. split; [lia|].
    apply zlookup_Some in Ho as Ho'. destruct Ho' as [Hnm _].
    destruct Hp as [[-> ->]|[-> Hm]].
    + split; [apply main_flags_snoc; [lia|done|auto]|]. exists o. by rewrite zlookup_snoc_l by lia.
    + apply merge_hull in Hm as (? & ? & Hmm). rewrite Hg, orb_false_r in Hmm by done.
      split; [by apply (main_flags_last _ _ m)|].
      autorewrite with zlen in Hnm.
      destruct (Z.eq_dec nm (zlen out0)) as [->|].
      2: { rewrite zlookup_snoc_l in Ho by lia. exists o. by rewrite zlookup_snoc_l by lia. }
      rewrite zlookup_snoc_r in Ho. simplify_eq. exists m1. rewrite zlookup_snoc_r.
      split; [done|]. unfold covers in *. lia.
Qed.

(** One turn of the loop. *)
Lemma loop_step i nm out r r' mr seen s rest :
  loop_inv i nm out r mr seen → P s → inp r → inp r' → rmax r < rmin r' →
  zlen out + 1 < usize_max →
  is_main r' = (i =? main_sel) → (i = main_sel → r' = mr) →
  ∃ out' nm' s', map_loop f main_sel i (r' :: rest) s out nm =
      map_loop f main_sel (i + 1) rest s' out' nm' ∧
    loop_inv (i + 1) nm' out' r' mr (r' :: seen) ∧ P s' ∧ zlen out' ≤ zlen out + 1.
Proof.
  intros [(out0 & m & -> & HJ & Hb) Hs Hfl Hcov] HP Hr Hr' Hlt Hlen Hmr Hmain.
  destruct (f_ok s r' HP Hr') as (s' & Hfs & HP').
  destruct (push_ok out0 m r r') as (out1 & m1 & Hpush & Hpd & HJ1 & Hs1 & Hb1); [done..|].
  assert (zlen out1 ≤ zlen out0 + 1) as Hl1.
  { destruct Hpd as [[-> _]|[-> _]]; rewrite ?zlen_app, ?zlen_cons, ?zlen_nil; lia. }
  rewrite zlen_app, zlen_cons, zlen_nil in Hlen.
  destruct (pushed_flags i nm out0 m r' out1 m1 mr) as (m2 & nm' & Hmk & Hm2 & Hfl2);
    [done|done|lia|done..|].
  destruct (pushed_covers _ _ _ _ _ Hpd) as [Hc1 Hc2].
  assert (rmin m2 = rmin m1 ∧ rmax m2 = rmax m1) as [Hmn Hmx] by by destruct Hm2 as [->| ->].
  exists (out1 ++ [m2]), nm', s'. split_and!.
  - cbn [map_loop]. rewrite Hfs. simpl. rewrite Hpush. simpl.
    change (if i =? main_sel then _ else _) with (mark i nm (out1 ++ [m1])). by rewrite Hmk.
  - split; [exists out1, m2; split_and!; [done| |done]| |done|].
    + destruct Hm2 as [->| ->]; auto.
    + rewrite regions_from_app in *. simpl in *. by rewrite Hmn.
    + assert (∀ o x, o ∈ out1 ++ [m1] → covers o x → ∃ o', o' ∈ out1 ++ [m2] ∧ covers o' x) as Hup.
      { intros o x [Ho| ->%list_elem_of_singleton]%elem_of_app Hx.
        - exists o. split; [apply elem_of_app; by left|done].
        - exists m2. split; [apply elem_of_app; right; by left|unfold covers in *; lia]. }
      intros x [->|Hx]%elem_of_cons.
      * apply (Hup m1); [apply elem_of_app; right; by left|done].
      * destruct (Hcov x Hx) as (o & Ho & Hox). destruct (Hc2 o Ho) as (o' & Ho' & Hoo).
        apply (Hup o'); [done|]. by apply covers_trans with o.
  - done.
  - rewrite !zlen_app, !zlen_cons, !zlen_nil. lia.
Qed.

(** The first turn starts from an empty output. *)
Lemma loop_first nm r mr s rest : P s → inp r → is_main r = (0 =? main_sel) →
  (0 = main_sel → r = mr) → 0 ≤ main_sel →
  ∃ out' nm' s', map_loop f main_sel 0 (r :: rest) s [] nm =
      map_loop f main_sel 1 rest s' out' nm' ∧
    loop_inv 1 nm' out' r mr [r] ∧ P s' ∧ zlen out' = 1.
Proof.
  intros HP Hr Hmr Hmain Hms. destruct (f_ok s r HP Hr) as (s' & Hfs & HP').
  destruct (J_start r Hr) as [HJ H0].
  assert (∃ m2 nm', mark 0 nm ([] ++ [g r]) = Ok ([m2], nm') ∧
    (m2 = g r ∨ m2 = with_main (g r) true) ∧ flag_inv 1 nm' [m2] mr)
    as (m2 & nm' & Hmk & Hm2 & Hfl).
  { rewrite mark_snoc by done. destruct (Z.eqb_spec 0 main_sel) as [Hz|Hne].
    - exists (with_main (g r) true), 0. split_and!; [done|by right|]. right.
      split; [lia|]. split; [apply (main_flags_mark []); constructor|].
      exists (with_main (g r) true). split; [done|]. rewrite (Hmain Hz).
      apply covers_with_main, covers_refl.
    - exists (g r), nm. split_and!; [done|by left|]. left. split; [lia|].
      apply Forall_singleton. destruct (is_main (g r)) eqn:E; [|done].
      apply g_flag in E; [|done]. congruence. }
  exists [m2], nm', s'. split_and!; [|split|done|done].
  - cbn [map_loop]. rewrite Hfs. cbn [mbind outcome_bind foldM].
    rewrite push_region_nil. cbn [mbind outcome_bind].
    change (if 0 =? main_sel then _ else _) with (mark 0 nm ([] ++ [g r])). by rewrite Hmk.
  - exists [], m2. split_and!; [done| |constructor]. destruct Hm2 as [->| ->]; auto.
  - simpl. split; [|done]. by destruct Hm2 as [->| ->].
  - done.
  - intros x ->%list_elem_of_singleton. exists m2. split; [by left|].
    destruct Hm2 as [->| ->]; [|apply covers_with_main]; apply covers_refl.
Qed.

Lemma loop_rest rs i nm out r mr seen s :
  loop_inv i nm out r mr seen → P s → regions_from (rmax r + 1) rs → Forall inp (r :: rs) →
  zlen out + zlen rs < usize_max →
  (∀ k x, rs !! k = Some x → is_main x = (i + Z.of_nat k =? main_sel) ∧
    (i + Z.of_nat k = main_sel → x = mr)) →
  ∃ out' nm' s' rl, map_loop f main_sel i rs s out nm = Ok (out', nm', s') ∧
    loop_inv (i + zlen rs) nm' out' rl mr (reverse rs ++ seen) ∧ P s'.
Proof.
  revert i nm out r seen s.
  induction rs as [|r' rs IH]; intros i nm out r seen s Hinv HP Hrs Hin Hlen Hk.
  - exists out, nm, s, r. rewrite zlen_nil, Z.add_0_r. done.
  - apply Forall_cons in Hin as [Hr Hin]. destruct Hrs as [Hlt Hrs].
    rewrite zlen_cons in *. pose proof (zlen_nonneg rs).
    destruct (Hk 0%nat r' eq_refl) as [Hm0 Hmr0]. rewrite Z.add_0_r in *.
    destruct (loop_step i nm out r r' mr seen s rs) as (out1 & nm1 & s1 & -> & Hinv1 & HP1 & Hl1);
      [done..|by apply Forall_cons in Hin as [??]|lia|lia|done|done|].
    destruct (IH (i + 1) nm1 out1 r' (r' :: seen) s1) as (out' & nm' & s' & rl & -> & Hinv' & HP');
      [done..|lia| |].
    + intros k x Hx. destruct (Hk (Datatypes.S k) x Hx) as [-> Hmr].
      replace (i + 1 + Z.of_nat k) with (i + Z.of_nat (Datatypes.S k)) by lia. done.
    + exists out', nm', s', rl. split_and!; [done| |done].
      replace (i + (1 + zlen rs)) with (i + 1 + zlen rs) by lia.
      by rewrite reverse_cons, <-app_assoc.
Qed.

End single.

(** Disjoint regions up to [hi] are at most [hi + 1] many. *)
Lemma regions_count lo hi rs : regions_from lo rs → Forall (λ r, rmax r ≤ hi) rs →
  lo ≤ hi + 1 → zlen rs ≤ hi + 1 - lo.
Proof.
  revert lo. induction rs as [|r rs IH]; intros lo Hrs Hb Hlo.
  - rewrite zlen_nil. lia.
  - apply Forall_cons in Hb as [? Hb]. destruct Hrs as [? Hrs].
    pose proof (rmin_le_rmax r). rewrite zlen_cons. specialize (IH _ Hrs Hb). lia.
Qed.

(** ** The theorem on [map_selections] *)

(** The result is again sorted, disjoint and within [hi]; exactly one region
    is main and it covers the image of the old main region; the image of
    every region is covered. *)
Record mapped (hi : Z) (Q : SelRegion → Prop) (g : SelRegion → SelRegion)
    (sel sel' : Selection) : Prop := {
  mapped_ok : selection_ok hi sel';
  mapped_all : Forall Q (regions sel');
  mapped_main : ∃ mr o, main_region sel = Ok mr ∧ main_region sel' = Ok o ∧ covers o (g mr);
  mapped_cover : ∀ x, x ∈ regions sel → ∃ o, o ∈ regions sel' ∧ covers o (g x);
}.

Lemma map_selections_single `{Profile} {S} (f : S → SelRegion → outcome (list SelRegion * S))
    (P : S → Prop) (g : SelRegion → SelRegion) (inp : SelRegion → Prop)
    (J : SelRegion → SelRegion → Prop) (Q : SelRegion → Prop)
    (max_size hi : Z) (sel : Selection) (s : S) :
  (∀ s r, P s → inp r → ∃ s', f s r = Ok ([g r], s') ∧ P s') →
  (∀ r, inp r → is_main (g r) = true → is_main r = true) →
  (∀ r, inp r → J (g r) r ∧ 0 ≤ rmin (g r)) →
  (∀ m r b, J m r → J (with_main m b) r) →
  (∀ m r, J m r → rmax m ≤ hi ∧ Q m) →
  (∀ m r r', J m r → inp r → inp r' → rmax r < rmin r' →
    rmin m ≤ rmin (g r') ∧
    (rmin (g r') ≤ rmax m → mergeable m (g r') ∧ ∀ m', merge m (g r') = Ok m' → J m' r')) →
  selection_ok max_size sel → max_size < two63 → Forall inp (regions sel) → P s →
  ∃ sel' s', map_selections sel f s = Ok (sel', s') ∧ P s' ∧ mapped hi Q g sel sel'.
Proof.
  intros Hf Hg HJ0 HJf HJb HJs [Hm Hs Hb Hfl] Hmax Hin HP.
  destruct (zlookup_lt (regions sel) (main_selection sel) Hm) as [mr Hmr].
  assert (zlen (regions sel) ≤ Z.max 0 (max_size + 1)) as Hcount.
  { destruct (Z.le_gt_cases 0 (max_size + 1)).
    - pose proof (regions_count 0 max_size _ Hs Hb). lia.
    - destruct (regions sel) as [|r rs]; [rewrite zlen_nil; lia|].
      apply Forall_cons in Hb as [? _]. destruct Hs as [? _]. pose proof (rmin_le_rmax r). lia. }
  destruct (regions sel) as [|r rs] eqn:Ers; [unfold zlen in Hm; simpl in Hm; lia|].
  destruct Hs as [Hr0 Hs]. apply zlookup_Some in Hmr as Hmr'. destruct Hmr' as [_ Hmr'].
  assert (∀ k x, (r :: rs) !! k = Some x → is_main x = (Z.of_nat k =? main_selection sel) ∧
    (Z.of_nat k = main_selection sel → x = mr)) as Hk.
  { intros k x Hx. split; [by apply Hfl|]. intros Hkm. rewrite <-Hkm, Nat2Z.id in Hmr'. congruence. }
  destruct (Hk 0%nat r eq_refl) as [Hm0 Hmr0].
  destruct (loop_first f P g inp J Q (main_selection sel) hi Hf Hg HJ0 HJf 0 r mr s rs)
    as (out1 & nm1 & s1 & Hl1 & Hinv1 & HP1 & Hlen1);
    [done|by apply Forall_cons in Hin as [??]|done|done|lia|].
  rewrite zlen_cons in *.
  destruct (loop_rest f P g inp J Q (main_selection sel) hi Hf Hg HJ0 HJf HJb HJs rs 1 nm1 out1 r mr [r] s1)
    as (out & nm & s' & rl & Hl & [(out0 & m & -> & HJl & Hb0) Hsorted Hflags Hcov] & HP');
    [done|done|done|done|unfold_usize; lia| |].
  { intros k x Hx. specialize (Hk (Datatypes.S k) x Hx).
    replace (1 + Z.of_nat k) with (Z.of_nat (Datatypes.S k)) by lia. done. }
  destruct Hflags as [[? _]|(_ & Hmf & o & Ho & Hco)]; [lia|].
  assert (Forall (λ x, rmax x ≤ hi ∧ Q x) (out0 ++ [m])) as Hall.
  { apply Forall_app. split; [done|]. apply Forall_singleton. by apply (HJb _ rl). }
  exists (mkSelection (out0 ++ [m]) nm), s'. split_and!; [|done|split].
  - unfold map_selections. rewrite Ers, Hl1, Hl. done.
  - apply zlookup_Some in Ho as [? _]. split; simpl; [done|done| |done].
    eapply Forall_impl; [exact Hall|]. by intros x [??].
  - eapply Forall_impl; [exact Hall|]. by intros x [??].
  - exists mr, o. unfold main_region. rewrite Ers. simpl. by rewrite !vec_index_Ok.
  - rewrite Ers. intros x Hx. destruct (Hcov x) as (o' & ? & ?); [|by exists o'].
    apply elem_of_app. apply elem_of_cons in Hx as [->|Hx]; [right; by left|left].
    by apply elem_of_reverse.
Qed.

(** ** Instances of the obligations *)

Section instances.
Context `{Profile}.
Context {S : Type} (f : S → SelRegion → outcome (list SelRegion * S)) (P : S → Prop).
Context (max_size hi : Z) (sel : Selection) (s : S).
Context (sel_ok : selection_ok max_size sel) (max_ok : max_size < two63) (P_s : P s).

(** What the closure computes on the regions of the selection. *)
Context (g : SelRegion → SelRegion) (inp : SelRegion → Prop).
Context (inp_ok : Forall inp (regions sel)).
Context (f_ok : ∀ s r, P s → inp r → ∃ s', f s r = Ok ([g r], s') ∧ P s').

(** Every region becomes a cursor, and the cursors keep their order. *)
Lemma map_selections_cursor (c : SelRegion → Z) :
  (∀ r, inp r → g r = region_new (c r) (c r) ∧ 0 ≤ c r ≤ hi) →
  (∀ r r', inp r → inp r' → rmax r < rmin r' → c r ≤ c r') →
  ∃ sel' s', map_selections sel f s = Ok (sel', s') ∧ P s' ∧ mapped hi (λ o, caret o = tail o) g sel sel'.
Proof.
  intros Hg Hc.
  apply (map_selections_single f P g inp (λ m r, caret m = c r ∧ tail m = c r ∧ c r ≤ hi) _ max_size);
    try done.
  - intros r Hr Hm. destruct (Hg r Hr) as [Hgr _]. by rewrite Hgr in Hm.
  - intros r Hr. destruct (Hg r Hr) as [-> ?]. region_lia.
  - intros m r ?. region_lia.
  - intros m r r' (Hm & Ht & ?) Hr Hr' Hlt. destruct (Hg r' Hr') as [-> ?].
    pose proof (Hc r r' Hr Hr' Hlt). split; [region_lia|]. intros Hov.
    split; [unfold mergeable; region_lia|].
    intros m' [_ ?]%merge_inv. region_lia.
Qed.

(** Every region stays within its old extent: nothing is ever merged. *)
Lemma map_selections_inside :
  (∀ r, inp r → rmin r ≤ rmin (g r) ∧ rmax (g r) ≤ rmax r ∧ 0 ≤ rmin r ∧ rmax r ≤ hi) →
  (∀ r, inp r → is_main (g r) = true → is_main r = true) →
  ∃ sel' s', map_selections sel f s = Ok (sel', s') ∧ P s' ∧ mapped hi (λ _, True) g sel sel'.
Proof.
  intros Hg Hf.
  apply (map_selections_single f P g inp (λ m r, rmax m ≤ rmax r ∧ rmax r ≤ hi) _ max_size); try done.
  - intros r Hr. specialize (Hg r Hr). lia.
  - intros m r ?. split; [lia|tauto].
  - intros m r r' [? ?] Hr Hr' Hlt. pose proof (Hg r' Hr'). pose proof (rmin_le_rmax m).
    split; [lia|]. lia.
Qed.

(** All regions point the same way and keep their order; touching ones are
    merged. *)
Lemma map_selections_uniform (fwd : bool) :
  (∀ r, inp r → 0 ≤ rmin (g r) ∧ rmax (g r) ≤ hi ∧ is_main (g r) = false ∧
    (if fwd then tail (g r) ≤ caret (g r) else caret (g r) ≤ tail (g r))) →
  (∀ r r', inp r → inp r' → rmax r < rmin r' → rmax (g r) ≤ rmin (g r')) →
  ∃ sel' s', map_selections sel f s = Ok (sel', s') ∧ P s' ∧ 
    mapped hi (λ o, if fwd then tail o ≤ caret o else caret o ≤ tail o) g sel sel'.
Proof.
  intros Hg Hc.
  apply (map_selections_single f P g inp (λ m r, rmax m ≤ rmax (g r) ∧ rmax (g r) ≤ hi ∧
    if fwd then tail m ≤ caret m else caret m ≤ tail m) _ max_size); try done.
  - intros r Hr Hm. destruct (Hg r Hr) as (_ & _ & Hgr & _). congruence.
  - intros r Hr. destruct (Hg r Hr) as (? & ? & ? & ?). done.
  - intros m r ?. split; [lia|tauto].
  - intros m r r' (Hm & Hhi & Hd) Hr Hr' Hlt. destruct (Hg r' Hr') as (? & ? & ? & Hd').
    pose proof (Hc r r' Hr Hr' Hlt). pose proof (rmin_le_rmax m). split; [lia|]. intros Hov.
    split; [unfold mergeable; destruct fwd; region_lia|].
    intros m' Hm'. pose proof (merge_hull _ _ _ Hm') as (_ & ? & _).
    pose proof (merge_forward _ _ _ Hm'). pose proof (merge_backward _ _ _ Hm').
    pose proof (rmin_le_rmax (g r')). destruct fwd; split_and!; auto; lia.
Qed.

(** The tails stay, the carets keep their order, and two carets meet only at
    an end of the document. *)
Lemma map_selections_extend (c : SelRegion → Z) :
  (∀ r, inp r → g r = region_new (c r) (tail r) ∧ 0 ≤ c r ≤ hi ∧ 0 ≤ tail r ≤ hi) →
  (∀ r r', inp r → inp r' → rmax r < rmin r' →
    c r ≤ c r' ∧ (c r = c r' → c r = 0 ∨ c r = hi)) →
  ∃ sel' s', map_selections sel f s = Ok (sel', s') ∧ P s' ∧ mapped hi (λ _, True) g sel sel'.
Proof.
  intros Hg Hc.
  apply (map_selections_single f P g inp
    (λ m r, caret m ≤ c r ∧ tail m ≤ rmax r ∧ 0 ≤ rmin m ∧ rmax m ≤ hi) _ max_size); try done.
  - intros r Hr Hm. destruct (Hg r Hr) as [Hgr _]. by rewrite Hgr in Hm.
  - intros r Hr. destruct (Hg r Hr) as [-> ?]. region_lia.
  - intros m r ?. split; [lia|tauto].
  - intros m r r' (Hm & Ht & ? & ?) Hr Hr' Hlt. destruct (Hg r' Hr') as [-> ?].
    destruct (Hc r r' Hr Hr' Hlt) as [Hle Heq]. split; [region_lia|]. intros Hov.
    split.
    { unfold mergeable. region_lia. }
    intros m' Hm'. pose proof (merge_hull _ _ _ Hm') as (? & ? & _).
    apply merge_between in Hm'; region_lia.
Qed.

End instances.
