(* ===== verification/SelectionMoves.v ===== *)
(** * SelectionMoves: movements and extensions of a selection

    The closures that the normal, insert and jump modes hand to
    [map_selections], with what the resulting selection is.  The definitions
    are those of [Selection]; [move_target] is the specification of the four
    directions. *)

From S2P Require Import Prelude Masks XiRope XiRopeRef ByteRope Selection SelectionMap.

(** Where the caret should go, in unbounded arithmetic. *)
Definition move_target (direction : Direction) (bytes_per_line max_size count c : Z) : Z :=
  match direction with
  | Up => Z.max 0 (c - bytes_per_line * count)
  | Down => Z.min max_size (c + bytes_per_line * count)
  | Left => Z.max 0 (c - count)
  | Right => Z.min max_size (c + count)
  end.

(** The first byte of the caret's line, its last one, and the two ends of the
    document. *)
Definition boundary_target (direction : Direction) (bytes_per_line max_size c : Z) : Z :=
  match direction with
  | Up => 0
  | Down => max_size - 1
  | Left => c / bytes_per_line * bytes_per_line
  | Right => Z.min ((c / bytes_per_line + 1) * bytes_per_line - 1) (max_size - 1)
  end.

Section moves.
Context `{Profile}.

(** The arguments of a movement for which no intermediate value overflows. *)
Record move_fits (bytes_per_line max_size count : Z) : Prop := {
  mf_max : 0 ≤ max_size < two63;
  mf_line : 0 ≤ bytes_per_line < two63;
  mf_count : 0 ≤ count < two63;
  mf_sum : max_size + bytes_per_line * count ≤ usize_max;
}.

Lemma moved_caret_spec r direction bytes_per_line max_size count :
  move_fits bytes_per_line max_size count → 0 ≤ caret r ≤ max_size →
  moved_caret r direction bytes_per_line max_size count =
    Ok (move_target direction bytes_per_line max_size count (caret r)).
Proof.
  intros [Hm Hl Hc Hs] Hr. pose proof (Z.mul_nonneg_nonneg bytes_per_line count).
  unfold moved_caret, move_target, isize_saturating_mul, usize_saturating_mul.
  rewrite !as_isize_small by (unfold_usize; lia).
  destruct direction; simpl; unfold_usize.
  - rewrite isub_ok by (unfold_usize; lia). simpl. f_equal.
    rewrite as_usize_small by (unfold_usize; lia). lia.
  - rewrite uadd_ok by (unfold_usize; lia). simpl. f_equal. lia.
  - rewrite isub_ok by (unfold_usize; lia). simpl. f_equal.
    rewrite as_usize_small by (unfold_usize; lia). lia.
  - rewrite uadd_ok by (unfold_usize; lia). done.
Qed.

Lemma move_target_range direction bytes_per_line max_size count c :
  0 ≤ bytes_per_line → 0 ≤ count → 0 ≤ c ≤ max_size →
  0 ≤ move_target direction bytes_per_line max_size count c ≤ max_size.
Proof.
  intros Hl Hc Hr. pose proof (Z.mul_nonneg_nonneg bytes_per_line count Hl Hc).
  destruct direction; simpl; lia.
Qed.

(** Movement keeps the order of carets, and lets two of them meet only at an
    end of the document. *)
Lemma move_target_mono direction bytes_per_line max_size count c c' :
  0 ≤ bytes_per_line → 0 ≤ count → 0 ≤ c → c < c' ≤ max_size →
  let t := move_target direction bytes_per_line max_size count in
  t c ≤ t c' ∧ (t c = t c' → t c = 0 ∨ t c = max_size).
Proof.
  intros Hl Hc H0 Hr. pose proof (Z.mul_nonneg_nonneg bytes_per_line count Hl Hc).
  destruct direction; simpl; lia.
Qed.

Lemma selection_ok_regions max_size sel : selection_ok max_size sel →
  Forall (λ r, 0 ≤ rmin r ∧ rmax r ≤ max_size) (regions sel).
Proof.
  intros [_ Hs Hb _]. apply Forall_forall. intros r [i Hi]%list_elem_of_lookup.
  split; [by apply (regions_from_lookup _ _ i _ Hs)|].
  rewrite Forall_forall in Hb. apply Hb. by apply list_elem_of_lookup_2 with i.
Qed.

(** An empty document has one region at offset 0, and everything stays. *)
Lemma map_selections_empty_doc f sel :
  (∀ r, f r = Ok r) → selection_ok 0 sel →
  ∃ sel', map_selections sel (one_region f) tt = Ok (sel', tt) ∧
    mapped 0 (λ _, True) id sel sel'.
Proof.
  intros Hf Hok. destruct (map_selections_inside (one_region f) (λ _, True) 0 0 sel tt Hok
    ltac:(done) I id (λ r, 0 ≤ rmin r ∧ rmax r ≤ 0)) as (sel' & [] & Hm & _ & Hmap).
  - by apply selection_ok_regions.
  - intros [] r _ _. exists tt. unfold one_region. by rewrite Hf.
  - unfold id. intros r ?. lia.
  - done.
  - by exists sel'.
Qed.

Lemma simple_move_ok direction bytes_per_line max_size count sel :
  move_fits bytes_per_line max_size count → max_size ≠ 0 → selection_ok max_size sel →
  let t := move_target direction bytes_per_line max_size count in
  ∃ sel', map_selections sel
      (one_region (λ r, simple_move r direction bytes_per_line max_size count)) tt = Ok (sel', tt) ∧
    mapped max_size (λ o, caret o = tail o)
      (λ r, region_new (t (caret r)) (t (caret r))) sel sel'.
Proof.
  intros Hfit Hne Hok t. destruct Hfit as [Hm Hl Hc Hs] eqn:E. clear E.
  destruct (map_selections_cursor
    (one_region (λ r, simple_move r direction bytes_per_line max_size count)) (λ _, True)
    max_size max_size sel tt Hok ltac:(lia) I
    (λ r, region_new (t (caret r)) (t (caret r))) (λ r, 0 ≤ rmin r ∧ rmax r ≤ max_size)
    (selection_ok_regions _ _ Hok)) with (c := λ r, t (caret r)) as (sel' & [] & Hmap & _ & ?).
  - intros [] r _ Hr. exists tt. split; [|done]. unfold one_region, simple_move.
    destruct (Z.eqb_spec max_size 0); [done|].
    rewrite moved_caret_spec by (done || region_lia). done.
  - intros r Hr. split; [done|]. apply move_target_range; region_lia.
  - intros r r' Hr Hr' Hlt. apply move_target_mono; region_lia.
  - by exists sel'.
Qed.

Lemma simple_extend_ok direction bytes_per_line max_size count sel :
  move_fits bytes_per_line max_size count → max_size ≠ 0 → selection_ok max_size sel →
  let t := move_target direction bytes_per_line max_size count in
  ∃ sel', map_selections sel
      (one_region (λ r, simple_extend r direction bytes_per_line max_size count)) tt = Ok (sel', tt) ∧
    mapped max_size (λ _, True) (λ r, region_new (t (caret r)) (tail r)) sel sel'.
Proof.
  intros Hfit Hne Hok t. destruct Hfit as [Hm Hl Hc Hs] eqn:E. clear E.
  destruct (map_selections_extend
    (one_region (λ r, simple_extend r direction bytes_per_line max_size count)) (λ _, True)
    max_size max_size sel tt Hok ltac:(lia) I
    (λ r, region_new (t (caret r)) (tail r)) (λ r, 0 ≤ rmin r ∧ rmax r ≤ max_size)
    (selection_ok_regions _ _ Hok)) with (c := λ r, t (caret r)) as (sel' & [] & Hmap & _ & ?).
  - intros [] r _ Hr. exists tt. split; [|done]. unfold one_region, simple_extend.
    destruct (Z.eqb_spec max_size 0); [done|].
    rewrite moved_caret_spec by (done || region_lia). done.
  - intros r Hr. split; [done|split; [apply move_target_range|]; region_lia].
  - intros r r' Hr Hr' Hlt. apply move_target_mono; region_lia.
  - by exists sel'.
Qed.

Lemma boundary_caret_spec r direction bytes_per_line max_size :
  0 < bytes_per_line < two63 → 1 ≤ max_size < two63 → 0 ≤ caret r ≤ max_size →
  boundary_caret r direction bytes_per_line max_size =
    Ok (boundary_target direction bytes_per_line max_size (caret r)).
Proof.
  intros Hl Hm Hc. unfold boundary_caret, boundary_target.
  pose proof (Z.mod_pos_bound (caret r) bytes_per_line ltac:(lia)).
  pose proof (Z.mod_le (caret r) bytes_per_line ltac:(lia) ltac:(lia)).
  pose proof (Z.div_mod (caret r) bytes_per_line ltac:(lia)).
  destruct direction; simpl; [done|..]; arith_ok; simpl; arith_ok; simpl; arith_ok; simpl;
    arith_ok; simpl; arith_ok; simpl; rewrite ?as_usize_small; f_equal; try lia.
Qed.

Lemma boundary_target_range direction bytes_per_line max_size c :
  0 < bytes_per_line → 1 ≤ max_size → 0 ≤ c ≤ max_size →
  0 ≤ boundary_target direction bytes_per_line max_size c ≤ max_size.
Proof.
  intros Hl Hm Hc. pose proof (Z.div_mod c bytes_per_line ltac:(lia)).
  pose proof (Z.mod_pos_bound c bytes_per_line ltac:(lia)).
  pose proof (Z.div_pos c bytes_per_line ltac:(lia) ltac:(lia)).
  destruct direction; simpl; try lia; nia.
Qed.

Lemma boundary_target_mono direction bytes_per_line max_size c c' :
  0 < bytes_per_line → c ≤ c' →
  boundary_target direction bytes_per_line max_size c ≤
  boundary_target direction bytes_per_line max_size c'.
Proof.
  intros Hl Hc. pose proof (Z.div_le_mono c c' bytes_per_line Hl Hc).
  destruct direction; simpl; try lia; nia.
Qed.

Lemma jump_to_boundary_ok direction bytes_per_line max_size sel :
  0 < bytes_per_line < two63 → 1 ≤ max_size < two63 → selection_ok max_size sel →
  let t := boundary_target direction bytes_per_line max_size in
  ∃ sel', map_selections sel
      (one_region (λ r, jump_to_boundary r direction bytes_per_line max_size)) tt = Ok (sel', tt) ∧
    mapped max_size (λ o, caret o = tail o)
      (λ r, region_new (t (caret r)) (t (caret r))) sel sel'.
Proof.
  intros Hl Hm Hok t.
  destruct (map_selections_cursor
    (one_region (λ r, jump_to_boundary r direction bytes_per_line max_size)) (λ _, True)
    max_size max_size sel tt Hok ltac:(lia) I
    (λ r, region_new (t (caret r)) (t (caret r))) (λ r, 0 ≤ rmin r ∧ rmax r ≤ max_size)
    (selection_ok_regions _ _ Hok)) with (c := λ r, t (caret r)) as (sel' & [] & Hmap & _ & ?).
  - intros [] r _ Hr. exists tt. split; [|done]. unfold one_region, jump_to_boundary.
    destruct (Z.eqb_spec max_size 0); [lia|].
    rewrite boundary_caret_spec by (done || region_lia). done.
  - intros r Hr. split; [done|]. apply boundary_target_range; region_lia.
  - intros r r' Hr Hr' Hlt. apply boundary_target_mono; region_lia.
  - by exists sel'.
Qed.

(** A closure that keeps every region within its extent. *)
Lemma inside_ok (f : SelRegion → SelRegion) max_size sel :
  (∀ r, rmin r ≤ rmin (f r) ∧ rmax (f r) ≤ rmax r ∧ is_main (f r) = false) →
  max_size < two63 → selection_ok max_size sel →
  ∃ sel', map_selections sel (one_region (λ r, Ok (f r))) tt = Ok (sel', tt) ∧
    mapped max_size (λ _, True) f sel sel'.
Proof.
  intros Hf Hm Hok.
  destruct (map_selections_inside (one_region (λ r, Ok (f r))) (λ _, True) max_size max_size
    sel tt Hok Hm I f (λ r, 0 ≤ rmin r ∧ rmax r ≤ max_size) (selection_ok_regions _ _ Hok))
    as (sel' & [] & Hmap & _ & ?).
  - intros [] r _ _. by exists tt.
  - intros r ?. specialize (Hf r). lia.
  - intros r _. destruct (Hf r) as (_ & _ & ->). done.
  - by exists sel'.
Qed.

(** What entering append mode does to a region: the caret goes one past the
    last selected byte. *)
Lemma append_ok bytes_per_line max_size sel :
  0 ≤ bytes_per_line < two63 → 1 ≤ max_size < two63 - bytes_per_line → selection_ok max_size sel →
  ∃ sel', map_selections sel
      (one_region (λ r, simple_extend (to_forward r) Right bytes_per_line max_size 1)) tt
        = Ok (sel', tt) ∧
    mapped max_size (λ o, tail o ≤ caret o)
      (λ r, region_new (Z.min max_size (rmax r + 1)) (rmin r)) sel sel'.
Proof.
  intros Hl Hm Hok.
  assert (move_fits bytes_per_line max_size 1) as Hfit by (split; unfold_usize; lia).
  destruct (map_selections_uniform
    (one_region (λ r, simple_extend (to_forward r) Right bytes_per_line max_size 1)) (λ _, True)
    max_size max_size sel tt Hok ltac:(lia) I
    (λ r, region_new (Z.min max_size (rmax r + 1)) (rmin r)) (λ r, 0 ≤ rmin r ∧ rmax r ≤ max_size)
    (selection_ok_regions _ _ Hok)) with (fwd := true) as (sel' & [] & Hmap & _ & ?).
  - intros [] r _ Hr. exists tt. split; [|done]. unfold one_region, simple_extend.
    destruct (Z.eqb_spec max_size 0); [lia|].
    rewrite moved_caret_spec; [done|done|]. pose proof (rmin_le_rmax r). simpl. lia.
  - intros r Hr. pose proof (rmin_le_rmax r). split_and!; region_lia.
  - intros r r' Hr Hr' Hlt. region_lia.
  - by exists sel'.
Qed.

End moves.
