(* ===== verification/SelectionQueries.v ===== *)
(** * SelectionQueries: the main region, range queries and splitting

    Cycling, removing and keeping the main region; the binary search behind
    [regions_in_range], which decides what is drawn; and the splitting of a
    region at a match. *)

From S2P Require Import Prelude Masks XiRope XiRopeRef ByteRope Selection SelectionMap.

(** The regions with the main flag moved to index [m]. *)
Definition relabel (m : Z) (rs : list SelRegion) : list SelRegion :=
  imap (λ i r, with_main r (Z.of_nat i =? m)) rs.

Lemma relabel_lookup m rs i :
  relabel m rs !! i = (λ r, with_main r (Z.of_nat i =? m)) <$> rs !! i.
Proof. apply list_lookup_imap. Qed.

Lemma relabel_flags m rs : main_flags m (relabel m rs).
Proof. intros i r. rewrite relabel_lookup. destruct (rs !! i); [by intros [= <-]|done]. Qed.

Lemma relabel_id m rs : main_flags m rs → relabel m rs = rs.
Proof.
  intros Hm. apply list_eq. intros i. rewrite relabel_lookup.
  destruct (rs !! i) as [r|] eqn:E; [|done]. simpl. rewrite <-(Hm i r E). by destruct r.
Qed.

Lemma relabel_relabel m m' rs : relabel m (relabel m' rs) = relabel m rs.
Proof.
  apply list_eq. intros i. rewrite !relabel_lookup. destruct (rs !! i); done.
Qed.

Lemma zlen_relabel m rs : zlen (relabel m rs) = zlen rs.
Proof. unfold zlen, relabel. by rewrite length_imap. Qed.

Lemma relabel_from m lo rs : regions_from lo (relabel m rs) ↔ regions_from lo rs.
Proof.
  unfold relabel.
  assert (∀ (h : nat → bool), regions_from lo (imap (λ i r, with_main r (h i)) rs) ↔
    regions_from lo rs) as Hh; [|apply (Hh (λ i, Z.of_nat i =? m))].
  revert lo. induction rs as [|r rs IH]; intros lo h; simpl; [done|].
  change (rmin (with_main r (h 0%nat))) with (rmin r).
  change (rmax (with_main r (h 0%nat))) with (rmax r).
  by rewrite (IH _ (λ i, h (S i))).
Qed.

Lemma relabel_bounded m hi rs :
  Forall (λ r, rmax r ≤ hi) rs → Forall (λ r, rmax r ≤ hi) (relabel m rs).
Proof.
  rewrite !Forall_lookup. intros Hb i r. rewrite relabel_lookup.
  destruct (rs !! i) as [x|] eqn:E; [|done]. intros [= <-]. exact (Hb i x E).
Qed.

Lemma relabel_ok max_size sel m : selection_ok max_size sel → 0 ≤ m < zlen (regions sel) →
  selection_ok max_size (mkSelection (relabel m (regions sel)) m).
Proof.
  intros [? Hs Hb _] Hm. split; simpl.
  - by rewrite zlen_relabel.
  - by apply relabel_from.
  - by apply relabel_bounded.
  - apply relabel_flags.
Qed.

Lemma vec_update_ok {A} (l : list A) i h : 0 ≤ i < zlen l →
  ∃ a, l !! Z.to_nat i = Some a ∧ vec_update l i h = Ok (<[Z.to_nat i := h a]> l).
Proof.
  intros Hi. destruct (zlookup_lt l i Hi) as [a Ha]. exists a.
  apply zlookup_Some in Ha as Ha'. split; [tauto|].
  unfold vec_update, vec_index. by rewrite Ha.
Qed.

(** Clearing the old main flag and setting the new one is relabelling. *)
Lemma switch_main rs m m' : main_flags m rs → 0 ≤ m < zlen rs → 0 ≤ m' < zlen rs →
  (rs1 ← vec_update rs m (λ r, with_main r false); vec_update rs1 m' (λ r, with_main r true))
  = Ok (relabel m' rs).
Proof.
  intros Hf Hm Hm'.
  destruct (vec_update_ok rs m (λ r, with_main r false) Hm) as (a & Ha & ->). simpl.
  destruct (vec_update_ok (<[Z.to_nat m := with_main a false]> rs) m' (λ r, with_main r true))
    as (b & Hb & ->); [by rewrite zlen_insert|]. f_equal.
  apply list_eq. intros i. rewrite relabel_lookup. unfold zlen in *.
  destruct (decide (i = Z.to_nat m')) as [->|Hi'].
  - rewrite list_lookup_insert_eq by (rewrite length_insert; lia).
    rewrite Z2Nat.id, Z.eqb_refl by lia.
    destruct (decide (Z.to_nat m' = Z.to_nat m)) as [He|Hne].
    + rewrite He in *. rewrite list_lookup_insert_eq in Hb by lia. rewrite Ha. by simplify_eq/=.
    + rewrite list_lookup_insert_ne in Hb by done. by rewrite Hb.
  - rewrite list_lookup_insert_ne by done.
    assert ((Z.of_nat i =? m') = false) as -> by (apply Z.eqb_neq; lia).
    destruct (decide (i = Z.to_nat m)) as [->|Hi].
    + rewrite list_lookup_insert_eq, Ha by lia. done.
    + rewrite list_lookup_insert_ne by done. destruct (rs !! i) as [r|] eqn:Ei; [|done]. simpl.
      pose proof (Hf i r Ei) as Hr. rewrite (proj2 (Z.eqb_neq _ _)) in Hr by lia.
      destruct r; simpl in *. by subst.
Qed.

Section cycling.
Context `{Profile}.

Lemma select_next_spec max_size sel count : selection_ok max_size sel →
  0 ≤ count → main_selection sel + count ≤ usize_max →
  let m := (main_selection sel + count) mod zlen (regions sel) in
  select_next sel count = Ok (mkSelection (relabel m (regions sel)) m).
Proof.
  intros [Hm Hs Hb Hf] Hc Hu m.
  assert (0 ≤ m < zlen (regions sel)) as Hm' by (apply Z.mod_pos_bound; lia).
  pose proof (switch_main _ _ m Hf Hm Hm') as Hsw.
  unfold select_next. rewrite uadd_ok by (unfold_usize; lia).
  destruct (vec_update (regions sel) (main_selection sel) _) as [rs1|] eqn:E1; [|done].
  simpl in *. assert (zlen rs1 = zlen (regions sel)) as Hl.
  { destruct (vec_update_ok (regions sel) (main_selection sel) (λ r, with_main r false) Hm)
      as (? & _ & E2). rewrite E2 in E1. injection E1 as <-. apply zlen_insert. }
  rewrite Hl, urem_ok by lia. simpl. fold m. by rewrite Hsw.
Qed.

Lemma select_prev_spec max_size sel count : selection_ok max_size sel →
  0 ≤ count → 2 * zlen (regions sel) ≤ usize_max →
  let n := zlen (regions sel) in
  let m := (main_selection sel + n - count mod n) mod n in
  select_prev sel count = Ok (mkSelection (relabel m (regions sel)) m).
Proof.
  intros [Hm Hs Hb Hf] Hc Hu n m.
  assert (0 ≤ m < zlen (regions sel)) as Hm' by (apply Z.mod_pos_bound; lia).
  pose proof (switch_main _ _ m Hf Hm Hm') as Hsw.
  unfold select_prev.
  destruct (vec_update (regions sel) (main_selection sel) _) as [rs1|] eqn:E1; [|done].
  simpl in *. assert (zlen rs1 = n) as Hl.
  { destruct (vec_update_ok (regions sel) (main_selection sel) (λ r, with_main r false) Hm)
      as (? & _ & E2). rewrite E2 in E1. injection E1 as <-. apply zlen_insert. }
  pose proof (Z.mod_pos_bound count n ltac:(lia)).
  rewrite Hl, uadd_ok by (unfold_usize; lia). simpl. rewrite urem_ok by lia. simpl.
  rewrite usub_ok by (unfold_usize; lia). simpl. rewrite urem_ok by lia. simpl. fold m.
  by rewrite Hsw.
Qed.

Lemma vec_remove_lookup {A} (rs : list A) m i : 0 ≤ m < zlen rs →
  (ztake m rs ++ zdrop (m + 1) rs) !! i = if decide (Z.of_nat i < m) then rs !! i else rs !! S i.
Proof.
  intros Hm. unfold ztake, zdrop, zlen in *. case_decide.
  - rewrite lookup_app_l by (rewrite length_take; lia). by rewrite lookup_take_lt by lia.
  - rewrite lookup_app_r by (rewrite length_take; lia). rewrite lookup_drop, length_take.
    f_equal. lia.
Qed.

End cycling.

(** ** The binary search *)

(** [k] splits the regions into those that end before [offset] and those that
    reach it. *)
Definition splits_at (rs : list SelRegion) (offset k : Z) : Prop :=
  0 ≤ k ≤ zlen rs ∧
  ∀ i r, rs !! i = Some r → if decide (Z.of_nat i < k) then rmax r < offset else offset ≤ rmax r.

Lemma binary_search_max_spec fuel rs offset left right :
  regions_from 0 rs → 0 ≤ left ≤ right → right ≤ zlen rs → right - left ≤ Z.of_nat fuel →
  (∀ i r, rs !! i = Some r → Z.of_nat i < left → rmax r < offset) →
  (∀ i r, rs !! i = Some r → right ≤ Z.of_nat i → offset ≤ rmax r) →
  ∃ k, binary_search_max fuel rs offset left right = Ok k ∧ splits_at rs offset k.
Proof.
  intros Hs. revert left right. induction fuel as [|fuel IH]; intros left right Hl Hr Hf Hlo Hhi;
    cbn [binary_search_max]; (destruct (Z.ltb_spec left right);
      [|exists left; split; [done|]; split; [lia|]; intros i r Hi; case_decide;
        [by apply (Hlo i)|apply (Hhi i); [done|lia]]]); [lia|].
  assert (left ≤ left + (right - left) / 2 < right) as Hmid.
  { pose proof (Z.div_pos (right - left) 2). pose proof (Z.div_lt (right - left) 2). lia. }
  set (mid := left + (right - left) / 2) in *.
  destruct (zlookup_lt rs mid) as [r Hmr]; [lia|].
  unfold vec_index. rewrite Hmr. simpl. apply zlookup_Some in Hmr as [_ Hmr].
  assert (∀ i x, rs !! i = Some x → Z.of_nat i < mid → rmax x < rmax r) as Hbelow.
  { intros i x Hi Hlt. pose proof (regions_from_lt _ _ i (Z.to_nat mid) _ _ Hs Hi Hmr ltac:(lia)).
    pose proof (rmin_le_rmax r). lia. }
  assert (∀ i x, rs !! i = Some x → mid ≤ Z.of_nat i → rmax r ≤ rmax x) as Habove.
  { intros i x Hi Hge. destruct (decide (i = Z.to_nat mid)) as [->|]; [simplify_eq; lia|].
    pose proof (regions_from_lt _ _ (Z.to_nat mid) i _ _ Hs Hmr Hi ltac:(lia)).
    pose proof (rmin_le_rmax x). lia. }
  destruct (Z.ltb_spec (rmax r) offset); [|destruct (Z.ltb_spec offset (rmax r))].
  - apply IH; [lia|lia|lia| |done]. intros i x Hi Hlt.
    destruct (decide (i = Z.to_nat mid)) as [->|]; [by simplify_eq|].
    pose proof (Hbelow i x Hi). lia.
  - apply IH; [lia|lia|lia|done|]. intros i x Hi Hge. pose proof (Habove i x Hi Hge). lia.
  - exists mid. split; [done|]. split; [lia|]. intros i x Hi. case_decide.
    + pose proof (Hbelow i x Hi). lia.
    + pose proof (Habove i x Hi). lia.
Qed.

Lemma search_spec max_size sel offset : selection_ok max_size sel →
  ∃ k, search sel offset = Ok k ∧ splits_at (regions sel) offset k.
Proof.
  intros [Hm Hs Hb Hf]. unfold search. set (rs := regions sel) in *.
  destruct (last rs) as [l|] eqn:El; simpl.
  2: { apply last_None in El. rewrite El in Hm. unfold zlen in Hm. simpl in Hm. lia. }
  destruct (Z.ltb_spec (rmax l) offset).
  - exists (zlen rs). split; [done|]. split; [pose proof (zlen_nonneg rs); lia|].
    intros i r Hi. case_decide as Hc.
    + rewrite last_lookup in El. apply lookup_lt_Some in Hi as Hlt.
      destruct (decide (i = pred (length rs))) as [->|]; [by simplify_eq|].
      pose proof (regions_from_lt _ _ i (pred (length rs)) _ _ Hs Hi El ltac:(lia)).
      pose proof (rmin_le_rmax l). lia.
    + apply lookup_lt_Some in Hi. unfold zlen in Hc. lia.
  - apply binary_search_max_spec; [done|pose proof (zlen_nonneg rs); lia|lia|unfold zlen; lia|lia|].
    intros i r Hi Hge. apply lookup_lt_Some in Hi. unfold zlen in Hge. lia.
Qed.

(** ** Filtering a sorted list is slicing it *)

Lemma filter_segment {A} (p : A → Prop) `{∀ x, Decision (p x)} (l : list A) a b :
  0 ≤ a ≤ b → b ≤ zlen l →
  (∀ i x, l !! i = Some x → p x ↔ a ≤ Z.of_nat i < b) →
  filter p l = zslice a b l.
Proof.
  intros Hab Hb Hp.
  assert (l = ztake a l ++ zslice a b l ++ zdrop b l) as Hl.
  { rewrite <-zslice_zdrop, ztake_zdrop by lia. done. }
  assert (∀ (l' : list A), (∀ x, x ∈ l' → ¬ p x) → filter p l' = []) as Hnone.
  { intros l' Hn. induction l' as [|x l' IH]; [done|]. rewrite filter_cons_False.
    - apply IH. intros y Hy. apply Hn. by right.
    - apply Hn. by left. }
  assert (∀ (l' : list A), (∀ x, x ∈ l' → p x) → filter p l' = l') as Hall.
  { intros l' Hn. induction l' as [|x l' IH]; [done|]. rewrite filter_cons_True.
    - f_equal. apply IH. intros y Hy. apply Hn. by right.
    - apply Hn. by left. }
  rewrite Hl at 1. rewrite !filter_app, Hnone, (Hall (zslice a b l)), Hnone.
  - simpl. apply app_nil_r.
  - intros x [i Hi]%list_elem_of_lookup. unfold zdrop in Hi. rewrite lookup_drop in Hi.
    rewrite (Hp _ _ Hi). lia.
  - intros x [i Hi]%list_elem_of_lookup. unfold zslice, ztake, zdrop in Hi.
    apply lookup_take_Some in Hi as [Hi ?]. rewrite lookup_drop in Hi. apply (Hp _ _ Hi). lia.
  - intros x [i Hi]%list_elem_of_lookup. unfold ztake in Hi.
    apply lookup_take_Some in Hi as [Hi ?]. rewrite (Hp _ _ Hi). lia.
Qed.

(** The regions that intersect the closed range from [start] to [end_]. *)
Definition touching (start end_ : Z) (rs : list SelRegion) : list SelRegion :=
  filter (λ r, start ≤ rmax r ∧ rmin r ≤ end_) rs.

Lemma regions_in_range_touching `{Profile} max_size sel start end_ :
  selection_ok max_size sel → zlen (regions sel) < usize_max → start ≤ end_ →
  regions_in_range sel start end_ = Ok (touching start end_ (regions sel)).
Proof.
  intros Hok Hlen Hse. pose proof (sel_sorted _ _ Hok) as Hs. unfold regions_in_range.
  destruct (search_spec _ _ start Hok) as (a & -> & Ha & Ha'). simpl.
  destruct (search_spec _ _ end_ Hok) as (b & -> & Hb & Hb'). simpl.
  set (rs := regions sel) in *.
  assert (a ≤ b) as Hab.
  { destruct (Z.le_gt_cases a b); [done|]. destruct (zlookup_lt rs b) as [r Hr]; [lia|].
    apply zlookup_Some in Hr as [_ Hr]. pose proof (Ha' _ _ Hr) as H1. pose proof (Hb' _ _ Hr) as H2.
    rewrite decide_True in H1 by lia. rewrite decide_False in H2 by lia. lia. }
  assert (∀ c, (c = b ∧ (∀ r, zlookup rs b = Some r → end_ < rmin r)) ∨
    (c = b + 1 ∧ ∃ r, zlookup rs b = Some r ∧ rmin r ≤ end_) → c ≤ zlen rs →
    slice_range rs a c = Ok (touching start end_ rs)) as Hslice.
  { intros c Hc Hcl. rewrite slice_range_ok by lia. f_equal. symmetry.
    apply filter_segment; [lia|done|]. intros i x Hi.
    pose proof (Ha' _ _ Hi) as H1. pose proof (Hb' _ _ Hi) as H2.
    pose proof (rmin_le_rmax x). apply lookup_lt_Some in Hi as Hil.
    assert (∀ r, zlookup rs b = Some r → Z.of_nat i = b → x = r) as Heq.
    { intros r [_ Hr]%zlookup_Some <-. rewrite Nat2Z.id in Hr. congruence. }
    assert (∀ r, zlookup rs b = Some r → b < Z.of_nat i → end_ < rmin x) as Hgt.
    { intros r [_ Hr]%zlookup_Some Hbi. pose proof (Hb' _ _ Hr) as H3.
      rewrite decide_False in H3 by lia.
      pose proof (regions_from_lt _ _ (Z.to_nat b) i _ _ Hs Hr Hi ltac:(lia)). lia. }
    destruct Hc as [[-> Hn]|[-> (r & Hr & Hrm)]].
    - destruct (decide (Z.of_nat i < b)); [case_decide; lia|].
      destruct (zlookup_lt rs b) as [r Hr]; [unfold zlen in *; lia|].
      pose proof (Hn r Hr). destruct (decide (Z.of_nat i = b)) as [e|].
      + rewrite (Heq r Hr e). lia.
      + pose proof (Hgt r Hr ltac:(lia)). lia.
    - case_decide; case_decide; try lia. destruct (decide (Z.of_nat i = b)) as [e|].
      + rewrite (Heq r Hr e) in *. lia.
      + pose proof (Hgt r Hr ltac:(lia)). lia. }
  destruct (Z.ltb_spec b (zlen rs)).
  - destruct (zlookup_lt rs b) as [r Hr]; [lia|]. unfold vec_index. rewrite Hr. simpl.
    destruct (Z.leb_spec (rmin r) end_); simpl.
    + rewrite uadd_ok by (unfold_usize; lia). simpl. apply Hslice; [right; eauto|lia].
    + apply Hslice; [left|lia]. split; [done|]. intros r' Hr'. congruence.
  - simpl. apply Hslice; [left|lia]. split; [done|]. intros r' [? _]%zlookup_Some. lia.
Qed.

(** ** Removing and keeping regions *)

Lemma mark_relabel (rs : list SelRegion) m : Forall (λ r, is_main r = false) rs → 0 ≤ m < zlen rs →
  vec_update rs m (λ r, with_main r true) = Ok (relabel m rs).
Proof.
  intros Hf Hm. destruct (vec_update_ok rs m (λ r, with_main r true) Hm) as (a & Ha & ->).
  f_equal. apply list_eq. intros i. rewrite relabel_lookup. unfold zlen in *.
  destruct (decide (i = Z.to_nat m)) as [->|Hi].
  - rewrite list_lookup_insert_eq, Ha by lia. simpl. by rewrite Z2Nat.id, Z.eqb_refl by lia.
  - rewrite list_lookup_insert_ne by done. destruct (rs !! i) as [r|] eqn:E; [|done]. simpl.
    rewrite (proj2 (Z.eqb_neq _ _)) by lia. rewrite Forall_lookup in Hf.
    pose proof (Hf i r E). destruct r; simpl in *. by subst.
Qed.

(** The regions without the one at index [m]. *)
Definition without (m : Z) (rs : list SelRegion) : list SelRegion :=
  ztake m rs ++ zdrop (m + 1) rs.

Lemma without_split m (rs : list SelRegion) : 0 ≤ m < zlen rs → ∃ x, zlookup rs m = Some x ∧
  rs = ztake m rs ++ x :: zdrop (m + 1) rs.
Proof.
  intros Hm. destruct (zlookup_lt rs m Hm) as [x Hx]. exists x. split; [done|].
  apply zlookup_Some in Hx as [_ Hx]. unfold ztake, zdrop.
  replace (Z.to_nat (m + 1)) with (S (Z.to_nat m)) by lia.
  symmetry. by apply take_drop_middle.
Qed.

Lemma without_from lo m (rs : list SelRegion) : 0 ≤ m < zlen rs → regions_from lo rs → regions_from lo (without m rs).
Proof.
  intros Hm. destruct (without_split m rs Hm) as (x & _ & Hrs). rewrite Hrs at 1.
  unfold without. rewrite !regions_from_app. simpl. intros (? & ? & Hr). split; [done|].
  eapply regions_from_weaken; [|done]. pose proof (rmin_le_rmax x). lia.
Qed.

Lemma without_bounded hi m (rs : list SelRegion) : Forall (λ r, rmax r ≤ hi) rs →
  Forall (λ r, rmax r ≤ hi) (without m rs).
Proof. intros Hf. apply Forall_app. split; [by apply Forall_take|by apply Forall_drop]. Qed.

Lemma zlen_without m (rs : list SelRegion) : 0 ≤ m < zlen rs → zlen (without m rs) = zlen rs - 1.
Proof. intros ?. unfold without. autorewrite with zlen. lia. Qed.

Lemma without_flags m (rs : list SelRegion) : 0 ≤ m < zlen rs → main_flags m rs →
  Forall (λ r, is_main r = false) (without m rs).
Proof.
  intros Hm Hf. apply Forall_lookup. intros i r. unfold without.
  rewrite vec_remove_lookup by done. case_decide; intros Hi; rewrite (Hf _ _ Hi);
    apply Z.eqb_neq; lia.
Qed.

Lemma remove_main_spec `{Profile} max_size sel :
  selection_ok max_size sel → 2 ≤ zlen (regions sel) < usize_max →
  let rs := without (main_selection sel) (regions sel) in
  let m := Z.min (zlen rs - 1) (main_selection sel) in
  remove sel (main_selection sel) = Ok (mkSelection (relabel m rs) m) ∧
  selection_ok max_size (mkSelection (relabel m rs) m).
Proof.
  intros [Hm Hs Hb Hf] Hn rs m. pose proof (zlen_without _ _ Hm) as Hl. fold rs in Hl.
  split.
  - unfold remove. destruct (Z.eqb_spec (zlen (regions sel)) 1); [lia|].
    unfold vec_remove, vec_index. destruct (without_split _ _ Hm) as (x & -> & _). simpl.
    change (ztake _ _ ++ zdrop _ _) with rs. rewrite usub_ok by (unfold_usize; lia). simpl.
    fold m. rewrite mark_relabel; [done|by apply without_flags|lia].
  - split; simpl.
    + rewrite zlen_relabel. lia.
    + by apply relabel_from, without_from.
    + by apply relabel_bounded, without_bounded.
    + apply relabel_flags.
Qed.

Lemma retain_spec max_size sel index :
  selection_ok max_size sel → 0 ≤ index < zlen (regions sel) →
  ∃ r, zlookup (regions sel) index = Some r ∧
    retain sel index = Ok (mkSelection [with_main r true] 0) ∧
    selection_ok max_size (mkSelection [with_main r true] 0).
Proof.
  intros Hok Hi. destruct (zlookup_lt _ _ Hi) as [r Hr]. exists r. split; [done|].
  split; [unfold retain, vec_index; by rewrite Hr|].
  apply zlookup_Some in Hr as [_ Hr]. destruct Hok as [_ Hs Hb _].
  split; simpl.
  - unfold zlen. simpl. lia.
  - split; [|done]. by apply (regions_from_lookup _ _ _ _ Hs Hr).
  - apply Forall_singleton. rewrite Forall_lookup in Hb. exact (Hb _ _ Hr).
  - intros [|i] x Hx; simplify_eq/=; done.
Qed.

(** ** Splitting a region at a match *)

Definition in_region (r : SelRegion) (p : Z) : Prop := rmin r ≤ p ≤ rmax r.
Definition in_option (o : option SelRegion) (p : Z) : Prop :=
  match o with Some r => in_region r p | None => False end.

Lemma inherit_direction_extent r parent :
  rmin (inherit_direction r parent) = rmin r ∧ rmax (inherit_direction r parent) = rmax r.
Proof. unfold inherit_direction, to_forward, to_backward. destruct (forward parent); region_lia. Qed.

Lemma split_at_region_parts `{Profile} r start end_ :
  0 ≤ rmin r → rmax r < usize_max → rmin r ≤ start ≤ end_ → end_ ≤ rmax r →
  ∃ left right, split_at_region r start end_ = Ok (left, right) ∧
    (∀ p, in_option left p ↔ in_region r p ∧ p < start) ∧
    (∀ p, in_option right p ↔ in_region r p ∧ end_ < p) ∧
    (left = None ↔ start = rmin r) ∧ (right = None ↔ end_ = rmax r).
Proof.
  intros H0 Hmax Hs He. unfold split_at_region, in_region.
  pose proof (inherit_direction_extent (region_new (end_ + 1) (rmax r)) r) as [Ha Ha'].
  pose proof (inherit_direction_extent (region_new (rmin r) (start - 1)) r) as [Hb Hb'].
  destruct (Z.leb_spec start (rmin r)), (Z.leb_spec (rmax r) end_);
    rewrite ?uadd_ok, ?usub_ok by (unfold_usize; lia); simpl; eexists _, _;
    (split; [done|]); simpl; unfold in_region; rewrite ?Ha, ?Ha', ?Hb, ?Hb';
    unfold rmin at 1, rmax at 1; simpl; split_and!; try (intros p);
    try (split; [done|lia]); try (split; [lia|done]); try (unfold rmin, rmax in *; simpl in *; lia).
Qed.
