(* ===== verification/Operations.v ===== *)
(** * Operations: the edits of [src/src/operations.rs]

    Every operation walks over the regions of the selection and feeds a delta
    builder, which panics when the intervals it is given are not sorted.  The
    lemmas say that a well-formed selection never makes it panic, and what the
    edited document is. *)

From S2P Require Import Prelude Masks XiRope XiRopeRef ByteRope Selection SelectionMap SelectionMoves.

Section operations.
Context `{Profile} `{XiRope}.

Definition deletion (base : Rope) (selection : Selection) : outcome Delta :=
  builder ← foldM (λ builder region,
      e ← uadd (rmax region) 1;
      let iv := iv_new (rmin region) e in
      if negb (iv_is_empty iv) then db_delete builder iv else Ok builder)
    (db_new (rope_len base)) (regions selection);
  Ok (db_build builder).

Definition backspace (base : Rope) (selection : Selection) : outcome Delta :=
  builder ← foldM (λ builder region,
      if caret region =? 0 then Ok builder
      else
        s ← usub (caret region) 1;
        db_delete builder (iv_new s (caret region)))
    (db_new (rope_len base)) (regions selection);
  Ok (db_build builder).

Definition delete_cursor (base : Rope) (selection : Selection) : outcome Delta :=
  let base_len := rope_len base in
  builder ← foldM (λ builder region,
      e ← uadd (caret region) 1;
      let iv := iv_new (caret region) (Z.min base_len e) in
      if negb (iv_is_empty iv) then db_delete builder iv else Ok builder)
    (db_new base_len) (regions selection);
  Ok (db_build builder).

Definition insert (base : Rope) (selection : Selection) (text : bytes) : outcome Delta :=
  inserted ← rope_from_vec text;
  builder ← foldM (λ builder region,
      db_replace builder (iv_new (caret region) (caret region)) (into_node inserted))
    (db_new (rope_len base)) (regions selection);
  Ok (db_build builder).

(** [selection.iter().zip(register_contents.iter().chain(repeat(last_value)))] *)
Fixpoint zip_register (rs : list SelRegion) (contents : list bytes) (last_value : bytes) :
    list (SelRegion * bytes) :=
  match rs, contents with
  | [], _ => []
  | r :: rs', [] => (r, last_value) :: zip_register rs' [] last_value
  | r :: rs', c :: contents' => (r, c) :: zip_register rs' contents' last_value
  end.

(** [repeat(pasted).take(count).flatten()] *)
Definition repeat_bytes (count : Z) (pasted : bytes) : bytes :=
  concat (replicate (Z.to_nat count) pasted).

Definition paste (base : Rope) (selection : Selection) (register_contents : list bytes)
    (after : bool) (count : Z) : outcome Delta :=
  last_value ← unwrap (last register_contents);
  builder ← foldM (λ builder '(region, pasted),
      insert_pos ←
        (if after : bool then
           e ← uadd (rmax region) 1; Ok (Z.min (rope_len base) e)
         else Ok (rmin region));
      text ← rope_from_vec (repeat_bytes count pasted);
      db_replace builder (iv_new insert_pos insert_pos) (into_node text))
    (db_new (rope_len base)) (zip_register (regions selection) register_contents last_value);
  Ok (db_build builder).

Definition change (base : Rope) (selection : Selection) (text : bytes) : outcome Delta :=
  inserted ← rope_from_vec text;
  builder ← foldM (λ builder region,
      e ← uadd (caret region) 1;
      db_replace builder (iv_new (caret region) e) (into_node inserted))
    (db_new (rope_len base)) (regions selection);
  Ok (db_build builder).

Definition overwrite_half (base : Rope) (selection : Selection) (top : Z) : outcome Delta :=
  builder ← foldM (λ builder region,
      e ← uadd (caret region) 1;
      let iv := iv_new (caret region) e in
      base_char ←
        (if caret region <? rope_len base then
           cow ← slice_to_cow base iv;
           b ← vec_index cow 0;
           Ok (Z.land b 15)
         else Ok 0);
      text ← rope_from_vec [Z.lor base_char top];
      db_replace builder iv (into_node text))
    (db_new (rope_len base)) (regions selection);
  Ok (db_build builder).

Definition replace (base : Rope) (selection : Selection) (ch : Z) : outcome Delta :=
  builder ← foldM (λ builder region,
      e ← uadd (rmax region) 1;
      d ← usub (rmax region) (rmin region);
      n ← uadd d 1;
      text ← rope_from_vec (replicate (Z.to_nat n) ch);
      db_replace builder (iv_new (rmin region) e) (into_node text))
    (db_new (rope_len base)) (regions selection);
  Ok (db_build builder).

End operations.

(** ** Building a delta *)

Section building.
Context `{Profile} `{XiRopeLaws}.

(** [d] is the delta of the edits [es] on documents of length [n]. *)
Definition delta_of (n : Z) (es : list edit) (d : Delta) : Prop :=
  ∃ b, d = db_build b ∧ db_base_len b = n ∧ db_edits b = es ∧ 0 ≤ n ∧
    edits_sorted 0 es ∧ Forall (λ ed, ed_start ed ≤ n) es.

Lemma delta_of_len n es d : delta_of n es d → delta_base_len d = n.
Proof. intros (b & -> & Hn & He & Hpos & Hs & Hf). subst. by apply db_build_len. Qed.

Lemma delta_of_apply es d r : delta_of (rope_len r) es d →
  rope_bytes (rope_apply_delta r d) = splice 0 es (rope_bytes r).
Proof. intros (b & -> & Hn & He & Hpos & Hs & Hf). subst es.
  apply db_build_apply; [done| |done]. by rewrite Hn.
Qed.

Lemma edits_end_snoc es ed : edits_end (es ++ [ed]) = ed_end ed.
Proof. unfold edits_end. by rewrite last_snoc. Qed.

(** A loop that feeds the builder at most one edit per element. *)
Lemma foldM_edits {A} (step : DeltaBuilder → A → outcome DeltaBuilder) (ed : A → option edit)
    (l : list A) b :
  (∀ b x, x ∈ l → match ed x with
     | None => step b x = Ok b
     | Some y => edits_end (db_edits b) ≤ ed_start y ≤ ed_end y →
         ∃ b', step b x = Ok b' ∧ db_base_len b' = db_base_len b ∧
           db_edits b' = db_edits b ++ [y]
     end) →
  edits_sorted (edits_end (db_edits b)) (omap ed l) →
  ∃ b', foldM step b l = Ok b' ∧ db_base_len b' = db_base_len b ∧
    db_edits b' = db_edits b ++ omap ed l.
Proof.
  revert b. induction l as [|x l IH]; intros b Hstep Hs.
  - exists b. simpl. by rewrite app_nil_r.
  - pose proof (Hstep b x ltac:(left)) as Hx.
    assert (∀ b', edits_sorted (edits_end (db_edits b')) (omap ed l) →
      ∃ b'', foldM step b' l = Ok b'' ∧ db_base_len b'' = db_base_len b' ∧
        db_edits b'' = db_edits b' ++ omap ed l) as IH'.
    { intros b' Hs'. apply IH; [|done]. intros b0 y Hy. apply Hstep. by right. }
    cbn [omap list_omap foldM] in *. destruct (ed x) as [y|].
    + destruct Hs as [Hy Hs]. destruct (Hx Hy) as (b1 & -> & Hl & He). simpl.
      destruct (IH' b1) as (b2 & -> & Hl2 & He2); [by rewrite He, edits_end_snoc|].
      exists b2. split; [done|]. split; [congruence|]. rewrite He2, He. by rewrite <-app_assoc.
    + rewrite Hx. simpl. by apply IH'.
Qed.

Lemma foldM_delta {A} (step : DeltaBuilder → A → outcome DeltaBuilder) (ed : A → option edit)
    (l : list A) n :
  0 ≤ n →
  (∀ b x, x ∈ l → match ed x with
     | None => step b x = Ok b
     | Some y => edits_end (db_edits b) ≤ ed_start y ≤ ed_end y →
         ∃ b', step b x = Ok b' ∧ db_base_len b' = db_base_len b ∧
           db_edits b' = db_edits b ++ [y]
     end) →
  edits_sorted 0 (omap ed l) → Forall (λ y, ed_start y ≤ n) (omap ed l) →
  ∃ d, (b ← foldM step (db_new n) l; Ok (db_build b)) = Ok d ∧ delta_of n (omap ed l) d.
Proof.
  intros Hn Hstep Hs Hf. destruct (db_new_spec n) as [Hl He].
  destruct (foldM_edits step ed l (db_new n)) as (b & -> & Hl' & He').
  - done.
  - by rewrite He.
  - exists (db_build b). split; [done|]. exists b. rewrite He', He, Hl'. done.
Qed.

(** The edits of a sorted selection are sorted when edits of earlier regions
    end before those of later regions start. *)
Lemma region_edits_sorted {A} (key : A → SelRegion) (ed : A → option edit) lo pos (l : list A) :
  regions_from lo (key <$> l) →
  (∀ x y, x ∈ l → ed x = Some y → pos ≤ ed_start y ≤ ed_end y) →
  (∀ x x' y y', rmax (key x) < rmin (key x') → ed x = Some y → ed x' = Some y' →
     ed_end y ≤ ed_start y') →
  edits_sorted pos (omap ed l).
Proof.
  revert lo pos. induction l as [|x l IH]; intros lo pos Hr Hpos Hlt; [done|].
  rewrite fmap_cons in Hr. destruct Hr as [_ Hr]. cbn [omap list_omap].
  destruct (ed x) as [y|] eqn:E.
  - split; [apply (Hpos x); [left|done]|].
    apply (IH _ _ Hr); [|done]. intros x' y' Hx' E'. split.
    + apply (Hlt x x'); [|done|done]. apply list_elem_of_lookup in Hx' as [i Hi].
      pose proof (regions_from_lookup _ _ i (key x') Hr) as Hk.
      rewrite list_lookup_fmap, Hi in Hk. specialize (Hk eq_refl). lia.
    + apply (Hpos x'); [by right|done].
  - apply (IH _ _ Hr); [|done]. intros x' y' Hx'. apply Hpos. by right.
Qed.

Lemma Forall_omap_intro {A B} (f : A → option B) (P : B → Prop) (l : list A) :
  (∀ x y, x ∈ l → f x = Some y → P y) → Forall P (omap f l).
Proof.
  intros Hf. apply Forall_forall. intros y (x & Hx & E)%list_elem_of_omap. by apply (Hf x).
Qed.

(** A delta built from one edit per element, for elements that carry the
    regions of a well-formed selection. *)
Lemma regions_delta {A} (key : A → SelRegion) (step : DeltaBuilder → A → outcome DeltaBuilder)
    (ed : A → option edit) (l : list A) n :
  0 ≤ n → regions_from 0 (key <$> l) →
  (∀ b x, x ∈ l → match ed x with
     | None => step b x = Ok b
     | Some y => edits_end (db_edits b) ≤ ed_start y ≤ ed_end y →
         ∃ b', step b x = Ok b' ∧ db_base_len b' = db_base_len b ∧
           db_edits b' = db_edits b ++ [y]
     end) →
  (∀ x y, x ∈ l → ed x = Some y → 0 ≤ ed_start y ≤ ed_end y ∧ ed_start y ≤ n) →
  (∀ x x' y y', rmax (key x) < rmin (key x') → ed x = Some y → ed x' = Some y' →
     ed_end y ≤ ed_start y') →
  ∃ d, (b ← foldM step (db_new n) l; Ok (db_build b)) = Ok d ∧ delta_of n (omap ed l) d.
Proof.
  intros Hn Hr Hstep Hrg Hlt. apply foldM_delta; [done|done|..].
  - apply (region_edits_sorted key _ 0); [done| |done]. intros x y Hx E. by apply (Hrg x).
  - apply Forall_omap_intro. intros x y Hx E. by apply (Hrg x).
Qed.

End building.

(** ** Each operation is a list of edits *)

Definition delete_edit (r : SelRegion) : option edit := Some (mkEdit (rmin r) (rmax r + 1) []).
Definition backspace_edit (r : SelRegion) : option edit :=
  if caret r =? 0 then None else Some (mkEdit (caret r - 1) (caret r) []).
Definition delete_cursor_edit (n : Z) (r : SelRegion) : option edit :=
  if caret r <? n then Some (mkEdit (caret r) (caret r + 1) []) else None.
Definition insert_edit (text : bytes) (r : SelRegion) : option edit :=
  Some (mkEdit (caret r) (caret r) text).
Definition change_edit (text : bytes) (r : SelRegion) : option edit :=
  Some (mkEdit (caret r) (caret r + 1) text).
Definition paste_edit (n : Z) (after : bool) (count : Z) (x : SelRegion * bytes) : option edit :=
  let pos := if after then Z.min n (rmax x.1 + 1) else rmin x.1 in
  Some (mkEdit pos pos (repeat_bytes count x.2)).
Definition overwrite_half_edit (l : bytes) (top : Z) (r : SelRegion) : option edit :=
  Some (mkEdit (caret r) (caret r + 1) [Z.lor (Z.land (default 0 (zlookup l (caret r))) 15) top]).
Definition replace_edit (ch : Z) (r : SelRegion) : option edit :=
  Some (mkEdit (rmin r) (rmax r + 1) (replicate (Z.to_nat (rmax r + 1 - rmin r)) ch)).

Section deltas.
Context `{Profile} `{XiRopeLaws} (base : Rope) (sel : Selection).
Context (Hok : selection_ok (rope_len base) sel) (Hfit : rope_len base < two63).

Lemma base_nonneg : 0 ≤ rope_len base.
Proof. rewrite rope_len_bytes. apply zlen_nonneg. Qed.

Lemma regions_range r : r ∈ regions sel → 0 ≤ rmin r ∧ rmin r ≤ caret r ≤ rmax r ∧ rmax r ≤ rope_len base.
Proof.
  intros Hr. pose proof (selection_ok_regions _ _ Hok) as Hf. rewrite Forall_forall in Hf.
  specialize (Hf r Hr). region_lia.
Qed.

Lemma db_replace_new b s e t : edits_end (db_edits b) ≤ s ≤ e →
  ∃ b', db_replace b (iv_new s e) t = Ok b' ∧ db_base_len b' = db_base_len b ∧
    db_edits b' = db_edits b ++ [mkEdit s e (node_bytes t)].
Proof. intros Hs. rewrite iv_new_spec by lia. by apply db_replace_ok. Qed.

Lemma db_delete_new b s e : edits_end (db_edits b) ≤ s ≤ e →
  ∃ b', db_delete b (iv_new s e) = Ok b' ∧ db_base_len b' = db_base_len b ∧
    db_edits b' = db_edits b ++ [mkEdit s e []].
Proof. intros Hs. rewrite iv_new_spec by lia. by apply db_delete_ok. Qed.

Lemma iv_new_empty s e : s ≤ e → iv_is_empty (iv_new s e) = (e <=? s).
Proof. intros Hs. rewrite iv_new_spec by done. apply iv_is_empty_spec. Qed.

(** The common part: every region has an edit of its own. *)
Lemma sel_delta (step : DeltaBuilder → SelRegion → outcome DeltaBuilder) (ed : SelRegion → option edit) :
  (∀ b x, x ∈ regions sel → match ed x with
     | None => step b x = Ok b
     | Some y => edits_end (db_edits b) ≤ ed_start y ≤ ed_end y →
         ∃ b', step b x = Ok b' ∧ db_base_len b' = db_base_len b ∧
           db_edits b' = db_edits b ++ [y]
     end) →
  (∀ x y, x ∈ regions sel → ed x = Some y →
     0 ≤ ed_start y ≤ ed_end y ∧ ed_start y ≤ rope_len base) →
  (∀ x x' y y', rmax x < rmin x' → ed x = Some y → ed x' = Some y' →
     ed_end y ≤ ed_start y') →
  ∃ d, (b ← foldM step (db_new (rope_len base)) (regions sel); Ok (db_build b)) = Ok d ∧
    delta_of (rope_len base) (omap ed (regions sel)) d.
Proof.
  intros. apply (regions_delta id); [apply base_nonneg| |done..].
  rewrite list_fmap_id. apply (sel_sorted _ _ Hok).
Qed.

Ltac region_facts :=
  repeat match goal with Hx : _ ∈ regions sel |- _ => apply regions_range in Hx end.
Ltac edit_bounds :=
  intros; region_facts; unfold delete_edit, backspace_edit, delete_cursor_edit, insert_edit,
    change_edit, overwrite_half_edit, replace_edit in *; zcases; simplify_eq/=; region_lia.

Lemma deletion_delta : ∃ d, deletion base sel = Ok d ∧
  delta_of (rope_len base) (omap delete_edit (regions sel)) d.
Proof.
  apply sel_delta; [|edit_bounds..].
  intros b x Hx Hy. region_facts. simpl in Hy. rewrite uadd_ok by (unfold_usize; lia). simpl.
  rewrite iv_new_empty by lia. destruct (Z.leb_spec (rmax x + 1) (rmin x)); [lia|].
  by apply db_delete_new.
Qed.

Lemma backspace_delta : ∃ d, backspace base sel = Ok d ∧
  delta_of (rope_len base) (omap backspace_edit (regions sel)) d.
Proof.
  apply sel_delta; [|edit_bounds..].
  intros b x Hx. region_facts. unfold backspace_edit. destruct (Z.eqb_spec (caret x) 0); [done|].
  intros Hy. simpl in Hy. rewrite usub_ok by (unfold_usize; lia). simpl. by apply db_delete_new.
Qed.

Lemma delete_cursor_delta : ∃ d, delete_cursor base sel = Ok d ∧
  delta_of (rope_len base) (omap (delete_cursor_edit (rope_len base)) (regions sel)) d.
Proof.
  apply sel_delta; [|edit_bounds..].
  intros b x Hx. region_facts. unfold delete_cursor_edit.
  rewrite uadd_ok by (unfold_usize; lia). simpl. rewrite iv_new_empty by lia.
  destruct (Z.ltb_spec (caret x) (rope_len base)).
  - intros Hy. simpl in Hy. rewrite (proj2 (Z.leb_gt _ _)) by lia. simpl.
    rewrite Z.min_r by lia. by apply db_delete_new.
  - rewrite (proj2 (Z.leb_le _ _)) by lia. done.
Qed.

Lemma insert_delta text : ∃ d, insert base sel text = Ok d ∧
  delta_of (rope_len base) (omap (insert_edit text) (regions sel)) d.
Proof.
  unfold insert. destruct (rope_from_vec_bytes text) as (t & -> & Ht). simpl.
  apply sel_delta; [|edit_bounds..].
  intros b x Hx Hy. rewrite <-Ht. by apply db_replace_new.
Qed.

Lemma change_delta text : ∃ d, change base sel text = Ok d ∧
  delta_of (rope_len base) (omap (change_edit text) (regions sel)) d.
Proof.
  unfold change. destruct (rope_from_vec_bytes text) as (t & -> & Ht). simpl.
  apply sel_delta; [|edit_bounds..].
  intros b x Hx Hy. region_facts. rewrite uadd_ok by (unfold_usize; lia). simpl.
  rewrite <-Ht. by apply db_replace_new.
Qed.

Lemma overwrite_half_delta top : ∃ d, overwrite_half base sel top = Ok d ∧
  delta_of (rope_len base) (omap (overwrite_half_edit (rope_bytes base) top) (regions sel)) d.
Proof.
  apply sel_delta; [|edit_bounds..].
  intros b x Hx Hy. region_facts. unfold overwrite_half_edit in *. simpl in Hy.
  rewrite uadd_ok by (unfold_usize; lia). cbn [mbind outcome_bind].
  rewrite iv_new_spec by lia. rewrite rope_len_bytes in *.
  set (l := rope_bytes base) in *.
  assert ((if caret x <? zlen l then cow ← slice_to_cow base (mkInterval (caret x) (caret x + 1));
      b0 ← vec_index cow 0; Ok (Z.land b0 15) else Ok 0) =
    Ok (Z.land (default 0 (zlookup l (caret x))) 15)) as ->.
  { destruct (Z.ltb_spec (caret x) (zlen l)).
    - destruct (zlookup_lt l (caret x)) as [c Hc]; [lia|]. rewrite Hc.
      rewrite slice_to_cow_bytes by (rewrite ?rope_len_bytes; unfold_usize; fold l; lia).
      fold l. apply zlookup_Some in Hc as [_ Hc]. simpl.
      assert (zslice (caret x) (caret x + 1) l = [c]) as ->; [|done].
      unfold zslice, ztake, zdrop. rewrite (drop_S _ _ _ Hc).
      by replace (Z.to_nat (caret x + 1 - caret x)) with 1%nat by lia.
    - destruct (zlookup l (caret x)) as [c|] eqn:Hc; [|done].
      apply zlookup_Some in Hc. lia. }
  cbn [mbind outcome_bind].
  destruct (rope_from_vec_bytes [Z.lor (Z.land (default 0 (zlookup l (caret x))) 15) top])
    as (t & -> & Ht). rewrite <-Ht. by apply db_replace_ok.
Qed.

Lemma replace_delta ch : ∃ d, replace base sel ch = Ok d ∧
  delta_of (rope_len base) (omap (replace_edit ch) (regions sel)) d.
Proof.
  apply sel_delta; [|edit_bounds..].
  intros b x Hx Hy. region_facts. simpl in Hy.
  rewrite uadd_ok by (unfold_usize; lia). simpl. rewrite usub_ok by (unfold_usize; lia). simpl.
  rewrite uadd_ok by (unfold_usize; lia). simpl.
  replace (rmax x - rmin x + 1) with (rmax x + 1 - rmin x) by lia.
  destruct (rope_from_vec_bytes (replicate (Z.to_nat (rmax x + 1 - rmin x)) ch)) as (t & -> & Ht).
  simpl. rewrite <-Ht. by apply db_replace_new.
Qed.

Lemma zip_register_keys (rs : list SelRegion) contents v : (zip_register rs contents v).*1 = rs.
Proof.
  revert contents. induction rs as [|r rs IH]; intros [|c contents]; simpl; [done..| |];
    unfold fmap in *; simpl; by rewrite IH.
Qed.

Lemma paste_delta contents v after count : last contents = Some v →
  ∃ d, paste base sel contents after count = Ok d ∧
    delta_of (rope_len base)
      (omap (paste_edit (rope_len base) after count) (zip_register (regions sel) contents v)) d.
Proof.
  intros Hv. unfold paste. rewrite Hv. cbn [unwrap mbind outcome_bind].
  set (l := zip_register (regions sel) contents v).
  assert (∀ x, x ∈ l → x.1 ∈ regions sel) as Hin.
  { intros x Hx. rewrite <-(zip_register_keys (regions sel) contents v). by apply list_elem_of_fmap_2. }
  pose proof base_nonneg.
  apply (regions_delta fst); [done|unfold l; rewrite zip_register_keys; apply (sel_sorted _ _ Hok)|..].
  - intros b [x p] Hx%Hin Hy. simpl in *. region_facts.
    assert ((if after then e ← uadd (rmax x) 1; Ok (Z.min (rope_len base) e) else Ok (rmin x)) =
      Ok (if after then Z.min (rope_len base) (rmax x + 1) else rmin x)) as ->.
    { destruct after; [|done]. by rewrite uadd_ok by (unfold_usize; lia). }
    simpl. destruct (rope_from_vec_bytes (repeat_bytes count p)) as (t & -> & Ht). simpl.
    rewrite <-Ht. by apply db_replace_new.
  - intros [x p] y Hx%Hin [= <-]. simpl in *. region_facts. destruct after; lia.
  - intros [x p] [x' p'] y y' Hlt [= <-] [= <-]. simpl in *. pose proof (rmin_le_rmax x).
    pose proof (rmin_le_rmax x'). destruct after; lia.
Qed.

End deltas.
