(* ===== verification/Edits.v ===== *)
(** * Edits: what the operations do to the document

    [Operations] turns each operation into a list of edits.  Here the edited
    document is described directly: deletion keeps exactly the bytes outside
    of the selection, and the overwriting operations change exactly the bytes
    at their positions. *)

From S2P Require Import Prelude Masks XiRope XiRopeRef ByteRope Selection SelectionMap.
From S2P Require Import SelectionMoves Operations.

Definition in_regionb (p : Z) (r : SelRegion) : bool := (rmin r <=? p) && (p <=? rmax r).

(** Position [p] is in some region. *)
Definition selected (rs : list SelRegion) (p : Z) : bool := existsb (in_regionb p) rs.

(** Position [p] is the caret of some region. *)
Definition is_caret (rs : list SelRegion) (p : Z) : bool := existsb (λ r, caret r =? p) rs.

(** The bytes of [l], the first of which is at position [p], that are not
    selected. *)
Fixpoint unselected (rs : list SelRegion) (p : Z) (l : bytes) : bytes :=
  match l with
  | [] => []
  | b :: l' => if selected rs p then unselected rs (p + 1) l' else b :: unselected rs (p + 1) l'
  end.

(** ** Deletion *)

Lemma unselected_app rs p l1 l2 :
  unselected rs p (l1 ++ l2) = unselected rs p l1 ++ unselected rs (p + zlen l1) l2.
Proof.
  revert p. induction l1 as [|b l1 IH]; intros p; cbn [app unselected].
  - by rewrite zlen_nil, Z.add_0_r.
  - rewrite IH, zlen_cons. replace (p + 1 + zlen l1) with (p + (1 + zlen l1)) by lia.
    by destruct (selected rs p).
Qed.

Lemma unselected_keep rs p l : (∀ q, p ≤ q < p + zlen l → selected rs q = false) →
  unselected rs p l = l.
Proof.
  revert p. induction l as [|b l IH]; intros p Hq; simpl; [done|]. rewrite zlen_cons in Hq.
  pose proof (zlen_nonneg l). rewrite Hq by lia. f_equal. apply IH. intros q ?. apply Hq. lia.
Qed.

Lemma unselected_drop rs p l : (∀ q, p ≤ q < p + zlen l → selected rs q = true) →
  unselected rs p l = [].
Proof.
  revert p. induction l as [|b l IH]; intros p Hq; simpl; [done|]. rewrite zlen_cons in Hq.
  pose proof (zlen_nonneg l). rewrite Hq by lia. apply IH. intros q ?. apply Hq. lia.
Qed.

Lemma unselected_ext rs rs' p l :
  (∀ q, p ≤ q → selected rs q = selected rs' q) → unselected rs p l = unselected rs' p l.
Proof.
  revert p. induction l as [|b l IH]; intros p Hq; simpl; [done|].
  rewrite Hq, (IH (p + 1)) by (lia || intros; apply Hq; lia). done.
Qed.

Lemma selected_before lo rs p : regions_from lo rs → p < lo → selected rs p = false.
Proof.
  revert lo. induction rs as [|r rs IH]; intros lo Hr Hp; simpl; [done|].
  destruct Hr as [Hlo Hr]. pose proof (rmin_le_rmax r). rewrite (IH _ Hr) by lia.
  unfold in_regionb. by rewrite (proj2 (Z.leb_gt _ _)) by lia.
Qed.

Lemma splice_delete rs pos l : 0 ≤ pos → regions_from pos rs →
  splice pos (omap delete_edit rs) l = unselected rs pos (zdrop pos l).
Proof.
  revert pos. induction rs as [|r rs IH]; intros pos Hpos Hr.
  - cbn. symmetry. by apply unselected_keep.
  - destruct Hr as [Hlo Hr]. pose proof (rmin_le_rmax r) as Hmm. cbn.
    rewrite IH by (done || lia).
    rewrite (zslice_zdrop pos (rmin r) l) by lia.
    rewrite (zslice_zdrop (rmin r) (rmax r + 1) l) by lia.
    rewrite !unselected_app.
    assert (∀ q, rmin r ≤ q ≤ rmax r → selected (r :: rs) q = true) as Hin.
    { intros q Hq. simpl. unfold in_regionb. by rewrite !(proj2 (Z.leb_le _ _)) by lia. }
    assert (∀ q, q < rmin r → selected (r :: rs) q = false) as Hout.
    { intros q Hq. apply (selected_before (rmin r)); [by split|done]. }
    rewrite (unselected_keep (r :: rs) pos).
    2: { intros q Hq. apply Hout. autorewrite with zlen in Hq. lia. }
    f_equal. destruct (Z.le_gt_cases (zlen l) (rmin r)) as [Hn|Hn].
    { rewrite !zdrop_ge, (zslice_ge (rmin r)) by lia. done. }
    rewrite (unselected_drop (r :: rs)).
    2: { intros q Hq. apply Hin. autorewrite with zlen in Hq. lia. }
    simpl. destruct (Z.le_gt_cases (zlen l) (rmax r + 1)) as [Hn'|Hn'].
    { rewrite !zdrop_ge by lia. done. }
    autorewrite with zlen.
    replace (pos + Z.max 0 (Z.min (rmin r) (zlen l) - pos) +
      Z.max 0 (Z.min (rmax r + 1) (zlen l) - rmin r)) with (rmax r + 1) by lia.
    apply unselected_ext. intros q Hq. unfold selected. cbn [existsb].
    unfold in_regionb at 2. by rewrite (proj2 (Z.leb_gt q (rmax r))), andb_false_r by lia.
Qed.

(** ** Edits that do not change the length *)

Definition edit_covers (p : Z) (ed : edit) : bool := (ed_start ed <=? p) && (p <? ed_end ed).

Lemma find_edit_after p pos es : edits_sorted pos es → p < pos → find (edit_covers p) es = None.
Proof.
  revert pos. induction es as [|ed es IH]; intros pos Hs Hp; simpl; [done|].
  destruct Hs as [Hr Hs]. unfold edit_covers at 1. rewrite (proj2 (Z.leb_gt _ _)) by lia.
  simpl. apply (IH _ Hs). lia.
Qed.

Lemma zlookup_app {A} (l1 l2 : list A) i : 0 ≤ i →
  zlookup (l1 ++ l2) i = if i <? zlen l1 then zlookup l1 i else zlookup l2 (i - zlen l1).
Proof.
  intros Hi. unfold zlookup, zlen. rewrite (proj2 (Z.ltb_ge i 0)) by lia.
  destruct (Z.ltb_spec i (Z.of_nat (length l1))).
  - by rewrite lookup_app_l by lia.
  - rewrite lookup_app_r by lia. rewrite (proj2 (Z.ltb_ge (i - _) 0)) by lia. f_equal. lia.
Qed.

Lemma zlookup_zslice {A} s e (l : list A) i : 0 ≤ s → 0 ≤ i < e - s →
  zlookup (zslice s e l) i = zlookup l (s + i).
Proof.
  intros Hs Hi. unfold zlookup, zslice, ztake, zdrop.
  rewrite !(proj2 (Z.ltb_ge _ 0)) by lia. rewrite lookup_take_lt by lia.
  rewrite lookup_drop. f_equal. lia.
Qed.

Lemma zlookup_zdrop {A} s (l : list A) i : 0 ≤ s → 0 ≤ i →
  zlookup (zdrop s l) i = zlookup l (s + i).
Proof.
  intros Hs Hi. unfold zlookup, zdrop. rewrite !(proj2 (Z.ltb_ge _ 0)) by lia.
  rewrite lookup_drop. f_equal. lia.
Qed.

(** Every byte is either the byte of the edit that covers its position or the
    old byte. *)
Lemma splice_lookup pos es l p : 0 ≤ pos ≤ p → edits_sorted pos es →
  Forall (λ ed, ed_start ed ≤ zlen l) es →
  Forall (λ ed, zlen (ed_text ed) = ed_end ed - ed_start ed) es →
  zlookup (splice pos es l) (p - pos) =
    match find (edit_covers p) es with
    | Some ed => zlookup (ed_text ed) (p - ed_start ed)
    | None => zlookup l p
    end.
Proof.
  revert pos. induction es as [|ed es IH]; intros pos Hp Hs Hn Ht; cbn [splice find].
  - rewrite zlookup_zdrop by lia. f_equal. lia.
  - destruct Hs as [Hr Hs]. apply Forall_cons in Hn as [Hn Hns]. apply Forall_cons in Ht as [Ht Hts].
    rewrite zlookup_app by lia. rewrite zlen_zslice by lia.
    replace (Z.max 0 (Z.min (ed_start ed) (zlen l) - pos)) with (ed_start ed - pos) by lia.
    unfold edit_covers at 1. destruct (Z.ltb_spec (p - pos) (ed_start ed - pos)).
    + rewrite zlookup_zslice by lia. rewrite (proj2 (Z.leb_gt _ _)) by lia. simpl.
      rewrite (find_edit_after p _ _ Hs) by lia. f_equal. lia.
    + rewrite (proj2 (Z.leb_le _ _)) by lia. simpl. rewrite zlookup_app, Ht by lia.
      replace (p - pos - (ed_start ed - pos)) with (p - ed_start ed) by lia.
      destruct (Z.ltb_spec p (ed_end ed)).
      * by rewrite (proj2 (Z.ltb_lt _ _)) by lia.
      * rewrite (proj2 (Z.ltb_ge _ _)) by lia.
        replace (p - ed_start ed - (ed_end ed - ed_start ed)) with (p - ed_end ed) by lia.
        apply IH; [lia|done..].
Qed.

Lemma find_fmap {A B} (f : B → bool) (g : A → B) (l : list A) :
  find f (g <$> l) = g <$> find (λ x, f (g x)) l.
Proof. induction l as [|x l IH]; csimpl; [done|]. by destruct (f (g x)). Qed.

Lemma find_ext {A} (f g : A → bool) (l : list A) : (∀ x, f x = g x) → find f l = find g l.
Proof. intros Hfg. induction l as [|x l IH]; simpl; [done|]. by rewrite Hfg, IH. Qed.

Lemma omap_Some {A B} (g : A → B) (l : list A) : omap (λ x, Some (g x)) l = g <$> l.
Proof. induction l as [|x l IH]; csimpl; [done|]. by rewrite IH. Qed.

Lemma find_existsb {A} (f : A → bool) (l : list A) :
  match find f l with Some x => f x = true ∧ existsb f l = true | None => existsb f l = false end.
Proof.
  induction l as [|x l IH]; simpl; [done|]. destruct (f x) eqn:E; [done|].
  by destruct (find f l).
Qed.

Lemma lor_nibbles b digit :
  Z.lor (b mod 2 ^ 4) (Z.shiftl digit 4) = digit * 16 + b mod 16.
Proof.
  assert (Z.land (b mod 2 ^ 4) (Z.shiftl digit 4) = 0) as Hdisj.
  { apply Z.bits_inj'. intros n Hn. rewrite Z.land_spec, Z.bits_0.
    destruct (Z.lt_ge_cases n 4).
    - by rewrite Z.shiftl_spec_low, andb_false_r.
    - by rewrite Z.mod_pow2_bits_high by lia. }
  rewrite <-Z.lxor_lor, <-Z.add_nocarry_lxor, Z.shiftl_mul_pow2 by done || lia.
  change (2 ^ 4) with 16. lia.
Qed.

Section edits.
Context `{Profile} `{XiRopeLaws}.

(** An operation that gives every region an edit of its own extent. *)
Lemma pointwise_edits (base : Rope) (sel : Selection) d (g : SelRegion → edit) (at_ : Z → SelRegion → bool) p :
  delta_of (rope_len base) (g <$> regions sel) d → 0 ≤ p →
  (∀ r, zlen (ed_text (g r)) = ed_end (g r) - ed_start (g r)) →
  (∀ r, edit_covers p (g r) = at_ p r) →
  zlookup (rope_bytes (rope_apply_delta base d)) p =
    match find (at_ p) (regions sel) with
    | Some r => zlookup (ed_text (g r)) (p - ed_start (g r))
    | None => zlookup (rope_bytes base) p
    end.
Proof.
  intros Hd Hp Hlen Hat. rewrite (delta_of_apply _ _ _ Hd).
  destruct Hd as (b & _ & _ & _ & Hn & Hs & Hf). rewrite rope_len_bytes in Hf.
  pose proof (splice_lookup 0 _ (rope_bytes base) p ltac:(lia) Hs Hf) as Hl.
  rewrite Z.sub_0_r, find_fmap in Hl. rewrite Hl.
  - rewrite (find_ext _ (at_ p)) by apply Hat. by destruct (find (at_ p) (regions sel)).
  - apply Forall_fmap, Forall_true. exact Hlen.
Qed.

Lemma zlookup_replicate {A} (x : A) n i : 0 ≤ i < n →
  zlookup (replicate (Z.to_nat n) x) i = Some x.
Proof.
  intros Hi. unfold zlookup. rewrite (proj2 (Z.ltb_ge _ 0)) by lia.
  apply lookup_replicate_2. lia.
Qed.

Lemma zlen_replicate {A} (x : A) n : 0 ≤ n → zlen (replicate (Z.to_nat n) x) = n.
Proof. intros. unfold zlen. rewrite length_replicate. lia. Qed.

Lemma replace_lookup base sel ch d p :
  delta_of (rope_len base) (omap (replace_edit ch) (regions sel)) d → 0 ≤ p →
  zlookup (rope_bytes (rope_apply_delta base d)) p =
    if selected (regions sel) p then Some ch else zlookup (rope_bytes base) p.
Proof.
  intros Hd Hp. unfold replace_edit in Hd. rewrite omap_Some in Hd.
  rewrite (pointwise_edits _ _ _ _ in_regionb _ Hd Hp).
  - pose proof (find_existsb (in_regionb p) (regions sel)) as Hf. unfold selected.
    destruct (find _ _) as [r|]; [|by rewrite Hf]. destruct Hf as [Hr ->]. simpl.
    unfold in_regionb in Hr. apply zlookup_replicate. lia.
  - intros r. simpl. rewrite zlen_replicate; pose proof (rmin_le_rmax r); lia.
  - intros r. unfold edit_covers, in_regionb. simpl. f_equal. zcases; try done.
    destruct (Z.ltb_spec p (rmax r + 1)), (Z.leb_spec p (rmax r)); done || lia.
Qed.

(** Operations that overwrite the byte under the caret with one byte. *)
Lemma caret_lookup (base : Rope) (sel : Selection) (f : Z → Z) d p :
  delta_of (rope_len base) ((λ r, mkEdit (caret r) (caret r + 1) [f (caret r)]) <$> regions sel) d →
  0 ≤ p →
  zlookup (rope_bytes (rope_apply_delta base d)) p =
    if is_caret (regions sel) p then Some (f p) else zlookup (rope_bytes base) p.
Proof.
  intros Hd Hp. rewrite (pointwise_edits _ _ _ _ (λ p r, caret r =? p) _ Hd Hp).
  - pose proof (find_existsb (λ r, caret r =? p) (regions sel)) as Hf. unfold is_caret.
    destruct (find _ _) as [r|]; [|by rewrite Hf]. destruct Hf as [<-%Z.eqb_eq ->]. simpl.
    by rewrite Z.sub_diag.
  - intros r. unfold zlen. simpl. lia.
  - intros r. unfold edit_covers. simpl.
    destruct (Z.leb_spec (caret r) p), (Z.ltb_spec p (caret r + 1)), (Z.eqb_spec (caret r) p);
      done || lia.
Qed.

(** Deletion keeps exactly the bytes outside of all regions, in order. *)
Lemma deletion_keeps_unselected (base : Rope) (sel : Selection) :
  selection_ok (rope_len base) sel → rope_len base < two63 →
  ∃ d, deletion base sel = Ok d ∧
    rope_bytes (rope_apply_delta base d) = unselected (regions sel) 0 (rope_bytes base).
Proof.
  intros Hok Hfit. destruct (deletion_delta base sel Hok Hfit) as (d & -> & Hd).
  exists d. split; [done|]. rewrite (delta_of_apply _ _ _ Hd).
  apply splice_delete; [done|apply (sel_sorted _ _ Hok)].
Qed.

(** C30: replacing never panics on a well-formed selection; afterwards every
    selected position holds the new byte (one past the end included, when the
    selection reaches it) and every other position holds what it held. *)
Theorem replace_overwrites_selected (base : Rope) (sel : Selection) (ch : Z) :
  selection_ok (rope_len base) sel → rope_len base < two63 →
  ∃ d, replace base sel ch = Ok d ∧ ∀ p, 0 ≤ p →
    zlookup (rope_bytes (rope_apply_delta base d)) p =
      if selected (regions sel) p then Some ch else zlookup (rope_bytes base) p.
Proof.
  intros Hok Hfit. destruct (replace_delta base sel Hok Hfit ch) as (d & -> & Hd).
  exists d. split; [done|]. intros p Hp. by apply replace_lookup.
Qed.

(** C31: overwriting a half byte never panics on a well-formed selection; the
    byte under each caret gets the new high digit and keeps its low digit (a
    new byte is appended when the caret is one past the end), and every other
    byte is unchanged. *)
Theorem overwrite_half_nibble (base : Rope) (sel : Selection) (digit : Z) :
  selection_ok (rope_len base) sel → rope_len base < two63 → 0 ≤ digit < 16 →
  ∃ d, overwrite_half base sel (Z.shiftl digit 4) = Ok d ∧ ∀ p, 0 ≤ p →
    zlookup (rope_bytes (rope_apply_delta base d)) p =
      if is_caret (regions sel) p
      then Some (digit * 16 + default 0 (zlookup (rope_bytes base) p) mod 16)
      else zlookup (rope_bytes base) p.
Proof.
  intros Hok Hfit Hdig.
  destruct (overwrite_half_delta base sel Hok Hfit (Z.shiftl digit 4)) as (d & -> & Hd).
  exists d. split; [done|]. intros p Hp. unfold overwrite_half_edit in Hd. rewrite omap_Some in Hd.
  rewrite (caret_lookup base sel
    (λ c, Z.lor (Z.land (default 0 (zlookup (rope_bytes base) c)) 15) (Z.shiftl digit 4)) d p Hd Hp).
  destruct (is_caret _ _); [|done]. f_equal. set (b := default 0 _).
  change 15 with (Z.ones 4). rewrite Z.land_ones by lia. apply lor_nibbles.
Qed.

End edits.

(** ** The theorems at a concrete document *)

Definition sample_doc : @Rope ref_rope := ref_doc [10; 11; 12; 13; 14; 15; 16].
Definition sample_sel : Selection := selection_of [(1, 2); (4, 4); (7, 6)] 1.

Lemma replace_overwrites_selected_witness :
  ∃ d, @replace true ref_rope sample_doc sample_sel 255 = Ok d ∧ ∀ p, 0 ≤ p →
    zlookup (rope_bytes (rope_apply_delta sample_doc d)) p =
      if selected (regions sample_sel) p then Some 255 else zlookup (rope_bytes sample_doc) p.
Proof.
  apply replace_overwrites_selected; [selection_ok_compute|vm_compute; reflexivity].
Defined.

Lemma overwrite_half_nibble_witness :
  ∃ d, @overwrite_half true ref_rope sample_doc sample_sel (Z.shiftl 11 4) = Ok d ∧ ∀ p, 0 ≤ p →
    zlookup (rope_bytes (rope_apply_delta sample_doc d)) p =
      if is_caret (regions sample_sel) p
      then Some (11 * 16 + default 0 (zlookup (rope_bytes sample_doc) p) mod 16)
      else zlookup (rope_bytes sample_doc) p.
Proof.
  apply overwrite_half_nibble; [selection_ok_compute|vm_compute; reflexivity|lia].
Defined.

Example deletion_sample :
  (d ← @deletion false ref_rope sample_doc sample_sel;
   Ok (rope_bytes (rope_apply_delta sample_doc d))) = Ok [10; 13; 15].
Proof. vm_compute. reflexivity. Qed.

Example overwrite_half_sample :
  (d ← @overwrite_half false ref_rope sample_doc sample_sel 176;
   Ok (rope_bytes (rope_apply_delta sample_doc d))) = Ok [10; 187; 12; 13; 190; 15; 16; 176].
Proof. vm_compute. reflexivity. Qed.
