(* ===== verification/History.v ===== *)
(** * History: undo and redo of [src/src/history.rs]

    An action is a delta.  [invert] turns it into the action that takes it
    back, [chain] composes an action with a later delta, and [History] keeps
    the inverse actions together with the selections to restore.  The
    correctness statement is a refinement: the history behaves like an undo
    manager that keeps a full copy of every version of the document. *)

From S2P Require Import Prelude Masks XiRope XiRopeRef ByteRope Selection.

Section history.
Context `{XiRope}.

Record Action := mkAction { act_delta : Delta }.

Definition from_delta (delta : Delta) : Action := mkAction delta.

Definition invert (self : Action) (base_rope : Rope) : Action :=
  let '(inserts, deletions) := delta_factor (act_delta self) in
  let ins_subset := ins_inserted_subset inserts in
  let deleted_now := without_subset base_rope (sub_complement deletions) in
  let deletions_from_base := sub_transform_expand deletions ins_subset in
  let deletions_from_inverted := ins_subset in
  mkAction (delta_synthesize (into_node deleted_now) deletions_from_base deletions_from_inverted).

Definition subsets_for_chain (self : Action) (next : Delta) : Subset * Subset * Subset :=
  let '(ins1, del1) := delta_factor (act_delta self) in
  let '(ins2, del2) := delta_factor next in
  let inserts_in_mid_union := ins_inserted_subset ins1 in
  let deletes_from_mid_union := sub_transform_expand del1 (ins_inserted_subset ins1) in
  let union_ins_delta := ins_transform_expand ins2 deletes_from_mid_union true in
  let new_inserts := ins_inserted_subset union_ins_delta in
  let new_deletes :=
    let pre_expand := sub_transform_expand del2 deletes_from_mid_union in
    if sub_is_empty new_inserts then pre_expand
    else sub_transform_expand pre_expand new_inserts in
  let rebased_deletes_from_union := sub_transform_expand deletes_from_mid_union new_inserts in
  let deletes_from_union := sub_union rebased_deletes_from_union new_deletes in
  let rebased_inserts_in_union := sub_transform_expand inserts_in_mid_union new_inserts in
  let inserts_in_union := sub_union rebased_inserts_in_union new_inserts in
  let inserts_in_mid_text := sub_transform_shrink inserts_in_mid_union deletes_from_mid_union in
  let prefinal_insertion := ins_inserted_subset ins2 in
  let inserts_in_prefinal := sub_transform_union inserts_in_mid_text prefinal_insertion in
  (inserts_in_union, deletes_from_union, inserts_in_prefinal).

Definition chain (self : Action) (after_self : Rope) (next : Delta) : Action :=
  let after_next := rope_apply_delta after_self (ins_delta (delta_factor next).1) in
  let '(inserted, deleted, inserts_in_prefinal) := subsets_for_chain self next in
  let tombstones := without_subset after_next (sub_complement inserts_in_prefinal) in
  mkAction (delta_synthesize (into_node tombstones) inserted deleted).

(** The stacks grow at their head; the source pushes and pops at the end of a
    [Vec]. *)
Record History := mkHistory {
  hist_partial : option (Action * Selection);
  hist_undo : list (Action * Selection);
  hist_redo : list (Action * Selection);
}.

Definition history_new : History := mkHistory None [] [].

Definition perform_final (self : History) (current_rope : Rope) (delta : Delta)
    (selection : Selection) : History :=
  mkHistory (hist_partial self)
    ((invert (from_delta delta) current_rope, selection) :: hist_undo self) [].

Definition perform_partial (self : History) (current_rope : Rope) (delta : Delta)
    (selection : Selection) : History :=
  let this_inversion := invert (from_delta delta) current_rope in
  let replaced :=
    match hist_partial self with
    | None => (this_inversion, selection)
    | Some (action, selection) => (chain this_inversion current_rope (act_delta action), selection)
    end in
  mkHistory (Some replaced) (hist_undo self) (hist_redo self).

Definition commit_partial (self : History) : History :=
  match hist_partial self with
  | Some (partial, selection) => mkHistory None ((partial, selection) :: hist_undo self) []
  | None => self
  end.

Definition undo (self : History) (current_rope : Rope) (selection : Selection) :
    option (Delta * Selection) * History :=
  match hist_undo self with
  | (action, old_selection) :: undo' =>
      (Some (act_delta action, old_selection),
       mkHistory (hist_partial self) undo'
         ((invert action current_rope, selection) :: hist_redo self))
  | [] => (None, self)
  end.

Definition redo (self : History) (current_rope : Rope) (selection : Selection) :
    option (Delta * Selection) * History :=
  match hist_redo self with
  | (action, old_selection) :: redo' =>
      (Some (act_delta action, old_selection),
       mkHistory (hist_partial self)
         ((invert action current_rope, selection) :: hist_undo self) redo')
  | [] => (None, self)
  end.

End history.

(** ** Inverting and chaining actions *)

Section actions.
Context `{XiRopeLaws}.

(** [d] takes every rope that holds [l] to a rope that holds [l']. *)
Definition takes (d : Delta) (l l' : bytes) : Prop :=
  delta_base_len d = zlen l ∧ ∀ n, node_bytes n = l → node_bytes (delta_apply d n) = l'.

Lemma takes_apply d r : delta_base_len d = rope_len r →
  takes d (rope_bytes r) (rope_bytes (rope_apply_delta r d)).
Proof.
  intros Hd. split; [by rewrite Hd, rope_len_bytes|]. intros n Hn. by apply delta_apply_bytes.
Qed.

Lemma takes_rope d l l' r : takes d l l' → rope_bytes r = l →
  rope_bytes (rope_apply_delta r d) = l'.
Proof. intros [_ Hd] Hr. by apply Hd. Qed.

Lemma node_exists l : ∃ n, node_bytes n = l.
Proof. exists (tb_build (tb_push_leaf tb_new l)). by rewrite tb_build_bytes, tb_push_leaf_bytes, tb_new_bytes. Qed.

Lemma zlen_length {A B} (l : list A) (l' : list B) : zlen l = zlen l' ↔ length l = length l'.
Proof. unfold zlen. lia. Qed.

(** The factors of a delta on a document [l]: the document [u] with all
    insertions and no deletions, the insertions [im] in it and the deletions
    [dm] of the old document. *)
Record factors (d : Delta) (l l' u : bytes) (i : InsertDelta) (im dm : list bool) : Prop := {
  fa_base : delta_base_len (ins_delta i) = zlen l;
  fa_run : ∀ n, node_bytes n = l → node_bytes (delta_apply (ins_delta i) n) = u;
  fa_im : length im = length u;
  fa_dm : length dm = length l;
  fa_old : mdel im u = l;
  fa_new : mdel (mexpand dm im) u = l';
}.

Lemma takes_factors d l l' i del : takes d l l' → delta_factor d = (i, del) →
  ∃ u, factors d l l' u i (sub_mask (ins_inserted_subset i)) (sub_mask del).
Proof.
  intros [Hlen Hd] Hf. destruct (delta_factor_len _ _ _ Hf) as [Hi Hdel].
  destruct (node_exists l) as [n Hn].
  assert (node_len n = delta_base_len d) as Hnl by (rewrite node_len_bytes, Hn; done).
  exists (node_bytes (delta_apply (ins_delta i) n)). split.
  - congruence.
  - intros n' Hn'. apply delta_apply_bytes. congruence.
  - apply zlen_length. rewrite ins_inserted_len with (n := n) by congruence. apply node_len_bytes.
  - apply zlen_length. congruence.
  - rewrite ins_inserted_delete by congruence. done.
  - rewrite <-(delta_factor_apply _ _ _ _ Hf Hnl). by apply Hd.
Qed.

Lemma factors_count d l l' u i im dm : factors d l l' u i im dm → length dm = mcount im.
Proof. intros F. rewrite (fa_dm _ _ _ _ _ _ _ F), <-(fa_old _ _ _ _ _ _ _ F). apply length_mdel, F. Qed.

Lemma synthesize_takes tomb from to u :
  length (sub_mask from) = length u → length (sub_mask to) = length u →
  node_bytes tomb = mdel (mcompl (sub_mask from)) u →
  takes (delta_synthesize tomb from to) (mdel (sub_mask from) u) (mdel (sub_mask to) u).
Proof.
  intros Hf Ht Htomb. split; [by apply delta_synthesize_len|].
  intros n Hn. by apply delta_synthesize_apply.
Qed.

Lemma invert_takes a l l' base : takes (act_delta a) l l' → rope_bytes base = l →
  takes (act_delta (invert a base)) l' l.
Proof.
  intros Ht Hb. unfold invert. destruct (delta_factor (act_delta a)) as [i del] eqn:Hf.
  destruct (takes_factors _ _ _ _ _ Ht Hf) as [u F]. pose proof (factors_count _ _ _ _ _ _ _ F) as Hc.
  destruct F as [_ _ Him Hdm Hold Hnew]. cbn [act_delta].
  assert (sub_mask (sub_transform_expand del (ins_inserted_subset i)) =
    mexpand (sub_mask del) (sub_mask (ins_inserted_subset i))) as He by by apply sub_expand_mask.
  rewrite <-Hold at 1. rewrite <-Hnew, <-He. apply synthesize_takes.
  - by rewrite He, length_mexpand.
  - done.
  - rewrite He, mdel_compl_expand, Hold by done.
    change (rope_bytes (without_subset base (sub_complement del)) = mdel (mcompl (sub_mask del)) l).
    rewrite without_subset_bytes by (rewrite sub_complement_mask, length_mcompl; congruence).
    by rewrite sub_complement_mask, Hb.
Qed.

(** Insertions moved to the string that still has the deleted bytes. *)
Lemma rebase_inserts ins2 (D1 : Subset) n1 mid :
  delta_base_len (ins_delta ins2) = Z.of_nat (mcount (sub_mask D1)) →
  length (node_bytes n1) = length (sub_mask D1) →
  node_bytes mid = mdel (sub_mask D1) (node_bytes n1) →
  let N := sub_mask (ins_inserted_subset (ins_transform_expand ins2 D1 true)) in
  ∃ U, length N = length U ∧ mdel N U = node_bytes n1 ∧
    mdel (mexpand (sub_mask D1) N) U = node_bytes (delta_apply (ins_delta ins2) mid) ∧
    mshrink N (mexpand (sub_mask D1) N) = sub_mask (ins_inserted_subset ins2).
Proof.
  intros Hb Hl Hm N. set (ui := ins_transform_expand ins2 D1 true) in *.
  assert (node_len n1 = delta_base_len (ins_delta ui)) as Hn1.
  { unfold ui. rewrite ins_expand_len, node_len_bytes by done. by apply zlen_length. }
  exists (node_bytes (delta_apply (ins_delta ui) n1)). split_and!.
  - apply zlen_length. unfold N. rewrite ins_inserted_len with (n := n1) by done. apply node_len_bytes.
  - by apply ins_inserted_delete.
  - by apply ins_expand_apply.
  - by apply ins_expand_inserted.
Qed.

Lemma mcount_empty t : mempty t = true → mcount t = length t.
Proof.
  unfold mcount. intros He. by rewrite mdel_empty.
Qed.

(** Skipping the expansion by an empty subset changes nothing. *)
Lemma expand_unless_empty s t : length (sub_mask s) = mcount (sub_mask t) →
  sub_mask (if sub_is_empty t then s else sub_transform_expand s t) =
    mexpand (sub_mask s) (sub_mask t).
Proof.
  intros Hl. rewrite sub_is_empty_mask. destruct (mempty (sub_mask t)) eqn:He.
  - rewrite mexpand_empty; [done| |done]. by rewrite Hl, mcount_empty.
  - by apply sub_expand_mask.
Qed.

(** The subsets of [subsets_for_chain] as masks over the string [U] that has
    the insertions of both deltas and the deletions of neither. *)
Lemma chain_masks a d2 l m r (mid : Rope) :
  takes (act_delta a) l m → takes d2 m r → rope_bytes mid = m →
  let P := rope_bytes (rope_apply_delta mid (ins_delta (delta_factor d2).1)) in
  ∃ U I D T, subsets_for_chain a d2 = (I, D, T) ∧
    length (sub_mask I) = length U ∧ length (sub_mask D) = length U ∧
    mdel (sub_mask I) U = l ∧ mdel (sub_mask D) U = r ∧ length (sub_mask T) = length P ∧
    mdel (mcompl (sub_mask T)) P = mdel (mcompl (sub_mask I)) U.
Proof.
  intros H1 H2 Hm P. unfold subsets_for_chain.
  destruct (delta_factor (act_delta a)) as [ins1 del1] eqn:Hf1.
  destruct (delta_factor d2) as [ins2 del2] eqn:Hf2. cbn [fst] in P.
  destruct (takes_factors _ _ _ _ _ H1 Hf1) as [u1 F1].
  pose proof (factors_count _ _ _ _ _ _ _ F1) as Hc1. destruct F1 as [_ Hrun1 Hi1 _ Hold1 Hnew1].
  destruct (takes_factors _ _ _ _ _ H2 Hf2) as [P' F2].
  pose proof (factors_count _ _ _ _ _ _ _ F2) as Hc2. destruct F2 as [Hb2 Hrun2 Hi2 Hd2 Hold2 Hnew2].
  assert (P = P') as <- by by apply Hrun2.
  set (I1 := ins_inserted_subset ins1) in *. set (I2 := ins_inserted_subset ins2) in *.
  set (D1 := sub_transform_expand del1 I1).
  assert (sub_mask D1 = mexpand (sub_mask del1) (sub_mask I1)) as HD1 by by apply sub_expand_mask.
  assert (length (sub_mask D1) = length u1) as HlD1 by (rewrite HD1, length_mexpand; congruence).
  assert (length m = mcount (sub_mask D1)) as HcD1.
  { rewrite <-Hnew1, <-HD1. by apply length_mdel. }
  destruct (node_exists l) as [nl Hnl]. pose proof (Hrun1 nl Hnl) as Hu1.
  destruct (rebase_inserts ins2 D1 (delta_apply (ins_delta ins1) nl) (rope_node mid))
    as (U & HlN & HdN & HP & HI2).
  { rewrite Hb2. unfold zlen. lia. }
  { congruence. }
  { rewrite Hu1, HD1, Hnew1. exact Hm. }
  rewrite Hu1 in HdN. set (N := ins_inserted_subset (ins_transform_expand ins2 D1 true)) in *.
  assert (length u1 = mcount (sub_mask N)) as HcN by (rewrite <-HdN; by apply length_mdel).
  destruct (chain_mask_algebra (sub_mask I1) (sub_mask D1) (sub_mask N) (sub_mask I2)
    (sub_mask del2) U u1 P) as (A1 & A2 & A3); [done|done| |done|done|done|done|congruence|].
  { rewrite zip_with_andb_comm, HD1, mexpand_disjoint. congruence. }
  assert (length (mexpand (sub_mask del2) (sub_mask D1)) = mcount (sub_mask N)) as Hpre
    by (rewrite length_mexpand; congruence).
  assert (length (mshrink (sub_mask I1) (sub_mask D1)) = mcount (sub_mask I2)) as Hmid.
  { rewrite length_mshrink by congruence. congruence. }
  eexists U, _, _, _. split; [done|].
  rewrite !sub_union_mask, sub_transform_union_mask, sub_shrink_mask, !sub_expand_mask,
    expand_unless_empty, sub_expand_mask, !length_munion, !length_mexpand, A1, A2, A3
    by (rewrite ?sub_shrink_mask, ?expand_unless_empty, ?sub_expand_mask, ?length_mexpand by
          (rewrite ?sub_expand_mask, ?length_mexpand by congruence; congruence); congruence).
  split_and!; try done; lia.
Qed.

Lemma chain_takes a d2 l m r mid : takes (act_delta a) l m → takes d2 m r → rope_bytes mid = m →
  takes (act_delta (chain a mid d2)) l r.
Proof.
  intros H1 H2 Hm. unfold chain.
  destruct (chain_masks a d2 l m r mid H1 H2 Hm) as (U & I & D & T & -> & HI & HD & <- & <- & HT & HP).
  cbn [act_delta]. apply synthesize_takes; [done|done|]. rewrite <-HP, <-sub_complement_mask.
  apply without_subset_bytes. by rewrite sub_complement_mask, length_mcompl.
Qed.

(** C5: applying the inverse of a delta to the edited document gives back the
    document, and inverting the inverse redoes the edit: undo followed by redo
    is the identity on the text, for every delta of the right base length. *)
Theorem invert_round_trip (d : Delta) (base : Rope) :
  delta_base_len d = rope_len base →
  let edited := rope_apply_delta base d in
  let undo_action := invert (from_delta d) base in
  let redo_action := invert undo_action edited in
  rope_bytes (rope_apply_delta edited (act_delta undo_action)) = rope_bytes base ∧
  rope_bytes (rope_apply_delta base (act_delta redo_action)) = rope_bytes edited.
Proof.
  intros Hd edited undo_action redo_action.
  pose proof (takes_apply d base Hd : takes (act_delta (from_delta d)) _ _) as Ht.
  pose proof (invert_takes _ _ _ base Ht eq_refl) as Hu.
  split; [by apply (takes_rope _ _ _ _ Hu)|].
  by apply (takes_rope _ _ _ _ (invert_takes _ _ _ edited Hu eq_refl)).
Qed.

(** C2: chaining an action with the delta that follows it is their
    composition: applied to the first document it gives the last one, and it
    has the base length of the first document. *)
Theorem chain_composes (d1 d2 : Delta) (base : Rope) :
  delta_base_len d1 = rope_len base →
  delta_base_len d2 = rope_len (rope_apply_delta base d1) →
  let mid := rope_apply_delta base d1 in
  let both := act_delta (chain (from_delta d1) mid d2) in
  delta_base_len both = rope_len base ∧
  rope_bytes (rope_apply_delta base both) = rope_bytes (rope_apply_delta mid d2).
Proof.
  intros H1 H2 mid both. pose proof (takes_apply d1 base H1) as T1.
  pose proof (takes_apply d2 mid H2) as T2.
  pose proof (chain_takes (from_delta d1) d2 _ _ _ mid T1 T2 eq_refl) as T.
  split; [rewrite rope_len_bytes; apply T|by apply (takes_rope _ _ _ _ T)].
Qed.

(** ** The history against an undo manager that keeps full copies *)

Record Snapshots := mkSnapshots {
  sn_partial : option (bytes * Selection);
  sn_undo : list (bytes * Selection);
  sn_redo : list (bytes * Selection);
}.

Definition snapshots_new : Snapshots := mkSnapshots None [] [].

(** A stack of actions walks back through the versions of a stack of copies. *)
Fixpoint walks (doc : bytes) (h : list (Action * Selection)) (s : list (bytes * Selection)) : Prop :=
  match h, s with
  | [], [] => True
  | (a, sel) :: h', (l, sel') :: s' => takes (act_delta a) doc l ∧ sel = sel' ∧ walks l h' s'
  | _, _ => False
  end.

(** The document before the edits that are not committed yet. *)
Definition committed (s : Snapshots) (doc : bytes) : bytes :=
  match sn_partial s with Some (l, _) => l | None => doc end.

Record represents (h : History) (doc : bytes) (s : Snapshots) : Prop := {
  rep_partial : match hist_partial h, sn_partial s with
    | None, None => True
    | Some (a, sel), Some (l, sel') => takes (act_delta a) doc l ∧ sel = sel'
    | _, _ => False
    end;
  rep_undo : walks (committed s doc) (hist_undo h) (sn_undo s);
  rep_redo : walks (committed s doc) (hist_redo h) (sn_redo s);
}.

Definition snap_final (s : Snapshots) (doc : bytes) (sel : Selection) : Snapshots :=
  mkSnapshots (sn_partial s) ((doc, sel) :: sn_undo s) [].
Definition snap_partial (s : Snapshots) (doc : bytes) (sel : Selection) : Snapshots :=
  mkSnapshots (Some (default (doc, sel) (sn_partial s))) (sn_undo s) (sn_redo s).
Definition snap_commit (s : Snapshots) : Snapshots :=
  match sn_partial s with
  | Some v => mkSnapshots None (v :: sn_undo s) []
  | None => s
  end.
Definition snap_undo (s : Snapshots) (doc : bytes) (sel : Selection) :
    option (bytes * Selection) * Snapshots :=
  match sn_undo s with
  | v :: u => (Some v, mkSnapshots (sn_partial s) u ((doc, sel) :: sn_redo s))
  | [] => (None, s)
  end.
Definition snap_redo (s : Snapshots) (doc : bytes) (sel : Selection) :
    option (bytes * Selection) * Snapshots :=
  match sn_redo s with
  | v :: u => (Some v, mkSnapshots (sn_partial s) ((doc, sel) :: sn_undo s) u)
  | [] => (None, s)
  end.

Lemma represents_new doc : represents history_new doc snapshots_new.
Proof. by split. Qed.

Lemma represents_final h (r : Rope) s d sel : delta_base_len d = rope_len r →
  sn_partial s = None → represents h (rope_bytes r) s →
  represents (perform_final h r d sel) (rope_bytes (rope_apply_delta r d))
    (snap_final s (rope_bytes r) sel).
Proof.
  intros Hd Hp [Hpart Hu Hr]. unfold committed in *. rewrite Hp in *.
  split; simpl; unfold committed; simpl; rewrite ?Hp; [by destruct (hist_partial h)| |done].
  split; [|done]. apply (invert_takes _ (rope_bytes r)); [by apply takes_apply|done].
Qed.

Lemma represents_partial h (r : Rope) s d sel : delta_base_len d = rope_len r →
  represents h (rope_bytes r) s →
  represents (perform_partial h r d sel) (rope_bytes (rope_apply_delta r d))
    (snap_partial s (rope_bytes r) sel).
Proof.
  intros Hd [Hpart Hu Hr].
  pose proof (invert_takes (from_delta d) _ _ r (takes_apply d r Hd) eq_refl) as Hinv.
  unfold committed in *. destruct (hist_partial h) as [[a sa]|] eqn:Eh, (sn_partial s) as [[l sl]|] eqn:Es;
    try done.
  - destruct Hpart as [Ha ->]. split; unfold committed; simpl; rewrite ?Eh, ?Es; simpl; [|done..].
    split; [|done]. by apply chain_takes with (rope_bytes r).
  - split; unfold committed; simpl; rewrite ?Eh, ?Es; simpl; done.
Qed.

Lemma represents_commit h doc s : represents h doc s →
  represents (commit_partial h) doc (snap_commit s).
Proof.
  intros [Hpart Hu Hr]. unfold commit_partial, snap_commit, committed in *.
  destruct (hist_partial h) as [[a sa]|] eqn:Eh, (sn_partial s) as [[l sl]|] eqn:Es; try done.
  - split; unfold committed; simpl; tauto.
  - split; unfold committed; rewrite ?Eh, ?Es; done.
Qed.

(** Popping a version from either stack. *)
Lemma walks_pop (r : Rope) h s : walks (rope_bytes r) h s →
  match h, s with
  | (a, sel) :: h', (l, sel') :: s' =>
      sel = sel' ∧ rope_bytes (rope_apply_delta r (act_delta a)) = l ∧ walks l h' s' ∧
      takes (act_delta (invert a r)) l (rope_bytes r)
  | [], [] => True
  | _, _ => False
  end.
Proof.
  destruct h as [|[a sel] h], s as [|[l sel'] s]; simpl; try done. intros (Ht & -> & Hw).
  split_and!; [done|by apply (takes_rope _ _ _ _ Ht)|done|by apply (invert_takes _ _ _ r Ht)].
Qed.

Lemma represents_undo h (r : Rope) s sel : sn_partial s = None → represents h (rope_bytes r) s →
  let '(o, h') := undo h r sel in
  let '(o', s') := snap_undo s (rope_bytes r) sel in
  match o, o' with
  | None, None => represents h' (rope_bytes r) s'
  | Some (d, old), Some (l, old') =>
      old = old' ∧ rope_bytes (rope_apply_delta r d) = l ∧ represents h' l s'
  | _, _ => False
  end.
Proof.
  intros Hp Hrep. pose proof Hrep as [Hpart Hu Hr]. unfold committed in *. rewrite Hp in *.
  pose proof (walks_pop r _ _ Hu) as Hw. unfold undo, snap_undo.
  destruct (hist_undo h) as [|[a sa] u], (sn_undo s) as [|[l sl] us]; try done.
  destruct Hw as (-> & Hl & Hws & Hinv). split_and!; [done|done|].
  split; unfold committed; simpl; rewrite Hp; done.
Qed.

Lemma represents_redo h (r : Rope) s sel : sn_partial s = None → represents h (rope_bytes r) s →
  let '(o, h') := redo h r sel in
  let '(o', s') := snap_redo s (rope_bytes r) sel in
  match o, o' with
  | None, None => represents h' (rope_bytes r) s'
  | Some (d, old), Some (l, old') =>
      old = old' ∧ rope_bytes (rope_apply_delta r d) = l ∧ represents h' l s'
  | _, _ => False
  end.
Proof.
  intros Hp Hrep. pose proof Hrep as [Hpart Hu Hr]. unfold committed in *. rewrite Hp in *.
  pose proof (walks_pop r _ _ Hr) as Hw. unfold redo, snap_redo.
  destruct (hist_redo h) as [|[a sa] u], (sn_redo s) as [|[l sl] us]; try done.
  destruct Hw as (-> & Hl & Hws & Hinv). split_and!; [done|done|].
  split; unfold committed; simpl; rewrite Hp; done.
Qed.

End actions.

(** ** The theorems at a concrete document *)

Definition history_base : @Rope ref_rope := ref_doc [0; 1; 2; 3].
Definition history_d1 : @Delta ref_rope :=
  delta_simple_edit (mkInterval 1 2) (rope_node (ref_doc [5; 6])) 4.
Definition history_d2 : @Delta ref_rope :=
  delta_simple_edit (mkInterval 2 4) (rope_node (ref_doc [9])) 5.

Lemma invert_round_trip_witness :
  rope_bytes (rope_apply_delta (rope_apply_delta history_base history_d1)
    (act_delta (invert (from_delta history_d1) history_base))) = rope_bytes history_base.
Proof. apply (invert_round_trip history_d1 history_base). vm_compute. reflexivity. Defined.

Lemma chain_composes_witness :
  let mid := rope_apply_delta history_base history_d1 in
  let both := act_delta (chain (from_delta history_d1) mid history_d2) in
  delta_base_len both = rope_len history_base ∧
  rope_bytes (rope_apply_delta history_base both) = rope_bytes (rope_apply_delta mid history_d2).
Proof. apply (chain_composes history_d1 history_d2 history_base); vm_compute; reflexivity. Defined.

Example chain_sample :
  rope_bytes (rope_apply_delta history_base
    (act_delta (chain (from_delta history_d1) (rope_apply_delta history_base history_d1) history_d2)))
  = [0; 5; 9; 3].
Proof. vm_compute. reflexivity. Qed.
