(* ===== verification/SelectionExact.v ===== *)
(** * SelectionExact: closures that keep regions apart

    When the images of the regions do not touch, [map_selections] merges
    nothing: the result is the image of every region, with the main region
    where it was. *)

From S2P Require Import Prelude Masks XiRope XiRopeRef ByteRope Selection SelectionMap.
From S2P Require Import SelectionMoves SelectionQueries.

Lemma imap_relabel m (g : SelRegion → SelRegion) (rs : list SelRegion) :
  relabel m (g <$> rs) = imap (λ i r, with_main (g r) (Z.of_nat i =? m)) rs.
Proof. unfold relabel. by rewrite imap_fmap. Qed.

Section exact.
Context `{Profile} {S : Type} (f : S → SelRegion → outcome (list SelRegion * S)) (P : S → Prop).
Context (g : SelRegion → SelRegion) (inp : SelRegion → Prop).
Hypothesis f_ok : ∀ s r, P s → inp r → ∃ s', f s r = Ok ([g r], s') ∧ P s'.
Hypothesis g_flag : ∀ r, inp r → is_main (g r) = false.
Hypothesis g_apart : ∀ r r', inp r → inp r' → rmax r < rmin r' → rmax (g r) < rmin (g r').

(** The regions produced so far end before the image of every region to come. *)
Definition apart (out rs : list SelRegion) : Prop :=
  ∀ o r, last out = Some o → r ∈ rs → rmax o < rmin (g r).

Lemma push_region_apart out r rs : apart out (r :: rs) → push_region out (g r) = Ok (out ++ [g r]).
Proof.
  intros Ha. unfold push_region. destruct (last out) as [o|] eqn:E.
  - unfold overlaps. rewrite (proj2 (Z.leb_gt _ _)); [done|]. apply (Ha o r E). by left.
  - apply last_None in E. by subst.
Qed.

Lemma with_main_false r : inp r → with_main (g r) false = g r.
Proof. intros Hr. pose proof (g_flag r Hr). destruct (g r). simpl in *. by subst. Qed.

Lemma map_loop_exact m rs lo s out nm : P s → Forall inp rs → regions_from lo rs → apart out rs →
  zlen out + zlen rs ≤ usize_max →
  ∃ s', map_loop f m (zlen out) rs s out nm =
      Ok (out ++ imap (λ k r, with_main (g r) (zlen out + Z.of_nat k =? m)) rs,
          (if (zlen out <=? m) && (m <? zlen out + zlen rs) then m else nm), s') ∧ P s'.
Proof.
  revert lo s out nm. induction rs as [|r rs IH]; intros lo s out nm HP Hin Hr Ha Hlen.
  - exists s. cbn [map_loop imap]. rewrite app_nil_r, zlen_nil. split; [|done]. do 3 f_equal.
    zcases; done.
  - apply Forall_cons in Hin as [Hri Hin]. destruct Hr as [_ Hr].
    destruct (f_ok s r HP Hri) as (s1 & Hf & HP1). cbn [map_loop]. rewrite Hf. cbn [mbind outcome_bind foldM].
    rewrite (push_region_apart _ _ _ Ha). cbn [mbind outcome_bind]. pose proof (zlen_nonneg out).
    rewrite zlen_cons in *. pose proof (zlen_nonneg rs).
    assert ((if zlen out =? m
        then new_main ← usub (zlen (out ++ [g r])) 1; l ← unwrap (last (out ++ [g r]));
          Ok (removelast (out ++ [g r]) ++ [with_main l true], new_main)
        else Ok (out ++ [g r], nm)) =
      Ok (out ++ [with_main (g r) (zlen out =? m)], if zlen out =? m then m else nm)) as ->.
    { destruct (Z.eqb_spec (zlen out) m) as [<-|]; [|by rewrite with_main_false].
      rewrite usub_ok, last_snoc, removelast_last; autorewrite with zlen; [|unfold_usize; lia].
      simpl. do 2 f_equal. lia. }
    cbn [mbind outcome_bind].
    destruct (IH _ s1 (out ++ [with_main (g r) (zlen out =? m)]) (if zlen out =? m then m else nm)
      HP1 Hin Hr) as (s2 & HIH & HP2).
    + intros o r' Ho Hr'. rewrite last_snoc in Ho. injection Ho as <-.
      change (rmax (g r) < rmin (g r')). apply list_elem_of_lookup in Hr' as [i Hi].
      pose proof (regions_from_lookup _ _ _ _ Hr Hi).
      apply g_apart; [done|by apply (Forall_lookup_1 _ _ _ _ Hin Hi)|lia].
    + autorewrite with zlen. lia.
    + exists s2. split; [|done].
      replace (zlen (out ++ [with_main (g r) (zlen out =? m)])) with (zlen out + 1) in HIH
        by (autorewrite with zlen; lia).
      rewrite HIH. cbn [imap]. rewrite <-app_assoc. cbn [app]. rewrite Z.add_0_r.
      do 2 f_equal. apply pair_equal_spec. split.
      * do 2 f_equal. apply imap_ext. intros i x _. simpl. do 2 f_equal. lia.
      * zcases; done.
Qed.

Lemma map_selections_exact max_size sel s : selection_ok max_size sel → max_size < two63 →
  Forall inp (regions sel) → P s →
  let m := main_selection sel in
  ∃ s', map_selections sel f s = Ok (mkSelection (relabel m (g <$> regions sel)) m, s') ∧ P s'.
Proof.
  intros Hok Hmax Hin HP m. pose proof Hok as [Hm Hs Hb _].
  destruct (map_loop_exact m (regions sel) 0 s [] 0 HP Hin Hs) as (s' & Hl & HP').
  - by intros o r.
  - autorewrite with zlen. destruct (Z.le_gt_cases 0 (max_size + 1)).
    + pose proof (regions_count 0 max_size _ Hs Hb ltac:(lia)). unfold_usize. lia.
    + destruct (zlookup_lt _ _ Hm) as [r [_ Hr]%zlookup_Some].
      pose proof (regions_from_lookup _ _ _ _ Hs Hr). pose proof (rmin_le_rmax r).
      pose proof (Forall_lookup_1 _ _ _ _ Hb Hr). simpl in *. lia.
  - exists s'. split; [|done]. unfold map_selections. rewrite zlen_nil in Hl. fold m.
    rewrite Hl. simpl. rewrite imap_relabel. do 3 f_equal. fold m in Hm. zcases; done.
Qed.

End exact.

(** Images that stay apart and within bounds form a well-formed selection. *)
Lemma relabel_image_ok (g : SelRegion → SelRegion) max_size hi sel :
  selection_ok max_size sel →
  (∀ r, r ∈ regions sel → 0 ≤ rmin (g r) ∧ rmax (g r) ≤ hi) →
  (∀ r r', r ∈ regions sel → r' ∈ regions sel → rmax r < rmin r' → rmax (g r) < rmin (g r')) →
  let m := main_selection sel in
  selection_ok hi (mkSelection (relabel m (g <$> regions sel)) m).
Proof.
  intros [Hm Hs _ _] Hrg Hap m. split; simpl.
  - rewrite zlen_relabel, zlen_fmap. done.
  - apply relabel_from. fold m in Hm. clear m Hm.
    assert (∀ lo, (∀ r, r ∈ regions sel → lo ≤ rmin (g r)) → regions_from lo (g <$> regions sel))
      as Hgen; [|apply Hgen; intros r Hr; by apply Hrg].
    revert Hs. generalize 0. induction (regions sel) as [|r rs IH]; intros z Hs lo Hlo; [done|].
    destruct Hs as [_ Hs]. csimpl. split; [apply Hlo; by left|]. apply (IH) with (z := rmax r + 1).
    + intros x Hx. apply Hrg. by right.
    + intros x x' Hx Hx'. apply Hap; by right.
    + done.
    + intros x Hx. apply list_elem_of_lookup in Hx as Hx'. destruct Hx' as [i Hi].
      pose proof (regions_from_lookup _ _ _ _ Hs Hi).
      pose proof (Hap r x ltac:(left) ltac:(by right)). lia.
  - apply relabel_bounded, Forall_fmap, Forall_forall. intros r Hr. by apply Hrg.
  - apply relabel_flags.
Qed.
