(* ===== verification/SelectionParts.v ===== *)
(** * SelectionParts: closures that cut regions into parts

    When a closure replaces every region by parts of it, [map_selections]
    merges nothing: the new regions are the parts in order, and the main region
    is the last part that was produced up to the old main region.  When there
    is no such part it panics. *)

From S2P Require Import Prelude Masks XiRope XiRopeRef ByteRope Selection SelectionMap.
From S2P Require Import SelectionMoves SelectionQueries SelectionExact.

(** [news] are parts of the region [r], sorted and not overlapping. *)
Definition parts_of (r : SelRegion) (news : list SelRegion) : Prop :=
  regions_from (rmin r) news ∧ Forall (λ x, rmax x ≤ rmax r) news.

(** Flags before marking: at most the last part of the main region has one. *)
Definition parts_flags (is_main_part : bool) (news : list SelRegion) : Prop :=
  Forall (λ x, is_main x = false) (if is_main_part then removelast news else news).

Section parts.
Context `{Profile} {S : Type} (f : S → SelRegion → outcome (list SelRegion * S)).

(** The closure run over all regions, with what it produced for each. *)
Inductive runs : S → list SelRegion → list (list SelRegion) → S → Prop :=
  | runs_nil s : runs s [] [] s
  | runs_cons s r news s1 rs parts s2 : f s r = Ok (news, s1) → parts_of r news →
      runs s1 rs parts s2 → runs s (r :: rs) (news :: parts) s2.

Lemma Forall_removelast {A} (P : A → Prop) (l : list A) : Forall P l → Forall P (removelast l).
Proof.
  intros Hl. destruct l as [|x l _] using rev_ind; [done|]. rewrite removelast_last.
  by apply Forall_app in Hl as [? _].
Qed.

Definition ends_before (lo : Z) (out : list SelRegion) : Prop :=
  ∀ o, last out = Some o → rmax o < lo.

Lemma push_regions out lo news : ends_before lo out → regions_from lo news →
  foldM push_region out news = Ok (out ++ news).
Proof.
  revert out lo. induction news as [|r news IH]; intros out lo Ho Hn; cbn [foldM].
  - by rewrite app_nil_r.
  - destruct Hn as [Hr Hn].
    assert (push_region out r = Ok (out ++ [r])) as ->.
    { unfold push_region. destruct (last out) as [o|] eqn:E.
      - specialize (Ho o E). unfold overlaps. by rewrite (proj2 (Z.leb_gt _ _)) by lia.
      - apply last_None in E. by subst. }
    cbn [mbind outcome_bind]. rewrite (IH _ (rmax r + 1)); [by rewrite <-app_assoc| |done].
    intros o. rewrite last_snoc. intros [= <-]. lia.
Qed.

Lemma ends_before_app lo r out news : ends_before lo out → lo ≤ rmin r → parts_of r news →
  ends_before (rmax r + 1) (out ++ news).
Proof.
  intros Ho Hlo [_ Hb] o. rewrite last_app. pose proof (rmin_le_rmax r).
  destruct (last news) as [x|] eqn:E.
  - intros [= <-]. apply last_Some_elem_of in E. rewrite Forall_forall in Hb. specialize (Hb _ E). simpl in Hb. lia.
  - intros Hl. specialize (Ho o Hl). lia.
Qed.

Lemma map_loop_app m i rs1 rs2 s out nm :
  map_loop f m i (rs1 ++ rs2) s out nm =
    ('(out, nm, s) ← map_loop f m i rs1 s out nm; map_loop f m (i + zlen rs1) rs2 s out nm).
Proof.
  revert i s out nm. induction rs1 as [|r rs1 IH]; intros i s out nm.
  - cbn [map_loop app mbind outcome_bind]. by rewrite zlen_nil, Z.add_0_r.
  - cbn [map_loop app]. destruct (f s r) as [[news s']|]; cbn [mbind outcome_bind]; [|done].
    destruct (foldM _ _ _); cbn [mbind outcome_bind]; [|done].
    match goal with |- mbind _ ?x = _ => destruct x as [[? ?]|]; cbn [mbind outcome_bind]; [|done] end.
    rewrite IH. by replace (i + zlen (r :: rs1)) with (i + 1 + zlen rs1) by (rewrite zlen_cons; lia).
Qed.

(** A stretch of regions without the main one. *)
Lemma map_loop_unmarked m i lo rs parts s s' out nm : runs s rs parts s' →
  regions_from lo rs → ends_before lo out → (m < i ∨ i + zlen rs ≤ m) →
  map_loop f m i rs s out nm = Ok (out ++ concat parts, nm, s') ∧
  ends_before (regions_end lo rs) (out ++ concat parts).
Proof.
  intros Hr. revert i lo out. induction Hr as [s|s r news s1 rs parts s2 Hf Hp _ IH]; intros i lo out Hs Ho Hm.
  - simpl. by rewrite app_nil_r.
  - destruct Hs as [Hlo Hs]. rewrite zlen_cons in Hm. pose proof (zlen_nonneg rs).
    cbn [map_loop]. rewrite Hf. cbn [mbind outcome_bind].
    rewrite (push_regions _ (rmin r)) by (try apply Hp; intros o Hl; specialize (Ho o Hl); lia).
    cbn [mbind outcome_bind]. rewrite (proj2 (Z.eqb_neq i m)) by lia. cbn [mbind outcome_bind].
    destruct (IH (i + 1) (rmax r + 1) (out ++ news) Hs) as [-> He]; [by eapply ends_before_app|lia|].
    simpl. by rewrite app_assoc.
Qed.

Lemma runs_app_inv s rs1 rs2 parts s' : runs s (rs1 ++ rs2) parts s' →
  ∃ parts1 parts2 s1, parts = parts1 ++ parts2 ∧ runs s rs1 parts1 s1 ∧ runs s1 rs2 parts2 s' ∧
    length parts1 = length rs1.
Proof.
  revert s parts. induction rs1 as [|r rs1 IH]; intros s parts Hr; simpl in *.
  - by exists [], parts, s; repeat constructor.
  - inversion Hr as [|? ? news s1 ? parts' ? Hf Hp Hr']; subst.
    destruct (IH _ _ Hr') as (p1 & p2 & s2 & -> & H1 & H2 & Hl).
    exists (news :: p1), p2, s2. split_and!; [done|by econstructor|done|simpl; lia].
Qed.

Lemma runs_sorted s rs parts s' lo hi : runs s rs parts s' → regions_from lo rs →
  Forall (λ r, rmax r ≤ hi) rs →
  regions_from lo (concat parts) ∧ Forall (λ r, rmax r ≤ hi) (concat parts).
Proof.
  intros Hr. revert lo. induction Hr as [s|s r news s1 rs parts s2 _ [Hn Hb] _ IH]; intros lo; [done|].
  intros [Hlo Hs] [Hhi Hrs]%Forall_cons. destruct (IH _ Hs Hrs) as [Hs' Hb']. simpl. split.
  - apply regions_from_app. split; [by eapply regions_from_weaken|].
    eapply regions_from_weaken; [|exact Hs'].
    destruct (last news) as [x|] eqn:E.
    + apply last_Some_elem_of in E as E'. rewrite Forall_forall in Hb. specialize (Hb _ E'). simpl in Hb.
      apply last_snoc_removelast in E. rewrite E, regions_end_snoc. lia.
    + apply last_None in E. subst. simpl. pose proof (rmin_le_rmax r). lia.
  - apply Forall_app. split; [|done]. eapply Forall_impl; [exact Hb|]. simpl. lia.
Qed.

(** The flags once the last part up to the main region is marked. *)
Lemma relabel_parts before x after :
  Forall (λ r, is_main r = false) before → Forall (λ r, is_main r = false) after →
  relabel (zlen before) (before ++ [x] ++ after) = before ++ [with_main x true] ++ after.
Proof.
  intros Hb Ha. apply list_eq. intros i. rewrite relabel_lookup, !Forall_lookup in *. unfold zlen.
  destruct (Nat.lt_ge_cases i (length before)) as [Hi|Hi].
  - rewrite !lookup_app_l by done. destruct (before !! i) as [r|] eqn:E; [|done]. simpl.
    rewrite (proj2 (Z.eqb_neq _ _)) by lia. pose proof (Hb _ _ E). destruct r. simpl in *. by subst.
  - rewrite !(lookup_app_r before) by done. destruct (i - length before)%nat as [|k] eqn:Ek; simpl.
    + by rewrite (proj2 (Z.eqb_eq _ _)) by lia.
    + destruct (after !! k) as [r|] eqn:E; [|done]. simpl.
      rewrite (proj2 (Z.eqb_neq _ _)) by lia. pose proof (Ha _ _ E). destruct r. simpl in *. by subst.
Qed.

Lemma parts_flags_split p1 news p2 :
  (∀ i x, (p1 ++ news :: p2) !! i = Some x → parts_flags (Z.of_nat i =? zlen p1) x) →
  Forall (λ r, is_main r = false) (removelast (concat p1 ++ news)) ∧
  Forall (λ r, is_main r = false) (concat p2).
Proof.
  intros Hfl. assert (Forall (λ r, is_main r = false) (concat p1)) as H1.
  { apply Forall_concat, Forall_lookup. intros i x Hi. pose proof (lookup_lt_Some _ _ _ Hi).
    specialize (Hfl i x ltac:(by apply lookup_app_l_Some)).
    by rewrite (proj2 (Z.eqb_neq _ _)) in Hfl by (unfold zlen; lia). }
  split.
  - destruct news as [|y news]; [rewrite app_nil_r; by apply Forall_removelast|].
    rewrite removelast_app by done. apply Forall_app. split; [done|].
    specialize (Hfl (length p1) (y :: news) ltac:(by apply list_lookup_middle)).
    unfold zlen in Hfl. by rewrite Z.eqb_refl in Hfl.
  - apply Forall_concat, Forall_lookup. intros i x Hi.
    specialize (Hfl (length p1 + (1 + i))%nat x).
    rewrite lookup_app_r in Hfl by lia. replace (length p1 + (1 + i) - length p1)%nat with (1 + i)%nat in Hfl by lia.
    specialize (Hfl Hi). by rewrite (proj2 (Z.eqb_neq _ _)) in Hfl by (unfold zlen; lia).
Qed.

(** The loop when the main region is [r]. *)
Lemma map_loop_parts rs1 r rs2 s s1 s2 s3 p1 news p2 lo : runs s rs1 p1 s1 → f s1 r = Ok (news, s2) →
  parts_of r news → runs s2 rs2 p2 s3 → regions_from lo (rs1 ++ r :: rs2) →
  let before := concat p1 ++ news in
  map_loop f (zlen rs1) 0 (rs1 ++ r :: rs2) s [] 0 =
    (n ← usub (zlen before) 1; l ← unwrap (last before);
     Ok (removelast before ++ [with_main l true] ++ concat p2, n, s3)).
Proof.
  intros Hr1 Hf Hp Hr2 [Hs1 [Hlo Hs2]]%regions_from_app before.
  rewrite map_loop_app.
  destruct (map_loop_unmarked (zlen rs1) 0 lo rs1 p1 s s1 [] 0 Hr1 Hs1) as [-> He]; [done|lia|].
  cbn [mbind outcome_bind app]. cbn [map_loop]. rewrite Hf. cbn [mbind outcome_bind].
  rewrite (push_regions _ (rmin r)) by (try apply Hp; intros o Hl; specialize (He o Hl); lia).
  cbn [mbind outcome_bind]. rewrite Z.add_0_l, Z.eqb_refl. cbn [mbind outcome_bind]. fold before.
  destruct (usub (zlen before) 1) as [n|]; cbn [mbind outcome_bind]; [|done].
  destruct (last before) as [l|] eqn:El; cbn [unwrap mbind outcome_bind]; [|done].
  destruct (map_loop_unmarked (zlen rs1) (zlen rs1 + 1) (rmax r + 1) rs2 p2 s2 s3
    (removelast before ++ [with_main l true]) n Hr2 Hs2) as [-> _]; [|lia|by rewrite <-app_assoc].
  pose proof (ends_before_app _ _ _ _ He Hlo Hp) as He2. fold before in He2. simpl app in He2.
  intros o. rewrite last_snoc. intros [= <-]. exact (He2 l El).
Qed.

(** The selection after a closure that cuts every region into parts; [before]
    are the parts up to the main region. *)
Lemma map_selections_parts max_size sel s parts s' : selection_ok max_size sel → max_size < two63 →
  runs s (regions sel) parts s' →
  (∀ i news, parts !! i = Some news → parts_flags (Z.of_nat i =? main_selection sel) news) →
  let before := concat (take (1 + Z.to_nat (main_selection sel)) parts) in
  let sel' := mkSelection (relabel (zlen before - 1) (concat parts)) (zlen before - 1) in
  (before ≠ [] → map_selections sel f s = Ok (sel', s') ∧ selection_ok max_size sel') ∧
  (before = [] → ∃ p, map_selections sel f s = Panic p).
Proof.
  intros Hok Hmax Hr Hfl before sel'. pose proof Hok as [Hm Hs Hb _]. unfold map_selections.
  destruct (runs_sorted _ _ _ _ _ _ Hr Hs Hb) as [Hs' Hb'].
  destruct (zlookup_lt _ _ Hm) as [r [_ Hrm]%zlookup_Some].
  pose proof (regions_from_lookup _ _ _ _ Hs Hrm) as Hr0. pose proof (rmin_le_rmax r).
  pose proof (Forall_lookup_1 _ _ _ _ Hb Hrm) as Hrb. simpl in Hrb.
  pose proof (regions_count 0 max_size _ Hs' Hb' ltac:(lia)) as Hcount.
  pose proof (take_drop_middle _ _ _ Hrm) as Hsplit.
  set (rs1 := take _ (regions sel)) in *. set (rs2 := drop _ (regions sel)) in *. rewrite <-Hsplit in Hr, Hs.
  assert (zlen rs1 = main_selection sel) as Hl1
    by (unfold rs1, zlen in *; rewrite length_take; lia).
  destruct (runs_app_inv _ _ _ _ _ Hr) as (p1 & p2 & s1 & Hparts & Hr1 & Hr2 & Hlp).
  inversion Hr2 as [|? ? news s2 ? p2' ? Hf Hp Hr2']; subst p2. clear Hr2.
  assert (before = concat p1 ++ news) as Hbefore.
  { unfold before. rewrite Hparts, cons_middle, app_assoc, take_app_length', concat_app.
    - simpl. by rewrite app_nil_r.
    - rewrite length_app, Hlp. unfold zlen in Hl1. simpl. lia. }
  assert (concat parts = before ++ concat p2') as Hconcat
    by (rewrite Hbefore, Hparts, concat_app; simpl; by rewrite app_assoc).
  pose proof (map_loop_parts _ _ _ _ _ _ _ _ _ _ _ Hr1 Hf Hp Hr2' Hs) as Hloop.
  rewrite Hl1, Hsplit, <-Hbefore in Hloop. rewrite Hloop.
  pose proof (zlen_nonneg before). pose proof (zlen_nonneg (concat p2')).
  rewrite Hconcat, zlen_app in Hcount. split; intros Hne.
  - destruct (last before) as [l|] eqn:El; [|by apply last_None in El].
    apply last_snoc_removelast in El as Hsnoc.
    assert (zlen before = zlen (removelast before) + 1) as Hlen by (rewrite Hsnoc at 1; apply zlen_snoc).
    rewrite usub_ok by (pose proof (zlen_nonneg (removelast before)); unfold_usize; lia).
    cbn [unwrap mbind outcome_bind].
    assert (relabel (zlen before - 1) (concat parts) =
      removelast before ++ [with_main l true] ++ concat p2') as Hrel.
    { rewrite Hconcat, Hlen, Z.add_simpl_r. rewrite Hsnoc at 2. rewrite <-app_assoc.
      rewrite Hparts, <-Hl1 in Hfl. replace (zlen rs1) with (zlen p1) in Hfl by (unfold zlen; lia).
      apply parts_flags_split in Hfl as [??]. apply relabel_parts; [by rewrite Hbefore|done]. }
    rewrite <-Hrel. split; [done|]. split; simpl.
    + rewrite zlen_relabel, Hconcat, zlen_app.
      pose proof (zlen_nonneg (removelast before)). lia.
    + by apply relabel_from.
    + by apply relabel_bounded.
    + apply relabel_flags.
  - rewrite Hne. cbn [last unwrap]. destruct (usub _ _); eauto.
Qed.

End parts.
