(* ===== verification/SelectionTheorems.v ===== *)
(** * SelectionTheorems: what the selection operations guarantee

    The statements of the selection component: movements and extensions keep
    the invariant and go where they should, the involutions and cycles, range
    queries, splitting, and the inputs on which an operation breaks the
    invariant or panics. *)

From S2P Require Import Prelude Masks XiRope XiRopeRef ByteRope Selection SelectionMap.
From S2P Require Import SelectionMoves SelectionQueries SelectionExact.

Lemma main_region_inv sel r : main_region sel = Ok r → r ∈ regions sel.
Proof.
  unfold main_region, vec_index. destruct (zlookup _ _) as [x|] eqn:E; [|done].
  intros [= ->]. apply zlookup_Some in E as [_ E]. by apply list_elem_of_lookup_2 in E.
Qed.

Lemma covers_cursor o c : caret o = tail o → covers o (region_new c c) → caret o = c.
Proof. unfold covers. region_lia. Qed.

Lemma covers_extent o c t : covers o (region_new c t) → in_region o c ∧ in_region o t.
Proof. unfold covers, in_region. region_lia. Qed.

Lemma main_cursor_offset_main sel r : main_region sel = Ok r → main_cursor_offset sel = Ok (caret r).
Proof. unfold main_region, main_cursor_offset. by intros ->. Qed.

(** The outcome of mapping every region to a cursor at [t (caret r)]. *)
Definition cursors_at (t : Z → Z) (max_size : Z) (sel sel' : Selection) : Prop :=
  selection_ok max_size sel' ∧ Forall (λ o, caret o = tail o) (regions sel') ∧
  (∃ r, main_region sel = Ok r ∧ main_cursor_offset sel' = Ok (t (caret r))) ∧
  ∀ r, r ∈ regions sel → ∃ o, o ∈ regions sel' ∧ caret o = t (caret r).

Lemma mapped_cursors t max_size sel sel' :
  mapped max_size (λ o, caret o = tail o) (λ r, region_new (t (caret r)) (t (caret r))) sel sel' →
  cursors_at t max_size sel sel'.
Proof.
  intros [Hok Hall (mr & o & Hm & Ho & Hc) Hcov]. split_and!; [done|done| |].
  - exists mr. split; [done|]. rewrite (main_cursor_offset_main _ _ Ho). f_equal.
    rewrite Forall_forall in Hall. apply covers_cursor; [|done]. by apply Hall, main_region_inv.
  - intros r Hr. destruct (Hcov r Hr) as (x & Hx & Hxc). exists x. split; [done|].
    rewrite Forall_forall in Hall. apply covers_cursor; [|done]. by apply Hall.
Qed.

Section moves.
Context `{Profile}.

(** C27: in a document that is not empty, and with a count so small that the
    length of the document plus the count times the bytes per line does not
    overflow, moving a well-formed selection does not panic and yields a well-formed
    selection of cursors; every caret, the main one in particular, goes
    exactly where the direction and the count say, and stays in the document. *)
Theorem move_selection direction bytes_per_line max_size count sel :
  move_fits bytes_per_line max_size count → max_size ≠ 0 → selection_ok max_size sel →
  ∃ sel', map_selections sel
      (one_region (λ r, simple_move r direction bytes_per_line max_size count)) tt = Ok (sel', tt) ∧
    cursors_at (move_target direction bytes_per_line max_size count) max_size sel sel'.
Proof.
  intros Hfit Hne Hok.
  destruct (simple_move_ok direction bytes_per_line max_size count sel Hfit Hne Hok) as (sel' & E & Hm).
  exists sel'. split; [done|]. by apply mapped_cursors.
Qed.

(** C28: in a document that is not empty, and with a count so small that the
    length of the document plus the count times the bytes per line does not
    overflow, extending a well-formed selection does not panic, although regions may
    turn around and merge; the result is well formed, and every old region has
    a region that holds both its tail and its moved caret. *)
Theorem extend_selection direction bytes_per_line max_size count sel :
  move_fits bytes_per_line max_size count → max_size ≠ 0 → selection_ok max_size sel →
  let t := move_target direction bytes_per_line max_size count in
  ∃ sel', map_selections sel
      (one_region (λ r, simple_extend r direction bytes_per_line max_size count)) tt = Ok (sel', tt) ∧
    selection_ok max_size sel' ∧
    (∃ r o, main_region sel = Ok r ∧ main_region sel' = Ok o ∧
       in_region o (t (caret r)) ∧ in_region o (tail r)) ∧
    ∀ r, r ∈ regions sel → ∃ o, o ∈ regions sel' ∧ in_region o (t (caret r)) ∧ in_region o (tail r).
Proof.
  intros Hfit Hne Hok t.
  destruct (simple_extend_ok direction bytes_per_line max_size count sel Hfit Hne Hok)
    as (sel' & E & [Hok' _ (r & o & Hr & Ho & Hc) Hcov]).
  exists sel'. split_and!; [done|done| |].
  - exists r, o. split; [done|]. split; [done|]. by apply covers_extent.
  - intros x Hx. destruct (Hcov x Hx) as (y & Hy & Hyc). exists y. split; [done|].
    by apply covers_extent.
Qed.

(** jumping to the start or end of the line or of the document never
    panics; every caret goes to the boundary of its own line, within the
    document, and the selection stays well formed. *)
Theorem jump_to_boundary_selection direction bytes_per_line max_size sel :
  0 < bytes_per_line < two63 → 1 ≤ max_size < two63 → selection_ok max_size sel →
  ∃ sel', map_selections sel
      (one_region (λ r, jump_to_boundary r direction bytes_per_line max_size)) tt = Ok (sel', tt) ∧
    cursors_at (boundary_target direction bytes_per_line max_size) max_size sel sel'.
Proof.
  intros Hl Hm Hok.
  destruct (jump_to_boundary_ok direction bytes_per_line max_size sel Hl Hm Hok) as (sel' & E & Hmap).
  exists sel'. split; [done|]. by apply mapped_cursors.
Qed.

(** A closure that keeps the extent of a region changes each region in place. *)
Lemma in_place (h : SelRegion → SelRegion) max_size sel :
  (∀ r, rmin r ≤ rmin (h r) ∧ rmax (h r) ≤ rmax r ∧ is_main (h r) = false) →
  max_size < two63 → selection_ok max_size sel →
  map_selections sel (one_region (λ r, Ok (h r))) tt =
    Ok (mkSelection (relabel (main_selection sel) (h <$> regions sel)) (main_selection sel), tt).
Proof.
  intros Hh Hm Hok.
  destruct (map_selections_exact (one_region (λ r, Ok (h r))) (λ _, True) h (λ _, True))
    with (max_size := max_size) (sel := sel) (s := tt) as ([] & E & _); try done.
  - intros [] r _ _. by exists tt.
  - intros r _. apply Hh.
  - intros r r' _ _ Hlt. specialize (Hh r) as Hr. specialize (Hh r') as Hr'. lia.
  - by apply Forall_true.
Qed.

Lemma relabel_twice m (h : SelRegion → SelRegion) (rs : list SelRegion) : main_flags m rs →
  (∀ r b, with_main (h (with_main (h r) b)) (is_main r) = r) →
  relabel m (h <$> relabel m (h <$> rs)) = rs.
Proof.
  intros Hf Hh. apply list_eq. intros i.
  rewrite relabel_lookup, list_lookup_fmap, relabel_lookup, list_lookup_fmap.
  destruct (rs !! i) as [r|] eqn:E; [|done]. simpl. rewrite <-(Hf i r E). by rewrite Hh.
Qed.

(** swapping carets and tails changes no extent and merges nothing, and
    doing it twice restores the selection exactly. *)
Theorem swap_caret_involution max_size sel :
  max_size < two63 → selection_ok max_size sel →
  let swap (s : Selection) := map_selections s (one_region (λ r, Ok (swap_caret r))) tt in
  ∃ sel', swap sel = Ok (sel', tt) ∧ selection_ok max_size sel' ∧ swap sel' = Ok (sel, tt).
Proof.
  intros Hm Hok swap.
  assert (∀ r, rmin r ≤ rmin (swap_caret r) ∧ rmax (swap_caret r) ≤ rmax r ∧
    is_main (swap_caret r) = false) as Hswap by (unfold swap_caret; region_lia).
  pose proof (in_place swap_caret max_size sel Hswap Hm Hok) as E1.
  destruct (inside_ok swap_caret max_size sel Hswap Hm Hok) as (sel1 & E1' & Hmap).
  rewrite E1' in E1. injection E1 as E1. pose proof (mapped_ok _ _ _ _ _ Hmap) as Hok1.
  exists sel1. split_and!; [done|done|]. unfold swap.
  rewrite (in_place swap_caret max_size sel1 Hswap Hm Hok1). subst sel1. simpl.
  rewrite relabel_twice; [by destruct sel|apply (sel_flags _ _ Hok)|].
  intros [c t b] b'. done.
Qed.

(** cycling forward through the regions and then backward by the same
    count restores the selection: both only move the main flag. *)
Theorem select_next_prev max_size sel count :
  selection_ok max_size sel → max_size < two63 - 1 → 0 ≤ count < two63 →
  ∃ sel', select_next sel count = Ok sel' ∧ selection_ok max_size sel' ∧
    select_prev sel' count = Ok sel.
Proof.
  intros Hok Hmax Hc. pose proof Hok as [Hm Hs Hb Hf].
  assert (zlen (regions sel) ≤ Z.max 0 (max_size + 1)) as Hn.
  { destruct (Z.le_gt_cases 0 (max_size + 1)).
    - pose proof (regions_count 0 max_size _ Hs Hb ltac:(lia)). lia.
    - destruct (zlookup_lt _ _ Hm) as [r [_ Hr]%zlookup_Some].
      pose proof (regions_from_lookup _ _ _ _ Hs Hr). pose proof (rmin_le_rmax r).
      pose proof (Forall_lookup_1 _ _ _ _ Hb Hr). simpl in *. lia. }
  set (n := zlen (regions sel)) in *. set (m := (main_selection sel + count) mod n).
  assert (0 ≤ m < n) as Hm' by (apply Z.mod_pos_bound; lia).
  pose proof (relabel_ok max_size sel m Hok Hm') as Hok'.
  eexists. split; [apply (select_next_spec max_size); [done|lia|unfold_usize; lia]|].
  split; [done|]. rewrite (select_prev_spec max_size) by (done || simpl; rewrite ?zlen_relabel; unfold_usize; lia).
  simpl. rewrite zlen_relabel. fold n. rewrite relabel_relabel. fold m.
  assert ((m + n - count mod n) mod n = main_selection sel) as ->.
  { unfold m. rewrite <-Zminus_mod_idemp_r, Z.mod_mod by lia. rewrite Zminus_mod_idemp_r.
    replace ((main_selection sel + count) mod n + n - count)
      with ((main_selection sel + count) mod n - count + 1 * n) by lia.
    rewrite Z.mod_add, Zminus_mod_idemp_l by lia.
    replace (main_selection sel + count - count) with (main_selection sel) by lia.
    by apply Z.mod_small. }
  rewrite relabel_id by done. by destruct sel.
Qed.

(** removing the main region of a selection with several regions keeps
    the other regions as they are, gives the main flag to exactly one of them
    and keeps the selection well formed. *)
Theorem remove_main_region max_size sel :
  selection_ok max_size sel → 2 ≤ zlen (regions sel) < usize_max →
  let rs := without (main_selection sel) (regions sel) in
  let m := Z.min (zlen rs - 1) (main_selection sel) in
  remove sel (main_selection sel) = Ok (mkSelection (relabel m rs) m) ∧
  selection_ok max_size (mkSelection (relabel m rs) m).
Proof. apply remove_main_spec. Qed.

(** removing a region before the main one, when the main one is not the
    last, leaves two regions that both carry the main flag, so the result
    violates the invariant. *)
Theorem remove_before_main_two_flags max_size sel index :
  selection_ok max_size sel → zlen (regions sel) < usize_max →
  0 ≤ index < main_selection sel → main_selection sel < zlen (regions sel) - 1 →
  ∃ sel' a b, remove sel index = Ok sel' ∧
    zlookup (regions sel') (main_selection sel - 1) = Some a ∧ is_main a = true ∧
    zlookup (regions sel') (main_selection sel) = Some b ∧ is_main b = true ∧
    ¬ selection_ok max_size sel'.
Proof.
  intros [Hm Hs Hb Hf] Hn Hi Hlt. set (m := main_selection sel) in *.
  set (rs := without index (regions sel)).
  assert (zlen rs = zlen (regions sel) - 1) as Hl by (apply zlen_without; lia).
  assert (∀ i, rs !! i = if decide (Z.of_nat i < index) then regions sel !! i else regions sel !! S i)
    as Hlook by (intros i; apply vec_remove_lookup; lia).
  destruct (zlookup_lt (regions sel) m ltac:(lia)) as [a [_ Ha]%zlookup_Some].
  pose proof (Hf _ _ Ha) as Hfa. rewrite Z2Nat.id, Z.eqb_refl in Hfa by lia.
  destruct (vec_update_ok rs m (λ r, with_main r true)) as (b & Hb' & Hu); [lia|].
  assert (rs !! Z.to_nat (m - 1) = Some a) as Hra.
  { rewrite Hlook, decide_False by lia. by replace (S (Z.to_nat (m - 1))) with (Z.to_nat m) by lia. }
  set (rs' := <[Z.to_nat m := with_main b true]> rs) in *.
  assert (zlookup rs' (m - 1) = Some a) as Ha'.
  { unfold zlookup, rs'. rewrite (proj2 (Z.ltb_ge _ 0)) by lia.
    by rewrite list_lookup_insert_ne by lia. }
  assert (zlookup rs' m = Some (with_main b true)) as Hb''.
  { unfold zlookup, rs'. rewrite (proj2 (Z.ltb_ge _ 0)) by lia.
    apply list_lookup_insert_eq. unfold zlen in *. lia. }
  exists (mkSelection rs' m), a, (with_main b true). split_and!; try done.
  - unfold remove. fold m. rewrite (proj2 (Z.eqb_neq _ _)) by lia.
    unfold vec_remove, vec_index. destruct (zlookup_lt (regions sel) index ltac:(lia)) as [x ->].
    cbn [mbind outcome_bind]. change (ztake _ _ ++ zdrop _ _) with rs.
    rewrite usub_ok by (unfold_usize; lia). cbn [mbind outcome_bind].
    rewrite Z.min_r by lia. by rewrite Hu.
  - intros [_ _ _ Hf']. apply zlookup_Some in Ha' as [_ Ha'].
    specialize (Hf' _ _ Ha'). simpl in Hf'. rewrite Z2Nat.id, Hfa in Hf' by lia.
    symmetry in Hf'. apply Z.eqb_eq in Hf'. lia.
Qed.

(** the regions that are drawn for a range of offsets are exactly the
    regions that intersect it, in order; the binary searches find them without
    panicking or running out of steps. *)
Theorem regions_in_range_correct max_size sel start end_ :
  selection_ok max_size sel → zlen (regions sel) < usize_max → start ≤ end_ →
  regions_in_range sel start end_ = Ok (touching start end_ (regions sel)).
Proof. apply regions_in_range_touching. Qed.

(** splitting a region at a match yields the part before and the part
    after the match and nothing else; a part is missing exactly when it would
    be empty. *)
Theorem split_at_region_partition r start end_ :
  0 ≤ rmin r → rmax r < usize_max → rmin r ≤ start ≤ end_ → end_ ≤ rmax r →
  ∃ left right, split_at_region r start end_ = Ok (left, right) ∧
    (∀ p, in_option left p ↔ in_region r p ∧ p < start) ∧
    (∀ p, in_option right p ↔ in_region r p ∧ end_ < p) ∧
    (left = None ↔ start = rmin r) ∧ (right = None ↔ end_ = rmax r).
Proof. apply split_at_region_parts. Qed.

(** merging two regions panics exactly when they go in opposite
    directions or are cursors at different offsets; otherwise the merged
    region is the hull of both and is main when one of them was. *)
Theorem merge_exact a b :
  ((∃ m, merge a b = Ok m) ↔
    ((tail a ≤ caret a ∧ tail b ≤ caret b) ∨ (caret a ≤ tail a ∧ caret b ≤ tail b)) ∧
    (caret a = tail a → caret b = tail b → caret a = caret b)) ∧
  ∀ m, merge a b = Ok m →
    rmin m = Z.min (rmin a) (rmin b) ∧ rmax m = Z.max (rmax a) (rmax b) ∧
    is_main m = is_main a || is_main b.
Proof. split; [apply merge_Ok_iff|apply merge_hull]. Qed.

(** extending all regions to one offset panics as soon as that offset
    lies between the tails of the first two regions: the first region is
    extended forward, the second backward, and they cannot be merged. *)
Theorem extend_to_between_panics r1 r2 rs m offset :
  tail r1 < offset → offset < tail r2 → m ≠ 0 →
  map_selections (mkSelection (r1 :: r2 :: rs) m) (one_region (λ r, Ok (extend_to r offset))) tt =
    Panic PanicExplicit.
Proof.
  intros H1 H2 Hm. unfold map_selections, one_region, extend_to. cbn [main_selection regions].
  cbn [map_loop mbind outcome_bind foldM]. rewrite push_region_nil. cbn [mbind outcome_bind].
  rewrite (proj2 (Z.eqb_neq 0 m)) by done. cbn [mbind outcome_bind].
  change [region_new offset (tail r1)] with ([] ++ [region_new offset (tail r1)]).
  rewrite push_region_snoc. unfold overlaps. rewrite (proj2 (Z.leb_le _ _)) by region_lia.
  unfold merge, forward, backward. simpl.
  rewrite (proj2 (Z.leb_le (tail r1) offset)), (proj2 (Z.leb_gt (tail r2) offset)),
    (proj2 (Z.leb_gt offset (tail r1))) by lia. done.
Qed.

(** a count close to the width of the machine integers makes a movement
    to the right overflow: with overflow checks it panics, without them the
    caret moves one byte to the left. *)
Theorem move_right_overflow r bytes_per_line max_size :
  1 ≤ caret r ≤ max_size → max_size ≤ usize_max →
  simple_move r Right bytes_per_line max_size usize_max =
    if overflow_checks then Panic PanicOverflow
    else Ok (region_new (caret r - 1) (caret r - 1)).
Proof.
  intros Hc Hm. unfold simple_move, moved_caret. rewrite (proj2 (Z.eqb_neq _ _)) by lia.
  unfold uadd, uwrap. rewrite (proj2 (Z.leb_gt (_ + _) _)), andb_false_r by (unfold_usize; lia).
  destruct overflow_checks; [done|]. simpl.
  replace (caret r + usize_max) with (caret r - 1 + 1 * two64) by (unfold usize_max; lia).
  rewrite Z.mod_add, Z.mod_small by (unfold_usize; lia). by rewrite Z.min_r by lia.
Qed.

End moves.

(** ** The theorems at concrete selections *)

Definition sel3 : Selection := selection_of [(1, 2); (4, 4); (20, 17)] 1.

Lemma move_selection_witness : ∃ sel',
  @map_selections true unit sel3 (one_region (λ r, @simple_move true r Down 16 40 3)) tt = Ok (sel', tt) ∧
  cursors_at (move_target Down 16 40 3) 40 sel3 sel'.
Proof. apply move_selection; [split; vm_compute; done|done|selection_ok_compute]. Defined.

Lemma extend_selection_witness : ∃ sel',
  @map_selections true unit sel3 (one_region (λ r, @simple_extend true r Left 16 40 30)) tt = Ok (sel', tt) ∧
  selection_ok 40 sel'.
Proof.
  destruct (@extend_selection true Left 16 40 30 sel3) as (sel' & E & Hok & _);
    [split; vm_compute; done|done|selection_ok_compute|]. by exists sel'.
Defined.

Lemma jump_to_boundary_selection_witness : ∃ sel',
  @map_selections true unit sel3 (one_region (λ r, @jump_to_boundary true r Right 16 40)) tt = Ok (sel', tt) ∧
  cursors_at (boundary_target Right 16 40) 40 sel3 sel'.
Proof. apply jump_to_boundary_selection; [vm_compute; done|vm_compute; done|selection_ok_compute]. Defined.

Lemma swap_caret_involution_witness : ∃ sel',
  @map_selections true unit sel3 (one_region (λ r, Ok (swap_caret r))) tt = Ok (sel', tt) ∧
  selection_ok 40 sel' ∧
  @map_selections true unit sel' (one_region (λ r, Ok (swap_caret r))) tt = Ok (sel3, tt).
Proof. apply (@swap_caret_involution true 40 sel3); [vm_compute; done|selection_ok_compute]. Defined.

Lemma select_next_prev_witness : ∃ sel',
  @select_next true sel3 7 = Ok sel' ∧ selection_ok 40 sel' ∧ @select_prev true sel' 7 = Ok sel3.
Proof. apply select_next_prev; [selection_ok_compute|vm_compute; done|vm_compute; done]. Defined.

Lemma remove_main_region_witness :
  @remove true sel3 1 = Ok (selection_of [(1, 2); (20, 17)] 1).
Proof.
  refine (proj1 (@remove_main_region true 40 sel3 _ _));
    [selection_ok_compute|vm_compute; done].
Defined.

Lemma remove_before_main_two_flags_witness : ∃ sel' a b, @remove true sel3 0 = Ok sel' ∧
  zlookup (regions sel') 0 = Some a ∧ is_main a = true ∧
  zlookup (regions sel') 1 = Some b ∧ is_main b = true ∧ ¬ selection_ok 40 sel'.
Proof.
  apply (@remove_before_main_two_flags true 40 sel3 0);
    [selection_ok_compute|vm_compute; done|vm_compute; done|vm_compute; done].
Defined.

Lemma regions_in_range_correct_witness :
  @regions_in_range true sel3 3 17 = Ok [mkSelRegion 4 4 true; mkSelRegion 20 17 false].
Proof.
  rewrite (@regions_in_range_correct true 40 sel3 3 17);
    [vm_compute; reflexivity|selection_ok_compute|vm_compute; done|lia].
Defined.

Lemma split_at_region_partition_witness : ∃ left right,
  @split_at_region true (mkSelRegion 9 3 false) 5 6 = Ok (left, right) ∧
  (∀ p, in_option left p ↔ in_region (mkSelRegion 9 3 false) p ∧ p < 5).
Proof.
  destruct (@split_at_region_partition true (mkSelRegion 9 3 false) 5 6) as (l & r & E & Hl & _);
    [vm_compute; done..|]. by exists l, r.
Defined.

Lemma merge_exact_witness : ∃ m, merge (mkSelRegion 5 2 true) (mkSelRegion 9 4 false) = Ok m.
Proof. apply (merge_exact (mkSelRegion 5 2 true) (mkSelRegion 9 4 false)). simpl. lia. Defined.

Lemma extend_to_between_panics_witness :
  selection_ok 40 sel3 ∧
  @map_selections true unit sel3 (one_region (λ r, Ok (extend_to r 3))) tt = Panic PanicExplicit.
Proof.
  split; [selection_ok_compute|].
  apply (extend_to_between_panics (mkSelRegion 1 2 false) (mkSelRegion 4 4 true)
    [mkSelRegion 20 17 false] 1 3); vm_compute; done.
Defined.

Lemma move_right_overflow_witness :
  @simple_move false (mkSelRegion 5 5 true) Right 16 40 usize_max = Ok (region_new 4 4) ∧
  @simple_move true (mkSelRegion 5 5 true) Right 16 40 usize_max = Panic PanicOverflow.
Proof.
  split.
  - apply (@move_right_overflow false (mkSelRegion 5 5 true) 16 40); vm_compute; done.
  - apply (@move_right_overflow true (mkSelRegion 5 5 true) 16 40); vm_compute; done.
Defined.

(** Extending to the start of the line has the same weakness. *)
Example extend_to_boundary_panics :
  selection_ok 40 (selection_of [(20, 10); (25, 25)] 0) ∧
  @map_selections true unit (selection_of [(20, 10); (25, 25)] 0)
    (one_region (λ r, @extend_to_boundary true r Left 16 40)) tt = Panic PanicExplicit.
Proof. split; [selection_ok_compute|vm_compute; reflexivity]. Qed.
