(* ===== verification/SelectionDelta.v ===== *)
(** * SelectionDelta: the selection after an edit

    [Selection::apply_delta] moves every caret and tail through the delta.
    For a delta given by edits, the new position is [edits_pos]; it is
    monotone, and strictly so when nothing is deleted. *)

From S2P Require Import Prelude Masks XiRope XiRopeRef ByteRope Selection SelectionMap.
From S2P Require Import SelectionMoves SelectionQueries SelectionExact Operations Edits.

(** ** New positions *)

Lemma edits_pos_ge pos out es p : edits_sorted pos es → out ≤ edits_pos pos out es p.
Proof.
  revert pos out. induction es as [|ed es IH]; intros pos out; cbn [edits_pos]; [lia|].
  intros [Hr Hs]. pose proof (zlen_nonneg (ed_text ed)).
  destruct (_ && _); [lia|]. specialize (IH _ (out + (ed_start ed - pos) + zlen (ed_text ed)) Hs). lia.
Qed.

Lemma edits_pos_mono pos out es p q : edits_sorted pos es → p ≤ q →
  edits_pos pos out es p ≤ edits_pos pos out es q.
Proof.
  revert pos out. induction es as [|ed es IH]; intros pos out; cbn [edits_pos]; [lia|].
  intros [Hr Hs] Hpq. pose proof (zlen_nonneg (ed_text ed)).
  pose proof (edits_pos_ge _ (out + (ed_start ed - pos) + zlen (ed_text ed)) es q Hs).
  destruct (Z.ltb_spec p (ed_start ed)), (Z.ltb_spec q (ed_start ed)), (Z.ltb_spec pos (ed_start ed));
    simpl; try lia; by apply IH.
Qed.

(** The end of the old document goes to the end of the new one. *)
Lemma edits_pos_end pos out es l : 0 ≤ pos → edits_sorted pos es →
  Forall (λ ed, ed_start ed ≤ zlen l) es →
  edits_pos pos out es (zlen l) = out + zlen (splice pos es l).
Proof.
  revert pos out. induction es as [|ed es IH]; intros pos out Hpos; cbn [edits_pos splice].
  - intros _ _. rewrite zlen_zdrop. lia.
  - intros [Hr Hs] [Hn Hf]%Forall_cons.
    rewrite (proj2 (Z.ltb_ge _ _)) by lia. cbn [andb]. rewrite IH by (done || lia).
    rewrite !zlen_app, zlen_zslice by lia. lia.
Qed.

Lemma edits_pos_before pos out es p q : edits_sorted pos es → p ≤ pos → q ≤ pos →
  edits_pos pos out es p = edits_pos pos out es q.
Proof.
  revert pos out. induction es as [|ed es IH]; intros pos out; cbn [edits_pos]; [lia|].
  intros [Hr Hs] Hp Hq.
  destruct (Z.ltb_spec p (ed_start ed)), (Z.ltb_spec q (ed_start ed)), (Z.ltb_spec pos (ed_start ed));
    simpl; try lia; apply IH; (done || lia).
Qed.

Lemma edits_sorted_elem pos es ed : edits_sorted pos es → ed ∈ es →
  pos ≤ ed_start ed ≤ ed_end ed.
Proof.
  revert pos. induction es as [|x es IH]; intros pos Hs Hin; [by apply elem_of_nil in Hin|].
  destruct Hs as [Hr Hs]. apply elem_of_cons in Hin as [->|Hin]; [done|].
  specialize (IH _ Hs Hin). lia.
Qed.

(** Positions that one edit covers go to the same place. *)
Lemma edits_pos_collapse pos out es ed p q : edits_sorted pos es → ed ∈ es →
  ed_start ed ≤ p < ed_end ed → ed_start ed ≤ q < ed_end ed →
  edits_pos pos out es p = edits_pos pos out es q.
Proof.
  revert pos out. induction es as [|x es IH]; intros pos out Hss Hin Hp Hq; [by apply elem_of_nil in Hin|].
  destruct Hss as [Hr Hs]. cbn [edits_pos]. apply elem_of_cons in Hin as [->|Hin].
  - rewrite (proj2 (Z.ltb_ge p (ed_start x))), (proj2 (Z.ltb_ge q (ed_start x))) by lia.
    apply edits_pos_before; [done|lia..].
  - pose proof (edits_sorted_elem _ _ _ Hs Hin).
    rewrite (proj2 (Z.ltb_ge p (ed_start x))), (proj2 (Z.ltb_ge q (ed_start x))) by lia. by apply IH.
Qed.

(** How many of the sorted positions [cs] are at most [p]. *)
Definition count_le (cs : list Z) (p : Z) : Z := zlen (filter (λ c, c ≤ p) cs).

Lemma count_le_mono cs p q : p ≤ q → count_le cs p ≤ count_le cs q.
Proof.
  intros Hpq. unfold count_le. induction cs as [|c cs IH]; [done|].
  rewrite !filter_cons. repeat case_decide; autorewrite with zlen; lia.
Qed.

Lemma filter_none {A} (P : A → Prop) `{∀ x, Decision (P x)} (l : list A) :
  (∀ x, x ∈ l → ¬ P x) → filter P l = [].
Proof.
  induction l as [|x l IH]; intros Hl; [done|].
  rewrite filter_cons_False; [|apply Hl; by left]. apply IH. intros y Hy. apply Hl. by right.
Qed.

(** Positions after inserting one text at each of the positions [cs]. *)
Lemma edits_pos_insert pos out cs text p :
  edits_sorted pos ((λ c, mkEdit c c text) <$> cs) → pos ≤ p →
  edits_pos pos out ((λ c, mkEdit c c text) <$> cs) p =
    out + (p - pos) + zlen text * count_le cs p.
Proof.
  revert pos out. induction cs as [|c cs IH]; intros pos out Hs Hp.
  - change (count_le [] p) with 0. cbn. lia.
  - rewrite fmap_cons in *. destruct Hs as [Hr Hs]. cbn [edits_pos ed_start ed_end ed_text] in *.
    unfold count_le. rewrite filter_cons. destruct (Z.ltb_spec p c).
    + rewrite decide_False by lia.
      assert (filter (λ c0, c0 ≤ p) cs = []) as ->.
      { apply filter_none. intros x Hx.
        assert (mkEdit x x text ∈ (λ c0, mkEdit c0 c0 text) <$> cs) as Hin
          by (apply list_elem_of_fmap; eauto).
        pose proof (edits_sorted_elem _ _ _ Hs Hin). simpl in *. lia. }
      change (zlen (@nil Z)) with 0. destruct (Z.ltb_spec pos c); cbn [andb]; lia.
    + cbn [andb]. rewrite decide_True by lia. rewrite IH by (done || lia).
      rewrite zlen_cons. unfold count_le. lia.
Qed.

(** ** [apply_delta] *)

Section apply.
Context `{Profile} `{XiRopeLaws}.

Lemma delta_of_new_len es d (r : Rope) : delta_of (rope_len r) es d →
  delta_new_document_len d = rope_len (rope_apply_delta r d).
Proof.
  intros Hd. symmetry. apply delta_new_document_len_spec. symmetry. by apply (delta_of_len _ es).
Qed.

(** The new document is as long as the new position of the old end. *)
Lemma delta_of_end es d (r : Rope) : delta_of (rope_len r) es d →
  delta_new_document_len d = edits_pos 0 0 es (rope_len r).
Proof.
  intros Hd. rewrite (delta_of_new_len _ _ _ Hd), !rope_len_bytes, (delta_of_apply _ _ _ Hd).
  destruct Hd as (b & _ & _ & _ & _ & Hs & Hf). rewrite rope_len_bytes in Hf.
  by rewrite edits_pos_end.
Qed.

Definition moved_region (es : list edit) (r : SelRegion) : SelRegion :=
  region_new (edits_pos 0 0 es (caret r)) (edits_pos 0 0 es (tail r)).

(** What the closure of [apply_delta] computes. *)
Definition transform_region (d : Delta) (max_len : Z) (tf : Transformer) (region : SelRegion) :
    outcome (list SelRegion * Transformer) :=
  let new_max_len := delta_new_document_len d in
  let move (tf : Transformer) (p : Z) : Z * Transformer :=
    if max_len =? p then (new_max_len, tf)
    else let '(q, tf) := tf_transform tf p true in (Z.min new_max_len q, tf) in
  let '(c, tf) := move tf (caret region) in
  let '(t, tf) := move tf (tail region) in
  Ok ([region_new c t], tf).

Lemma selection_apply_delta_closure sel d max_len :
  selection_apply_delta sel d max_len =
    if delta_new_document_len d =? 0 then Ok (clear sel)
    else '(sel', _) ← map_selections sel (transform_region d max_len) (tf_new d); Ok sel'.
Proof. done. Qed.

Section one_delta.
Context (base : Rope) (es : list edit) (d : Delta) (Hd : delta_of (rope_len base) es d).

Lemma transform_pos tf p : tf_delta tf = d → 0 ≤ p ≤ rope_len base →
  ∃ tf', (if rope_len base =? p then (delta_new_document_len d, tf)
    else let '(q, tf) := tf_transform tf p true in (Z.min (delta_new_document_len d) q, tf)) =
    (edits_pos 0 0 es p, tf') ∧ tf_delta tf' = d.
Proof.
  intros Ht Hp. rewrite (delta_of_end _ _ _ Hd).
  destruct Hd as (b & Hdb & Hn & He & _ & Hs & Hf). destruct (Z.eqb_spec (rope_len base) p) as [<-|Hne].
  - by exists tf.
  - pose proof (tf_transform_build tf b p) as Hpos. pose proof (tf_transform_delta tf p true) as Htf.
    destruct (tf_transform tf p true) as [q tf']. exists tf'. simpl in *. split; [|congruence].
    f_equal. rewrite Hpos; [rewrite He|congruence|by rewrite He|by rewrite He, Hn|lia].
    rewrite Z.min_r; [done|]. apply edits_pos_mono; [done|lia].
Qed.

Lemma transform_region_ok tf r : tf_delta tf = d → 0 ≤ rmin r ∧ rmax r ≤ rope_len base →
  ∃ tf', transform_region d (rope_len base) tf r = Ok ([moved_region es r], tf') ∧ tf_delta tf' = d.
Proof.
  intros Ht Hr. unfold transform_region.
  destruct (transform_pos tf (caret r) Ht ltac:(region_lia)) as (tf1 & -> & Ht1).
  destruct (transform_pos tf1 (tail r) Ht1 ltac:(region_lia)) as (tf2 & -> & Ht2).
  by exists tf2.
Qed.

Lemma edits_sorted_0 : edits_sorted 0 es.
Proof. by destruct Hd as (b & _ & _ & _ & _ & Hs & _). Qed.

Lemma moved_range p : p ≤ rope_len base → 0 ≤ edits_pos 0 0 es p ≤ delta_new_document_len d.
Proof.
  intros Hp. pose proof (edits_pos_ge 0 0 es p edits_sorted_0). split; [done|].
  rewrite (delta_of_end _ _ _ Hd). apply edits_pos_mono; [apply edits_sorted_0|done].
Qed.

Lemma clear_ok sel : selection_ok 0 (clear sel).
Proof. selection_ok_compute. Qed.

Context (sel : Selection) (Hok : selection_ok (rope_len base) sel) (Hfit : rope_len base < two63).

(** Regions of one direction keep it, and merge without panicking. *)
Lemma apply_delta_uniform (fwd : bool) :
  Forall (λ r, if fwd then tail r ≤ caret r else caret r ≤ tail r) (regions sel) →
  ∃ sel', selection_apply_delta sel d (rope_len base) = Ok sel' ∧
    selection_ok (delta_new_document_len d) sel' ∧
    Forall (λ r, if fwd then tail r ≤ caret r else caret r ≤ tail r) (regions sel').
Proof.
  intros Hdir. rewrite selection_apply_delta_closure.
  destruct (Z.eqb_spec (delta_new_document_len d) 0) as [->|Hne].
  { exists (clear sel). split_and!; [done|apply clear_ok|]. apply Forall_singleton. by destruct fwd. }
  destruct (map_selections_uniform (transform_region d (rope_len base)) (λ tf, tf_delta tf = d)
    (rope_len base) (delta_new_document_len d) sel (tf_new d) Hok Hfit (tf_new_delta d)
    (moved_region es) (λ r, (0 ≤ rmin r ∧ rmax r ≤ rope_len base) ∧
      if fwd then tail r ≤ caret r else caret r ≤ tail r)) with (fwd := fwd) as (sel' & tf & -> & _ & Hm).
  - apply Forall_and. split; [by apply selection_ok_regions|done].
  - intros tf r Htf [Hr _]. by apply transform_region_ok.
  - intros r [Hr Hf]. pose proof (moved_range (caret r) ltac:(region_lia)).
    pose proof (moved_range (tail r) ltac:(region_lia)).
    pose proof (edits_pos_mono 0 0 es (caret r) (tail r) edits_sorted_0).
    pose proof (edits_pos_mono 0 0 es (tail r) (caret r) edits_sorted_0).
    unfold moved_region. destruct fwd; region_lia.
  - intros r r' [Hr _] [Hr' _] Hlt.
    pose proof (edits_pos_mono 0 0 es (rmax r) (rmin r') edits_sorted_0 ltac:(lia)).
    unfold moved_region, rmin, rmax in *. simpl.
    pose proof (edits_pos_mono 0 0 es (caret r) (Z.max (caret r) (tail r)) edits_sorted_0 ltac:(lia)).
    pose proof (edits_pos_mono 0 0 es (tail r) (Z.max (caret r) (tail r)) edits_sorted_0 ltac:(lia)).
    pose proof (edits_pos_mono 0 0 es (Z.min (caret r') (tail r')) (caret r') edits_sorted_0 ltac:(lia)).
    pose proof (edits_pos_mono 0 0 es (Z.min (caret r') (tail r')) (tail r') edits_sorted_0 ltac:(lia)).
    lia.
  - exists sel'. split_and!; [done|apply Hm|apply Hm].
Qed.

(** When every region goes to one point the directions do not matter. *)
Lemma apply_delta_cursors :
  (∀ r, r ∈ regions sel → edits_pos 0 0 es (caret r) = edits_pos 0 0 es (tail r)) →
  ∃ sel', selection_apply_delta sel d (rope_len base) = Ok sel' ∧
    selection_ok (delta_new_document_len d) sel' ∧
    Forall (λ r, caret r = tail r) (regions sel').
Proof.
  intros Hsame. rewrite selection_apply_delta_closure.
  destruct (Z.eqb_spec (delta_new_document_len d) 0) as [->|Hne].
  { exists (clear sel). split_and!; [done|apply clear_ok|]. by apply Forall_singleton. }
  destruct (map_selections_cursor (transform_region d (rope_len base)) (λ tf, tf_delta tf = d)
    (rope_len base) (delta_new_document_len d) sel (tf_new d) Hok Hfit (tf_new_delta d)
    (moved_region es) (λ r, (0 ≤ rmin r ∧ rmax r ≤ rope_len base) ∧
      edits_pos 0 0 es (caret r) = edits_pos 0 0 es (tail r)))
    with (c := λ r, edits_pos 0 0 es (caret r)) as (sel' & tf & -> & _ & Hm).
  - apply Forall_and. split; [by apply selection_ok_regions|by apply Forall_forall].
  - intros tf r Htf [Hr _]. by apply transform_region_ok.
  - intros r [Hr Hs]. unfold moved_region. rewrite <-Hs. split; [done|].
    apply moved_range. region_lia.
  - intros r r' [Hr _] [Hr' _] Hlt. apply edits_pos_mono; [apply edits_sorted_0|region_lia].
  - exists sel'. split_and!; [done|apply Hm|apply Hm].
Qed.

End one_delta.

(** ** Typing at every caret *)

Lemma insert_edits text (rs : list SelRegion) :
  omap (insert_edit text) rs = (λ c, mkEdit c c text) <$> (caret <$> rs).
Proof. unfold insert_edit. rewrite omap_Some, <-list_fmap_compose. done. Qed.

(** The number of carets up to the caret with the index [i]. *)
Lemma count_le_caret max_size sel i r : selection_ok max_size sel → regions sel !! i = Some r →
  count_le (caret <$> regions sel) (caret r) = Z.of_nat i + 1.
Proof.
  intros Hok Hi. pose proof (sel_sorted _ _ Hok) as Hs. apply lookup_lt_Some in Hi as Hlt.
  unfold count_le. rewrite (filter_segment _ _ 0 (Z.of_nat i + 1)).
  - rewrite zlen_zslice, zlen_fmap by lia. unfold zlen. lia.
  - lia.
  - rewrite zlen_fmap. unfold zlen. lia.
  - intros j c Hj. rewrite list_lookup_fmap in Hj.
    destruct (regions sel !! j) as [r'|] eqn:Ej; [|done]. injection Hj as <-.
    destruct (Nat.lt_trichotomy i j) as [Hij|[<-|Hij]].
    + pose proof (regions_from_lt _ _ i j _ _ Hs Hi Ej Hij). region_lia.
    + simplify_eq. lia.
    + pose proof (regions_from_lt _ _ j i _ _ Hs Ej Hi Hij). region_lia.
Qed.

Definition typed_region (sel : Selection) (n : Z) (r : SelRegion) : SelRegion :=
  let shift p := p + n * count_le (caret <$> regions sel) p in
  region_new (shift (caret r)) (shift (tail r)).

Section typing.
Context (base : Rope) (sel : Selection) (text : bytes) (d : Delta).
Context (Ht : text ≠ []) (Hok : selection_ok (rope_len base) sel) (Hfit : rope_len base < two63).
Context (Hd : delta_of (rope_len base) (omap (insert_edit text) (regions sel)) d).

Lemma text_nonempty : 0 < zlen text.
Proof.
  pose proof (zlen_nonneg text). destruct (Z.eq_dec (zlen text) 0) as [?%zlen_0|]; [done|lia].
Qed.

Lemma typed_pos p : 0 ≤ p → edits_pos 0 0 (omap (insert_edit text) (regions sel)) p =
  p + zlen text * count_le (caret <$> regions sel) p.
Proof.
  intros Hp. rewrite insert_edits, edits_pos_insert; [lia| |done].
  rewrite <-insert_edits. by apply (edits_sorted_0 _ _ _ Hd).
Qed.

Lemma typed_len : delta_new_document_len d =
  rope_len base + zlen text * zlen (regions sel).
Proof.
  rewrite (delta_of_end _ _ _ Hd), typed_pos by (rewrite rope_len_bytes; apply zlen_nonneg).
  do 2 f_equal. unfold count_le. rewrite (filter_segment _ _ 0 (zlen (caret <$> regions sel))).
  - rewrite zslice_full by lia. apply zlen_fmap.
  - pose proof (zlen_nonneg (caret <$> regions sel)). lia.
  - lia.
  - intros i c Hi. apply lookup_lt_Some in Hi as Hlt. rewrite list_lookup_fmap in Hi.
    destruct (regions sel !! i) as [r|] eqn:E; [|done]. injection Hi as <-.
    pose proof (regions_range _ _ Hok r (list_elem_of_lookup_2 _ _ _ E)). unfold zlen. lia.
Qed.

Lemma typed_region_moved r : 0 ≤ rmin r →
  moved_region (omap (insert_edit text) (regions sel)) r = typed_region sel (zlen text) r.
Proof. intros Hr. unfold moved_region, typed_region. rewrite !typed_pos by region_lia. done. Qed.

Lemma typed_apart r r' : rmax r < rmin r' →
  rmax (typed_region sel (zlen text) r) < rmin (typed_region sel (zlen text) r').
Proof.
  intros Hlt. unfold typed_region, rmin, rmax in *. simpl. set (cs := caret <$> regions sel).
  assert (∀ p q, p < q → p + zlen text * count_le cs p < q + zlen text * count_le cs q) as Hmono.
  { intros p q Hpq. pose proof (count_le_mono cs p q ltac:(lia)). pose proof text_nonempty. nia. }
  pose proof (Hmono (caret r) (caret r')). pose proof (Hmono (caret r) (tail r')).
  pose proof (Hmono (tail r) (caret r')). pose proof (Hmono (tail r) (tail r')). lia.
Qed.

(** Inserting text shifts every position by the text inserted before or at it;
    no regions merge. *)
Lemma insert_apply_delta :
  let m := main_selection sel in
  let sel' := mkSelection (relabel m (typed_region sel (zlen text) <$> regions sel)) m in
  selection_apply_delta sel d (rope_len base) = Ok sel' ∧
  selection_ok (delta_new_document_len d) sel'.
Proof.
  intros m sel'. split.
  - rewrite selection_apply_delta_closure.
    pose proof text_nonempty. pose proof (sel_main_range _ _ Hok). pose proof (base_nonneg base).
    rewrite (proj2 (Z.eqb_neq _ _)) by (rewrite typed_len; nia).
    destruct (map_selections_exact (transform_region d (rope_len base)) (λ tf, tf_delta tf = d)
      (typed_region sel (zlen text)) (λ r, 0 ≤ rmin r ∧ rmax r ≤ rope_len base))
      with (max_size := rope_len base) (sel := sel) (s := tf_new d) as (tf & -> & _); try done.
    + intros tf r Htf Hr. rewrite <-typed_region_moved by apply Hr.
      by apply (transform_region_ok _ _ _ Hd).
    + intros r r' _ _. apply typed_apart.
    + by apply selection_ok_regions.
    + apply tf_new_delta.
  - apply (relabel_image_ok _ (rope_len base)); [done| |intros r r' _ _; apply typed_apart].
    intros r Hr%(regions_range _ _ Hok). rewrite <-typed_region_moved by lia.
    pose proof (moved_range _ _ _ Hd (caret r) ltac:(region_lia)).
    pose proof (moved_range _ _ _ Hd (tail r) ltac:(region_lia)).
    unfold moved_region. region_lia.
Qed.

End typing.

(** *** Backspace takes the typed byte away again *)

(** Deleting the byte before each shifted caret; [k] bytes have been inserted
    before the first caret. *)
Lemma edit_eq s s' e e' t : s = s' → e = e' → mkEdit s e t = mkEdit s' e' t.
Proof. by intros -> ->. Qed.

Lemma splice_type_backspace b l pre pos k cs :
  0 ≤ pos → zlen pre = pos + k → 0 ≤ k → pos ≤ zlen l →
  edits_sorted pos ((λ c, mkEdit c c [b]) <$> cs) → Forall (λ c, c ≤ zlen l) cs →
  splice (pos + k) (imap (λ i c, mkEdit (c + k + Z.of_nat i) (c + k + Z.of_nat i + 1) []) cs)
    (pre ++ splice pos ((λ c, mkEdit c c [b]) <$> cs) l) = zdrop pos l.
Proof.
  revert pre pos k. induction cs as [|c cs IH]; intros pre pos k Hpos Hpre Hk Hl Hs Hf.
  - cbn. rewrite zdrop_app, zdrop_ge by lia. simpl. rewrite Hpre, Z.sub_diag. by apply zdrop_le0.
  - apply Forall_cons in Hf as [Hc Hf]. rewrite fmap_cons in *. destruct Hs as [Hr Hs].
    cbn [imap splice ed_start ed_end ed_text] in *. rewrite Z.add_0_r.
    set (rest := splice c _ l). rewrite (app_nil_l).
    assert (zlen (zslice pos c l) = c - pos) as Hzl by (autorewrite with zlen; lia).
    rewrite (zslice_app_r (pos + k)) by lia. rewrite Hpre.
    replace (pos + k - (pos + k)) with 0 by lia. replace (c + k - (pos + k)) with (c - pos) by lia.
    rewrite zslice_app_l by lia. rewrite zslice_full by lia.
    rewrite (zslice_zdrop pos c l) by lia. f_equal.
    replace (pre ++ zslice pos c l ++ [b] ++ rest)
      with ((pre ++ zslice pos c l ++ [b]) ++ rest) by by rewrite <-!app_assoc.
    specialize (IH (pre ++ zslice pos c l ++ [b]) c (k + 1)).
    replace (c + (k + 1)) with (c + k + 1) in IH by lia. rewrite <-IH; [|lia| |lia|lia|done|done].
    + unfold rest. f_equal. apply imap_ext. intros i x _. apply edit_eq; simpl; lia.
    + autorewrite with zlen. lia.
Qed.

Lemma backspace_edits_shifted sel m max_size : selection_ok max_size sel →
  omap backspace_edit (relabel m (typed_region sel 1 <$> regions sel)) =
    imap (λ i c, mkEdit (c + 0 + Z.of_nat i) (c + 0 + Z.of_nat i + 1) []) (caret <$> regions sel).
Proof.
  intros Hok. rewrite imap_relabel, imap_fmap.
  assert (∀ (rs : list SelRegion) k, (∀ i r, rs !! i = Some r → 0 ≤ caret r ∧
      count_le (caret <$> regions sel) (caret r) = Z.of_nat (k + i) + 1) →
    omap backspace_edit (imap (λ i r, with_main (typed_region sel 1 r) (Z.of_nat (k + i) =? m)) rs) =
    imap (λ i r, mkEdit (caret r + 0 + Z.of_nat (k + i)) (caret r + 0 + Z.of_nat (k + i) + 1) []) rs)
    as Hgen.
  { induction rs as [|r rs IH]; intros k Hrs; [done|]. cbn [imap omap list_omap].
    destruct (Hrs 0%nat r eq_refl) as [H0' Hc].
    assert (caret (typed_region sel 1 r) = caret r + (Z.of_nat (k + 0) + 1)) as Ht.
    { unfold typed_region. cbn [caret region_new]. rewrite Hc. lia. }
    unfold backspace_edit at 1. cbn [caret with_main]. rewrite Ht.
    rewrite (proj2 (Z.eqb_neq (caret r + _) 0)) by lia. f_equal; [apply edit_eq; lia|].
    specialize (IH (S k)).
    assert (∀ (A : Type) (f : nat → SelRegion → A), imap (f ∘ S) rs = imap (λ i, f (S i)) rs) as Hi by done.
    rewrite Hi. rewrite (imap_ext _ (λ i r, with_main (typed_region sel 1 r) (Z.of_nat (S k + i) =? m))).
    - rewrite IH; [apply imap_ext; intros i x _; apply edit_eq; lia|].
      intros i x Hx. specialize (Hrs (S i) x Hx). replace (S k + i)%nat with (k + S i)%nat by lia. done.
    - intros i x _. do 3 f_equal. lia. }
  apply (Hgen (regions sel) 0%nat). intros i r Hi. split; [|by apply (count_le_caret max_size)].
  pose proof (selection_ok_regions _ _ Hok) as Hf. rewrite Forall_lookup in Hf.
  specialize (Hf i r Hi). region_lia.
Qed.

(** C29: typing a byte at every caret and pressing backspace gives the old
    document back: after typing, the carets stand right after the typed bytes
    in a well-formed selection, and exactly these bytes are removed. Neither
    step panics. *)
Theorem type_then_backspace (base : Rope) sel b :
  selection_ok (rope_len base) sel → rope_len base + zlen (regions sel) < two63 →
  ∃ d sel' d', insert base sel [b] = Ok d ∧
    selection_apply_delta sel d (rope_len base) = Ok sel' ∧
    let base' := rope_apply_delta base d in
    selection_ok (rope_len base') sel' ∧ zlen (regions sel') = zlen (regions sel) ∧
    rope_len base' = rope_len base + zlen (regions sel) ∧
    backspace base' sel' = Ok d' ∧
    rope_bytes (rope_apply_delta base' d') = rope_bytes base.
Proof.
  intros Hok Hfit. pose proof (zlen_nonneg (regions sel)).
  destruct (insert_delta base sel Hok [b]) as (d & Hi & Hd).
  destruct (insert_apply_delta base sel [b] d ltac:(done) Hok ltac:(lia) Hd) as [Hs Hok'].
  pose proof (typed_len base sel [b] d Hok Hd) as Hlen. rewrite (delta_of_new_len _ _ _ Hd) in *.
  change (zlen [b]) with 1 in *.
  destruct (backspace_delta _ _ Hok' ltac:(lia)) as (d' & Hbs & Hd').
  eexists d, _, d'. split; [done|]. split; [done|]. intros base'; subst base'. split_and!; [done| |lia|done|].
  - cbn [regions]. rewrite zlen_relabel. apply zlen_fmap.
  - rewrite (delta_of_apply _ _ _ Hd'), (delta_of_apply _ _ _ Hd). cbn [regions].
    rewrite (backspace_edits_shifted sel _ _ Hok), insert_edits.
    change (splice 0 ?es ?l) with (splice (0 + 0) es ([] ++ l)) at 1.
    rewrite splice_type_backspace; [by apply zdrop_le0|done|done|done| | |].
    + apply zlen_nonneg.
    + rewrite <-insert_edits. by apply (edits_sorted_0 _ _ _ Hd).
    + apply Forall_fmap, Forall_forall. intros r Hr%(regions_range _ _ Hok).
      rewrite rope_len_bytes in Hr. simpl. lia.
Qed.

(** After deleting the selected bytes the selection is well formed for the
    shorter document and consists of cursors. *)
Lemma deletion_selection (base : Rope) sel :
  selection_ok (rope_len base) sel → rope_len base < two63 →
  ∃ d sel', deletion base sel = Ok d ∧
    rope_bytes (rope_apply_delta base d) = unselected (regions sel) 0 (rope_bytes base) ∧
    selection_apply_delta sel d (rope_len base) = Ok sel' ∧
    selection_ok (rope_len (rope_apply_delta base d)) sel' ∧
    Forall (λ r, caret r = tail r) (regions sel').
Proof.
  intros Hok Hfit. destruct (deletion_delta base sel Hok Hfit) as (d & Hdel & Hd).
  destruct (deletion_keeps_unselected base sel Hok Hfit) as (d2 & Hdel2 & Hbytes).
  assert (d2 = d) as -> by congruence.
  destruct (apply_delta_cursors base _ d Hd sel Hok Hfit) as (sel' & Hs & Hok' & Hall).
  - intros r Hr. apply edits_pos_collapse with (ed := mkEdit (rmin r) (rmax r + 1) []).
    + by apply (edits_sorted_0 _ _ _ Hd).
    + apply list_elem_of_omap. by exists r.
    + simpl. region_lia.
    + simpl. region_lia.
  - exists d, sel'. rewrite (delta_of_new_len _ _ _ Hd) in Hok'. done.
Qed.

(** C32: when all regions have one direction, moving the selection through
    any delta that the operations build never panics; the result is well
    formed for the new document and keeps the direction. *)
Theorem apply_delta_same_direction (base : Rope) es d sel (fwd : bool) :
  delta_of (rope_len base) es d → selection_ok (rope_len base) sel → rope_len base < two63 →
  Forall (λ r, if fwd then tail r ≤ caret r else caret r ≤ tail r) (regions sel) →
  ∃ sel', selection_apply_delta sel d (rope_len base) = Ok sel' ∧
    selection_ok (rope_len (rope_apply_delta base d)) sel' ∧
    Forall (λ r, if fwd then tail r ≤ caret r else caret r ≤ tail r) (regions sel').
Proof.
  intros Hd Hok Hfit Hdir. rewrite <-(delta_of_new_len _ _ _ Hd).
  by apply (apply_delta_uniform base es d Hd sel).
Qed.

End apply.

(** ** The theorems at a concrete document *)

Lemma type_then_backspace_witness : ∃ d sel' d',
  @insert ref_rope sample_doc sample_sel [65] = Ok d ∧
  @selection_apply_delta true ref_rope sample_sel d 7 = Ok sel' ∧
  @backspace true ref_rope (rope_apply_delta sample_doc d) sel' = Ok d' ∧
  rope_bytes (rope_apply_delta (rope_apply_delta sample_doc d) d') = rope_bytes sample_doc.
Proof.
  destruct (@type_then_backspace true ref_rope ref_rope_laws sample_doc sample_sel 65)
    as (d & sel' & d' & Hi & Ha & _ & _ & _ & Hb & He); [selection_ok_compute|vm_compute; done|].
  by exists d, sel', d'.
Defined.

Definition backward_sel : Selection := selection_of [(1, 2); (4, 4); (6, 7)] 1.

Lemma apply_delta_same_direction_witness : ∃ d sel',
  @backspace true ref_rope sample_doc backward_sel = Ok d ∧
  @selection_apply_delta true ref_rope backward_sel d 7 = Ok sel' ∧
  selection_ok (rope_len (rope_apply_delta sample_doc d)) sel'.
Proof.
  destruct (@backspace_delta true ref_rope ref_rope_laws sample_doc backward_sel) as (d & Hb & Hd);
    [selection_ok_compute|vm_compute; done|].
  destruct (@apply_delta_same_direction true ref_rope ref_rope_laws sample_doc _ d backward_sel false Hd)
    as (sel' & Ha & Hok & _); [selection_ok_compute|vm_compute; done| |by exists d, sel'].
  repeat constructor; vm_compute; done.
Defined.

(** Regions of different directions can make it panic: backspace with a
    forward and a backward region whose carets are adjacent. *)
Example apply_delta_mixed_panics :
  selection_ok 7 (selection_of [(3, 1); (4, 6)] 0) ∧
  (d ← @backspace true ref_rope sample_doc (selection_of [(3, 1); (4, 6)] 0);
   @selection_apply_delta true ref_rope (selection_of [(3, 1); (4, 6)] 0) d 7) = Panic PanicExplicit.
Proof. split; [selection_ok_compute|vm_compute; reflexivity]. Qed.
