(* ===== verification/CurrentBuffer.v ===== *)
(** * CurrentBuffer: buffers and their collection, [src/src/current_buffer.rs]

    A buffer is a rope, a selection, registers and a history; the collection
    is a list of buffers with a current one.  File access goes through the
    class [FileSystem], whose operations are the calls into the operating
    system the sources make. *)

From S2P Require Import Prelude Masks XiRope XiRopeRef ByteRope Selection SelectionMap.
From S2P Require Import SelectionMoves SelectionQueries SelectionExact Operations Edits History.
From S2P Require Import SelectionDelta.

(** ** The file system *)

(** Paths and other strings are their UTF-8 bytes. *)
Abbreviation PathBuf := bytes.

Inductive io (A : Type) : Type :=
  | IoOk (a : A)
  | IoErr (e : Z).
Arguments IoOk {A} a.
Arguments IoErr {A} e.

Class FileSystem := {
  World : Type;
  (* File::open(path), then metadata().len() *)
  fs_len : World → PathBuf → io Z;
  (* File::open(path), seek(SeekFrom::Start(pos)), one read into n bytes *)
  fs_read_at : World → PathBuf → Z → Z → io bytes;
  fs_read : World → PathBuf → io bytes;
  fs_write : World → PathBuf → bytes → io unit * World;
  fs_canonicalize : World → PathBuf → io PathBuf;
  (* impl Display for std::io::Error *)
  io_error_display : Z → bytes;
}.

(** ** Dirty bytes, of [src/src/modes/mode.rs] *)

Inductive DirtyBytes :=
  | ChangeInPlace (ivs : list Interval)
  | ChangeLength.

Inductive OverflowSelectionStyle := Cursor | Tail | CursorTail.

(** ** Buffers *)

Section buffer.
Context `{Profile} `{XiRope} `{FileSystem}.

Record CurrentBuffer := mkBuffer {
  path : option PathBuf;
  data : Rope;
  selection : Selection;
  registers : gmap Z (list bytes);
  dirty : bool;
  history : History;
  data_start_offset : Z;
}.

Definition with_data (b : CurrentBuffer) (d : Rope) : CurrentBuffer :=
  mkBuffer (path b) d (selection b) (registers b) (dirty b) (history b) (data_start_offset b).
Definition with_selection (b : CurrentBuffer) (s : Selection) : CurrentBuffer :=
  mkBuffer (path b) (data b) s (registers b) (dirty b) (history b) (data_start_offset b).
Definition with_registers (b : CurrentBuffer) (r : gmap Z (list bytes)) : CurrentBuffer :=
  mkBuffer (path b) (data b) (selection b) r (dirty b) (history b) (data_start_offset b).
Definition with_dirty (b : CurrentBuffer) (f : bool) : CurrentBuffer :=
  mkBuffer (path b) (data b) (selection b) (registers b) f (history b) (data_start_offset b).
Definition with_history (b : CurrentBuffer) (h : History) : CurrentBuffer :=
  mkBuffer (path b) (data b) (selection b) (registers b) (dirty b) h (data_start_offset b).
Definition with_path (b : CurrentBuffer) (p : option PathBuf) : CurrentBuffer :=
  mkBuffer p (data b) (selection b) (registers b) (dirty b) (history b) (data_start_offset b).

Definition empty_rope : Rope := mkRope (tb_build tb_new).

Definition buffer_default : CurrentBuffer :=
  mkBuffer None empty_rope selection_default ∅ false history_new 0.

Definition from_data_and_path (d : bytes) (p : option PathBuf) : outcome CurrentBuffer :=
  rope ← rope_from_vec d;
  Ok (mkBuffer p rope selection_new ∅ false history_new 0).

(** The delta that appends or prepends one chunk as a single leaf. *)
Definition chunk_delta (at_ : Z) (chunk : bytes) (len : Z) : Delta :=
  delta_simple_edit (iv_new at_ at_) (tb_build (tb_push_leaf tb_new chunk)) len.

Definition load_next_chunk (w : World) (self : CurrentBuffer) (chunk_size : Z) :
    io bool * CurrentBuffer :=
  match path self with
  | Some p =>
      match fs_len w p with
      | IoErr e => (IoErr e, self)
      | IoOk _ =>
          match fs_read_at w p (rope_len (data self)) chunk_size with
          | IoErr e => (IoErr e, self)
          | IoOk next_chunk =>
              if 0 <? zlen next_chunk then
                let len := rope_len (data self) in
                let delta := chunk_delta len next_chunk len in
                (IoOk true, with_data self (rope_apply_delta (data self) delta))
              else (IoOk false, self)
          end
      end
  | None => (IoOk false, self)
  end.

(** [sort_by(|a, b| a.start.cmp(&b.start))], a stable sort. *)
Fixpoint insert_interval (x : Interval) (l : list Interval) : list Interval :=
  match l with
  | [] => [x]
  | y :: l' => if iv_start x <? iv_start y then x :: l else y :: insert_interval x l'
  end.
Definition sort_intervals (l : list Interval) : list Interval :=
  foldl (λ acc x, insert_interval x acc) [] l.

(** One round of the loop that makes the intervals disjoint. *)
Definition merge_interval (acc : list Interval) (r : Interval) : list Interval :=
  match last acc with
  | None => [r]
  | Some l =>
      if iv_contains l (iv_start r) then removelast acc ++ [iv_union l r] else acc ++ [r]
  end.

Definition map_selections_buffer {S} (self : CurrentBuffer)
    (f : S → SelRegion → outcome (list SelRegion * S)) (s : S) :
    outcome (CurrentBuffer * DirtyBytes * S) :=
  '(sel, (s, invalidated_ranges)) ← map_selections (selection self)
    (λ '(s, invalidated_ranges) region,
      let invalidated_ranges := invalidated_ranges ++ [iv_from_inclusive (rmin region) (rmax region)] in
      '(new, s) ← f s region;
      let invalidated_ranges :=
        invalidated_ranges ++ ((λ new_reg, iv_from_inclusive (rmin new_reg) (rmax new_reg)) <$> new) in
      Ok (new, (s, invalidated_ranges)))
    (s, []);
  let disjoint_invalidated_ranges := foldl merge_interval [] (sort_intervals invalidated_ranges) in
  Ok (with_selection self sel, ChangeInPlace disjoint_invalidated_ranges, s).

Definition apply_delta_to_current_buffer (self : CurrentBuffer) (delta : Delta) (is_final : bool) :
    CurrentBuffer :=
  let next_data := rope_apply_delta (data self) delta in
  let history' :=
    if is_final then perform_final (history self) (data self) delta (selection self)
    else perform_partial (history self) (data self) delta (selection self) in
  with_dirty (with_data (with_history self history') next_data) true.

Definition apply_delta (self : CurrentBuffer) (delta : Delta) : outcome (CurrentBuffer * DirtyBytes) :=
  let max_len := rope_len (data self) in
  let self := apply_delta_to_current_buffer self delta true in
  sel ← selection_apply_delta (selection self) delta max_len;
  Ok (with_selection self sel, ChangeLength).

Definition apply_delta_offset_carets (self : CurrentBuffer) (delta : Delta)
    (caret_offset tail_offset : Z) : outcome (CurrentBuffer * DirtyBytes) :=
  let max_len := rope_len (data self) in
  let self := apply_delta_to_current_buffer self delta true in
  sel ← selection_apply_delta_offset_carets (selection self) delta caret_offset tail_offset max_len;
  Ok (with_selection self sel, ChangeLength).

Definition apply_incomplete_delta (self : CurrentBuffer) (delta : Delta) :
    outcome (CurrentBuffer * DirtyBytes) :=
  let max_len := rope_len (data self) in
  let self := apply_delta_to_current_buffer self delta false in
  sel ← selection_apply_delta (selection self) delta max_len;
  Ok (with_selection self sel, ChangeLength).

Definition apply_incomplete_delta_offset_carets (self : CurrentBuffer) (delta : Delta)
    (caret_offset tail_offset : Z) : outcome (CurrentBuffer * DirtyBytes) :=
  let max_len := rope_len (data self) in
  let self := apply_delta_to_current_buffer self delta false in
  sel ← selection_apply_delta_offset_carets (selection self) delta caret_offset tail_offset max_len;
  Ok (with_selection self sel, ChangeLength).

Definition commit_delta (self : CurrentBuffer) : CurrentBuffer :=
  with_history self (commit_partial (history self)).

Definition perform_undo (self : CurrentBuffer) : CurrentBuffer * option DirtyBytes :=
  match undo (history self) (data self) (selection self) with
  | (Some (undo_delta, old_selection), h) =>
      (with_dirty (with_data (with_selection (with_history self h) old_selection)
         (rope_apply_delta (data self) undo_delta)) true, Some ChangeLength)
  | (None, h) => (with_history self h, None)
  end.

Definition perform_redo (self : CurrentBuffer) : CurrentBuffer * option DirtyBytes :=
  match redo (history self) (data self) (selection self) with
  | (Some (redo_delta, old_selection), h) =>
      (with_dirty (with_data (with_selection (with_history self h) old_selection)
         (rope_apply_delta (data self) redo_delta)) true, Some ChangeLength)
  | (None, h) => (with_history self h, None)
  end.

Definition switch_main_sel (self : CurrentBuffer) (f : Selection → outcome Selection) :
    outcome (CurrentBuffer * DirtyBytes) :=
  old_main ← main_region (selection self);
  sel ← f (selection self);
  new_main ← main_region sel;
  Ok (with_selection self sel, ChangeInPlace [region_interval old_main; region_interval new_main]).

Definition modify_sels_in_place (self : CurrentBuffer) (f : Selection → outcome Selection) :
    outcome (CurrentBuffer * DirtyBytes) :=
  let dirty := ChangeInPlace (region_interval <$> regions (selection self)) in
  sel ← f (selection self);
  Ok (with_selection self sel, dirty).

Definition remove_selection (self : CurrentBuffer) (index : Z) : outcome (CurrentBuffer * DirtyBytes) :=
  modify_sels_in_place self (λ sel, i ← urem index (selection_len sel); remove sel i).
Definition retain_selection (self : CurrentBuffer) (index : Z) : outcome (CurrentBuffer * DirtyBytes) :=
  modify_sels_in_place self (λ sel, i ← urem index (selection_len sel); retain sel i).
Definition buffer_select_next (self : CurrentBuffer) (count : Z) : outcome (CurrentBuffer * DirtyBytes) :=
  switch_main_sel self (λ sel, select_next sel count).
Definition buffer_select_prev (self : CurrentBuffer) (count : Z) : outcome (CurrentBuffer * DirtyBytes) :=
  switch_main_sel self (λ sel, select_prev sel count).

Definition yank_selections (self : CurrentBuffer) (reg : Z) : outcome CurrentBuffer :=
  if rope_is_empty (data self) then
    Ok (with_registers self
          (<[reg := replicate (length (regions (selection self))) []]> (registers self)))
  else
    selections ← mapM_outcome
      (λ region, slice_to_cow (data self) (iv_from_inclusive (rmin region) (rmax region)))
      (regions (selection self));
    Ok (with_registers self (<[reg := selections]> (registers self))).

Definition overflow_sel_style (self : CurrentBuffer) : outcome (option OverflowSelectionStyle) :=
  last_sel ← unwrap (last (regions (selection self)));
  let len := rope_len (data self) in
  Ok (if (caret last_sel =? len) && (tail last_sel =? len) then Some CursorTail
      else if caret last_sel =? len then Some Cursor
      else if tail last_sel =? len then Some Tail
      else None).

Definition update_path_if_missing (self : CurrentBuffer) (p : PathBuf) : CurrentBuffer :=
  match path self with None => with_path self (Some p) | Some _ => self end.

(** ** The collection *)

Record BuffrCollection := mkCollection { buf_list : list CurrentBuffer; cur_buf_index : Z }.

Definition with_current_buffer (b : CurrentBuffer) : BuffrCollection := mkCollection [b] 0.
Definition collection_new : BuffrCollection := with_current_buffer buffer_default.

Definition current (self : BuffrCollection) : outcome CurrentBuffer :=
  vec_index (buf_list self) (cur_buf_index self).

(** [*self.current_mut() = b] *)
Definition set_current (self : BuffrCollection) (b : CurrentBuffer) : outcome BuffrCollection :=
  l ← vec_update (buf_list self) (cur_buf_index self) (λ _, b);
  Ok (mkCollection l (cur_buf_index self)).

(** The search of [switch_current_buffer] among the open buffers. *)
Fixpoint find_path (w : World) (canon : PathBuf) (i : Z) (l : list CurrentBuffer) : io (option Z) :=
  match l with
  | [] => IoOk None
  | b :: l' =>
      match path b with
      | Some p =>
          match fs_canonicalize w p with
          | IoErr e => IoErr e
          | IoOk q => if decide (q = canon) then IoOk (Some i) else find_path w canon (i + 1) l'
          end
      | None => find_path w canon (i + 1) l'
      end
  end.

Definition switch_current_buffer (w : World) (self : BuffrCollection) (filename : PathBuf) :
    outcome (io unit * BuffrCollection) :=
  match fs_canonicalize w filename with
  | IoErr e => Ok (IoErr e, self)
  | IoOk canon =>
      match find_path w canon 0 (buf_list self) with
      | IoErr e => Ok (IoErr e, self)
      | IoOk (Some i) => Ok (IoOk tt, mkCollection (buf_list self) i)
      | IoOk None =>
          match fs_read w filename with
          | IoErr e => Ok (IoErr e, self)
          | IoOk contents =>
              b ← from_data_and_path contents (Some filename);
              let l := buf_list self ++ [b] in
              i ← usub (zlen l) 1;
              Ok (IoOk tt, mkCollection l i)
          end
      end
  end.

Definition delete_current (self : BuffrCollection) : outcome BuffrCollection :=
  l ← vec_remove (buf_list self) (cur_buf_index self);
  let i := usize_saturating_sub (cur_buf_index self) 1 in
  Ok (mkCollection (if (zlen l =? 0) then [buffer_default] else l) i).

End buffer.
