(* ===== verification/BufferTheorems.v ===== *)
(** * BufferTheorems: what a buffer guarantees

    Undo and redo of edits and of whole insertions; chunks loaded from the file
    extend the window; yanking; the collection always has a current buffer. *)

From S2P Require Import Prelude Masks XiRope XiRopeRef ByteRope Selection SelectionMap.
From S2P Require Import SelectionMoves SelectionQueries SelectionExact Operations Edits History.
From S2P Require Import SelectionDelta CurrentBuffer.

(** ** The file system, as documented *)

Class FileSystemLaws `{FileSystem} := {
  fs_contents : World → PathBuf → option bytes;
  (* A read returns a prefix of what follows the position, and nothing only at
     the end of the file or for an empty buffer. *)
  fs_read_at_ok w p pos n r : 0 ≤ pos → 0 ≤ n → fs_read_at w p pos n = IoOk r →
    ∃ c, fs_contents w p = Some c ∧ r = zslice pos (pos + zlen r) c ∧ zlen r ≤ n ∧
      (zlen r = 0 → n ≤ 0 ∨ zlen c ≤ pos);
  fs_read_ok w p r : fs_read w p = IoOk r → fs_contents w p = Some r;
  (* Two paths that name one file, such as [f] and [./f]. *)
  fs_same : World → PathBuf → PathBuf → bool;
  fs_same_refl w p : fs_same w p p = true;
  (* A write replaces the contents of one file, under all its paths, and does
     not change which file a path names. *)
  fs_write_ok w p l w' : fs_write w p l = (IoOk tt, w') →
    ∀ q, fs_contents w' q = if fs_same w p q then Some l else fs_contents w q;
  fs_write_same w p l w' : fs_write w p l = (IoOk tt, w') → ∀ q r, fs_same w' q r = fs_same w q r;
}.

(** A path without a leading [./]. *)
Definition plain_path (p : PathBuf) : PathBuf :=
  match p with 46 :: 47 :: q => q | _ => p end.

(** An instance: a map from paths to contents, reads of at most 4096 bytes. *)
#[export] Instance map_fs : FileSystem := {|
  World := gmap PathBuf bytes;
  fs_len w p := match w !! plain_path p with Some c => IoOk (zlen c) | None => IoErr 2 end;
  fs_read_at w p pos n :=
    match w !! plain_path p with
    | Some c => IoOk (zslice pos (pos + Z.min n 4096) c)
    | None => IoErr 2
    end;
  fs_read w p := match w !! plain_path p with Some c => IoOk c | None => IoErr 2 end;
  fs_write w p l := (IoOk tt, <[plain_path p := l]> w);
  fs_canonicalize w p := if decide (is_Some (w !! plain_path p)) then IoOk (plain_path p) else IoErr 2;
  io_error_display e := [69; e + 48];
|}.

#[export] Instance map_fs_laws : FileSystemLaws.
Proof.
  refine {| fs_contents := λ (w : @World map_fs) p, (w : gmap PathBuf bytes) !! plain_path p;
            fs_same := λ _ p q, bool_decide (plain_path p = plain_path q) |}; simpl.
  - intros w p pos n r Hpos Hn. destruct (w !! plain_path p) as [c|] eqn:E; [|done]. intros [= <-].
    exists c. split; [done|]. rewrite zlen_zslice by done.
    set (k := Z.max 0 (Z.min (pos + Z.min n 4096) (zlen c) - pos)). split_and!; [|lia|lia].
    destruct (Z.le_gt_cases (zlen c) pos); [by rewrite !zslice_ge|].
    destruct (Z.le_gt_cases (Z.min n 4096) 0); [by rewrite !zslice_nil by lia|].
    rewrite zslice_clamp by done. f_equal. lia.
  - intros w p r. by destruct (w !! plain_path p) as [c|]; [intros [= ->]|].
  - intros w p. by apply bool_decide_true.
  - intros w p l w' [= <-] q. case_bool_decide as Hd; [rewrite Hd; apply lookup_insert_eq|by apply lookup_insert_ne].
  - done.
Defined.

(** ** The collection *)

Section collection.
Context `{Profile} `{XiRopeLaws} `{FileSystem}.

(** There is always a current buffer. *)
Definition collection_ok (c : BuffrCollection) : Prop := 0 ≤ cur_buf_index c < zlen (buf_list c).

Lemma find_path_bound w canon i l k : find_path w canon i l = IoOk (Some k) → i ≤ k < i + zlen l.
Proof.
  revert i. induction l as [|b l IH]; intros i; cbn [find_path]; [done|]. rewrite zlen_cons.
  pose proof (zlen_nonneg l).
  destruct (path b) as [p|]; [destruct (fs_canonicalize w p) as [q|]; [case_decide|done]|];
    intros Hf; [injection Hf as <-; lia|specialize (IH _ Hf); lia..].
Qed.

Lemma delete_current_ok c : collection_ok c →
  ∃ c', delete_current c = Ok c' ∧ collection_ok c' ∧
    (1 < zlen (buf_list c) →
       buf_list c' = ztake (cur_buf_index c) (buf_list c) ++ zdrop (cur_buf_index c + 1) (buf_list c)).
Proof.
  intros Hc. unfold collection_ok in *. unfold delete_current, vec_remove, vec_index.
  destruct (zlookup_lt _ _ Hc) as [b ->]. simpl.
  set (l := ztake _ _ ++ _). eexists. split; [done|].
  assert (zlen l = zlen (buf_list c) - 1) as Hl by (unfold l; autorewrite with zlen; lia).
  simpl. unfold usize_saturating_sub. destruct (Z.eqb_spec (zlen l) 0); split; try lia.
  - unfold zlen. simpl. lia.
  - done.
Qed.

Lemma switch_current_buffer_ok w c filename : collection_ok c → zlen (buf_list c) < usize_max →
  ∃ r c', switch_current_buffer w c filename = Ok (r, c') ∧ collection_ok c' ∧
    (buf_list c' = buf_list c ∨ ∃ b, buf_list c' = buf_list c ++ [b]).
Proof.
  intros Hc Hn. unfold collection_ok in *. unfold switch_current_buffer.
  destruct (fs_canonicalize w filename) as [canon|e]; [|by exists (IoErr e), c; auto].
  destruct (find_path w canon 0 (buf_list c)) as [[i|]|e] eqn:E; [|..|by exists (IoErr e), c; auto].
  - apply find_path_bound in E. eexists _, _. split; [done|]. simpl. split; [lia|by left].
  - destruct (fs_read w filename) as [l|e]; [|by exists (IoErr e), c; auto].
    unfold from_data_and_path. destruct (rope_from_vec_bytes l) as (rope & -> & _). simpl.
    rewrite usub_ok by (rewrite zlen_snoc; unfold_usize; lia). simpl.
    eexists _, _. split; [done|]. simpl. rewrite zlen_snoc.
    split; [lia|right; eauto].
Qed.

End collection.

(** ** Undo and redo *)

Section undo.
Context `{Profile} `{XiRopeLaws}.

(** One edit of an insertion that is still going on. *)
Inductive typing_step (b : CurrentBuffer) : CurrentBuffer → Prop :=
  | typing_plain d b' dirty : delta_base_len d = rope_len (data b) →
      apply_incomplete_delta b d = Ok (b', dirty) → typing_step b b'
  | typing_offset d c t b' dirty : delta_base_len d = rope_len (data b) →
      apply_incomplete_delta_offset_carets b d c t = Ok (b', dirty) → typing_step b b'.

Lemma typing_step_inv b b' : typing_step b b' → ∃ d, delta_base_len d = rope_len (data b) ∧
  history b' = perform_partial (history b) (data b) d (selection b) ∧
  data b' = rope_apply_delta (data b) d.
Proof.
  intros [d b'' dirty Hd E|d c t b'' dirty Hd E]; exists d;
    unfold apply_incomplete_delta, apply_incomplete_delta_offset_carets in E; outcome_inv; done.
Qed.

(** While typing, the pending action leads back to where the typing began. *)
Lemma typing_pending b b' : hist_partial (history b) = None → tc typing_step b b' →
  ∃ a, hist_partial (history b') = Some (a, selection b) ∧
    takes (act_delta a) (rope_bytes (data b')) (rope_bytes (data b)).
Proof.
  intros Hn. revert b'. refine (tc_ind_r _ _ _ _).
  - intros b1 (d & Hd & Hh & Hdata)%typing_step_inv. exists (invert (from_delta d) (data b)).
    rewrite Hh, Hdata. unfold perform_partial. rewrite Hn. simpl. split; [done|].
    by apply (invert_takes (from_delta d) _ _ (data b)); [apply takes_apply|].
  - intros b1 b2 _ (d & Hd & Hh & Hdata)%typing_step_inv (a & Ha & Ht).
    eexists. rewrite Hh, Hdata. unfold perform_partial. rewrite Ha. simpl. split; [done|].
    apply chain_takes with (rope_bytes (data b1)); [|done|done].
    by apply (invert_takes (from_delta d) _ _ (data b1)); [apply takes_apply|].
Qed.

(** C6: everything typed between entering and leaving insert mode is one
    undo step: after the pending edits are committed, one undo restores the
    document and the selection from before the first keystroke, and one redo
    brings the typed text back. *)
Theorem typing_is_one_undo (b b1 : CurrentBuffer) :
  hist_partial (history b) = None → tc typing_step b b1 →
  ∃ b2 b3, perform_undo (commit_delta b1) = (b2, Some ChangeLength) ∧
    rope_bytes (data b2) = rope_bytes (data b) ∧ selection b2 = selection b ∧
    perform_redo b2 = (b3, Some ChangeLength) ∧
    rope_bytes (data b3) = rope_bytes (data b1) ∧ selection b3 = selection b1.
Proof.
  intros Hn Ht. destruct (typing_pending b b1 Hn Ht) as (a & Ha & Htk).
  unfold perform_undo, perform_redo, commit_delta, commit_partial. rewrite Ha. simpl.
  eexists _, _. split; [done|]. split; [by apply (takes_rope _ _ _ _ Htk)|]. split; [done|].
  simpl. split; [done|]. split; [|done].
  apply (takes_rope _ _ _ _ (invert_takes _ _ _ _ Htk eq_refl)). by apply (takes_rope _ _ _ _ Htk).
Qed.

(** C7: a completed edit can be undone and redone: undo gives back document
    and selection as they were before the edit, redo as they were after it. *)
Theorem edit_undo_redo (b b1 : CurrentBuffer) d dirty :
  delta_base_len d = rope_len (data b) → apply_delta b d = Ok (b1, dirty) →
  ∃ b2 b3, perform_undo b1 = (b2, Some ChangeLength) ∧
    rope_bytes (data b2) = rope_bytes (data b) ∧ selection b2 = selection b ∧
    perform_redo b2 = (b3, Some ChangeLength) ∧
    rope_bytes (data b3) = rope_bytes (data b1) ∧ selection b3 = selection b1.
Proof.
  intros Hd E. unfold apply_delta in E. outcome_inv.
  pose proof (invert_takes (from_delta d) _ _ (data b) (takes_apply d _ Hd) eq_refl) as Htk.
  unfold perform_undo, perform_redo. simpl.
  eexists _, _. split; [done|]. split; [by apply (takes_rope _ _ _ _ Htk)|]. split; [done|].
  simpl. split; [done|]. split; [|done].
  apply (takes_rope _ _ _ _ (invert_takes _ _ _ _ Htk eq_refl)). by apply (takes_rope _ _ _ _ Htk).
Qed.

End undo.

(** ** Chunks, registers and the collection *)

Section files.
Context `{Profile} `{XiRopeLaws} `{FileSystemLaws}.

Lemma chunk_delta_bytes (r : Rope) at_ chunk : 0 ≤ at_ ≤ rope_len r →
  rope_bytes (rope_apply_delta r (chunk_delta at_ chunk (rope_len r))) =
    ztake at_ (rope_bytes r) ++ chunk ++ zdrop at_ (rope_bytes r).
Proof.
  intros Ha. unfold chunk_delta, rope_bytes. simpl. rewrite iv_new_spec by lia.
  rewrite delta_simple_edit_apply by (simpl; done || lia). simpl.
  rewrite tb_build_bytes, tb_push_leaf_bytes, tb_new_bytes, ztake_zslice. done.
Qed.

Lemma chunk_append_bytes (r : Rope) chunk :
  rope_bytes (rope_apply_delta r (chunk_delta (rope_len r) chunk (rope_len r))) = rope_bytes r ++ chunk.
Proof.
  pose proof (rope_len_bytes r) as Hl. pose proof (zlen_nonneg (rope_bytes r)).
  rewrite chunk_delta_bytes by lia. rewrite ztake_ge, zdrop_ge by lia. by rewrite app_nil_r.
Qed.

(** C36: as long as the buffer holds the beginning of its file, loading the
    next chunk keeps it so and makes it longer by at most the chunk size; it
    reports that nothing was loaded only when the buffer holds the whole file. *)
Theorem load_next_chunk_extends w b chunk_size p c more b' :
  path b = Some p → fs_contents w p = Some c → 0 < chunk_size →
  rope_bytes (data b) = ztake (rope_len (data b)) c →
  load_next_chunk w b chunk_size = (IoOk more, b') →
  ∃ k, 0 ≤ k ≤ chunk_size ∧ rope_len (data b') = rope_len (data b) + k ∧
    rope_bytes (data b') = ztake (rope_len (data b')) c ∧
    more = bool_decide (0 < k) ∧ (more = false → rope_bytes (data b') = c) ∧
    selection b' = selection b.
Proof.
  intros Hp Hc Hch Hpre. unfold load_next_chunk. rewrite Hp.
  destruct (fs_len w p) as [n|e]; [|done].
  set (len := rope_len (data b)) in *.
  assert (len = zlen (rope_bytes (data b))) as Hlen by apply rope_len_bytes.
  pose proof (zlen_nonneg (rope_bytes (data b))).
  destruct (fs_read_at w p len chunk_size) as [r|e] eqn:Er; [|done].
  apply fs_read_at_ok in Er as (c' & Hc' & Hr & Hrn & Hend); [|lia|lia].
  assert (c' = c) as -> by congruence. pose proof (zlen_nonneg r).
  destruct (Z.ltb_spec 0 (zlen r)); intros [= <- <-]; exists (zlen r); simpl.
  - pose proof (chunk_append_bytes (data b) r) as Happ. fold len in Happ.
    set (data' := rope_apply_delta _ _) in *. clearbody data'.
    assert (rope_len data' = len + zlen r) as Hl' by (rewrite rope_len_bytes, Happ, zlen_app; lia).
    rewrite Hl', Happ. split_and!; [lia|lia|lia| |by rewrite bool_decide_true|done|done].
    rewrite Hpre, Hr at 1. rewrite !ztake_zslice, <-zslice_app_split by lia. done.
  - fold len. split_and!; [lia|lia|lia|done|by rewrite bool_decide_false by lia| |done].
    intros _. rewrite Hpre. apply ztake_ge. lia.
Qed.

(** C37: a chunk that is loaded after an edit makes the history useless: the
    loaded bytes are not part of any delta, so the delta that undo is going to
    apply is made for a shorter document than the one it is applied to. *)
Theorem load_after_edit_breaks_undo w b d b1 dirty chunk_size b2 :
  delta_base_len d = rope_len (data b) → apply_delta b d = Ok (b1, dirty) →
  load_next_chunk w b1 chunk_size = (IoOk true, b2) →
  ∃ undo_delta sel h, undo (history b2) (data b2) (selection b2) = (Some (undo_delta, sel), h) ∧
    delta_base_len undo_delta = rope_len (data b1) ∧ rope_len (data b1) < rope_len (data b2).
Proof.
  intros Hd E Hload. unfold apply_delta in E. outcome_inv.
  unfold load_next_chunk in Hload. simpl in Hload.
  destruct (path b) as [p|]; [|done]. destruct (fs_len w p); [|done].
  destruct (fs_read_at _ _ _ _) as [r|]; [|done]. destruct (Z.ltb_spec 0 (zlen r)); [|done].
  injection Hload as <-. simpl.
  pose proof (invert_takes (from_delta d) _ _ (data b) (takes_apply d _ Hd) eq_refl) as [Hlen _].
  eexists _, _, _. split; [done|]. rewrite Hlen, !rope_len_bytes. split; [done|].
  rewrite <-!rope_len_bytes.
  rewrite (rope_len_bytes (rope_apply_delta (rope_apply_delta (data b) d) _)), chunk_append_bytes.
  rewrite zlen_app, <-rope_len_bytes. lia.
Qed.

(** Yanking stores the selected bytes, one entry per region, clipped to the
    end of the document, and changes nothing else. *)
Lemma yank_contents b reg :
  selection_ok (rope_len (data b)) (selection b) → rope_len (data b) < two63 →
  yank_selections b reg = Ok (with_registers b (<[reg :=
    (λ r, zslice (rmin r) (rmax r + 1) (rope_bytes (data b))) <$> regions (selection b)]> (registers b))).
Proof.
  intros Hok Hfit. pose proof (rope_len_bytes (data b)) as Hlen.
  pose proof (zlen_nonneg (rope_bytes (data b))).
  unfold yank_selections, rope_is_empty. change (node_len (rope_node (data b))) with (rope_len (data b)).
  destruct (Z.eqb_spec (rope_len (data b)) 0) as [E0|E0].
  - do 3 f_equal. rewrite E0 in Hlen. symmetry in Hlen. apply zlen_0 in Hlen. rewrite Hlen.
    apply list_eq. intros i. rewrite list_lookup_fmap.
    destruct (regions (selection b) !! i) as [r|] eqn:Ei; simpl.
    + rewrite zslice_ge; [apply lookup_replicate_2; by apply lookup_lt_Some in Ei|].
      pose proof (regions_range _ _ Hok r (list_elem_of_lookup_2 _ _ _ Ei)). unfold zlen. simpl. lia.
    + apply lookup_replicate_None. by apply lookup_ge_None.
  - rewrite (mapM_outcome_Ok _ (λ r, zslice (rmin r) (rmax r + 1) (rope_bytes (data b)))).
    + done.
    + intros r Hr%(regions_range _ _ Hok). rewrite iv_from_inclusive_spec by (unfold_usize; lia).
      apply slice_to_cow_bytes; unfold_usize; lia.
Qed.

(** C38: opening and deleting buffers keep a current buffer: the index stays
    within the list, deleting removes exactly the current buffer (the last one
    is replaced by an empty buffer), and opening a file adds at most one. *)
Theorem collection_always_current w (c : BuffrCollection) filename :
  collection_ok c → zlen (buf_list c) < usize_max →
  (∃ c', delete_current c = Ok c' ∧ collection_ok c' ∧
    (1 < zlen (buf_list c) →
       buf_list c' = ztake (cur_buf_index c) (buf_list c) ++ zdrop (cur_buf_index c + 1) (buf_list c))) ∧
  ∃ r c', switch_current_buffer w c filename = Ok (r, c') ∧ collection_ok c' ∧
    (buf_list c' = buf_list c ∨ ∃ b, buf_list c' = buf_list c ++ [b]).
Proof. intros Hc Hn. split; [by apply delete_current_ok|by apply switch_current_buffer_ok]. Qed.

End files.

(** ** The theorems at a concrete buffer *)

Definition sample_path : PathBuf := [102; 46; 98].
Definition sample_world : @World map_fs := {[ sample_path := [0; 1; 2; 3; 4; 5; 6; 7] ]}.
Definition sample_buffer : @CurrentBuffer ref_rope :=
  with_path (with_data buffer_default (ref_doc [0; 1; 2; 3])) (Some sample_path).
Definition sample_delta : @Delta ref_rope :=
  delta_simple_edit (mkInterval 1 2) (rope_node (ref_doc [5; 6])) 4.

Definition edited_buffer : @CurrentBuffer ref_rope :=
  match @apply_delta true ref_rope sample_buffer sample_delta with Ok (b, _) => b | _ => sample_buffer end.
Definition typed_buffer : @CurrentBuffer ref_rope :=
  match @apply_incomplete_delta true ref_rope sample_buffer sample_delta with
  | Ok (b, _) => b | _ => sample_buffer end.

Lemma typing_is_one_undo_witness : ∃ b2 b3,
  perform_undo (commit_delta typed_buffer) = (b2, Some ChangeLength) ∧
  rope_bytes (data b2) = [0; 1; 2; 3] ∧ selection b2 = selection_default ∧
  perform_redo b2 = (b3, Some ChangeLength) ∧
  rope_bytes (data b3) = rope_bytes (data typed_buffer) ∧ selection b3 = selection typed_buffer.
Proof.
  apply (@typing_is_one_undo true ref_rope ref_rope_laws sample_buffer typed_buffer); [reflexivity|].
  apply tc_once. eapply (typing_plain _ sample_delta); vm_compute; reflexivity.
Defined.

Lemma edit_undo_redo_witness : ∃ b2 b3, perform_undo edited_buffer = (b2, Some ChangeLength) ∧
  rope_bytes (data b2) = [0; 1; 2; 3] ∧ selection b2 = selection_default ∧
  perform_redo b2 = (b3, Some ChangeLength) ∧
  rope_bytes (data b3) = rope_bytes (data edited_buffer) ∧ selection b3 = selection edited_buffer.
Proof.
  apply (@edit_undo_redo true ref_rope ref_rope_laws sample_buffer edited_buffer sample_delta ChangeLength);
    vm_compute; reflexivity.
Defined.

Lemma load_next_chunk_extends_witness : ∃ k b', 0 ≤ k ≤ 3 ∧
  load_next_chunk sample_world sample_buffer 3 = (IoOk true, b') ∧
  rope_bytes (data b') = ztake (rope_len (data b')) [0; 1; 2; 3; 4; 5; 6; 7].
Proof.
  destruct (@load_next_chunk_extends ref_rope ref_rope_laws map_fs map_fs_laws sample_world sample_buffer
    3 sample_path [0; 1; 2; 3; 4; 5; 6; 7] true (load_next_chunk sample_world sample_buffer 3).2)
    as (k & Hk & _ & Hb & _); try (vm_compute; reflexivity).
  eexists k, _. split; [exact Hk|]. split; [|exact Hb]. vm_compute. reflexivity.
Defined.

Lemma load_after_edit_breaks_undo_witness : ∃ undo_delta sel h,
  undo (history (load_next_chunk sample_world edited_buffer 3).2)
       (data (load_next_chunk sample_world edited_buffer 3).2)
       (selection (load_next_chunk sample_world edited_buffer 3).2) = (Some (undo_delta, sel), h) ∧
  delta_base_len undo_delta = 5 ∧ 5 < rope_len (data (load_next_chunk sample_world edited_buffer 3).2).
Proof.
  apply (@load_after_edit_breaks_undo true ref_rope ref_rope_laws map_fs sample_world sample_buffer
    sample_delta edited_buffer ChangeLength 3); vm_compute; reflexivity.
Defined.

Lemma collection_always_current_witness : ∃ c',
  delete_current (mkCollection [sample_buffer; edited_buffer] 1) = Ok c' ∧ collection_ok c'.
Proof.
  destruct (@collection_always_current true ref_rope ref_rope_laws map_fs sample_world
    (mkCollection [sample_buffer; edited_buffer] 1) sample_path) as [(c' & Hd & Hc & _) _];
    [vm_compute; split; done|vm_compute; reflexivity|]. by exists c'.
Defined.
