(* ===== verification/DirtyBytes.v ===== *)
(** * DirtyBytes: the intervals that have to be drawn again

    [CurrentBuffer::map_selections] collects the extents of all old and new
    regions, sorts them and joins overlapping ones.  The result is a sorted
    list of disjoint intervals that covers exactly these extents. *)

From S2P Require Import Prelude Masks XiRope XiRopeRef ByteRope Selection SelectionMap.
From S2P Require Import SelectionMoves SelectionQueries SelectionExact Operations Edits History.
From S2P Require Import SelectionDelta CurrentBuffer.
From Stdlib Require Import Sorting.Sorted.
Local Open Scope Z_scope.

Definition iv_in (p : Z) (iv : Interval) : Prop := iv_start iv ≤ p < iv_end iv.
Definition covered (l : list Interval) (p : Z) : Prop := ∃ iv, iv ∈ l ∧ iv_in p iv.

(** Sorted, not empty and disjoint, from [lo] on. *)
Fixpoint ivs_from (lo : Z) (l : list Interval) : Prop :=
  match l with
  | [] => True
  | iv :: l' => lo ≤ iv_start iv < iv_end iv ∧ ivs_from (iv_end iv) l'
  end.

Lemma covered_app l1 l2 p : covered (l1 ++ l2) p ↔ covered l1 p ∨ covered l2 p.
Proof. unfold covered. setoid_rewrite elem_of_app. firstorder. Qed.

Lemma covered_cons x l p : covered (x :: l) p ↔ iv_in p x ∨ covered l p.
Proof.
  unfold covered. setoid_rewrite elem_of_cons. split.
  - intros (iv & [->|Hin] & Hp); eauto.
  - intros [Hp|(iv & Hin & Hp)]; eauto.
Qed.

Lemma covered_nil p : ¬ covered [] p.
Proof. intros (iv & Hin & _). by apply elem_of_nil in Hin. Qed.

Lemma covered_snoc l x p : covered (l ++ [x]) p ↔ covered l p ∨ iv_in p x.
Proof.
  rewrite covered_app, covered_cons. pose proof (covered_nil p). tauto.
Qed.

Lemma covered_perm l1 l2 p : l1 ≡ₚ l2 → covered l1 p ↔ covered l2 p.
Proof. intros Hp. unfold covered. by setoid_rewrite Hp. Qed.

Definition starts_le (x y : Interval) : Prop := iv_start x ≤ iv_start y.

Lemma insert_interval_perm x l : insert_interval x l ≡ₚ x :: l.
Proof.
  induction l as [|y l IH]; simpl; [done|]. destruct (_ <? _); [done|].
  rewrite IH. constructor.
Qed.

Lemma insert_interval_sorted x l : StronglySorted starts_le l → StronglySorted starts_le (insert_interval x l).
Proof.
  induction l as [|y l IH]; simpl; intros Hs.
  - repeat constructor.
  - apply StronglySorted_inv in Hs as [Hs Hy]. destruct (Z.ltb_spec (iv_start x) (iv_start y)).
    + constructor; [by constructor|]. constructor; [unfold starts_le; lia|].
      eapply List.Forall_impl; [|exact Hy]. unfold starts_le. intros z Hz. lia.
    + constructor; [by apply IH|]. apply Forall_forall. intros z Hz.
      rewrite insert_interval_perm in Hz. apply elem_of_cons in Hz as [->|Hz]; [done|].
      rewrite Forall_forall in Hy. by apply Hy.
Qed.

Lemma sort_intervals_spec l : sort_intervals l ≡ₚ l ∧ StronglySorted starts_le (sort_intervals l).
Proof.
  unfold sort_intervals.
  assert (∀ acc, StronglySorted starts_le acc →
    foldl (λ acc x, insert_interval x acc) acc l ≡ₚ acc ++ l ∧
    StronglySorted starts_le (foldl (λ acc x, insert_interval x acc) acc l)) as Hgen.
  { induction l as [|x l IH]; intros acc Ha; simpl.
    - by rewrite app_nil_r.
    - destruct (IH (insert_interval x acc) (insert_interval_sorted x acc Ha)) as [Hp Hs].
      split; [|done]. rewrite Hp, insert_interval_perm. simpl. by rewrite Permutation_middle. }
  apply (Hgen []). constructor.
Qed.

Fixpoint ivs_end (lo : Z) (l : list Interval) : Z :=
  match l with [] => lo | iv :: l' => ivs_end (iv_end iv) l' end.

Lemma ivs_from_app lo l1 l2 : ivs_from lo (l1 ++ l2) ↔ ivs_from lo l1 ∧ ivs_from (ivs_end lo l1) l2.
Proof. revert lo. induction l1 as [|x l1 IH]; intros lo; simpl; [tauto|]. rewrite IH. tauto. Qed.

Lemma ivs_end_snoc lo l x : ivs_end lo (l ++ [x]) = iv_end x.
Proof. revert lo. induction l as [|y l IH]; intros lo; simpl; [done|apply IH]. Qed.

Section merging.
Context `{Profile} `{XiRopeLaws}.

(** Joining one more interval whose start is not before the last one. *)
Lemma merge_interval_step lo acc r :
  ivs_from lo acc → iv_start r < iv_end r → lo ≤ iv_start r →
  (∀ o, last acc = Some o → iv_start o ≤ iv_start r) →
  ivs_from lo (merge_interval acc r) ∧
  (∀ p, covered (merge_interval acc r) p ↔ covered acc p ∨ iv_in p r) ∧
  (∀ o, last (merge_interval acc r) = Some o → iv_start o ≤ iv_start r).
Proof.
  intros Ha Hr Hlo Hlast. unfold merge_interval. destruct (last acc) as [l|] eqn:E.
  - apply last_snoc_removelast in E as Hacc. specialize (Hlast l eq_refl).
    set (pre := removelast acc) in *. clearbody pre. subst acc.
    apply ivs_from_app in Ha as [Hpre Hl]. simpl in Hl. rewrite iv_contains_spec.
    destruct (Z.leb_spec (iv_start l) (iv_start r)); [|lia].
    destruct (Z.ltb_spec (iv_start r) (iv_end l)); simpl.
    + rewrite iv_union_spec by lia. rewrite Z.min_l by lia. split_and!.
      * apply ivs_from_app. simpl. split; [done|]. split; [lia|done].
      * intros p. rewrite !covered_snoc. unfold iv_in. simpl.
        assert (iv_start l ≤ p < Z.max (iv_end l) (iv_end r) ↔
          iv_start l ≤ p < iv_end l ∨ iv_start r ≤ p < iv_end r) as -> by lia. tauto.
      * intros o. rewrite last_snoc. intros [= <-]. done.
    + split_and!.
      * apply ivs_from_app. rewrite ivs_end_snoc. simpl. split; [|lia].
        apply ivs_from_app. simpl. tauto.
      * intros p. apply covered_snoc.
      * intros o. rewrite last_snoc. intros [= <-]. lia.
  - apply last_None in E. subst acc. simpl. split_and!; [lia|lia|done| |].
    + intros p. rewrite covered_cons. tauto.
    + intros o [= <-]. lia.
Qed.

Lemma merge_intervals lo l acc :
  StronglySorted starts_le l → Forall (λ x, lo ≤ iv_start x < iv_end x) l →
  ivs_from lo acc → (∀ o x, last acc = Some o → x ∈ l → iv_start o ≤ iv_start x) →
  ivs_from lo (foldl merge_interval acc l) ∧
  ∀ p, covered (foldl merge_interval acc l) p ↔ covered acc p ∨ covered l p.
Proof.
  revert acc. induction l as [|x l IH]; intros acc Hs Hf Ha Hlast; simpl.
  - split; [done|]. intros p. pose proof (covered_nil p). tauto.
  - apply StronglySorted_inv in Hs as [Hs Hx]. apply Forall_cons in Hf as [Hfx Hf].
    destruct (merge_interval_step lo acc x Ha) as (Ha' & Hc' & Hl'); [lia|lia| |].
    { intros o Ho. apply (Hlast o x Ho). by left. }
    destruct (IH (merge_interval acc x) Hs Hf Ha') as [Hi Hc].
    { intros o y Ho Hy. rewrite Forall_forall in Hx. specialize (Hx y Hy). unfold starts_le in Hx.
      specialize (Hl' o Ho). lia. }
    split; [done|]. intros p. rewrite Hc, Hc', covered_cons. tauto.
Qed.

(** The whole computation on any list of intervals. *)
Lemma disjoint_cover lo l : Forall (λ x, lo ≤ iv_start x < iv_end x) l →
  ivs_from lo (foldl merge_interval [] (sort_intervals l)) ∧
  ∀ p, covered (foldl merge_interval [] (sort_intervals l)) p ↔ covered l p.
Proof.
  intros Hf. destruct (sort_intervals_spec l) as [Hp Hs].
  destruct (merge_intervals lo (sort_intervals l) [] Hs) as [Hi Hc]; [by rewrite Hp|done|done|].
  split; [done|]. intros p. rewrite Hc. pose proof (covered_nil p). rewrite (covered_perm _ _ p Hp). tauto.
Qed.

End merging.

(** ** What [map_selections] records *)

Section recording.
Context `{Profile} `{XiRopeLaws}.

(** The closure of [CurrentBuffer::map_selections]. *)
Definition record_ranges {S} (f : S → SelRegion → outcome (list SelRegion * S)) :
    S * list Interval → SelRegion → outcome (list SelRegion * (S * list Interval)) :=
  λ '(s, invalidated_ranges) region,
    let invalidated_ranges := invalidated_ranges ++ [iv_from_inclusive (rmin region) (rmax region)] in
    '(new, s) ← f s region;
    let invalidated_ranges :=
      invalidated_ranges ++ ((λ new_reg, iv_from_inclusive (rmin new_reg) (rmax new_reg)) <$> new) in
    Ok (new, (s, invalidated_ranges)).

(** The regions a closure yields for each region in turn. *)
Fixpoint run_closure {S} (f : S → SelRegion → outcome (list SelRegion * S)) (s : S)
    (rs : list SelRegion) : outcome (list (list SelRegion) * S) :=
  match rs with
  | [] => Ok ([], s)
  | r :: rs' =>
      '(new, s) ← f s r;
      '(news, s) ← run_closure f s rs';
      Ok (new :: news, s)
  end.

Definition recorded (rs : list SelRegion) (news : list (list SelRegion)) : list Interval :=
  concat (zip_with (λ r new, region_interval r :: (region_interval <$> new)) rs news).

Lemma record_ranges_eq {S} (f : S → SelRegion → outcome (list SelRegion * S)) s inv r :
  record_ranges f (s, inv) r =
    ('(new, s) ← f s r;
     Ok (new, (s, (inv ++ [region_interval r]) ++ (region_interval <$> new)))).
Proof. done. Qed.

Lemma map_loop_records {S} (f : S → SelRegion → outcome (list SelRegion * S)) m i rs s inv out nm res :
  map_loop (record_ranges f) m i rs (s, inv) out nm = Ok res →
  ∃ out' nm' s' news, res = (out', nm', (s', inv ++ recorded rs news)) ∧
    map_loop f m i rs s out nm = Ok (out', nm', s') ∧
    run_closure f s rs = Ok (news, s') ∧ length news = length rs.
Proof.
  revert i s inv out nm. induction rs as [|r rs IH]; intros i s inv out nm; cbn [map_loop run_closure].
  - intros [= <-]. exists out, nm, s, []. by rewrite app_nil_r.
  - rewrite record_ranges_eq. destruct (f s r) as [[new s1]|]; cbn [mbind outcome_bind]; [|done].
    destruct (foldM push_region out new) as [out1|]; cbn [mbind outcome_bind]; [|done].
    set (mark := if i =? m then _ else _). destruct mark as [[out2 nm2]|]; cbn [mbind outcome_bind]; [|done].
    intros Hl. apply IH in Hl as (out' & nm' & s' & news & -> & Hl & Hr & Hlen).
    exists out', nm', s', (new :: news). rewrite Hl, Hr. split; [|split; [done|split; [done|]]].
    + unfold recorded. cbn [zip_with concat app]. by rewrite <-!app_assoc.
    + simpl. by rewrite Hlen.
Qed.

Lemma map_selections_records {S} (b : CurrentBuffer) (f : S → SelRegion → outcome (list SelRegion * S)) s b' ivs s' :
  map_selections_buffer b f s = Ok (b', ChangeInPlace ivs, s') →
  ∃ sel' news, b' = with_selection b sel' ∧ map_selections (selection b) f s = Ok (sel', s') ∧
    run_closure f s (regions (selection b)) = Ok (news, s') ∧
    length news = length (regions (selection b)) ∧
    ivs = foldl merge_interval [] (sort_intervals (recorded (regions (selection b)) news)).
Proof.
  unfold map_selections_buffer. fold (record_ranges f).
  unfold map_selections at 1. intros Hm.
  destruct (map_loop (record_ranges f) _ _ _ _ _ _) as [res|] eqn:E; [|done].
  apply map_loop_records in E as (out' & nm' & s1 & news & -> & Hl & Hr & Hlen).
  cbn [mbind outcome_bind] in Hm. injection Hm as <- <- <-.
  eexists _, news. split_and!; [done| |done|done|done].
  unfold map_selections. by rewrite Hl.
Qed.

Lemma region_interval_in r p : rmax r < usize_max → iv_in p (region_interval r) ↔ in_region r p.
Proof.
  intros Hr. unfold region_interval. rewrite iv_from_inclusive_spec by (done || apply rmin_le_rmax).
  unfold iv_in, in_region. simpl. lia.
Qed.

Lemma covered_recorded rs news p : length news = length rs →
  Forall (λ r, rmax r < usize_max) rs → Forall (λ r, rmax r < usize_max) (concat news) →
  covered (recorded rs news) p ↔ ∃ r, r ∈ rs ++ concat news ∧ in_region r p.
Proof.
  unfold recorded. revert news. induction rs as [|r rs IH]; intros [|new news] Hl Hf Hn; simplify_eq/=.
  - split; [by intros ?%covered_nil|]. intros (x & Hx & _). by apply elem_of_nil in Hx.
  - apply Forall_cons in Hf as [Hr Hf]. apply Forall_app in Hn as [Hnew Hn].
    rewrite covered_cons, covered_app, (IH news) by done. rewrite region_interval_in by done.
    assert (covered (region_interval <$> new) p ↔ ∃ x, x ∈ new ∧ in_region x p) as ->.
    { unfold covered. split.
      - intros (iv & (x & -> & Hx)%list_elem_of_fmap & Hp). exists x. split; [done|].
        rewrite Forall_forall in Hnew. apply region_interval_in; [by apply Hnew|done].
      - intros (x & Hx & Hp). exists (region_interval x). split; [by apply list_elem_of_fmap_2|].
        rewrite Forall_forall in Hnew. apply region_interval_in; [by apply Hnew|done]. }
    setoid_rewrite elem_of_cons. setoid_rewrite elem_of_app. setoid_rewrite elem_of_app.
    split.
    + intros [?|[(x & ? & ?)|(x & [?|?] & ?)]]; eauto 10.
    + intros (x & [->|[?|[?|?]]] & ?); eauto 10.
Qed.

Lemma recorded_range rs news : length news = length rs →
  Forall (λ r, 0 ≤ rmin r ∧ rmax r < usize_max) (rs ++ concat news) →
  Forall (λ x, 0 ≤ iv_start x < iv_end x) (recorded rs news).
Proof.
  unfold recorded. revert news.
  assert (∀ r, 0 ≤ rmin r ∧ rmax r < usize_max →
    0 ≤ iv_start (region_interval r) < iv_end (region_interval r)) as Hone.
  { intros r Hr. pose proof (rmin_le_rmax r). unfold region_interval.
    rewrite iv_from_inclusive_spec by (done || lia). simpl. lia. }
  induction rs as [|r rs IH]; intros [|new news] Hl Hf; simplify_eq/=; [done|].
  apply Forall_cons in Hf as [Hr Hf]. apply Forall_app in Hf as [Hrs Hf].
  apply Forall_app in Hf as [Hnew Hf]. constructor; [by apply Hone|]. apply Forall_app. split.
  - apply Forall_fmap. eapply Forall_impl; [exact Hnew|]. exact Hone.
  - apply IH; [done|]. by apply Forall_app.
Qed.

(** C33: mapping a selection reports exactly what has to be drawn again: the
    reported intervals are sorted and disjoint, and a position is in one of
    them exactly when it was selected before or lies in a region that the
    closure produced. *)
Theorem dirty_intervals_exact {S} (b : CurrentBuffer) (f : S → SelRegion → outcome (list SelRegion * S))
    s b' ivs s' max_size :
  selection_ok max_size (selection b) → max_size < two63 →
  map_selections_buffer b f s = Ok (b', ChangeInPlace ivs, s') →
  ∃ news, run_closure f s (regions (selection b)) = Ok (news, s') ∧
    map_selections (selection b) f s = Ok (selection b', s') ∧
    (Forall (λ r, 0 ≤ rmin r ∧ rmax r < usize_max) (concat news) →
     ivs_from 0 ivs ∧
     ∀ p, covered ivs p ↔ ∃ r, r ∈ regions (selection b) ++ concat news ∧ in_region r p).
Proof.
  intros Hok Hmax Hm. apply map_selections_records in Hm as (sel' & news & -> & Hs & Hr & Hlen & ->).
  exists news. split; [done|]. split; [done|]. intros Hn.
  assert (Forall (λ r, 0 ≤ rmin r ∧ rmax r < usize_max) (regions (selection b))) as Hold.
  { eapply Forall_impl; [by apply selection_ok_regions|]. intros r ?. simpl in *. unfold_usize. lia. }
  destruct (disjoint_cover 0 (recorded (regions (selection b)) news)) as [Hi Hc].
  { apply recorded_range; [done|]. by apply Forall_app. }
  split; [done|]. intros p. rewrite Hc. apply covered_recorded; [done|..].
  - eapply Forall_impl; [exact Hold|]. simpl. tauto.
  - eapply Forall_impl; [exact Hn|]. simpl. tauto.
Qed.

End recording.

(** ** The theorem at a concrete buffer *)

Definition dirty_buffer : @CurrentBuffer ref_rope :=
  with_selection buffer_default (selection_of [(1, 2); (4, 4); (20, 17)] 1).

Lemma dirty_intervals_exact_witness : ∃ b' ivs,
  @map_selections_buffer true ref_rope unit dirty_buffer
    (one_region (λ r, @simple_move true r Right 16 40 1)) tt = Ok (b', ChangeInPlace ivs, tt) ∧
  ivs = [mkInterval 1 3; mkInterval 4 5; mkInterval 5 6; mkInterval 17 21; mkInterval 21 22] ∧
  ivs_from 0 ivs.
Proof.
  eexists _, _. split; [vm_compute; reflexivity|]. split; [reflexivity|].
  destruct (@dirty_intervals_exact true ref_rope ref_rope_laws unit dirty_buffer
    (one_region (λ r, @simple_move true r Right 16 40 1)) tt _ _ tt 40
    ltac:(selection_ok_compute) ltac:(vm_compute; done) ltac:(vm_compute; reflexivity))
    as (news & Hr & _ & Hi).
  apply Hi. vm_compute in Hr. injection Hr as <-. repeat constructor; vm_compute; done.
Defined.
