(* ===== verification/CopyEditor.v ===== *)
(** * CopyEditor: a buffer against an editor that keeps full copies

    The history of a buffer holds inverse deltas.  The specification is an
    editor that keeps a copy of every version of the document and of the
    selection.  Both are driven by the same list of operations, the calls the
    modes make, and stay in lock step. *)

From S2P Require Import Prelude Masks XiRope XiRopeRef ByteRope Selection SelectionMap.
From S2P Require Import SelectionMoves SelectionQueries SelectionExact Operations Edits History.
From S2P Require Import SelectionDelta CurrentBuffer BufferTheorems DirtyBytes.

(** ** Outcomes that agree *)

(** Both return, with related values, or both panic for the same reason. *)
Definition agree {A B} (R : A → B → Prop) (o : outcome A) (o' : outcome B) : Prop :=
  match o, o' with
  | Ok a, Ok b => R a b
  | Panic p, Panic q => p = q
  | _, _ => False
  end.

Lemma agree_eq {A} (o : outcome A) : agree eq o o.
Proof. by destruct o. Qed.

Lemma agree_bind {A B C D} (R : A → B → Prop) (Q : C → D → Prop) o o' k k' :
  agree R o o' → (∀ a b, R a b → agree Q (k a) (k' b)) → agree Q (o ≫= k) (o' ≫= k').
Proof. intros Ho Hk. destruct o, o'; simpl in *; try done. by apply Hk. Qed.

(** The same computation on both sides. *)
Lemma agree_same {A C D} (Q : C → D → Prop) (o : outcome A) k k' :
  (∀ a, o = Ok a → agree Q (k a) (k' a)) → agree Q (o ≫= k) (o ≫= k').
Proof. intros Hk. destruct o; simpl; [by apply Hk|done]. Qed.

Lemma bind_assoc_outcome {A B C} (o : outcome A) (f : A → outcome B) (g : B → outcome C) :
  (o ≫= f) ≫= g = (o ≫= λ a, f a ≫= g).
Proof. by destruct o. Qed.

(** ** The operations and the copying editor *)

Section operations.
Context `{Profile} `{XiRope}.

(** The calls of the modes that change a buffer's document, selection, history
    or registers. *)
Inductive BufferOp :=
  | OpEdit (final : bool) (d : Delta)
  | OpEditOffset (final : bool) (d : Delta) (caret_offset tail_offset : Z)
  | OpCommit
  | OpUndo
  | OpRedo
  | OpMap {S : Type} (f : S → SelRegion → outcome (list SelRegion * S)) (s : S)
  | OpRemove (i : Z)
  | OpRetain (i : Z)
  | OpNext (n : Z)
  | OpPrev (n : Z)
  | OpYank (reg : Z).

(** The document was replaced as a whole, as far as the caller is told. *)
Definition length_changed (d : option DirtyBytes) : bool :=
  match d with Some ChangeLength => true | _ => false end.

(** The operation on a buffer. *)
Definition run_op (b : CurrentBuffer) (op : BufferOp) : outcome (CurrentBuffer * bool) :=
  match op with
  | OpEdit final d =>
      '(b, dirty) ← (if final then apply_delta b d else apply_incomplete_delta b d);
      Ok (b, length_changed (Some dirty))
  | OpEditOffset final d c t =>
      '(b, dirty) ← (if final then apply_delta_offset_carets b d c t
                     else apply_incomplete_delta_offset_carets b d c t);
      Ok (b, length_changed (Some dirty))
  | OpCommit => Ok (commit_delta b, false)
  | OpUndo => let '(b, dirty) := perform_undo b in Ok (b, length_changed dirty)
  | OpRedo => let '(b, dirty) := perform_redo b in Ok (b, length_changed dirty)
  | OpMap f s => '(b, dirty, _) ← map_selections_buffer b f s; Ok (b, length_changed (Some dirty))
  | OpRemove i => '(b, dirty) ← remove_selection b i; Ok (b, length_changed (Some dirty))
  | OpRetain i => '(b, dirty) ← retain_selection b i; Ok (b, length_changed (Some dirty))
  | OpNext n => '(b, dirty) ← buffer_select_next b n; Ok (b, length_changed (Some dirty))
  | OpPrev n => '(b, dirty) ← buffer_select_prev b n; Ok (b, length_changed (Some dirty))
  | OpYank reg => b ← yank_selections b reg; Ok (b, false)
  end.

(** An editor that keeps a full copy of every version of the document. *)
Record CopyEditor := mkCopyEditor {
  ce_doc : bytes;
  ce_sel : Selection;
  ce_registers : gmap Z (list bytes);
  ce_versions : Snapshots;
}.

(** What a delta makes of a document. *)
Definition delta_doc (d : Delta) (doc : bytes) : bytes :=
  node_bytes (delta_apply d (tb_build (tb_push_leaf tb_new doc))).

Definition copy_edit (c : CopyEditor) (final : bool) (d : Delta) (sel : Selection) : CopyEditor :=
  mkCopyEditor (delta_doc d (ce_doc c)) sel (ce_registers c)
    ((if final then snap_final else snap_partial) (ce_versions c) (ce_doc c) (ce_sel c)).

Definition copy_select (c : CopyEditor) (sel : Selection) : CopyEditor :=
  mkCopyEditor (ce_doc c) sel (ce_registers c) (ce_versions c).

(** Undo and redo put back a copy, or do nothing when there is none. *)
Definition copy_restore (c : CopyEditor) (r : option (bytes * Selection) * Snapshots) : CopyEditor * bool :=
  match r with
  | (Some (doc, sel), v) => (mkCopyEditor doc sel (ce_registers c) v, true)
  | (None, _) => (c, false)
  end.

(** The operation on the copying editor. *)
Definition copy_op (c : CopyEditor) (op : BufferOp) : outcome (CopyEditor * bool) :=
  match op with
  | OpEdit final d =>
      sel ← selection_apply_delta (ce_sel c) d (zlen (ce_doc c));
      Ok (copy_edit c final d sel, true)
  | OpEditOffset final d caret_offset tail_offset =>
      sel ← selection_apply_delta_offset_carets (ce_sel c) d caret_offset tail_offset (zlen (ce_doc c));
      Ok (copy_edit c final d sel, true)
  | OpCommit => Ok (mkCopyEditor (ce_doc c) (ce_sel c) (ce_registers c) (snap_commit (ce_versions c)), false)
  | OpUndo => Ok (copy_restore c (snap_undo (ce_versions c) (ce_doc c) (ce_sel c)))
  | OpRedo => Ok (copy_restore c (snap_redo (ce_versions c) (ce_doc c) (ce_sel c)))
  | OpMap f s => '(sel, _) ← map_selections (ce_sel c) f s; Ok (copy_select c sel, false)
  | OpRemove i =>
      i ← urem i (selection_len (ce_sel c)); sel ← remove (ce_sel c) i; Ok (copy_select c sel, false)
  | OpRetain i =>
      i ← urem i (selection_len (ce_sel c)); sel ← retain (ce_sel c) i; Ok (copy_select c sel, false)
  | OpNext n => sel ← select_next (ce_sel c) n; Ok (copy_select c sel, false)
  | OpPrev n => sel ← select_prev (ce_sel c) n; Ok (copy_select c sel, false)
  | OpYank reg =>
      Ok (mkCopyEditor (ce_doc c) (ce_sel c)
            (<[reg := (λ r, zslice (rmin r) (rmax r + 1) (ce_doc c)) <$> regions (ce_sel c)]> (ce_registers c))
            (ce_versions c), false)
  end.

(** A list of operations, with the answer of each. *)
Fixpoint run_all {A} (step : A → BufferOp → outcome (A * bool)) (a : A) (ops : list BufferOp) :
    outcome (A * list bool) :=
  match ops with
  | [] => Ok (a, [])
  | op :: ops' => '(a, r) ← step a op; '(a, rs) ← run_all step a ops'; Ok (a, r :: rs)
  end.

(** When a mode makes a call: deltas are made for the document as it is, final
    edits, undo and redo happen only when no edits are pending, and what is
    yanked lies in the document. *)
Definition op_allowed (c : CopyEditor) (op : BufferOp) : Prop :=
  match op with
  | OpEdit final d | OpEditOffset final d _ _ =>
      delta_base_len d = zlen (ce_doc c) ∧ (final = true → sn_partial (ce_versions c) = None)
  | OpUndo | OpRedo => sn_partial (ce_versions c) = None
  | OpYank _ => selection_ok (zlen (ce_doc c)) (ce_sel c) ∧ zlen (ce_doc c) < two63
  | _ => True
  end.

Fixpoint all_allowed (c : CopyEditor) (ops : list BufferOp) : Prop :=
  match ops with
  | [] => True
  | op :: ops' => op_allowed c op ∧ ∀ c' r, copy_op c op = Ok (c', r) → all_allowed c' ops'
  end.

End operations.

(** ** Lock step *)

Section lockstep.
Context `{Profile} `{XiRopeLaws}.

Record refines (b : CurrentBuffer) (c : CopyEditor) : Prop := {
  ref_bytes : rope_bytes (data b) = ce_doc c;
  ref_selection : selection b = ce_sel c;
  ref_registers : registers b = ce_registers c;
  ref_history : represents (history b) (ce_doc c) (ce_versions c);
}.

(** The new states are related and the answers are the same. *)
Definition in_step {A} (x : CurrentBuffer * A) (y : CopyEditor * A) : Prop := refines x.1 y.1 ∧ x.2 = y.2.

Lemma delta_doc_rope d (r : Rope) : rope_bytes (rope_apply_delta r d) = delta_doc d (rope_bytes r).
Proof.
  apply delta_apply_bytes. by rewrite tb_build_bytes, tb_push_leaf_bytes, tb_new_bytes.
Qed.

(** An edit, with whatever selection follows it. *)
Lemma refines_edit b c d final sel : refines b c → op_allowed c (OpEdit final d) →
  refines (with_selection (apply_delta_to_current_buffer b d final) sel) (copy_edit c final d sel).
Proof.
  intros [Hdoc Hsel Hreg Hrep] [Hd Hfin]. destruct c as [doc csel creg v]. simpl in *. subst.
  rewrite <-rope_len_bytes in Hd. split; simpl; [apply delta_doc_rope|done|done|].
  rewrite <-delta_doc_rope. destruct final; [apply represents_final|apply represents_partial]; auto.
Qed.

Lemma refines_select b c sel : refines b c → refines (with_selection b sel) (copy_select c sel).
Proof. intros [Hdoc Hsel Hreg Hrep]. by split. Qed.

Lemma step_undo b c : refines b c → op_allowed c OpUndo → agree in_step (run_op b OpUndo) (copy_op c OpUndo).
Proof.
  intros [Hdoc Hsel Hreg Hrep] Hp. destruct c as [doc csel creg v]. simpl in *. subst.
  pose proof (represents_undo (history b) (data b) v (selection b) Hp Hrep) as Hu. unfold perform_undo.
  destruct (undo _ _ _) as [[[d old]|] h'], (snap_undo _ _ _) as [[[l old']|] v'] eqn:E; simpl; try done.
  - destruct Hu as (-> & Hl & Hrep'). split; [by split|done].
  - split; [|done]. split; simpl; try done. unfold snap_undo in E. destruct (sn_undo v); [|done].
    by injection E as <-.
Qed.

Lemma step_redo b c : refines b c → op_allowed c OpRedo → agree in_step (run_op b OpRedo) (copy_op c OpRedo).
Proof.
  intros [Hdoc Hsel Hreg Hrep] Hp. destruct c as [doc csel creg v]. simpl in *. subst.
  pose proof (represents_redo (history b) (data b) v (selection b) Hp Hrep) as Hu. unfold perform_redo.
  destruct (redo _ _ _) as [[[d old]|] h'], (snap_redo _ _ _) as [[[l old']|] v'] eqn:E; simpl; try done.
  - destruct Hu as (-> & Hl & Hrep'). split; [by split|done].
  - split; [|done]. split; simpl; try done. unfold snap_redo in E. destruct (sn_redo v); [|done].
    by injection E as <-.
Qed.

(** Recording the invalidated ranges does not change what a closure does. *)
Lemma map_loop_recorded {S} (f : S → SelRegion → outcome (list SelRegion * S)) m i rs s inv out nm :
  agree (λ x y, x.1 = y.1) (map_loop (record_ranges f) m i rs (s, inv) out nm) (map_loop f m i rs s out nm).
Proof.
  revert i s inv out nm. induction rs as [|r rs IH]; intros i s inv out nm; cbn [map_loop]; [done|].
  rewrite record_ranges_eq. destruct (f s r) as [[new s1]|]; cbn [mbind outcome_bind]; [|done].
  apply agree_same. intros out1 _. apply agree_same. intros [out2 nm2] _. apply IH.
Qed.

Lemma step_map {S} b c (f : S → SelRegion → outcome (list SelRegion * S)) s : refines b c →
  agree in_step (run_op b (OpMap f s)) (copy_op c (OpMap f s)).
Proof.
  intros Hr. pose proof (ref_selection _ _ Hr) as Hsel. cbn [run_op copy_op]. unfold map_selections_buffer.
  fold (record_ranges f). rewrite Hsel. unfold map_selections.
  pose proof (map_loop_recorded f (main_selection (ce_sel c)) 0 (regions (ce_sel c)) s [] [] 0) as Hl.
  destruct (map_loop (record_ranges f) _ _ _ _ _ _) as [[[o n] [s1 ivs]]|], (map_loop f _ _ _ _ _ _) as [[[o' n'] s2]|];
    simpl in *; try done.
  injection Hl as <- <-. split; [by apply refines_select|done].
Qed.

(** Cycling through the regions leaves a main region. *)
Lemma vec_update_index {A} (l l' : list A) i f : vec_update l i f = Ok l' → ∃ x, vec_index l' i = Ok x.
Proof.
  unfold vec_update. intros E. outcome_inv. match goal with Hi : vec_index l i = Ok _ |- _ => rename Hi into Hx end.
  apply vec_index_Ok, zlookup_Some in Hx as [Hi _]. eexists. apply vec_index_Ok. unfold zlookup.
  rewrite (proj2 (Z.ltb_ge _ 0)) by lia. apply list_lookup_insert_eq. unfold zlen in Hi. lia.
Qed.

Lemma select_next_main sel n sel' : select_next sel n = Ok sel' → ∃ r, main_region sel' = Ok r.
Proof. unfold select_next. intros E. outcome_inv. by eapply vec_update_index. Qed.
Lemma select_prev_main sel n sel' : select_prev sel n = Ok sel' → ∃ r, main_region sel' = Ok r.
Proof. unfold select_prev. intros E. outcome_inv. by eapply vec_update_index. Qed.

(** Switching the main region, by a function that needs one and leaves one. *)
Lemma step_switch b c (f : Selection → outcome Selection) : refines b c →
  (∀ p, main_region (ce_sel c) = Panic p → f (ce_sel c) = Panic p) →
  (∀ sel, f (ce_sel c) = Ok sel → ∃ r, main_region sel = Ok r) →
  agree in_step ('(b, dirty) ← switch_main_sel b f; Ok (b, length_changed (Some dirty)))
    (sel ← f (ce_sel c); Ok (copy_select c sel, false)).
Proof.
  intros Hr Hold Hnew. pose proof (ref_selection _ _ Hr) as Hsel. unfold switch_main_sel. rewrite Hsel.
  destruct (main_region (ce_sel c)) as [r|p]; [|by rewrite (Hold p)]. cbn [mbind outcome_bind].
  destruct (f (ce_sel c)) as [sel|p]; cbn [mbind outcome_bind]; [|done].
  destruct (Hnew sel) as [r' ->]; [done|]. cbn [mbind outcome_bind]. split; [by apply refines_select|done].
Qed.

Lemma step_modify b c (f : Selection → outcome Selection) : refines b c →
  agree in_step ('(b, dirty) ← modify_sels_in_place b f; Ok (b, length_changed (Some dirty)))
    (sel ← f (ce_sel c); Ok (copy_select c sel, false)).
Proof.
  intros Hr. unfold modify_sels_in_place. rewrite (ref_selection _ _ Hr).
  destruct (f (ce_sel c)); cbn [mbind outcome_bind]; [|done]. split; [by apply refines_select|done].
Qed.

Lemma main_region_panic sel p (g : SelRegion → SelRegion) : main_region sel = Panic p →
  vec_update (regions sel) (main_selection sel) g = Panic p.
Proof. unfold main_region, vec_update. by intros ->. Qed.

Lemma step_agrees b c op : refines b c → op_allowed c op → agree in_step (run_op b op) (copy_op c op).
Proof.
  intros Hr Hop. pose proof (ref_bytes _ _ Hr) as Hdoc. pose proof (ref_selection _ _ Hr) as Hsel.
  assert (rope_len (data b) = zlen (ce_doc c)) as Hlen by (by rewrite rope_len_bytes, Hdoc).
  destruct op as [final d|final d co to| | | |S f s|i|i|n|n|reg].
  - cbn [run_op copy_op]. unfold apply_delta, apply_incomplete_delta. rewrite Hlen.
    destruct final; cbn [selection with_dirty with_data with_history apply_delta_to_current_buffer]; rewrite Hsel;
      (destruct (selection_apply_delta _ _ _); cbn [mbind outcome_bind]; [|done]);
      (split; [by apply refines_edit|done]).
  - cbn [run_op copy_op]. unfold apply_delta_offset_carets, apply_incomplete_delta_offset_carets. rewrite Hlen.
    destruct final; cbn [selection with_dirty with_data with_history apply_delta_to_current_buffer]; rewrite Hsel;
      (destruct (selection_apply_delta_offset_carets _ _ _ _ _); cbn [mbind outcome_bind]; [|done]);
      (split; [by apply refines_edit|done]).
  - destruct Hr as [? ? ? Hrep]. split; [|done]. split; try done. by apply represents_commit.
  - by apply step_undo.
  - by apply step_redo.
  - by apply step_map.
  - cbn [copy_op]. rewrite <-bind_assoc_outcome. by apply step_modify.
  - cbn [copy_op]. rewrite <-bind_assoc_outcome. by apply step_modify.
  - apply (step_switch b c (λ sel, select_next sel n)); [done| |by intros; eapply select_next_main].
    intros p Hp. unfold select_next. by rewrite (main_region_panic _ p).
  - apply (step_switch b c (λ sel, select_prev sel n)); [done| |by intros; eapply select_prev_main].
    intros p Hp. unfold select_prev. by rewrite (main_region_panic _ p).
  - destruct Hop as [Hok Hfit]. cbn [run_op copy_op]. rewrite yank_contents by (by rewrite ?Hlen, ?Hsel).
    cbn [mbind outcome_bind]. split; [|done]. destruct Hr as [? ? Hreg ?].
    split; cbn [fst]; try done. simpl. by rewrite Hdoc, Hsel, Hreg.
Qed.

Lemma all_agree ops b c : refines b c → all_allowed c ops →
  agree in_step (run_all run_op b ops) (run_all copy_op c ops).
Proof.
  revert b c. induction ops as [|op ops IH]; intros b c Hr Hops; cbn [run_all]; [by split|].
  destruct Hops as [Hop Hops]. pose proof (step_agrees b c op Hr Hop) as Hs.
  destruct (run_op b op) as [[b1 r]|], (copy_op c op) as [[c1 r']|] eqn:Ec; simpl in Hs; try done.
  destruct Hs as [Hr1 Heq]. simpl in Heq. subst r'. cbn [mbind outcome_bind].
  eapply agree_bind; [by apply IH; [exact Hr1|eapply Hops]|]. intros [b2 rs] [c2 rs'] [Hr2 Hrs].
  simpl in *. by subst.
Qed.

(** C1: a buffer, whose history holds only deltas, is in lock step with an
    editor that keeps a full copy of every version: driven by the same list of
    edits, pending edits, commits, undos, redos, selection changes and yanks,
    both panic for the same reason, or both return with the same answers and
    then have the same document, the same selection and the same registers.
    Deltas have to be made for the document they are applied to, and final
    edits, undo and redo have to come when no edits are pending. *)
Theorem buffer_refines_copies (b0 : CurrentBuffer) ops :
  let c0 := mkCopyEditor (rope_bytes (data b0)) (selection b0) (registers b0) snapshots_new in
  history b0 = history_new → all_allowed c0 ops →
  match run_all run_op b0 ops, run_all copy_op c0 ops with
  | Ok (b, answers), Ok (c, answers') =>
      rope_bytes (data b) = ce_doc c ∧ selection b = ce_sel c ∧ registers b = ce_registers c ∧
      answers = answers'
  | Panic p, Panic q => p = q
  | _, _ => False
  end.
Proof.
  intros c0 Hnew Hops. assert (refines b0 c0) as Href.
  { split; [done..|]. rewrite Hnew. apply represents_new. }
  pose proof (all_agree ops b0 c0 Href Hops) as Ha.
  destruct (run_all run_op b0 ops) as [[b rs]|], (run_all copy_op c0 ops) as [[c rs']|]; simpl in Ha; try done.
  destruct Ha as [[? ? ? _] ?]. done.
Qed.

End lockstep.

(** ** The theorem at a concrete buffer *)

Definition sample_ops : list (@BufferOp ref_rope) :=
  [OpEdit true sample_delta; OpYank 0; OpUndo; OpUndo; OpRedo].

Lemma buffer_refines_copies_witness :
  match run_all (@run_op true ref_rope) sample_buffer sample_ops with
  | Ok (b, answers) => rope_bytes (data b) = [0; 5; 6; 2; 3] ∧ answers = [true; false; true; false; true]
  | Panic _ => False
  end.
Proof.
  pose proof (@buffer_refines_copies true ref_rope ref_rope_laws sample_buffer sample_ops eq_refl) as Hs.
  destruct (run_all (@run_op true ref_rope) sample_buffer sample_ops) as [[b answers]|p] eqn:E;
    [|by vm_compute in E].
  match type of Hs with _ → match run_all _ ?c _ with _ => _ end => set (c0 := c) in * end.
  destruct (run_all (@copy_op true ref_rope) c0 sample_ops) as [[c answers']|] eqn:Ec; [|by vm_compute in Ec].
  assert (ce_doc c = [0; 5; 6; 2; 3] ∧ answers' = [true; false; true; false; true]) as [Hdoc Hans].
  { vm_compute in Ec. injection Ec as <- <-. done. }
  destruct Hs as (Hb & _ & _ & ->); [|by rewrite Hb, Hdoc].
  clear. unfold sample_ops.
  repeat first
    [ exact I
    | split; [|let E := fresh in intros ? ? E; vm_compute in E; injection E as <- <-] ].
  - split; vm_compute; done.
  - split; [selection_ok_compute|vm_compute; done].
  - vm_compute. done.
  - vm_compute. done.
  - vm_compute. done.
Defined.
