(* ===== verification/Text.v ===== *)
(** * Text: characters and numbers as text

    What the sources use of the standard library to print and to read
    characters: UTF-8 and UTF-16, hexadecimal digits, the formatting of
    integers.  Text is its UTF-8 bytes. *)

From S2P Require Import Prelude.
From Stdlib Require Import Ascii String.
Local Open Scope Z_scope.

(** The UTF-8 bytes of a string literal. *)
Fixpoint str (s : string) : bytes :=
  match s with
  | EmptyString => []
  | String a s' => Z.of_N (N_of_ascii a) :: str s'
  end.

(** [char::len_utf8] and [char::encode_utf8] *)
Definition len_utf8 (c : Z) : Z :=
  if c <? 128 then 1 else if c <? 2048 then 2 else if c <? 65536 then 3 else 4.
Definition encode_utf8 (c : Z) : bytes :=
  if c <? 128 then [c]
  else if c <? 2048 then [192 + c / 64; 128 + c mod 64]
  else if c <? 65536 then [224 + c / 4096; 128 + (c / 64) mod 64; 128 + c mod 64]
  else [240 + c / 262144; 128 + (c / 4096) mod 64; 128 + (c / 64) mod 64; 128 + c mod 64].

(** [char::to_digit(16)], defined exactly for [char::is_ascii_hexdigit]. *)
Definition to_digit16 (c : Z) : option Z :=
  if (48 <=? c) && (c <=? 57) then Some (c - 48)
  else if (97 <=? c) && (c <=? 102) then Some (c - 87)
  else if (65 <=? c) && (c <=? 70) then Some (c - 55)
  else None.
Definition is_ascii_hexdigit (c : Z) : bool :=
  match to_digit16 c with Some _ => true | None => false end.

(** [format!("{}")] and [format!("{:x}")] of a [usize]: at most 20 digits. *)
Definition digit_char (d : Z) : Z := if d <? 10 then 48 + d else 87 + d.
Fixpoint fmt_radix (fuel : nat) (base n : Z) (acc : bytes) : bytes :=
  match fuel with
  | O => acc
  | S fuel' =>
      let acc := digit_char (n mod base) :: acc in
      if n <? base then acc else fmt_radix fuel' base (n / base) acc
  end.
Definition fmt_dec (n : Z) : bytes := fmt_radix 20 10 n [].
Definition fmt_hex (n : Z) : bytes := fmt_radix 20 16 n [].
(** [format!("{:02x}")] of a byte *)
Definition fmt_hex2 (b : Z) : bytes := [digit_char (b / 16); digit_char (b mod 16)].

(** [format!("{:08b}")] of a byte *)
Definition fmt_bin8 (b : Z) : bytes :=
  (λ i, digit_char (Z.shiftr b i mod 2)) <$> [7; 6; 5; 4; 3; 2; 1; 0].
(** [format!("{}")] of a signed integer *)
Definition fmt_signed (n : Z) : bytes := if n <? 0 then 45 :: fmt_dec (- n) else fmt_dec n.

(** *** Classes of characters and bytes *)

Definition is_ascii (c : Z) : bool := c <? 128.
Definition is_ascii_graphic (c : Z) : bool := (33 <=? c) && (c <=? 126).
(** Space, tab, line feed, form feed and carriage return. *)
Definition is_ascii_whitespace (c : Z) : bool :=
  (c =? 32) || (c =? 9) || (c =? 10) || (c =? 12) || (c =? 13).

(** A [char]: a Unicode scalar value. *)
Definition is_scalar (c : Z) : bool := (0 <=? c) && (c <? 1114112) && negb ((55296 <=? c) && (c <? 57344)).

(** *** Decoding *)

(** [iNN::from_be_bytes] and [uNN::from_be_bytes] *)
Definition from_be_bytes (l : bytes) : Z := foldl (λ n b, n * 256 + b) 0 l.
Definition as_signed (bits n : Z) : Z := if n <? 2 ^ (bits - 1) then n else n - 2 ^ bits.

Definition in_bounds (lo hi b : Z) : bool := (lo <=? b) && (b <=? hi).

(** [String::from_utf8]: the characters, or nothing for malformed text.  The
    bounds of the second byte exclude overlong forms, surrogates and values
    that are too large. *)
Fixpoint decode_utf8 (l : bytes) : option (list Z) :=
  match l with
  | [] => Some []
  | b0 :: l1 =>
      if b0 <? 128 then cons b0 <$> decode_utf8 l1
      else if in_bounds 194 223 b0 then
        match l1 with
        | b1 :: l2 =>
            if in_bounds 128 191 b1
            then cons ((b0 - 192) * 64 + (b1 - 128)) <$> decode_utf8 l2
            else None
        | [] => None
        end
      else if in_bounds 224 239 b0 then
        match l1 with
        | b1 :: b2 :: l3 =>
            if in_bounds (if b0 =? 224 then 160 else 128) (if b0 =? 237 then 159 else 191) b1
               && in_bounds 128 191 b2
            then cons ((b0 - 224) * 4096 + (b1 - 128) * 64 + (b2 - 128)) <$> decode_utf8 l3
            else None
        | _ => None
        end
      else if in_bounds 240 244 b0 then
        match l1 with
        | b1 :: b2 :: b3 :: l4 =>
            if in_bounds (if b0 =? 240 then 144 else 128) (if b0 =? 244 then 143 else 191) b1
               && in_bounds 128 191 b2 && in_bounds 128 191 b3
            then cons ((b0 - 240) * 262144 + (b1 - 128) * 4096 + (b2 - 128) * 64 + (b3 - 128))
                   <$> decode_utf8 l4
            else None
        | _ => None
        end
      else None
  end.

(** The UTF-8 bytes of the replacement character U+FFFD. *)
Definition replacement : bytes := [239; 191; 189].

(** [Path::display] and [String::from_utf8_lossy]: every maximal beginning of a
    malformed character, or else one byte, becomes the replacement character. *)
Fixpoint utf8_lossy (l : bytes) : bytes :=
  match l with
  | [] => []
  | b0 :: l1 =>
      if b0 <? 128 then b0 :: utf8_lossy l1
      else if in_bounds 194 223 b0 then
        match l1 with
        | b1 :: l2 =>
            if in_bounds 128 191 b1 then b0 :: b1 :: utf8_lossy l2 else replacement ++ utf8_lossy l1
        | [] => replacement
        end
      else if in_bounds 224 239 b0 then
        match l1 with
        | b1 :: l2 =>
            if in_bounds (if b0 =? 224 then 160 else 128) (if b0 =? 237 then 159 else 191) b1 then
              match l2 with
              | b2 :: l3 =>
                  if in_bounds 128 191 b2 then b0 :: b1 :: b2 :: utf8_lossy l3
                  else replacement ++ utf8_lossy l2
              | [] => replacement
              end
            else replacement ++ utf8_lossy l1
        | [] => replacement
        end
      else if in_bounds 240 244 b0 then
        match l1 with
        | b1 :: l2 =>
            if in_bounds (if b0 =? 240 then 144 else 128) (if b0 =? 244 then 143 else 191) b1 then
              match l2 with
              | b2 :: l3 =>
                  if in_bounds 128 191 b2 then
                    match l3 with
                    | b3 :: l4 =>
                        if in_bounds 128 191 b3 then b0 :: b1 :: b2 :: b3 :: utf8_lossy l4
                        else replacement ++ utf8_lossy l3
                    | [] => replacement
                    end
                  else replacement ++ utf8_lossy l2
              | [] => replacement
              end
            else replacement ++ utf8_lossy l1
        | [] => replacement
        end
      else replacement ++ utf8_lossy l1
  end.

(** The number of characters of a text: the bytes that start one. *)
Definition is_continuation (b : Z) : bool := in_bounds 128 191 b.
Definition char_count (l : bytes) : Z := zlen (filter (λ b, is_continuation b = false) l).

(** [String::from_utf16] *)
Fixpoint decode_utf16 (l : list Z) : option (list Z) :=
  match l with
  | [] => Some []
  | u0 :: l1 =>
      if negb (in_bounds 55296 57343 u0) then cons u0 <$> decode_utf16 l1
      else if in_bounds 55296 56319 u0 then
        match l1 with
        | u1 :: l2 =>
            if in_bounds 56320 57343 u1
            then cons (65536 + (u0 - 55296) * 1024 + (u1 - 56320)) <$> decode_utf16 l2
            else None
        | [] => None
        end
      else None
  end.

(** [char::encode_utf16] *)
Definition encode_utf16 (c : Z) : list Z :=
  if c <? 65536 then [c] else [55296 + (c - 65536) / 1024; 56320 + (c - 65536) mod 1024].

(** The two bytes of a 16-bit unit, most significant first. *)
Definition be_bytes16 (u : Z) : bytes := [u / 256; u mod 256].

(** ** Lemmas *)

Lemma to_digit16_range c d : to_digit16 c = Some d → 0 ≤ d < 16.
Proof. unfold to_digit16. intros Hd. zcases; simplify_eq; lia. Qed.

Lemma zlen_encode_utf8 c : zlen (encode_utf8 c) = len_utf8 c.
Proof. unfold encode_utf8, len_utf8. zcases; done. Qed.

(** Case analysis on [is_scalar] and on the bounds of bytes. *)
Ltac bounds_cases :=
  unfold is_scalar, in_bounds in *;
  repeat match goal with
  | |- context [?a =? ?b] => destruct (Z.eqb_spec a b); try lia
  | |- context [?a <=? ?b] => destruct (Z.leb_spec a b); try lia
  | |- context [?a <? ?b] => destruct (Z.ltb_spec a b); try lia
  end; cbn [andb orb negb] in *.

Lemma is_scalar_spec c : is_scalar c = true ↔ (0 ≤ c < 55296 ∨ 57344 ≤ c < 1114112).
Proof. unfold is_scalar. lia. Qed.

(** ** Counting characters *)

Lemma char_count_app l1 l2 : char_count (l1 ++ l2) = char_count l1 + char_count l2.
Proof. unfold char_count. by rewrite filter_app, zlen_app. Qed.

Lemma char_count_cons b l : char_count (b :: l) = (if is_continuation b then 0 else 1) + char_count l.
Proof.
  unfold char_count. rewrite filter_cons. destruct (is_continuation b); simpl; [done|]. by rewrite zlen_cons.
Qed.

Lemma char_count_range l : 0 ≤ char_count l ≤ zlen l.
Proof.
  induction l as [|b l IH]; [done|]. rewrite char_count_cons, zlen_cons. destruct (is_continuation b); lia.
Qed.

(** In an ASCII text every byte is a character. *)
Definition ascii_text (l : bytes) : Prop := Forall (λ b, 0 ≤ b < 128) l.

Lemma ascii_char_count l : ascii_text l → char_count l = zlen l.
Proof.
  induction 1 as [|b l Hb _ IH]; [done|]. rewrite char_count_cons, zlen_cons, IH.
  unfold is_continuation, in_bounds. zcases; lia.
Qed.

Lemma ascii_app l1 l2 : ascii_text l1 → ascii_text l2 → ascii_text (l1 ++ l2).
Proof. intros. by apply Forall_app. Qed.

Lemma ascii_digit d : 0 ≤ d < 16 → 0 ≤ digit_char d < 128.
Proof. unfold digit_char. intros. zcases. Qed.

Lemma ascii_radix fuel base n acc : 0 < base ≤ 16 → ascii_text acc → ascii_text (fmt_radix fuel base n acc).
Proof.
  intros Hb. revert n acc. induction fuel as [|fuel IH]; intros n acc Ha; cbn [fmt_radix]; [done|].
  pose proof (Z.mod_pos_bound n base ltac:(lia)).
  assert (ascii_text (digit_char (n mod base) :: acc)) by (constructor; [apply ascii_digit; lia|done]).
  destruct (n <? base); [done|by apply IH].
Qed.

Lemma fmt_dec_ascii n : ascii_text (fmt_dec n).
Proof. apply ascii_radix; [lia|constructor]. Qed.
Lemma fmt_hex_ascii n : ascii_text (fmt_hex n).
Proof. apply ascii_radix; [lia|constructor]. Qed.

(** ASCII of a literal. *)
Ltac ascii_literal := apply (bool_decide_unpack _); vm_compute; reflexivity.

(** The number of characters is the number of decoded ones. *)
Lemma decode_char_count l cs : decode_utf8 l = Some cs → Forall is_u8 l → char_count l = zlen cs.
Proof.
  remember (List.length l) as n eqn:Hn. revert l cs Hn. induction (lt_wf n) as [n _ IH]. intros l cs -> Hd Hu.
  assert (∀ l' k cs', (List.length l' < List.length l)%nat → Forall is_u8 l' → cons k <$> decode_utf8 l' = Some cs' →
    1 + char_count l' = zlen cs') as Hrec.
  { intros l' k cs' Hlen Hu' Hd'. destruct (decode_utf8 l') as [cs''|] eqn:E; [|done]. injection Hd' as <-.
    rewrite zlen_cons, (IH _ Hlen l' cs''); [lia|done..]. }
  destruct l as [|b0 l1]; [by injection Hd as <-|]. apply Forall_cons in Hu as [H0 Hu].
  cbn [decode_utf8] in Hd. rewrite char_count_cons. unfold is_continuation, in_bounds in *. unfold is_u8 in H0.
  destruct (Z.ltb_spec b0 128); [rewrite <-(Hrec l1 _ _ ltac:(simpl; lia) Hu Hd); zcases; lia|].
  destruct ((194 <=? b0) && (b0 <=? 223)) eqn:E2.
  { destruct l1 as [|b1 l2]; [done|]. destruct ((128 <=? b1) && (b1 <=? 191)) eqn:B1; [|done].
    apply Forall_cons in Hu as [_ Hu]. rewrite <-(Hrec l2 _ _ ltac:(simpl; lia) Hu Hd), char_count_cons.
    unfold is_continuation, in_bounds. rewrite B1. zcases; lia. }
  destruct ((224 <=? b0) && (b0 <=? 239)) eqn:E3.
  { destruct l1 as [|b1 [|b2 l3]]; [done..|].
    destruct (_ && _) eqn:B in Hd; [|done]. apply andb_true_iff in B as [B1 B2].
    apply Forall_cons in Hu as [_ [_ Hu]%Forall_cons].
    rewrite <-(Hrec l3 _ _ ltac:(simpl; lia) Hu Hd), !char_count_cons. unfold is_continuation, in_bounds.
    rewrite B2. zcases; lia. }
  destruct ((240 <=? b0) && (b0 <=? 244)) eqn:E4; [|done].
  destruct l1 as [|b1 [|b2 [|b3 l4]]]; [done..|].
  destruct (_ && _) eqn:B in Hd; [|done]. apply andb_true_iff in B as [[B1 B2]%andb_true_iff B3].
  apply Forall_cons in Hu as [_ [_ [_ Hu]%Forall_cons]%Forall_cons].
  rewrite <-(Hrec l4 _ _ ltac:(simpl; lia) Hu Hd), !char_count_cons. unfold is_continuation, in_bounds.
  rewrite B2, B3. zcases; lia.
Qed.

(** Well-formed text is displayed as it is. *)
Lemma utf8_lossy_valid l cs : decode_utf8 l = Some cs → utf8_lossy l = l.
Proof.
  remember (List.length l) as n eqn:Hn. revert l cs Hn. induction (lt_wf n) as [n _ IH]. intros l cs -> Hd.
  assert (∀ l' k cs', (List.length l' < List.length l)%nat → cons k <$> decode_utf8 l' = Some cs' → utf8_lossy l' = l') as Hrec.
  { intros l' k cs' Hlen Hd'. destruct (decode_utf8 l') as [cs''|] eqn:E; [|done]. by apply (IH _ Hlen l' cs''). }
  destruct l as [|b0 l1]; [done|]. cbn [decode_utf8 utf8_lossy] in *.
  destruct (b0 <? 128); [by rewrite (Hrec l1 _ _ ltac:(simpl; lia) Hd)|].
  destruct (in_bounds 194 223 b0).
  { destruct l1 as [|b1 l2]; [done|]. destruct (in_bounds 128 191 b1); [|done].
    by rewrite (Hrec l2 _ _ ltac:(simpl; lia) Hd). }
  destruct (in_bounds 224 239 b0).
  { destruct l1 as [|b1 [|b2 l3]]; [done..|]. destruct (in_bounds (if b0 =? 224 then _ else _) _ b1); [|done].
    destruct (in_bounds 128 191 b2); [|done]. by rewrite (Hrec l3 _ _ ltac:(simpl; lia) Hd). }
  destruct (in_bounds 240 244 b0); [|done].
  destruct l1 as [|b1 [|b2 [|b3 l4]]]; [done..|]. destruct (in_bounds (if b0 =? 240 then _ else _) _ b1); [|done].
  destruct (in_bounds 128 191 b2); [|done]. destruct (in_bounds 128 191 b3); [|done].
  by rewrite (Hrec l4 _ _ ltac:(simpl; lia) Hd).
Qed.

Lemma decode_replacement l cs : decode_utf8 l = Some cs → is_Some (decode_utf8 (replacement ++ l)).
Proof. intros Hl. cbn. rewrite Hl. by eexists. Qed.

(** What is displayed is well formed. *)
Lemma utf8_lossy_decodes l : is_Some (decode_utf8 (utf8_lossy l)).
Proof.
  remember (List.length l) as n eqn:Hn. revert l Hn. induction (lt_wf n) as [n _ IH]. intros l ->.
  assert (∀ l', (List.length l' < List.length l)%nat → is_Some (decode_utf8 (utf8_lossy l'))) as Hrec
    by (intros l' Hlen; by apply (IH _ Hlen)).
  assert (∀ l', (List.length l' < List.length l)%nat → is_Some (decode_utf8 (replacement ++ utf8_lossy l'))) as Hrep.
  { intros l' Hlen. destruct (Hrec l' Hlen) as [cs Hcs]. by apply (decode_replacement _ cs). }
  assert (is_Some (decode_utf8 replacement)) as Hend by by eexists.
  destruct l as [|b0 l1]; [by eexists|]. cbn [utf8_lossy].
  destruct (b0 <? 128) eqn:E1.
  { cbn [decode_utf8]. rewrite E1. destruct (Hrec l1) as [cs ->]; [simpl; lia|]. by eexists. }
  destruct (in_bounds 194 223 b0) eqn:E2.
  { destruct l1 as [|b1 l2]; [done|]. destruct (in_bounds 128 191 b1) eqn:B1; [|apply Hrep; simpl; lia].
    cbn [decode_utf8]. rewrite E1, E2, B1. destruct (Hrec l2) as [cs ->]; [simpl; lia|]. by eexists. }
  destruct (in_bounds 224 239 b0) eqn:E3.
  { destruct l1 as [|b1 l2]; [done|].
    destruct (in_bounds (if b0 =? 224 then _ else _) _ b1) eqn:B1; [|apply Hrep; simpl; lia].
    destruct l2 as [|b2 l3]; [done|]. destruct (in_bounds 128 191 b2) eqn:B2; [|apply Hrep; simpl; lia].
    cbn [decode_utf8]. rewrite E1, E2, E3, B1, B2. destruct (Hrec l3) as [cs ->]; [simpl; lia|]. by eexists. }
  destruct (in_bounds 240 244 b0) eqn:E4; [|apply Hrep; simpl; lia].
  destruct l1 as [|b1 l2]; [done|].
  destruct (in_bounds (if b0 =? 240 then _ else _) _ b1) eqn:B1; [|apply Hrep; simpl; lia].
  destruct l2 as [|b2 l3]; [done|]. destruct (in_bounds 128 191 b2) eqn:B2; [|apply Hrep; simpl; lia].
  destruct l3 as [|b3 l4]; [done|]. destruct (in_bounds 128 191 b3) eqn:B3; [|apply Hrep; simpl; lia].
  cbn [decode_utf8]. rewrite E1, E2, E3, E4, B1, B2, B3. destruct (Hrec l4) as [cs ->]; [simpl; lia|]. by eexists.
Qed.
