(* ===== verification/Mode.v ===== *)
(** * Mode: the modes and their transitions, [src/src/modes/mode.rs]

    The state of every mode as one data type (the trait objects of the
    source) and the result of handling an event. *)

From S2P Require Import Prelude KeyMap CmdCount Masks XiRope XiRopeRef ByteRope Selection.
From S2P Require Import Operations History CurrentBuffer.
Local Open Scope Z_scope.

(** ** Modes *)

(** [modes::search] *)
Inductive PatternPiece :=
  | Literal (c : Z)
  | Wildcard.
(** A piece of the pattern is a byte or a wildcard. *)
Definition piece_ok (p : PatternPiece) : Prop := match p with Literal c => is_u8 c | Wildcard => True end.

#[export] Instance PatternPiece_eq_dec : EqDecision PatternPiece.
Proof. solve_decision. Defined.

Record Pattern := mkPattern { pieces : list PatternPiece }.
Definition pattern_default : Pattern := mkPattern [].

(** [modes::insert] *)
Inductive InsertionMode := IInsert | IAppend | IOverwrite.
Record Insert := mkInsert { ins_mode : InsertionMode; ins_hex : bool; ins_hex_half : option Z }.

(** [modes::replace] *)
Record Replace := mkReplace { rep_hex : bool; rep_hex_half : option Z }.

(** [modes::jumpto] *)
Record JumpTo := mkJumpTo { jump_extend : bool }.

(** [modes::command] *)
Record Command := mkCommand { command : bytes; cmd_cursor : Z }.

(** [modes::normal] and [modes::split] *)
Record Normal := mkNormal { count_state : CmdCount.State }.
Record Split := mkSplit { split_count_state : CmdCount.State }.

(** The implementations of the trait [SearchAcceptor]. *)
Inductive SearchAcceptor :=
  | AcceptSplit (s : Split)
  | AcceptCollapse.

Record Search := mkSearch {
  pattern : Pattern;
  cursor : Z;
  search_hex : bool;
  search_hex_half : option Z;
  next : option SearchAcceptor;
}.

(** The implementations of the trait [Mode]. *)
Inductive Mode :=
  | MNormal (m : Normal)
  | MInsert (m : Insert)
  | MReplace (m : Replace)
  | MJumpTo (m : JumpTo)
  | MCommand (m : Command)
  | MSearch (m : Search)
  | MSplit (m : Split)
  | MCollapse
  | MQuitting.

Inductive ModeTransition :=
  | TNone
  | NewMode (m : Mode)
  | TDirtyBytes (d : DirtyBytes)
  | ModeAndDirtyBytes (m : Mode) (d : DirtyBytes)
  | ModeAndInfo (m : Mode) (info : bytes).

Definition normal_new : Normal := mkNormal CmdCount.CNone.
Definition split_new : Split := mkSplit CmdCount.CNone.
Definition command_new : Command := mkCommand [] 0.
Definition search_new (next : SearchAcceptor) (hex : bool) : Search :=
  mkSearch pattern_default 0 hex None (Some next).

(** [fn takes_input] and [fn has_half_cursor] of the modes. *)
Definition takes_input (m : Mode) : bool := match m with MQuitting => false | _ => true end.
Definition has_half_cursor (m : Mode) : bool :=
  match m with
  | MInsert i => match ins_hex_half i with Some _ => true | None => false end
  | _ => false
  end.
