(* ===== verification/NormalMode.v ===== *)
(** * NormalMode: [src/src/modes/normal.rs]

    The key map of normal mode and what each of its actions does to the
    current buffer. *)

From S2P Require Import Prelude KeyMap CmdCount Masks XiRope XiRopeRef ByteRope Selection.
From S2P Require Import Operations History CurrentBuffer Text Mode.
From Stdlib Require Import Ascii String.
Local Open Scope char_scope.
Local Open Scope Z_scope.

Inductive Action :=
  | AMove (d : Direction)
  | AExtend (d : Direction)
  | ASplitMode
  | AJumpToMode
  | AExtendToMode
  | ACollapseMode (hex : bool)
  | ACommandMode
  | ASwapCaret
  | ACollapseSelection
  | ADelete (register : Z)
  | AYank (register : Z)
  | APaste (after : bool) (register : Z)
  | AChange (hex : bool) (register : Z)
  | AInsert (hex : bool)
  | AAppend (hex : bool)
  | AOverwrite (hex : bool)
  | ARemoveMain
  | ARetainMain
  | ASelectPrev
  | ASelectNext
  | ASelectAll
  | AReplaceMode (hex : bool)
  | AMeasure
  | AUndo
  | ARedo.

(** The register named by a double quote. *)
Definition default_register : Z := 34.

Definition default_maps : KeyMap Action := keys [
  (Plain "h", AMove Left);
  (KeyOf KLeft, AMove Left);
  (Plain "j", AMove Down);
  (KeyOf KDown, AMove Down);
  (Plain "k", AMove Up);
  (KeyOf KUp, AMove Up);
  (Plain "l", AMove Right);
  (KeyOf KRight, AMove Right);
  (Plain "H", AExtend Left);
  (Plain "J", AExtend Down);
  (Plain "K", AExtend Up);
  (Plain "L", AExtend Right);
  (Plain "g", AJumpToMode);
  (Plain "G", AExtendToMode);
  (Alt "s", ASplitMode);
  (Plain ":", ACommandMode);
  (Plain ";", ACollapseSelection);
  (Alt ";", ASwapCaret);
  (Plain "%", ASelectAll);
  (Plain " ", ARetainMain);
  (Alt " ", ARemoveMain);
  (Plain "(", ASelectPrev);
  (Plain ")", ASelectNext);
  (Plain "M", AMeasure);
  (Plain "u", AUndo);
  (Plain "U", ARedo);
  (Plain "p", APaste true default_register);
  (Plain "P", APaste false default_register);
  (Plain "d", ADelete default_register);
  (Plain "y", AYank default_register);
  (Plain "c", AChange false default_register);
  (Plain "C", AChange true default_register);
  (Plain "i", AInsert false);
  (Plain "I", AInsert true);
  (Plain "a", AAppend false);
  (Plain "A", AAppend true);
  (Plain "r", AReplaceMode false);
  (Plain "R", AReplaceMode true);
  (Plain "o", AOverwrite false);
  (Plain "O", AOverwrite true);
  (Plain "s", ACollapseMode false);
  (Plain "S", ACollapseMode true)].

Section normal.
Context `{Profile} `{XiRope}.

(** [current_buffer.map_selections] with a closure that yields one region. *)
Definition map_regions (b : CurrentBuffer) (f : SelRegion → outcome SelRegion) :
    outcome (CurrentBuffer * DirtyBytes) :=
  '(b, dirty, _) ← map_selections_buffer b (one_region f) tt; Ok (b, dirty).

Definition to_normal_dirty (r : CurrentBuffer * DirtyBytes) : ModeTransition * CurrentBuffer :=
  (ModeAndDirtyBytes (MNormal normal_new) r.2, r.1).
Definition to_dirty (r : CurrentBuffer * DirtyBytes) : ModeTransition * CurrentBuffer :=
  (TDirtyBytes r.2, r.1).

(** Movements, extensions and the other actions on the selection alone. *)
Definition select_action (self : Normal) (action : Action) (current_buffer : CurrentBuffer)
    (bytes_per_line : Z) : outcome (ModeTransition * CurrentBuffer) :=
  let count := to_count (count_state self) in
  let max_bytes := rope_len (data current_buffer) in
  match action with
  | AMove direction =>
      to_normal_dirty <$> map_regions current_buffer
        (λ region, simple_move region direction bytes_per_line max_bytes count)
  | AExtend direction =>
      to_normal_dirty <$> map_regions current_buffer
        (λ region, simple_extend region direction bytes_per_line max_bytes count)
  | ASwapCaret => to_dirty <$> map_regions current_buffer (λ region, Ok (swap_caret region))
  | ACollapseSelection => to_dirty <$> map_regions current_buffer (λ region, Ok (collapse region))
  | ARemoveMain =>
      match count_state self with
      | CSome _ count =>
          if 0 <? count then
            i ← usub count 1; to_normal_dirty <$> remove_selection current_buffer i
          else to_dirty <$> remove_selection current_buffer (main_selection (selection current_buffer))
      | CNone => to_dirty <$> remove_selection current_buffer (main_selection (selection current_buffer))
      end
  | ARetainMain =>
      match count_state self with
      | CSome _ count =>
          if 0 <? count then
            i ← usub count 1; to_normal_dirty <$> retain_selection current_buffer i
          else to_dirty <$> retain_selection current_buffer (main_selection (selection current_buffer))
      | CNone => to_dirty <$> retain_selection current_buffer (main_selection (selection current_buffer))
      end
  | ASelectNext => to_normal_dirty <$> buffer_select_next current_buffer count
  | ASelectPrev => to_normal_dirty <$> buffer_select_prev current_buffer count
  | ASelectAll =>
      sel ← select_all (selection current_buffer) max_bytes;
      Ok (TDirtyBytes (ChangeInPlace [mkInterval 0 max_bytes]), with_selection current_buffer sel)
  | _ => Panic PanicUnreachable
  end.

(** Actions that change the document, the registers or the history. *)
Definition edit_action (self : Normal) (action : Action) (current_buffer : CurrentBuffer) :
    outcome (ModeTransition * CurrentBuffer) :=
  match action with
  | ADelete register =>
      b ← yank_selections current_buffer register;
      if negb (rope_is_empty (data b)) then
        delta ← deletion (data b) (selection b);
        to_dirty <$> apply_delta b delta
      else Ok (TNone, b)
  | AChange hex register =>
      b ← yank_selections current_buffer register;
      let insert_mode := MInsert (mkInsert IInsert hex None) in
      if negb (rope_is_empty (data b)) then
        delta ← deletion (data b) (selection b);
        '(b, dirty) ← apply_delta b delta;
        Ok (ModeAndDirtyBytes insert_mode dirty, b)
      else Ok (NewMode insert_mode, b)
  | AYank register =>
      b ← yank_selections current_buffer register; Ok (TNone, b)
  | APaste after register =>
      delta ← paste (data current_buffer) (selection current_buffer)
                (default [[]] (registers current_buffer !! register)) after
                (to_count (count_state self));
      to_dirty <$> apply_delta current_buffer delta
  | AUndo =>
      match perform_undo current_buffer with
      | (b, None) => Ok (ModeAndInfo (MNormal normal_new) (str "nothing left to undo"), b)
      | (b, Some dirty) => Ok (ModeAndDirtyBytes (MNormal normal_new) dirty, b)
      end
  | ARedo =>
      match perform_redo current_buffer with
      | (b, None) => Ok (ModeAndInfo (MNormal normal_new) (str "nothing left to redo"), b)
      | (b, Some dirty) => Ok (ModeAndDirtyBytes (MNormal normal_new) dirty, b)
      end
  | _ => Panic PanicUnreachable
  end.

(** Actions that enter another mode. *)
Definition mode_action (self : Normal) (action : Action) (current_buffer : CurrentBuffer)
    (bytes_per_line : Z) : outcome (ModeTransition * CurrentBuffer) :=
  match action with
  | AJumpToMode =>
      match count_state self with
      | CNone => Ok (NewMode (MJumpTo (mkJumpTo false)), current_buffer)
      | CSome _ offset =>
          to_normal_dirty <$> map_regions current_buffer (λ region, Ok (jump_to region offset))
      end
  | AExtendToMode =>
      match count_state self with
      | CNone => Ok (NewMode (MJumpTo (mkJumpTo true)), current_buffer)
      | CSome _ offset =>
          to_normal_dirty <$> map_regions current_buffer (λ region, Ok (extend_to region offset))
      end
  | ASplitMode => Ok (NewMode (MSplit split_new), current_buffer)
  | AInsert hex =>
      '(b, dirty) ← map_regions current_buffer (λ region, Ok (to_backward region));
      Ok (ModeAndDirtyBytes (MInsert (mkInsert IInsert hex None)) dirty, b)
  | AAppend hex =>
      let max_size := rope_len (data current_buffer) in
      '(b, dirty) ← map_regions current_buffer
        (λ region, simple_extend (to_forward region) Right bytes_per_line max_size 1);
      Ok (ModeAndDirtyBytes (MInsert (mkInsert IAppend hex None)) dirty, b)
  | AReplaceMode hex => Ok (NewMode (MReplace (mkReplace hex None)), current_buffer)
  | AOverwrite hex => Ok (NewMode (MInsert (mkInsert IOverwrite hex None)), current_buffer)
  | ACollapseMode hex => Ok (NewMode (MSearch (search_new AcceptCollapse hex)), current_buffer)
  | AMeasure =>
      main ← main_region (selection current_buffer);
      len ← rlen main;
      Ok (ModeAndInfo (MNormal normal_new)
            (fmt_dec len ++ str " = 0x" ++ fmt_hex len ++ str " bytes"), current_buffer)
  | ACommandMode => Ok (NewMode (MCommand command_new), current_buffer)
  | _ => Panic PanicUnreachable
  end.

(** The match over all actions. *)
Definition perform_action (self : Normal) (action : Action) (current_buffer : CurrentBuffer)
    (bytes_per_line : Z) : outcome (ModeTransition * CurrentBuffer) :=
  match action with
  | AMove _ | AExtend _ | ASwapCaret | ACollapseSelection | ARemoveMain | ARetainMain
  | ASelectPrev | ASelectNext | ASelectAll =>
      select_action self action current_buffer bytes_per_line
  | ADelete _ | AYank _ | APaste _ _ | AChange _ _ | AUndo | ARedo =>
      edit_action self action current_buffer
  | ASplitMode | AJumpToMode | AExtendToMode | ACollapseMode _ | ACommandMode | AInsert _
  | AAppend _ | AOverwrite _ | AReplaceMode _ | AMeasure =>
      mode_action self action current_buffer bytes_per_line
  end.

Definition transition (self : Normal) (event : Event) (buffr_collection : BuffrCollection)
    (bytes_per_line : Z) : outcome (option ModeTransition * BuffrCollection) :=
  current_buffer ← current buffr_collection;
  t ← CmdCount.transition (count_state self) event;
  match t with
  | Update new_state => Ok (Some (NewMode (MNormal (mkNormal new_state))), buffr_collection)
  | NotHandled =>
      match event_to_action default_maps event with
      | Some action =>
          '(t, b) ← perform_action self action current_buffer bytes_per_line;
          c ← set_current buffr_collection b;
          Ok (Some t, c)
      | None => Ok (None, buffr_collection)
      end
  end.

End normal.
