(* ===== verification/InsertMode.v ===== *)
(** * InsertMode: [src/src/modes/insert.rs] *)

From S2P Require Import Prelude KeyMap CmdCount Masks XiRope XiRopeRef ByteRope Selection.
From S2P Require Import Operations History CurrentBuffer Text Mode NormalMode.
From Stdlib Require Import Ascii.
Local Open Scope char_scope.
Local Open Scope Z_scope.

Inductive Action :=
  | InsertNull
  | SwitchInputMode
  | RemoveLast
  | RemoveThis
  | Exit
  | IMove (d : Direction).

Definition default_maps : KeyMap Action := keys [
  (Ctrl "n", InsertNull);
  (Ctrl "o", SwitchInputMode);
  (KeyOf KBackspace, RemoveLast);
  (KeyOf KDelete, RemoveThis);
  (KeyOf KEsc, Exit);
  (KeyOf KRight, IMove Right);
  (KeyOf KLeft, IMove Left);
  (KeyOf KUp, IMove Up);
  (KeyOf KDown, IMove Down)].

Section insert_mode.
Context `{Profile} `{XiRope}.

Definition transition_ascii_insertion (key : Z) (current_buffer : CurrentBuffer)
    (mode : InsertionMode) : outcome (ModeTransition * CurrentBuffer) :=
  let inserted_bytes := encode_utf8 key in
  match mode with
  | IAppend | IInsert =>
      delta ← insert (data current_buffer) (selection current_buffer) inserted_bytes;
      to_dirty <$> apply_incomplete_delta current_buffer delta
  | IOverwrite =>
      delta ← change (data current_buffer) (selection current_buffer) inserted_bytes;
      to_dirty <$> apply_incomplete_delta current_buffer delta
  end.

Definition transition_hex_insertion (key : Z) (current_buffer : CurrentBuffer)
    (mode : InsertionMode) (hex_half : option Z) :
    outcome (option ModeTransition * CurrentBuffer) :=
  match to_digit16 key with
  | None => Ok (None, current_buffer)
  | Some digit =>
      match hex_half with
      | None =>
          let to_insert := as_u8 (Z.shiftl digit 4) in
          delta ←
            match mode with
            | IAppend | IInsert => insert (data current_buffer) (selection current_buffer) [to_insert]
            | IOverwrite => overwrite_half (data current_buffer) (selection current_buffer) to_insert
            end;
          '(b, dirty) ← apply_incomplete_delta_offset_carets current_buffer delta (-1) 0;
          Ok (Some (ModeAndDirtyBytes (MInsert (mkInsert mode true (Some to_insert))) dirty), b)
      | Some half =>
          let to_insert := Z.lor half digit in
          delta ← change (data current_buffer) (selection current_buffer) [to_insert];
          '(b, dirty) ← apply_incomplete_delta current_buffer delta;
          Ok (Some (ModeAndDirtyBytes (MInsert (mkInsert mode true None)) dirty), b)
      end
  end.

Definition is_some {A} (o : option A) : bool := match o with Some _ => true | None => false end.

Definition perform_action (self : Insert) (action : Action) (current_buffer : CurrentBuffer)
    (bytes_per_line : Z) : outcome (ModeTransition * CurrentBuffer) :=
  let new_state := mkInsert (ins_mode self) (ins_hex self) None in
  let is_hex_half := is_some (ins_hex_half self) in
  let dirty_in m (r : CurrentBuffer * DirtyBytes) := (ModeAndDirtyBytes (MInsert m) r.2, r.1) in
  match action with
  | Exit => Ok (NewMode (MNormal normal_new), commit_delta current_buffer)
  | InsertNull =>
      delta ← insert (data current_buffer) (selection current_buffer) [0];
      dirty_in new_state <$> apply_incomplete_delta current_buffer delta
  | SwitchInputMode =>
      Ok (NewMode (MInsert (mkInsert (ins_mode self) (negb (ins_hex self)) None)), current_buffer)
  | RemoveLast =>
      if rope_is_empty (data current_buffer) then Ok (TNone, current_buffer)
      else if is_hex_half then
        delta ← delete_cursor (data current_buffer) (selection current_buffer);
        dirty_in new_state <$> apply_incomplete_delta current_buffer delta
      else
        delta ← backspace (data current_buffer) (selection current_buffer);
        to_dirty <$> apply_incomplete_delta current_buffer delta
  | RemoveThis =>
      if rope_is_empty (data current_buffer) then Ok (TNone, current_buffer)
      else
        delta ← delete_cursor (data current_buffer) (selection current_buffer);
        if is_hex_half then dirty_in new_state <$> apply_incomplete_delta current_buffer delta
        else to_dirty <$> apply_incomplete_delta current_buffer delta
  | IMove direction =>
      current_buffer ←
        (if is_hex_half then
           '(_, b) ← transition_hex_insertion (chr "0") current_buffer (ins_mode self) (ins_hex_half self);
           Ok b
         else Ok current_buffer);
      let max_bytes := rope_len (data current_buffer) in
      dirty_in new_state <$> map_regions current_buffer (λ region,
        region ← simple_move region direction bytes_per_line max_bytes 1;
        if is_hex_half then simple_move region Left bytes_per_line max_bytes 1 else Ok region)
  end.

Definition transition (self : Insert) (evt : Event) (buffr_collection : BuffrCollection)
    (bytes_per_line : Z) : outcome (option ModeTransition * BuffrCollection) :=
  current_buffer ← current buffr_collection;
  match event_to_action default_maps evt with
  | Some action =>
      '(t, b) ← perform_action self action current_buffer bytes_per_line;
      c ← set_current buffr_collection b;
      Ok (Some t, c)
  | None =>
      match evt with
      | Key (mkKeyEvent (KChar key) modifiers) =>
          if negb (mods_is_empty (without_shift modifiers)) then Ok (None, buffr_collection)
          else
            '(t, b) ←
              (if ins_hex self then
                 transition_hex_insertion key current_buffer (ins_mode self) (ins_hex_half self)
               else
                 '(t, b) ← transition_ascii_insertion key current_buffer (ins_mode self);
                 Ok (Some t, b));
            c ← set_current buffr_collection b;
            Ok (t, c)
      | _ => Ok (None, buffr_collection)
      end
  end.

End insert_mode.
