(* ===== verification/ReplaceMode.v ===== *)
(** * ReplaceMode: [src/src/modes/replace.rs] *)

From S2P Require Import Prelude KeyMap CmdCount Masks XiRope XiRopeRef ByteRope Selection.
From S2P Require Import Operations History CurrentBuffer Text Mode NormalMode.
From Stdlib Require Import Ascii.
Local Open Scope char_scope.
Local Open Scope Z_scope.

Inductive Action := Null.

Definition default_maps : KeyMap Action := keys [(Ctrl "n", Null)].

Section replace_mode.
Context `{Profile} `{XiRope}.

(** Replace the selected bytes and return to normal mode. *)
Definition replace_with (current_buffer : CurrentBuffer) (ch : Z) :
    outcome (option ModeTransition * CurrentBuffer) :=
  delta ← replace (data current_buffer) (selection current_buffer) ch;
  '(t, b) ← to_normal_dirty <$> apply_delta current_buffer delta;
  Ok (Some t, b).

(** A character key: the new byte, a digit of it, or a way out. *)
Definition replace_char (self : Replace) (ch : Z) (current_buffer : CurrentBuffer) :
    outcome (option ModeTransition * CurrentBuffer) :=
  let to_normal := Ok (Some (NewMode (MNormal normal_new)), current_buffer) in
  if negb (rep_hex self) then replace_with current_buffer (as_u8 ch)
  else match rep_hex_half self with
       | None =>
           match to_digit16 ch with
           | None => to_normal
           | Some digit =>
               Ok (Some (NewMode (MReplace (mkReplace (rep_hex self) (Some (as_u8 (Z.shiftl digit 4)))))),
                   current_buffer)
           end
       | Some half =>
           match to_digit16 ch with
           | None => to_normal
           | Some digit => replace_with current_buffer (Z.lor digit half)
           end
       end.

Definition transition (self : Replace) (evt : Event) (buffr_collection : BuffrCollection) :
    outcome (option ModeTransition * BuffrCollection) :=
  current_buffer ← current buffr_collection;
  match evt with
  | Key (mkKeyEvent (KChar ch) modifiers) =>
      '(t, b) ←
        match event_to_action default_maps evt with
        | Some Null => replace_with current_buffer 0
        | None =>
            if negb (mods_is_empty (without_shift modifiers))
            then Ok (Some (NewMode (MNormal normal_new)), current_buffer)
            else replace_char self ch current_buffer
        end;
      c ← set_current buffr_collection b;
      Ok (t, c)
  | Key _ => Ok (Some (NewMode (MNormal normal_new)), buffr_collection)
  | _ => Ok (None, buffr_collection)
  end.

End replace_mode.
