(* ===== verification/JumpToMode.v ===== *)
(** * JumpToMode: [src/src/modes/jumpto.rs] *)

From S2P Require Import Prelude KeyMap CmdCount Masks XiRope XiRopeRef ByteRope Selection.
From S2P Require Import Operations History CurrentBuffer Text Mode NormalMode.
From Stdlib Require Import Ascii.
Local Open Scope char_scope.
Local Open Scope Z_scope.

Definition default_maps : KeyMap Direction := keys [
  (KeyOf KLeft, Left);
  (Plain "h", Left);
  (KeyOf KDown, Down);
  (Plain "j", Down);
  (KeyOf KUp, Up);
  (Plain "k", Up);
  (KeyOf KRight, Right);
  (Plain "l", Right)].

Section jumpto_mode.
Context `{Profile} `{XiRope}.

Definition transition (self : JumpTo) (evt : Event) (buffr_collection : BuffrCollection)
    (bytes_per_line : Z) : outcome (option ModeTransition * BuffrCollection) :=
  current_buffer ← current buffr_collection;
  match event_to_action default_maps evt with
  | Some direction =>
      let max_bytes := rope_len (data current_buffer) in
      r ← (if jump_extend self
           then map_regions current_buffer
                  (λ region, extend_to_boundary region direction bytes_per_line max_bytes)
           else map_regions current_buffer
                  (λ region, jump_to_boundary region direction bytes_per_line max_bytes));
      let '(t, b) := to_normal_dirty r in
      c ← set_current buffr_collection b;
      Ok (Some t, c)
  | None =>
      match evt with
      | Key _ => Ok (Some (NewMode (MNormal normal_new)), buffr_collection)
      | _ => Ok (None, buffr_collection)
      end
  end.

End jumpto_mode.
