(* ===== verification/SearchMode.v ===== *)
(** * SearchMode: patterns and the search prompt, [src/src/modes/search.rs],
    with the two modes that accept a pattern: [src/src/modes/split.rs] and
    [src/src/modes/collapse.rs]

    The substring searcher ([jetscii]) and the regular expressions ([regex])
    are other crates: they are the class [SearchLib]. *)

From S2P Require Import Prelude KeyMap CmdCount Masks XiRope XiRopeRef ByteRope Selection.
From S2P Require Import Operations History CurrentBuffer Text Mode NormalMode.
From Stdlib Require Import Ascii String.
Local Open Scope char_scope.
Local Open Scope Z_scope.

Class SearchLib := {
  (* ByteSubstring::new(needle).find(haystack) *)
  byte_find : bytes → bytes → option Z;
  (* RegexBuilder::new(expr).unicode(false).build(), then find_iter(haystack):
     the start and end of each match; None when the expression does not build *)
  regex_find_iter : bytes → bytes → option (list (Z * Z));
}.

(** ** Patterns *)

Section patterns.
Context `{Profile}.

Definition insert_literal (self : Pattern) (position literal : Z) : outcome (Pattern * Z) :=
  l ← vec_insert (pieces self) position (Literal literal);
  p ← uadd position 1;
  Ok (mkPattern l, p).
Definition insert_half_literal (self : Pattern) (position literal : Z) : outcome (Pattern * Z) :=
  l ← vec_update (pieces self) position (λ _, Literal literal);
  p ← uadd position 1;
  Ok (mkPattern l, p).
Definition insert_wildcard (self : Pattern) (position : Z) : outcome (Pattern * Z) :=
  l ← vec_insert (pieces self) position Wildcard;
  p ← uadd position 1;
  Ok (mkPattern l, p).
Definition pattern_remove (self : Pattern) (position : Z) : outcome (Pattern * bool) :=
  if position <? zlen (pieces self) then
    l ← vec_remove (pieces self) position; Ok (mkPattern l, true)
  else Ok (self, false).

Definition as_basic_slice (self : Pattern) : option bytes :=
  mapM (λ x, match x with Literal c => Some c | Wildcard => None end) (pieces self).

Context `{XiRope} `{SearchLib}.

(** The loop over the matches in one region: [base] is the position in the
    document and [slice_base] the one in the slice from which to search. *)
Fixpoint find_matches (fuel : nat) (needle slice : bytes) (base slice_base : Z)
    (matched_ranges : list (Z * Z)) : outcome (list (Z * Z)) :=
  match fuel with
  | O => Panic PanicFuel
  | S fuel' =>
      rest ← slice_range slice slice_base (zlen slice);
      match byte_find needle rest with
      | None => Ok matched_ranges
      | Some start =>
          match_abs_start ← uadd base start;
          e ← uadd match_abs_start (zlen needle);
          s ← uadd slice_base start;
          sb ← uadd s (zlen needle);
          find_matches fuel' needle slice e sb (matched_ranges ++ [(match_abs_start, e)])
      end
  end.

(** The regular expression of a pattern with wildcards. *)
Definition pattern_expr (self : Pattern) : bytes :=
  List.concat ((λ x, match x with
                | Wildcard => str "."
                | Literal c => str "\x" ++ fmt_hex2 c
                end) <$> pieces self).

Definition map_selections_to_matches (self : Pattern) (current_buffer : CurrentBuffer) :
    outcome (list (list (Z * Z))) :=
  match as_basic_slice self with
  | Some basic_subslice =>
      mapM_outcome (λ x,
        let base := rmin x in
        slice ← slice_to_cow (data current_buffer) (iv_from_inclusive base (rmax x));
        find_matches (S (List.length slice)) basic_subslice slice base 0 [])
        (regions (selection current_buffer))
  | None =>
      mapM_outcome (λ x,
        slice ← slice_to_cow (data current_buffer) (iv_from_inclusive (rmin x) (rmax x));
        ms ← unwrap (regex_find_iter (pattern_expr self) slice);
        mapM_outcome (λ '(s, e), a ← uadd (rmin x) s; b ← uadd (rmin x) e; Ok (a, b)) ms)
        (regions (selection current_buffer))
  end.

(** [matched_ranges.iter().flatten().map(|r| r.end - r.start).sum()] *)
Definition matched_length (matched_ranges : list (list (Z * Z))) : outcome Z :=
  foldM (λ acc '(s, e), n ← usub e s; uadd acc n) 0 (List.concat matched_ranges).

(** ** Accepting a pattern *)

(** The closure of [Split::apply_search] on one region: the parts of the
    region between the matches. *)
Fixpoint split_region (ranges : list (Z * Z)) (base_region : SelRegion) (out : list SelRegion) :
    outcome (list SelRegion) :=
  match ranges with
  | [] => Ok (out ++ [base_region])
  | (s, e) :: ranges' =>
      e1 ← usub e 1;
      '(left_region, right_region) ← split_at_region base_region s e1;
      let out := match left_region with Some l => out ++ [l] | None => out end in
      match right_region with
      | Some r => split_region ranges' r out
      | None => Ok out
      end
  end.

Definition split_apply_search (pattern : Pattern) (current_buffer : CurrentBuffer) :
    outcome (ModeTransition * CurrentBuffer) :=
  let to_normal := Ok (NewMode (MNormal normal_new), current_buffer) in
  if (zlen (pieces pattern) =? 0) then to_normal
  else
    matched_ranges ← map_selections_to_matches pattern current_buffer;
    matched_len ← matched_length matched_ranges;
    total ← len_bytes (selection current_buffer);
    if matched_len =? total then to_normal
    else
      '(b, dirty, _) ← map_selections_buffer current_buffer
        (λ remaining_matched_ranges base_region,
          this ← vec_index remaining_matched_ranges 0;
          out ← split_region this base_region [];
          rest ← slice_range remaining_matched_ranges 1 (zlen remaining_matched_ranges);
          Ok (out, rest)) matched_ranges;
      Ok (to_normal_dirty (b, dirty)).

Definition collapse_apply_search (pattern : Pattern) (current_buffer : CurrentBuffer) :
    outcome (ModeTransition * CurrentBuffer) :=
  let to_normal := Ok (NewMode (MNormal normal_new), current_buffer) in
  if (zlen (pieces pattern) =? 0) then to_normal
  else
    matched_ranges ← map_selections_to_matches pattern current_buffer;
    matched_len ← matched_length matched_ranges;
    if matched_len =? 0 then to_normal
    else
      '(b, dirty, _) ← map_selections_buffer current_buffer
        (λ remaining_matched_ranges base_region,
          match remaining_matched_ranges with
          | this :: rest =>
              out ← mapM_outcome (λ '(s, e),
                e1 ← usub e 1; Ok (inherit_direction (region_new s e1) base_region)) this;
              Ok (out, rest)
          | [] => Panic PanicUnwrap
          end) matched_ranges;
      Ok (to_normal_dirty (b, dirty)).

Definition apply_search (acceptor : SearchAcceptor) (pattern : Pattern) (current_buffer : CurrentBuffer) :
    outcome (ModeTransition * CurrentBuffer) :=
  match acceptor with
  | AcceptSplit _ => split_apply_search pattern current_buffer
  | AcceptCollapse => collapse_apply_search pattern current_buffer
  end.

End patterns.

(** ** The prompt *)

Inductive Action :=
  | InsertNull
  | InsertWilcard
  | RemoveLast
  | RemoveThis
  | CursorLeft
  | CursorRight
  | SwitchInputMode
  | Finish
  | Cancel.

Definition default_maps : KeyMap Action := keys [
  (KeyOf KBackspace, RemoveLast);
  (KeyOf KDelete, RemoveThis);
  (KeyOf KEnter, Finish);
  (KeyOf KEsc, Cancel);
  (KeyOf KLeft, CursorLeft);
  (KeyOf KRight, CursorRight);
  (Ctrl "o", SwitchInputMode);
  (Ctrl "n", InsertNull);
  (Ctrl "w", InsertWilcard)].

Section search_mode.
Context `{Profile} `{XiRope} `{SearchLib}.

(** The prompt after an action that stays in it: pattern, cursor and input
    mode; [None] when nothing is to be done. *)
Definition prompt_action (self : Search) (action : Action) (cursor : Z) :
    outcome (option (Pattern * Z * bool)) :=
  let pattern := pattern self in
  let hex := search_hex self in
  match action with
  | InsertNull => '(p, c) ← insert_literal pattern cursor 0; Ok (Some (p, c, hex))
  | InsertWilcard => '(p, c) ← insert_wildcard pattern cursor; Ok (Some (p, c, hex))
  | RemoveLast =>
      if negb (cursor =? 0) then
        c ← usub cursor 1;
        '(p, _) ← pattern_remove pattern c;
        Ok (Some (p, c, hex))
      else Ok None
  | RemoveThis => '(p, _) ← pattern_remove pattern cursor; Ok (Some (p, cursor, hex))
  | CursorLeft =>
      if negb (cursor =? 0) then c ← usub cursor 1; Ok (Some (pattern, c, hex))
      else Ok (Some (pattern, cursor, hex))
  | CursorRight =>
      if cursor <? zlen (pieces pattern) then c ← uadd cursor 1; Ok (Some (pattern, c, hex))
      else Ok (Some (pattern, cursor, hex))
  | SwitchInputMode => Ok (Some (pattern, cursor, negb hex))
  | Cancel | Finish => Panic PanicUnreachable
  end.

(** A character typed into the prompt; [None] when it is not accepted. *)
Definition prompt_char (self : Search) (ch : Z) : outcome (option Search) :=
  if negb (search_hex self) then
    '(p, c) ← insert_literal (pattern self) (cursor self) (as_u8 ch);
    Ok (Some (mkSearch p c (search_hex self) (search_hex_half self) (next self)))
  else
    match to_digit16 ch with
    | None => Ok None
    | Some hex_digit =>
        match search_hex_half self with
        | Some half =>
            '(p, c) ← insert_half_literal (pattern self) (cursor self) (Z.lor half hex_digit);
            Ok (Some (mkSearch p c (search_hex self) None (next self)))
        | None =>
            let half := as_u8 (Z.shiftl hex_digit 4) in
            '(p, _) ← insert_literal (pattern self) (cursor self) half;
            Ok (Some (mkSearch p (cursor self) (search_hex self) (Some half) (next self)))
        end
    end.

Definition transition (self : Search) (evt : Event) (buffr_collection : BuffrCollection) :
    outcome (option ModeTransition * BuffrCollection) :=
  match event_to_action default_maps evt with
  | Some action =>
      cursor ←
        match search_hex_half self with Some _ => uadd (cursor self) 1 | None => Ok (cursor self) end;
      match action with
      | Cancel => Ok (Some (NewMode (MNormal normal_new)), buffr_collection)
      | Finish =>
          acceptor ← unwrap (next self);
          b ← current buffr_collection;
          '(t, b) ← apply_search acceptor (pattern self) b;
          c ← set_current buffr_collection b;
          Ok (Some t, c)
      | _ =>
          r ← prompt_action self action cursor;
          match r with
          | None => Ok (Some TNone, buffr_collection)
          | Some (pattern, cursor, hex) =>
              Ok (Some (NewMode (MSearch (mkSearch pattern cursor hex None (next self)))), buffr_collection)
          end
      end
  | None =>
      match evt with
      | Key (mkKeyEvent (KChar ch) modifiers) =>
          if negb (mods_is_empty modifiers) then Ok (None, buffr_collection)
          else
            r ← prompt_char self ch;
            match r with
            | None => Ok (None, buffr_collection)
            | Some s => Ok (Some (NewMode (MSearch s)), buffr_collection)
            end
      | _ => Ok (None, buffr_collection)
      end
  end.

(** ** Split mode *)

Inductive SplitAction :=
  | Width (width : Z)
  | SplitNull
  | SplitSearch (hex : bool).

Definition split_maps : KeyMap SplitAction := keys [
  (Plain "b", Width 1);
  (Plain "w", Width 2);
  (Plain "d", Width 4);
  (Plain "q", Width 8);
  (Plain "o", Width 16);
  (Plain "n", SplitNull);
  (Plain "/", SplitSearch false);
  (Plain "?", SplitSearch true)].

(** The regions of [step_by(step)] over the positions of a region, from [pos]
    on; [step_by] panics on a step of zero. *)
Fixpoint width_regions (fuel : nat) (region : SelRegion) (step pos : Z) : outcome (list SelRegion) :=
  if rmax region <? pos then Ok []
  else match fuel with
       | O => Panic PanicFuel
       | S fuel' =>
           a ← uadd pos step;
           e ← usub a 1;
           rest ← width_regions fuel' region step (pos + step);
           Ok (with_direction (region_new pos (Z.min (rmax region) e)) (backward region) :: rest)
       end.

Definition split_width (width count : Z) (region : SelRegion) : outcome (list SelRegion) :=
  step ← umul width count;
  if step =? 0 then Panic PanicAssert
  else width_regions (Z.to_nat (rmax region - rmin region + 1)) region step (rmin region).

Definition split_transition (self : Split) (evt : Event) (buffr_collection : BuffrCollection) :
    outcome (option ModeTransition * BuffrCollection) :=
  current_buffer ← current buffr_collection;
  t ← CmdCount.transition (split_count_state self) evt;
  match t with
  | Update new_state => Ok (Some (NewMode (MSplit (mkSplit new_state))), buffr_collection)
  | NotHandled =>
      match event_to_action split_maps evt with
      | Some action =>
          let count := to_count (split_count_state self) in
          '(t, b) ←
            match action with
            | Width width =>
                '(b, dirty, _) ← map_selections_buffer current_buffer
                  (λ u region, rs ← split_width width count region; Ok (rs, u)) tt;
                Ok (to_normal_dirty (b, dirty))
            | SplitNull =>
                split_apply_search (mkPattern (replicate (Z.to_nat count) (Literal 0))) current_buffer
            | SplitSearch hex => Ok (NewMode (MSearch (search_new (AcceptSplit self) hex)), current_buffer)
            end;
          c ← set_current buffr_collection b;
          Ok (Some t, c)
      | None =>
          match evt with
          | Key _ => Ok (Some (NewMode (MNormal normal_new)), buffr_collection)
          | _ => Ok (None, buffr_collection)
          end
      end
  end.

(** [Collapse] is only used as an acceptor and handles no event. *)
Definition collapse_transition (buffr_collection : BuffrCollection) :
    outcome (option ModeTransition * BuffrCollection) := Ok (None, buffr_collection).

End search_mode.
