(* ===== verification/CommandMode.v ===== *)
(** * CommandMode: the command prompt and its commands,
    [src/src/modes/command.rs] *)

From S2P Require Import Prelude KeyMap CmdCount Masks XiRope XiRopeRef ByteRope Selection.
From S2P Require Import Operations History CurrentBuffer Text Mode NormalMode.
From Stdlib Require Import Ascii String.
Local Open Scope char_scope.
Local Open Scope Z_scope.

Inductive Action :=
  | RemoveLast
  | RemoveThis
  | CursorLeft
  | CursorRight
  | Finish
  | Cancel.

Definition default_maps : KeyMap Action := keys [
  (KeyOf KBackspace, RemoveLast);
  (KeyOf KDelete, RemoveThis);
  (KeyOf KEnter, Finish);
  (KeyOf KEsc, Cancel);
  (KeyOf KLeft, CursorLeft);
  (KeyOf KRight, CursorRight)].

(** ** Strings, edited at byte positions *)

(** A position is a character boundary when no character continues there. *)
Definition is_char_boundary (s : bytes) (i : Z) : bool :=
  if (i =? 0) || (i =? zlen s) then true
  else match zlookup s i with
       | Some b => negb ((128 <=? b) && (b <? 192))
       | None => false
       end.

(** [String::insert] panics when the position is no character boundary. *)
Definition string_insert (s : bytes) (i : Z) (c : Z) : outcome bytes :=
  if is_char_boundary s i then Ok (ztake i s ++ encode_utf8 c ++ zdrop i s)
  else Panic PanicAssert.

(** The length of the character that starts with the byte [b]. *)
Definition utf8_width (b : Z) : Z :=
  if b <? 128 then 1 else if b <? 224 then 2 else if b <? 240 then 3 else 4.

(** [String::remove] panics at the end and at positions that are no character
    boundary. *)
Definition string_remove (s : bytes) (i : Z) : outcome bytes :=
  if is_char_boundary s i then
    match zlookup s i with
    | Some b => Ok (ztake i s ++ zdrop (i + utf8_width b) s)
    | None => Panic PanicIndex
    end
  else Panic PanicIndex.

(** [String::find(' ')], the position of the first space. *)
Fixpoint find_space (i : Z) (s : bytes) : option Z :=
  match s with
  | [] => None
  | b :: s' => if b =? 32 then Some i else find_space (i + 1) s'
  end.

(** ** Commands *)

Inductive CommandHandler :=
  | cmd_quit | cmd_force_quit | cmd_write | cmd_write_quit | cmd_write_all | cmd_edit
  | cmd_delete_current_buffer | cmd_force_delete_current_buffer.

Definition default_commands : gmap bytes CommandHandler := list_to_map [
  (str "q", cmd_quit);
  (str "quit", cmd_quit);
  (str "q!", cmd_force_quit);
  (str "quit!", cmd_force_quit);
  (str "w", cmd_write);
  (str "write", cmd_write);
  (str "wq", cmd_write_quit);
  (str "wa", cmd_write_all);
  (str "write-all", cmd_write_all);
  (str "e", cmd_edit);
  (str "edit", cmd_edit);
  (str "db", cmd_delete_current_buffer);
  (str "delete-current_buffer", cmd_delete_current_buffer);
  (str "db!", cmd_force_delete_current_buffer);
  (str "delete-current_buffer!", cmd_force_delete_current_buffer)].

Section command_mode.
Context `{Profile} `{XiRope} `{FileSystem}.

Abbreviation result := (ModeTransition * BuffrCollection * World)%type.

Definition to_normal_info (info : bytes) : ModeTransition := ModeAndInfo (MNormal normal_new) info.
Definition write_failed (e : Z) : ModeTransition :=
  to_normal_info (str "write failed: " ++ io_error_display e).

Definition has_path (b : CurrentBuffer) : bool := match path b with Some _ => true | None => false end.

Definition quit (w : World) (buf : BuffrCollection) : outcome result :=
  if existsb (λ x, dirty x && has_path x) (buf_list buf)
  then Ok (to_normal_info (str "unsaved changes! Run :wq or :q! instead."), buf, w)
  else Ok (NewMode MQuitting, buf, w).

Definition force_quit (w : World) (buf : BuffrCollection) : outcome result :=
  Ok (NewMode MQuitting, buf, w).

Definition write (w : World) (buf : BuffrCollection) (filename : bytes) : outcome result :=
  b ← current buf;
  let p := if zlen filename =? 0 then path b else Some filename in
  match p with
  | Some p =>
      contents ← slice_to_cow (data b) (full_range (data b));
      match fs_write w p contents with
      | (IoErr e, w) => Ok (write_failed e, buf, w)
      | (IoOk _, w) =>
          buf ← set_current buf (update_path_if_missing (with_dirty b false) p);
          Ok (NewMode (MNormal normal_new), buf, w)
      end
  | None => Ok (to_normal_info (str "current_buffer has no path"), buf, w)
  end.

(** The loop of [write_all] and [write_quit]: the buffers already visited, and
    the error that stopped it. *)
Fixpoint write_buffers (w : World) (l : list CurrentBuffer) :
    outcome (list CurrentBuffer * World * option Z) :=
  match l with
  | [] => Ok ([], w, None)
  | b :: l' =>
      match path b with
      | None => '(l', w, e) ← write_buffers w l'; Ok (b :: l', w, e)
      | Some p =>
          contents ← slice_to_cow (data b) (full_range (data b));
          match fs_write w p contents with
          | (IoErr e, w) => Ok (b :: l', w, Some e)
          | (IoOk _, w) => '(l', w, e) ← write_buffers w l'; Ok (with_dirty b false :: l', w, e)
          end
      end
  end.

Definition write_all (w : World) (buf : BuffrCollection) : outcome result :=
  '(l, w, e) ← write_buffers w (buf_list buf);
  let buf := mkCollection l (cur_buf_index buf) in
  Ok (match e with Some e => write_failed e | None => NewMode (MNormal normal_new) end, buf, w).

Definition write_quit (w : World) (buf : BuffrCollection) : outcome result :=
  '(l, w, e) ← write_buffers w (buf_list buf);
  let buf := mkCollection l (cur_buf_index buf) in
  Ok (match e with Some e => write_failed e | None => NewMode MQuitting end, buf, w).

Definition edit_file (w : World) (buf : BuffrCollection) (filename : bytes) : outcome result :=
  '(r, buf) ← switch_current_buffer w buf filename;
  Ok (match r with
      | IoErr e => to_normal_info (io_error_display e)
      | IoOk _ => ModeAndDirtyBytes (MNormal normal_new) ChangeLength
      end, buf, w).

Definition force_delete_current_buffer (w : World) (buf : BuffrCollection) : outcome result :=
  buf ← delete_current buf;
  Ok (ModeAndDirtyBytes (MNormal normal_new) ChangeLength, buf, w).

Definition delete_current_buffer (w : World) (buf : BuffrCollection) : outcome result :=
  b ← current buf;
  if dirty b && has_path b
  then Ok (to_normal_info (str "current_buffer is dirty, use :db! if you're sure"), buf, w)
  else force_delete_current_buffer w buf.

Definition run_command (handler : CommandHandler) (w : World) (buf : BuffrCollection) (rest : bytes) :
    outcome result :=
  match handler with
  | cmd_quit => quit w buf
  | cmd_force_quit => force_quit w buf
  | cmd_write => write w buf rest
  | cmd_write_quit => write_quit w buf
  | cmd_write_all => write_all w buf
  | cmd_edit => edit_file w buf rest
  | cmd_delete_current_buffer => delete_current_buffer w buf
  | cmd_force_delete_current_buffer => force_delete_current_buffer w buf
  end.

Definition finish (self : Command) (w : World) (buf : BuffrCollection) : outcome result :=
  let split := default (zlen (command self)) (find_space 0 (command self)) in
  let name := ztake split (command self) in
  let rest := zdrop split (command self) in
  match default_commands !! name with
  | Some handler => run_command handler w buf (if zlen rest =? 0 then rest else zdrop 1 rest)
  | None => Ok (to_normal_info (str "Unknown command " ++ name), buf, w)
  end.

(** The prompt after an action that stays in it; [None] when nothing is to be
    done. *)
Definition prompt_action (self : Command) (action : Action) : outcome (option Command) :=
  let cursor := cmd_cursor self in
  let cmd := command self in
  match action with
  | RemoveLast =>
      if negb (cursor =? 0) then
        c ← usub cursor 1;
        s ← string_remove cmd c;
        Ok (Some (mkCommand s c))
      else Ok None
  | RemoveThis => s ← string_remove cmd cursor; Ok (Some (mkCommand s cursor))
  | CursorLeft =>
      if negb (cursor =? 0) then c ← usub cursor 1; Ok (Some (mkCommand cmd c))
      else Ok (Some (mkCommand cmd cursor))
  | CursorRight =>
      if cursor <? zlen cmd then c ← uadd cursor 1; Ok (Some (mkCommand cmd c))
      else Ok (Some (mkCommand cmd cursor))
  | Cancel | Finish => Panic PanicUnreachable
  end.

Definition prompt_char (self : Command) (ch : Z) : outcome Command :=
  s ← string_insert (command self) (cmd_cursor self) ch;
  c ← uadd (cmd_cursor self) 1;
  Ok (mkCommand s c).

Definition transition (self : Command) (evt : Event) (w : World) (buf : BuffrCollection) :
    outcome (option ModeTransition * BuffrCollection * World) :=
  match event_to_action default_maps evt with
  | Some Cancel => Ok (Some (NewMode (MNormal normal_new)), buf, w)
  | Some Finish => '(t, buf, w) ← finish self w buf; Ok (Some t, buf, w)
  | Some action =>
      r ← prompt_action self action;
      Ok (Some (match r with Some c => NewMode (MCommand c) | None => TNone end), buf, w)
  | None =>
      match evt with
      | Key (mkKeyEvent (KChar ch) modifiers) =>
          if negb (mods_is_empty (without_shift modifiers)) then Ok (None, buf, w)
          else c ← prompt_char self ch; Ok (Some (NewMode (MCommand c)), buf, w)
      | _ => Ok (None, buf, w)
      end
  end.

End command_mode.
