(* ===== verification/Modes.v ===== *)
(** * Modes: dispatch over all modes, [src/src/modes/] *)

From S2P Require Import Prelude KeyMap CmdCount Masks XiRope XiRopeRef ByteRope Selection.
From S2P Require Import Operations History CurrentBuffer Text Mode.
From S2P Require Import NormalMode InsertMode ReplaceMode JumpToMode SearchMode CommandMode.

Section modes.
Context `{Profile} `{XiRope} `{FileSystem} `{SearchLib}.

(** [self.mode.transition(&evt, &mut self.buffr_collection, self.bytes_per_line)] *)
Definition mode_transition (mode : Mode) (evt : Event) (bytes_per_line : Z)
    (w : World) (c : BuffrCollection) : outcome (option ModeTransition * BuffrCollection * World) :=
  let in_world r := '(t, c) ← r; Ok (t, c, w) in
  match mode with
  | MNormal m => in_world (NormalMode.transition m evt c bytes_per_line)
  | MInsert m => in_world (InsertMode.transition m evt c bytes_per_line)
  | MReplace m => in_world (ReplaceMode.transition m evt c)
  | MJumpTo m => in_world (JumpToMode.transition m evt c bytes_per_line)
  | MCommand m => CommandMode.transition m evt w c
  | MSearch m => in_world (SearchMode.transition m evt c)
  | MSplit m => in_world (split_transition m evt c)
  | MCollapse => in_world (collapse_transition c)
  | MQuitting => Panic PanicUnreachable
  end.

End modes.
