(* ===== verification/Matches.v ===== *)
(** * Matches: what the searches find

    Where a pattern occurs, the matches a search from left to right finds, what
    the two searching libraries document, and that the code finds exactly these
    matches in every region, with and without wildcards.  The last part is an
    executable instance of the libraries. *)

From S2P Require Import Prelude KeyMap CmdCount Masks XiRope XiRopeRef ByteRope Selection SelectionMap.
From S2P Require Import SelectionMoves SelectionQueries SelectionExact SelectionParts Operations.
From S2P Require Import History CurrentBuffer Text Mode SearchMode.
From Stdlib Require Import Ascii String.
Local Open Scope Z_scope.

(** ** Occurrences and matches *)

(** A wildcard is a dot of a regular expression: it matches every byte but a
    line feed. *)
Definition piece_matches (p : PatternPiece) (c : Z) : bool :=
  match p with Literal l => c =? l | Wildcard => negb (c =? 10) end.

(** The pattern occurs in [l] at [j]. *)
Definition occurs (ps : list PatternPiece) (l : bytes) (j : Z) : Prop :=
  Forall2 (λ p c, piece_matches p c = true) ps (zslice j (j + zlen ps) l).

(** [ms] are the matches of length [n] that a search from left to right finds
    between [lo] and [hi], each one after the end of the one before; [occ] says
    where there is one. *)
Fixpoint leftmost_matches (n : Z) (occ : Z → Prop) (lo hi : Z) (ms : list (Z * Z)) : Prop :=
  match ms with
  | [] => ∀ j, lo ≤ j → j + n ≤ hi → ¬ occ j
  | (s, e) :: ms' =>
      lo ≤ s ∧ e = s + n ∧ e ≤ hi ∧ occ s ∧
      (∀ j, lo ≤ j < s → ¬ occ j) ∧ leftmost_matches n occ e hi ms'
  end.

Definition in_range (p : Z) (range : Z * Z) : bool := (range.1 <=? p) && (p <? range.2).

(** Position [p] is part of a match. *)
Definition matched (ms : list (Z * Z)) (p : Z) : bool := existsb (in_range p) ms.

(** The matches of a pattern in the part of the document that [r] covers. *)
Definition region_matches (pat : Pattern) (doc : bytes) (r : SelRegion) (ms : list (Z * Z)) : Prop :=
  leftmost_matches (zlen (pieces pat)) (occurs (pieces pat) doc) (rmin r) (Z.min (rmax r + 1) (zlen doc)) ms.

(** ** What the libraries document *)

(** The regular expressions that the editor writes: a dot matches one byte that
    is not a line feed, a hexadecimal escape matches the byte it names. *)
Inductive RegexAtom := AnyButNewline | OneByte (c : Z).

Definition atom_text (a : RegexAtom) : bytes :=
  match a with AnyButNewline => str "." | OneByte c => str "\x" ++ fmt_hex2 c end.
Definition atom_ok (a : RegexAtom) : Prop := match a with AnyButNewline => True | OneByte c => is_u8 c end.
Definition atom_matches (a : RegexAtom) (c : Z) : bool :=
  match a with AnyButNewline => negb (c =? 10) | OneByte b => c =? b end.
Definition atoms_occur (atoms : list RegexAtom) (l : bytes) (j : Z) : Prop :=
  Forall2 (λ a c, atom_matches a c = true) atoms (zslice j (j + zlen atoms) l).

Class SearchLibLaws `{SearchLib} := {
  (* The substring searcher finds the first occurrence. *)
  byte_find_some needle l i : needle ≠ [] → byte_find needle l = Some i →
    0 ≤ i ∧ zslice i (i + zlen needle) l = needle ∧
    ∀ j, 0 ≤ j < i → zslice j (j + zlen needle) l ≠ needle;
  byte_find_none needle l : needle ≠ [] → byte_find needle l = None →
    ∀ j, 0 ≤ j → zslice j (j + zlen needle) l ≠ needle;
  (* A sequence of dots and escapes is a regular expression, and [find_iter]
     finds its leftmost matches that do not overlap. *)
  regex_find_iter_ok atoms l : atoms ≠ [] → Forall atom_ok atoms →
    ∃ ms, regex_find_iter (List.concat (atom_text <$> atoms)) l = Some ms ∧
      leftmost_matches (zlen atoms) (atoms_occur atoms l) 0 (zlen l) ms;
}.

(** ** Slices *)

Lemma zslice_nested {A} a b s e (l : list A) : 0 ≤ s → 0 ≤ a → s + b ≤ e →
  zslice a b (zslice s e l) = zslice (s + a) (s + b) l.
Proof.
  intros. unfold zslice, ztake, zdrop. rewrite skipn_firstn_comm, drop_drop, take_take.
  f_equal; [lia|f_equal; lia].
Qed.

Lemma zlen_pos {A} (l : list A) : l ≠ [] → 0 < zlen l.
Proof. destruct l; [done|]. rewrite zlen_cons. pose proof (zlen_nonneg l). lia. Qed.

Lemma occurs_slice ps l s e j : 0 ≤ s → 0 ≤ j → s + j + zlen ps ≤ e →
  occurs ps (zslice s e l) j ↔ occurs ps l (s + j).
Proof. intros. unfold occurs. rewrite zslice_nested by lia. by rewrite Z.add_assoc. Qed.

(** An occurrence of literals is a copy of them. *)
Lemma occurs_literals needle l j :
  occurs (Literal <$> needle) l j ↔ zslice j (j + zlen needle) l = needle.
Proof.
  unfold occurs. rewrite zlen_fmap, Forall2_fmap_l.
  split; [|intros ->; apply Forall_Forall2_diag, Forall_forall; intros c _; apply Z.eqb_refl].
  generalize (zslice j (j + zlen needle) l) as l'. intros l' HF.
  induction HF as [|x y xs ys Hxy _ IH]; [done|]. simpl in Hxy. apply Z.eqb_eq in Hxy. by subst.
Qed.

Lemma as_basic_slice_literals pat needle : as_basic_slice pat = Some needle → pieces pat = Literal <$> needle.
Proof.
  unfold as_basic_slice. revert needle.
  induction (pieces pat) as [|[c|] ps IH]; intros needle E; cbn in E; [by injection E as <-| |done].
  destruct (mapM _ ps) as [l|] eqn:El; [|done]. injection E as <-. simpl. f_equal. by apply IH.
Qed.

(** ** Lists of matches *)

(** The matches are sorted, do not overlap and lie within the bounds. *)
Lemma leftmost_cons n occ lo hi s e ms : 0 < n → leftmost_matches n occ lo hi ((s, e) :: ms) →
  lo ≤ s < e ∧ e ≤ hi ∧ e - s = n ∧ leftmost_matches n occ e hi ms.
Proof. intros Hn (? & ? & ? & _ & _ & ?). split_and!; lia || done. Qed.

Lemma matched_outside n occ lo hi ms p : 0 < n → leftmost_matches n occ lo hi ms →
  matched ms p = true → lo ≤ p < hi.
Proof.
  intros Hn. revert lo. induction ms as [|[s e] ms IH]; intros lo Hms; [done|].
  apply leftmost_cons in Hms as (? & ? & _ & Hms); [|done]. simpl. intros [Hp|Hp]%orb_true_iff.
  - unfold in_range in Hp. simpl in Hp. lia.
  - specialize (IH _ Hms Hp). lia.
Qed.

(** They cover everything exactly when their lengths add up. *)
Lemma leftmost_full n occ lo hi hi' ms : 0 < n → leftmost_matches n occ lo hi ms → hi ≤ hi' → lo ≤ hi' →
  zlen ms * n ≤ hi' - lo ∧ (zlen ms * n = hi' - lo ↔ ∀ p, lo ≤ p < hi' → matched ms p = true).
Proof.
  intros Hn. revert lo. induction ms as [|[s e] ms IH]; intros lo Hms Hhi Hlo.
  - change (zlen (@nil (Z * Z))) with 0. split; [lia|]. split; [intros ? p; lia|].
    intros Hall. destruct (Z.eq_dec lo hi') as [->|]; [lia|]. by specialize (Hall lo ltac:(lia)).
  - apply leftmost_cons in Hms as (? & ? & He & Hms); [|done].
    destruct (IH e Hms Hhi ltac:(lia)) as [Hle Heq]. rewrite zlen_cons, Z.mul_add_distr_r. split; [lia|].
    split.
    + intros Hall p Hp. simpl. unfold in_range at 1. simpl.
      destruct (Z.leb_spec s p), (Z.ltb_spec p e); simpl; try done; try lia. apply Heq; lia.
    + intros Hall. assert (s = lo).
      { specialize (Hall lo ltac:(lia)). apply orb_true_iff in Hall as [Hx|Hx].
        - unfold in_range in Hx. simpl in Hx. lia.
        - pose proof (matched_outside _ _ _ _ _ _ Hn Hms Hx). lia. }
      assert (zlen ms * n = hi' - e); [|lia]. apply Heq. intros p Hp.
      specialize (Hall p ltac:(lia)). apply orb_true_iff in Hall as [Hx|Hx]; [|done].
      unfold in_range in Hx. simpl in Hx. lia.
Qed.

Definition shift (k : Z) (range : Z * Z) : Z * Z := (k + range.1, k + range.2).

(** Matches found in a slice are matches in the document. *)
Lemma leftmost_shift n occ occ' k lo hi ms : 0 < n →
  (∀ j, lo ≤ j → j + n ≤ hi → occ j ↔ occ' (k + j)) →
  leftmost_matches n occ lo hi ms → leftmost_matches n occ' (k + lo) (k + hi) (shift k <$> ms).
Proof.
  intros Hn. revert lo. induction ms as [|[s e] ms IH]; intros lo Hocc; cbn [leftmost_matches fmap list_fmap].
  - intros Hno j Hj Hjn Ho. apply (Hno (j - k)); [lia..|]. apply Hocc; [lia..|].
    by replace (k + (j - k)) with j by lia.
  - intros (? & -> & ? & Ho & Hno & Hms). unfold shift at 1. cbn [fst snd]. split_and!; [lia|lia|lia| | |].
    + apply Hocc; [lia..|done].
    + intros j Hj Hoj. apply (Hno (j - k)); [lia|]. apply Hocc; [lia..|]. by replace (k + (j - k)) with j by lia.
    + unfold shift at 1. cbn [fst snd]. apply IH; [|done]. intros j Hj. apply Hocc. lia.
Qed.

Lemma leftmost_in n occ lo hi ms : 0 < n → leftmost_matches n occ lo hi ms →
  Forall (λ range, lo ≤ range.1 ∧ range.2 ≤ hi ∧ range.1 ≤ range.2) ms.
Proof.
  intros Hn. revert lo. induction ms as [|[s e] ms IH]; intros lo Hms; [done|].
  apply leftmost_cons in Hms as (? & ? & _ & Hms); [|done]. constructor; [simpl; lia|].
  eapply Forall_impl; [by apply (IH e)|]. simpl. lia.
Qed.

(** ** The searches of the code *)

Section matches.
Context `{Profile} `{SearchLibLaws}.

(** The loop finds the matches, within one round per byte. *)
Lemma find_matches_ok fuel needle l lo hi base acc : needle ≠ [] →
  0 ≤ lo ≤ base → base ≤ hi → hi ≤ zlen l → zlen l < two63 → hi - base < Z.of_nat fuel →
  ∃ ms, find_matches fuel needle (zslice lo hi l) base (base - lo) acc = Ok (acc ++ ms) ∧
    leftmost_matches (zlen needle) (occurs (Literal <$> needle) l) base hi ms.
Proof.
  intros Hn Hlo Hbase Hhi Hfit. revert base acc Hlo Hbase. pose proof (zlen_pos _ Hn).
  assert (∀ base j, 0 ≤ base → base ≤ j → j + zlen needle ≤ hi →
    zslice (j - base) (j - base + zlen needle) (zslice base hi l) = needle ↔ occurs (Literal <$> needle) l j) as Hocc.
  { intros base j ? ? ?. rewrite occurs_literals, zslice_nested by lia.
    replace (base + (j - base)) with j by lia. by replace (base + (j - base + zlen needle)) with (j + zlen needle) by lia. }
  induction fuel as [|fuel IH]; intros base acc Hlo Hbase Hfuel; [lia|]. cbn [find_matches].
  rewrite slice_range_ok by (autorewrite with zlen; lia). cbn [mbind outcome_bind].
  replace (zslice (base - lo) _ (zslice lo hi l)) with (zslice base hi l)
    by (rewrite zlen_zslice, zslice_nested by lia; f_equal; lia).
  destruct (byte_find needle (zslice base hi l)) as [i|] eqn:E.
  - apply byte_find_some in E as (Hi & Ho & Hfirst); [|done].
    assert (base + i + zlen needle ≤ hi) as Hf.
    { apply (f_equal zlen) in Ho. rewrite zlen_zslice, zlen_zslice in Ho by lia. lia. }
    do 4 (rewrite uadd_ok by (unfold_usize; lia); cbn [mbind outcome_bind]).
    replace (base - lo + i + zlen needle) with (base + i + zlen needle - lo) by lia.
    destruct (IH (base + i + zlen needle) (acc ++ [(base + i, base + i + zlen needle)])) as (ms & -> & Hms); [lia..|].
    exists ((base + i, base + i + zlen needle) :: ms). rewrite <-app_assoc. split; [done|].
    cbn [leftmost_matches]. split_and!; try done; try lia.
    + apply (Hocc base); [lia..|]. by replace (base + i - base) with i by lia.
    + intros j Hj Hoj. apply (Hfirst (j - base)); [lia|]. apply Hocc; [lia..|done].
  - exists []. rewrite app_nil_r. split; [done|]. intros j Hj Hjf Ho.
    apply (byte_find_none _ _ Hn E (j - base)); [lia|]. apply Hocc; [lia..|done].
Qed.

Definition piece_atom (p : PatternPiece) : RegexAtom :=
  match p with Wildcard => AnyButNewline | Literal c => OneByte c end.

Lemma pattern_expr_atoms pat : pattern_expr pat = List.concat (atom_text <$> (piece_atom <$> pieces pat)).
Proof. unfold pattern_expr. rewrite <-list_fmap_compose. f_equal. apply list_fmap_ext. by intros ? [] _. Qed.

Lemma atoms_occur_pieces ps l j : atoms_occur (piece_atom <$> ps) l j ↔ occurs ps l j.
Proof.
  unfold atoms_occur, occurs. rewrite zlen_fmap, Forall2_fmap_l. split; intros HF; (eapply Forall2_impl; [exact HF|]); by intros [] ?.
Qed.

(** The regular expression finds the matches of the pattern in a slice of the
    document. *)
Lemma regex_matches_ok pat l lo hi : pieces pat ≠ [] → Forall piece_ok (pieces pat) →
  0 ≤ lo ≤ hi → hi ≤ zlen l →
  ∃ ms, regex_find_iter (pattern_expr pat) (zslice lo hi l) = Some ms ∧
    leftmost_matches (zlen (pieces pat)) (occurs (pieces pat) l) lo hi (shift lo <$> ms) ∧
    Forall (λ range, 0 ≤ range.1 ∧ range.2 ≤ hi - lo ∧ range.1 ≤ range.2) ms.
Proof.
  intros Hne Hok Hlo Hhi. pose proof (zlen_pos _ Hne). rewrite pattern_expr_atoms.
  destruct (regex_find_iter_ok (piece_atom <$> pieces pat) (zslice lo hi l)) as (ms & -> & Hms).
  { by destruct (pieces pat). }
  { apply Forall_fmap. eapply Forall_impl; [exact Hok|]. by intros []. }
  rewrite zlen_fmap, zlen_zslice, Z.max_r, Z.min_l in Hms by lia. exists ms. split; [done|].
  split; [|by eapply leftmost_in].
  pose proof (leftmost_shift (zlen (pieces pat)) (atoms_occur (piece_atom <$> pieces pat) (zslice lo hi l))
    (occurs (pieces pat) l) lo 0 (hi - lo) ms ltac:(done)) as Hshift.
  rewrite Z.add_0_r in Hshift. replace (lo + (hi - lo)) with hi in Hshift by lia.
  apply Hshift; [|done]. intros j Hj Hjn. rewrite atoms_occur_pieces.
  apply occurs_slice; lia.
Qed.

End matches.

Lemma mapM_outcome_Forall2 {A B} (f : A → outcome B) (Q : A → B → Prop) l :
  (∀ x, x ∈ l → ∃ y, f x = Ok y ∧ Q x y) → ∃ ys, mapM_outcome f l = Ok ys ∧ Forall2 Q l ys.
Proof.
  induction l as [|x l IH]; intros Hf; [by exists []|].
  destruct (Hf x) as (y & Hy & HQ); [by left|].
  destruct IH as (ys & Hys & HQs); [intros z Hz; apply Hf; by right|].
  exists (y :: ys). simpl. by rewrite Hy, Hys; auto.
Qed.

Section regions.
Context `{Profile} `{XiRopeLaws} `{SearchLibLaws}.

(** Every region is searched, and the matches of the pattern are found in it. *)
Lemma pattern_matches_ok pat b : pieces pat ≠ [] → Forall piece_ok (pieces pat) →
  selection_ok (rope_len (data b)) (selection b) → rope_len (data b) < two63 →
  ∃ mss, map_selections_to_matches pat b = Ok mss ∧
    Forall2 (region_matches pat (rope_bytes (data b))) (regions (selection b)) mss.
Proof.
  intros Hne Hpok Hok Hfit. set (doc := rope_bytes (data b)).
  pose proof (rope_len_bytes (data b)) as Hlen. fold doc in Hlen.
  assert (∀ r, r ∈ regions (selection b) → 0 ≤ rmin r ≤ Z.min (rmax r + 1) (zlen doc) ∧
    slice_to_cow (data b) (iv_from_inclusive (rmin r) (rmax r)) =
      Ok (zslice (rmin r) (Z.min (rmax r + 1) (zlen doc)) doc)) as Hslice.
  { intros r Hr%(regions_range _ _ Hok). pose proof (rmin_le_rmax r). split; [lia|].
    rewrite iv_from_inclusive_spec by (unfold_usize; lia).
    rewrite slice_to_cow_bytes by (simpl; unfold_usize; lia). cbn [iv_start iv_end].
    by rewrite zslice_clamp by lia. }
  unfold map_selections_to_matches. destruct (as_basic_slice pat) as [needle|] eqn:Eb;
    apply mapM_outcome_Forall2; intros r Hr; destruct (Hslice r Hr) as [Hrange ->]; cbn [mbind outcome_bind].
  - apply as_basic_slice_literals in Eb. unfold region_matches. rewrite Eb, zlen_fmap.
    destruct (find_matches_ok (1 + List.length (zslice (rmin r) (Z.min (rmax r + 1) (zlen doc)) doc)) needle doc
      (rmin r) (Z.min (rmax r + 1) (zlen doc)) (rmin r) []) as (ms & Hms & Hleft); try done; try lia.
    + intros ->. by rewrite Eb in Hne.
    + assert (zlen (zslice (rmin r) (Z.min (rmax r + 1) (zlen doc)) doc) =
        Z.min (rmax r + 1) (zlen doc) - rmin r) as Hz by (rewrite zlen_zslice; lia).
      unfold zlen in *. lia.
    + exists ms. rewrite Z.sub_diag in Hms. done.
  - destruct (regex_matches_ok pat doc (rmin r) (Z.min (rmax r + 1) (zlen doc))) as (ms & -> & Hms & Hin);
      [done|done|lia|lia|]. cbn [unwrap mbind outcome_bind]. exists (shift (rmin r) <$> ms). split; [|done].
    apply (mapM_outcome_Ok _ (shift (rmin r))). intros [s e] Hse. rewrite Forall_forall in Hin.
    specialize (Hin _ Hse). simpl in Hin. do 2 (rewrite uadd_ok by (unfold_usize; lia); cbn [mbind outcome_bind]). done.
Qed.

End regions.

(** ** An instance of the libraries *)

(** The atoms match the beginning of [l]. *)
Fixpoint prefixb (atoms : list RegexAtom) (l : bytes) : bool :=
  match atoms, l with
  | [], _ => true
  | a :: atoms', c :: l' => atom_matches a c && prefixb atoms' l'
  | _, [] => false
  end.

(** The matches in [l], which starts at position [i]; the next [skip] positions
    belong to the match before. *)
Fixpoint scan (atoms : list RegexAtom) (skip : nat) (l : bytes) (i : Z) : list (Z * Z) :=
  match l with
  | [] => []
  | _ :: l' =>
      match skip with
      | S k => scan atoms k l' (i + 1)
      | O =>
          if prefixb atoms l
          then (i, i + zlen atoms) :: scan atoms (Nat.pred (List.length atoms)) l' (i + 1)
          else scan atoms 0 l' (i + 1)
      end
  end.

Fixpoint parse_atoms (l : bytes) : option (list RegexAtom) :=
  match l with
  | [] => Some []
  | c :: l1 =>
      if c =? 46 then cons AnyButNewline <$> parse_atoms l1
      else match l1 with
           | x :: h :: d :: l' =>
               if (c =? 92) && (x =? 120) then
                 match to_digit16 h, to_digit16 d with
                 | Some a, Some b => cons (OneByte (16 * a + b)) <$> parse_atoms l'
                 | _, _ => None
                 end
               else None
           | _ => None
           end
  end.

#[export] Instance naive_search : SearchLib := {|
  byte_find needle l := fst <$> head (scan (OneByte <$> needle) 0 l 0);
  regex_find_iter expr l := atoms ← parse_atoms expr; Some (scan atoms 0 l 0);
|}.

Lemma to_digit16_char d : 0 ≤ d < 16 → to_digit16 (digit_char d) = Some d.
Proof. unfold to_digit16, digit_char. intros. zcases; f_equal; lia. Qed.

Lemma parse_atoms_text atoms : Forall atom_ok atoms → parse_atoms (List.concat (atom_text <$> atoms)) = Some atoms.
Proof.
  induction 1 as [|a atoms Ha _ IH]; [done|]. destruct a as [|c]; cbn.
  - by rewrite IH.
  - unfold atom_ok, is_u8 in Ha. pose proof (Z.mod_pos_bound c 16 ltac:(done)).
    pose proof (Z.div_mod c 16 ltac:(done)). rewrite !to_digit16_char by lia. rewrite IH. simpl. do 3 f_equal. lia.
Qed.

Lemma prefixb_spec atoms l :
  prefixb atoms l = true ↔ Forall2 (λ a c, atom_matches a c = true) atoms (take (List.length atoms) l).
Proof.
  revert l. induction atoms as [|a atoms IH]; intros [|c l]; simpl.
  - done.
  - done.
  - split; [done|]. intros HF. inversion HF.
  - rewrite andb_true_iff, IH, Forall2_cons. done.
Qed.

Lemma prefixb_occur atoms L j : 0 ≤ j → prefixb atoms (zdrop j L) = true ↔ atoms_occur atoms L j.
Proof.
  intros Hj. rewrite prefixb_spec. unfold atoms_occur, zslice, ztake, zdrop, zlen.
  replace (Z.to_nat (j + Z.of_nat (List.length atoms) - j)) with (List.length atoms) by lia. done.
Qed.

Lemma atoms_occur_fits atoms L j : 0 ≤ j → atoms_occur atoms L j → j + zlen atoms ≤ Z.max j (zlen L).
Proof.
  intros Hj HF%Forall2_length. pose proof (zlen_zslice j (j + zlen atoms) L Hj) as Hz. unfold zlen in *. lia.
Qed.

Lemma zdrop_S {A} i (L : list A) c l : 0 ≤ i → zdrop i L = c :: l → zdrop (i + 1) L = l ∧ i < zlen L.
Proof.
  intros Hi E. pose proof (zlen_zdrop i L) as Hz. rewrite E, zlen_cons in Hz. pose proof (zlen_nonneg l).
  split; [|lia]. unfold zdrop in *. replace (Z.to_nat (i + 1)) with (Z.to_nat i + 1)%nat by lia.
  by rewrite <-drop_drop, E.
Qed.

Lemma scan_ok atoms L skip l i : atoms ≠ [] → 0 ≤ i → zdrop i L = l → Z.of_nat skip ≤ zlen l →
  leftmost_matches (zlen atoms) (atoms_occur atoms L) (i + Z.of_nat skip) (zlen L) (scan atoms skip l i).
Proof.
  intros Hne. pose proof (zlen_pos _ Hne) as Hn. revert skip i. induction l as [|c l IH]; intros skip i Hi Hl Hskip.
  - change (zlen (@nil Z)) with 0 in Hskip. pose proof (zlen_zdrop i L) as Hz. rewrite Hl in Hz.
    change (zlen (@nil Z)) with 0 in Hz. intros j Hj Hjn. lia.
  - destruct (zdrop_S i L c l Hi Hl) as [Hl' Hlt]. rewrite zlen_cons in Hskip. destruct skip as [|k]; cbn [scan].
    + rewrite <-Hl. destruct (prefixb atoms (zdrop i L)) eqn:E; rewrite ?Z.add_0_r.
      * apply prefixb_occur in E as Ho; [|done]. pose proof (atoms_occur_fits _ _ _ Hi Ho).
        pose proof (zlen_zdrop i L) as Hz. rewrite Hl, zlen_cons in Hz.
        cbn [leftmost_matches]. split_and!; [lia|done|lia|done|lia|].
        replace (i + zlen atoms) with (i + 1 + Z.of_nat (Nat.pred (List.length atoms))) by (unfold zlen in *; lia).
        apply IH; [lia|done|]. unfold zlen in *. lia.
      * specialize (IH 0%nat (i + 1) ltac:(lia) Hl' ltac:(pose proof (zlen_nonneg l); lia)).
        rewrite Z.add_0_r in IH.
        assert (¬ atoms_occur atoms L i) as Hno by (intros Ho%prefixb_occur; [congruence|done]).
        destruct (scan atoms 0 l (i + 1)) as [|[s e] ms]; cbn [leftmost_matches] in *.
        -- intros j Hj Hjn. destruct (Z.eq_dec j i) as [->|]; [done|]. apply IH; lia.
        -- destruct IH as (? & ? & ? & ? & Hlow & ?). split_and!; try done; [lia|].
           intros j Hj. destruct (Z.eq_dec j i) as [->|]; [done|]. apply Hlow. lia.
    + replace (i + Z.of_nat (S k)) with (i + 1 + Z.of_nat k) by lia. apply IH; [lia|done|lia].
Qed.

Lemma atoms_occur_bytes needle l j : atoms_occur (OneByte <$> needle) l j ↔ zslice j (j + zlen needle) l = needle.
Proof.
  rewrite <-occurs_literals, <-atoms_occur_pieces. by rewrite <-list_fmap_compose.
Qed.

#[export] Instance naive_search_laws : SearchLibLaws.
Proof.
  split; simpl.
  - intros needle l i Hne E.
    pose proof (scan_ok (OneByte <$> needle) l 0 l 0 ltac:(by destruct needle) ltac:(done) eq_refl (zlen_nonneg l)) as Hs.
    destruct (scan _ _ _ _) as [|[s e] ms]; [done|]. injection E as <-.
    destruct Hs as (? & _ & _ & Ho & Hlow & _). rewrite atoms_occur_bytes in Ho. split_and!; [done|done|].
    intros j Hj. rewrite <-atoms_occur_bytes. apply Hlow. simpl. lia.
  - intros needle l Hne E j Hj. rewrite <-atoms_occur_bytes. intros Ho.
    pose proof (scan_ok (OneByte <$> needle) l 0 l 0 ltac:(by destruct needle) ltac:(done) eq_refl (zlen_nonneg l)) as Hs.
    pose proof (zlen_pos _ Hne). apply atoms_occur_fits in Ho as Hf; [|done]. rewrite zlen_fmap in Hf.
    destruct (scan _ _ _ _) as [|[s e] ms]; [|done]. apply (Hs j); [done| |done]. rewrite zlen_fmap. lia.
  - intros atoms l Hne Hok. rewrite parse_atoms_text by done. simpl. eexists. split; [done|].
    apply (scan_ok atoms l 0 l 0 Hne); done || apply zlen_nonneg.
Qed.
