(* ===== verification/SearchTheorems.v ===== *)
(** * SearchTheorems: splitting and searching selections

    The matches that are found, the selections that splitting and collapsing
    leave, and the inputs on which they panic. *)

From S2P Require Import Prelude KeyMap CmdCount Masks XiRope XiRopeRef ByteRope Selection SelectionMap.
From S2P Require Import SelectionMoves SelectionQueries SelectionExact SelectionParts Operations Edits.
From S2P Require Import History SelectionDelta CurrentBuffer BufferTheorems DirtyBytes Text Mode NormalMode SearchMode.
From S2P Require Import Matches.

(** ** Parts of a buffer's regions *)

Section buffer_parts.
Context `{Profile} `{XiRope} {S : Type} (f : S → SelRegion → outcome (list SelRegion * S)).

Lemma runs_recorded s ivs rs parts s' : runs f s rs parts s' →
  ∃ ivs', runs (record_ranges f) (s, ivs) rs parts (s', ivs').
Proof.
  intros Hr. revert ivs. induction Hr as [s|s r news s1 rs parts s2 Hf Hp _ IH]; intros ivs.
  - exists ivs. constructor.
  - edestruct IH as [ivs' Hr']. exists ivs'. econstructor; [|done|exact Hr'].
    unfold record_ranges. rewrite Hf. done.
Qed.

(** The selection that consists of [parts], the last one up to the region [m]
    being the main one. *)
Definition parts_selection (m : Z) (parts : list (list SelRegion)) : Selection :=
  let before := concat (take (1 + Z.to_nat m) parts) in
  mkSelection (relabel (zlen before - 1) (concat parts)) (zlen before - 1).

Lemma map_selections_buffer_parts max_size b s parts s' :
  selection_ok max_size (selection b) → max_size < two63 →
  runs f s (regions (selection b)) parts s' →
  let m := main_selection (selection b) in
  (∀ i news, parts !! i = Some news → parts_flags (Z.of_nat i =? m) news) →
  (concat (take (1 + Z.to_nat m) parts) ≠ [] → ∃ dirty,
     map_selections_buffer b f s = Ok (with_selection b (parts_selection m parts), dirty, s') ∧
     selection_ok max_size (parts_selection m parts)) ∧
  (concat (take (1 + Z.to_nat m) parts) = [] → ∃ p, map_selections_buffer b f s = Panic p).
Proof.
  intros Hok Hmax Hr m Hfl. destruct (runs_recorded s [] _ _ _ Hr) as [ivs Hr'].
  destruct (map_selections_parts _ _ _ _ _ _ Hok Hmax Hr' Hfl) as [Hsome Hnone].
  unfold map_selections_buffer. fold (record_ranges f). split; intros Hne.
  - destruct (Hsome Hne) as [-> Hok']. eexists. split; [done|exact Hok'].
  - destruct (Hnone Hne) as [p ->]. by exists p.
Qed.

End buffer_parts.

Lemma selected_concat parts p : selected (concat parts) p = existsb (λ news, selected news p) parts.
Proof.
  unfold selected. induction parts as [|news parts IH]; simpl; [done|]. by rewrite existsb_app, IH.
Qed.

Lemma selected_relabel m rs p : selected (relabel m rs) p = selected rs p.
Proof.
  unfold selected, relabel.
  assert (∀ h : nat → bool, existsb (in_regionb p) (imap (λ i r, with_main r (h i)) rs) =
    existsb (in_regionb p) rs) as Hh; [|apply (Hh (λ i, Z.of_nat i =? m))].
  induction rs as [|r rs IH]; intros h; [done|]. simpl. f_equal. apply (IH (λ i, h (S i))).
Qed.

(** ** Splitting by width *)

(** [x] is the piece of [r] that starts a multiple of [step] after its start. *)
Definition width_piece (r : SelRegion) (step : Z) (x : SelRegion) : Prop :=
  (step | rmin x - rmin r) ∧ rmax x = Z.min (rmax r) (rmin x + step - 1) ∧
  x = with_direction (region_new (rmin x) (rmax x)) (backward r).

Section width.
Context `{Profile}.

Lemma with_direction_extent c t d : c ≤ t →
  rmin (with_direction (region_new c t) d) = c ∧ rmax (with_direction (region_new c t) d) = t ∧
  is_main (with_direction (region_new c t) d) = false.
Proof. intros. unfold with_direction. destruct d; region_lia; done. Qed.

(** The loop ends within one round per byte and cuts what is left of the
    region into pieces. *)
Lemma width_regions_ok fuel r step pos : 1 ≤ step → 0 ≤ rmin r ≤ pos → rmax r + step ≤ usize_max →
  rmax r - pos + 1 ≤ Z.of_nat fuel → (step | pos - rmin r) →
  ∃ rs, width_regions fuel r step pos = Ok rs ∧ regions_from pos rs ∧
    Forall (λ x, rmax x ≤ rmax r ∧ is_main x = false ∧ width_piece r step x) rs ∧
    (pos ≤ rmax r → rs ≠ []) ∧
    ∀ p, selected rs p = (pos <=? p) && (p <=? rmax r).
Proof.
  intros Hstep Hmin Hmax. revert pos Hmin.
  induction fuel as [|fuel IH]; intros pos Hmin Hfuel Hdiv; cbn [width_regions];
    destruct (Z.ltb_spec (rmax r) pos) as [Hlt|Hge].
  1,3: exists []; split_and!; [done|done|done|lia|]; intros p; simpl; symmetry; zcases; lia.
  - lia.
  - rewrite uadd_ok by (unfold_usize; lia). cbn [mbind outcome_bind].
    rewrite usub_ok by (unfold_usize; lia). cbn [mbind outcome_bind].
    destruct (IH (pos + step)) as (rs & -> & Hs & Hf & _ & Hsel); [lia|lia| |].
    { replace (pos + step - rmin r) with (pos - rmin r + step) by lia. by apply Z.divide_add_r; [|exists 1; lia]. }
    cbn [mbind outcome_bind]. eexists. split; [done|].
    destruct (with_direction_extent pos (Z.min (rmax r) (pos + step - 1)) (backward r)) as (H1 & H2 & H3); [lia|].
    set (x := with_direction _ _) in *. split_and!.
    + simpl. split; [lia|]. eapply regions_from_weaken; [|exact Hs]. lia.
    + constructor; [|done]. split_and!; [lia|done|]. unfold width_piece. rewrite H1, H2. done.
    + done.
    + intros p. simpl. rewrite Hsel. unfold in_regionb. rewrite H1, H2.
      destruct (Z.leb_spec pos p), (Z.leb_spec p (Z.min (rmax r) (pos + step - 1))),
        (Z.leb_spec (pos + step) p), (Z.leb_spec p (rmax r)); simpl; done || lia.
Qed.

Lemma split_width_ok r width count : 1 ≤ width → 1 ≤ count → 0 ≤ rmin r →
  rmax r + width * count ≤ usize_max →
  ∃ rs, split_width width count r = Ok rs ∧ parts_of r rs ∧ rs ≠ [] ∧
    Forall (λ x, is_main x = false ∧ width_piece r (width * count) x) rs ∧
    ∀ p, selected rs p = in_regionb p r.
Proof.
  intros Hw Hc H0 Hmax. assert (1 ≤ width * count) by nia. pose proof (rmin_le_rmax r).
  unfold split_width. rewrite umul_ok by (unfold_usize; lia). cbn [mbind outcome_bind].
  rewrite (proj2 (Z.eqb_neq _ _)) by lia.
  destruct (width_regions_ok (Z.to_nat (rmax r - rmin r + 1)) r (width * count) (rmin r))
    as (rs & -> & Hs & Hf & Hne & Hsel); [lia..|exists 0; lia|].
  exists rs. split_and!; [done| |by apply Hne| |done].
  - split; [done|]. eapply Forall_impl; [exact Hf|]. simpl. tauto.
  - eapply Forall_impl; [exact Hf|]. simpl. tauto.
Qed.

(** A closure without state, run over all regions. *)
Lemma runs_each (g : SelRegion → outcome (list SelRegion)) (Q : SelRegion → list SelRegion → Prop) rs :
  (∀ r, r ∈ rs → ∃ news, g r = Ok news ∧ parts_of r news ∧ Q r news) →
  ∃ parts, runs (λ (u : unit) r, news ← g r; Ok (news, u)) tt rs parts tt ∧ Forall2 Q rs parts.
Proof.
  induction rs as [|r rs IH]; intros Hg.
  - exists []. by repeat constructor.
  - destruct (Hg r) as (news & Hr & Hp & HQ); [by left|].
    destruct IH as (parts & Hruns & HQs); [intros x Hx; apply Hg; by right|].
    exists (news :: parts). split; [|by constructor]. econstructor; [|done|exact Hruns]. by rewrite Hr.
Qed.

Lemma take_concat_ne {A} (l : list (list A)) m x : l !! m = Some x → x ≠ [] → concat (take (1 + m) l) ≠ [].
Proof.
  intros Hm Hx. change (1 + m)%nat with (S m). rewrite (take_S_r _ _ _ Hm), concat_app. simpl. rewrite app_nil_r.
  by intros [_ ?]%app_nil.
Qed.

Lemma concat_take_ne {A} (l : list (list A)) n : concat (take n l) ≠ [] → concat l ≠ [].
Proof.
  intros Hne E. apply Hne. rewrite <-(take_drop n l), concat_app in E. by apply app_nil in E as [? _].
Qed.

Context `{XiRope}.

(** C39: splitting by a positive width with a positive count, small enough that
    the length of the document plus width times count does not overflow, does
    not panic on a well-formed selection. The same bytes stay selected; every new region lies in an
    old one, starts a multiple of the width after its start, ends one width
    later or with it, and keeps its direction. The result is well formed. *)
Theorem split_width_partitions b max_size width count :
  selection_ok max_size (selection b) → max_size < two63 → 1 ≤ width → 1 ≤ count →
  max_size + width * count ≤ usize_max →
  ∃ b' dirty, map_selections_buffer b
      (λ u region, rs ← split_width width count region; Ok (rs, u)) tt = Ok (b', dirty, tt) ∧
    selection_ok max_size (selection b') ∧
    (∀ p, selected (regions (selection b')) p = selected (regions (selection b)) p) ∧
    ∀ x, x ∈ regions (selection b') →
      ∃ r m, r ∈ regions (selection b) ∧ width_piece r (width * count) (with_main x m).
Proof.
  intros Hok Hmax Hw Hc Hfit. pose proof Hok as [Hm Hs Hb _].
  set (Q r news := news ≠ [] ∧ Forall (λ x, is_main x = false ∧ width_piece r (width * count) x) news ∧
    ∀ p, selected news p = in_regionb p r).
  destruct (runs_each (split_width width count) Q (regions (selection b))) as (parts & Hruns & HQ).
  { intros r Hr. apply list_elem_of_lookup in Hr as [i Hi].
    pose proof (regions_from_lookup _ _ _ _ Hs Hi). pose proof (Forall_lookup_1 _ _ _ _ Hb Hi) as Hrb.
    simpl in Hrb. destruct (split_width_ok r width count) as (rs & ? & ? & ? & ? & ?); [lia..|].
    by exists rs. }
  destruct (map_selections_buffer_parts _ max_size b _ _ _ Hok Hmax Hruns) as [Hsome _].
  { intros i news Hi. destruct (Forall2_lookup_r _ _ _ _ _ HQ Hi) as (r & _ & _ & Hf & _).
    unfold parts_flags. destruct (_ =? _); [apply Forall_removelast|];
      (eapply Forall_impl; [exact Hf|]); simpl; tauto. }
  destruct Hsome as (dirty & Hmap & Hok').
  { destruct (zlookup_lt _ _ Hm) as [r [_ Hrm]%zlookup_Some].
    destruct (Forall2_lookup_l _ _ _ _ _ HQ Hrm) as (news & Hn & Hne & _).
    by apply (take_concat_ne _ _ news). }
  exists (with_selection b (parts_selection (main_selection (selection b)) parts)), dirty.
  split; [done|]. split; [done|]. cbn [selection with_selection parts_selection regions]. split.
  - intros p. rewrite selected_relabel, selected_concat. clear -HQ. unfold selected at 2.
    induction HQ as [|r news rs parts (_ & _ & Hsel) _ IH]; simpl; [done|]. by rewrite Hsel, IH.
  - intros x Hx. apply list_elem_of_lookup in Hx as [i Hi]. rewrite relabel_lookup in Hi.
    destruct (concat parts !! i) as [y|] eqn:Ey; [|done]. injection Hi as <-.
    apply list_elem_of_lookup_2, list_elem_of_In, in_concat in Ey as (news & Hn%list_elem_of_In & Hy%list_elem_of_In).
    apply list_elem_of_lookup in Hn as [k Hk].
    destruct (Forall2_lookup_r _ _ _ _ _ HQ Hk) as (r & Hr & _ & Hf & _).
    rewrite Forall_forall in Hf. destruct (Hf y Hy) as [Hmain Hp].
    exists r, false. split; [by apply list_elem_of_lookup_2 in Hr|]. destruct y. simpl in *. by subst.
Qed.

(** a count of zero before a width makes split mode panic: the step of
    its loop is zero. *)
Theorem split_width_zero_panics self evt width (c : BuffrCollection) b :
  current c = Ok b → regions (selection b) ≠ [] →
  CmdCount.transition (split_count_state self) evt = Ok NotHandled →
  to_count (split_count_state self) = 0 → event_to_action split_maps evt = Some (Width width) →
  ∀ `{SearchLib}, split_transition self evt c = Panic PanicAssert.
Proof.
  intros Hc Hne Ht Hz Ha Hlib. unfold split_transition. rewrite Hc. cbn [mbind outcome_bind].
  rewrite Ht. cbn [mbind outcome_bind]. rewrite Ha, Hz.
  unfold map_selections_buffer, map_selections.
  destruct (regions (selection b)) as [|r rs]; [done|]. cbn [map_loop mbind outcome_bind].
  unfold split_width, umul. by rewrite Z.mul_0_r.
Qed.

End width.

(** ** Searching *)

Section search.
Context `{Profile} `{XiRopeLaws} `{SearchLibLaws}.
Context (pat : Pattern) (b : CurrentBuffer).
Hypothesis pat_ne : pieces pat ≠ [].
Hypothesis pat_ok : Forall piece_ok (pieces pat).
Hypothesis sel_ok : selection_ok (rope_len (data b)) (selection b).
Hypothesis doc_fits : rope_len (data b) < two63.

Abbreviation doc := (rope_bytes (data b)).
Abbreviation sel := (selection b).
Abbreviation matches := (region_matches pat doc).
Abbreviation plen := (zlen (pieces pat)).
Abbreviation occ := (occurs (pieces pat) doc).

Lemma plen_pos : 0 < plen.
Proof. by apply zlen_pos. Qed.

Lemma pieces_ne : (plen =? 0) = false.
Proof. pose proof plen_pos. apply Z.eqb_neq. lia. Qed.

Lemma found_matches : ∃ mss, map_selections_to_matches pat b = Ok mss ∧ Forall2 matches (regions sel) mss.
Proof. by apply pattern_matches_ok. Qed.

(** The number of matched bytes, computed without overflow. *)
Lemma matches_total lo rs mss : Forall2 matches rs mss → regions_from lo rs →
  Forall (λ r, rmax r ≤ rope_len (data b)) rs →
  0 ≤ zlen (concat mss) * plen ≤ Z.max 0 (rope_len (data b) - lo).
Proof.
  intros HF. pose proof plen_pos. pose proof (rope_len_bytes (data b)) as Hlen.
  revert lo. induction HF as [|r ms rs mss Hms _ IH]; intros lo Hs Hb.
  - change (zlen (concat [])) with 0. lia.
  - destruct Hs as [Hr Hs]. apply Forall_cons in Hb as [Hrb Hb]. cbn [concat]. rewrite zlen_app.
    pose proof (rmin_le_rmax r). pose proof (zlen_nonneg ms).
    assert (rmin r ≤ Z.min (rmax r + 1) (zlen doc)) as Hmin by lia.
    destruct (leftmost_full _ _ _ _ _ _ plen_pos Hms (Z.le_refl _) Hmin) as [Hle _].
    specialize (IH _ Hs Hb). nia.
Qed.

Lemma sum_ranges ranges acc : Forall (λ '(s, e), e - s = plen) ranges → 0 ≤ acc →
  acc + zlen ranges * plen ≤ usize_max →
  foldM (λ acc '(s, e), n ← usub e s; uadd acc n) acc ranges = Ok (acc + zlen ranges * plen).
Proof.
  pose proof plen_pos.
  revert acc. induction ranges as [|[s e] ranges IH]; intros acc Hf Hacc Hmax.
  - change (zlen []) with 0. cbn [foldM]. f_equal. lia.
  - apply Forall_cons in Hf as [He Hf]. rewrite zlen_cons in *. pose proof (zlen_nonneg ranges).
    cbn [foldM]. rewrite usub_ok, He by (unfold_usize; nia). cbn [mbind outcome_bind].
    rewrite uadd_ok by (unfold_usize; nia). cbn [mbind outcome_bind]. rewrite IH; [f_equal; lia|done|lia|lia].
Qed.

Lemma leftmost_widths lo hi ms : leftmost_matches plen occ lo hi ms →
  Forall (λ '(s, e), e - s = plen) ms.
Proof.
  revert lo. induction ms as [|[s e] ms IH]; intros lo Hms; [done|].
  apply leftmost_cons in Hms as (_ & _ & ? & Hms); [|apply plen_pos]. eauto.
Qed.

Lemma matched_length_ok mss : Forall2 matches (regions sel) mss →
  matched_length mss = Ok (zlen (concat mss) * plen).
Proof.
  intros HF. pose proof sel_ok as [_ Hs Hb _]. pose proof (matches_total 0 _ _ HF Hs Hb).
  unfold matched_length. rewrite sum_ranges; [done| |done|unfold_usize; lia].
  apply Forall_concat, Forall_lookup. intros i ms Hi.
  destruct (Forall2_lookup_r _ _ _ _ _ HF Hi) as (r & _ & Hms). by eapply leftmost_widths.
Qed.

(** *** Collapse *)

Definition match_region (r : SelRegion) (range : Z * Z) : SelRegion :=
  inherit_direction (region_new range.1 (range.2 - 1)) r.

Definition extent (r : SelRegion) : Z * Z := (rmin r, rmax r + 1).

Lemma match_regions_ok r lo hi ms : leftmost_matches plen occ lo hi ms → 0 ≤ lo → hi ≤ usize_max →
  let news := match_region r <$> ms in
  mapM_outcome (λ '(s, e), e1 ← usub e 1; Ok (inherit_direction (region_new s e1) r)) ms = Ok news ∧
  regions_from lo news ∧ Forall (λ x, rmax x < hi ∧ is_main x = false) news ∧ extent <$> news = ms.
Proof.
  revert lo. induction ms as [|[s e] ms IH]; intros lo Hms Hlo Hhi; [done|].
  apply leftmost_cons in Hms as (? & ? & _ & Hms); [|apply plen_pos]. simpl.
  rewrite usub_ok by (unfold_usize; lia). cbn [mbind outcome_bind].
  destruct (IH e Hms ltac:(lia) Hhi) as (-> & Hs & Hf & Hx).
  assert (rmin (match_region r (s, e)) = s ∧ rmax (match_region r (s, e)) = e - 1) as [Hmin Hmax].
  { unfold match_region. rewrite !(proj1 (inherit_direction_extent _ _)), (proj2 (inherit_direction_extent _ _)).
    region_lia. }
  fold (match_region r (s, e)).
  split_and!; [done|lia|by rewrite Hmax, Z.sub_add| |].
  - constructor; [|done]. split; [lia|]. unfold match_region, inherit_direction. by destruct (forward r).
  - unfold extent at 1. rewrite Hmin, Hmax, Z.sub_add. f_equal. exact Hx.
Qed.

(** The closure of [collapse_apply_search]. *)
Definition collapse_closure (remaining : list (list (Z * Z))) (r : SelRegion) :
    outcome (list SelRegion * list (list (Z * Z))) :=
  match remaining with
  | this :: rest =>
      out ← mapM_outcome (λ '(s, e), e1 ← usub e 1; Ok (inherit_direction (region_new s e1) r)) this;
      Ok (out, rest)
  | [] => Panic PanicUnwrap
  end.

Lemma collapse_runs rs mss : Forall2 matches rs mss → Forall (λ r, 0 ≤ rmin r ∧ rmax r ≤ rope_len (data b)) rs →
  ∃ parts, runs collapse_closure mss rs parts [] ∧
    Forall2 (λ ms news, extent <$> news = ms ∧ Forall (λ x, is_main x = false) news) mss parts.
Proof.
  intros HF. induction HF as [|r ms rs mss Hms _ IH]; intros Hb.
  - exists []. by repeat constructor.
  - apply Forall_cons in Hb as [Hr Hb]. destruct (IH Hb) as (parts & Hruns & HQ).
    destruct (match_regions_ok r _ _ _ Hms) as (Hmap & Hs & Hf & Hx); [lia|unfold_usize; lia|].
    exists ((match_region r <$> ms) :: parts). split.
    + econstructor; [|split; [exact Hs|]|exact Hruns].
      * unfold collapse_closure. by rewrite Hmap.
      * eapply Forall_impl; [exact Hf|]. simpl. lia.
    + constructor; [|done]. split; [done|]. eapply Forall_impl; [exact Hf|]. simpl. tauto.
Qed.

Lemma concat_extents (mss : list (list (Z * Z))) parts :
  Forall2 (λ ms news, extent <$> news = ms ∧ Forall (λ x, is_main x = false) news) mss parts →
  extent <$> concat parts = concat mss.
Proof.
  induction 1 as [|ms news mss parts [Hx _] _ IH]; [done|]. simpl. by rewrite fmap_app, IH, Hx.
Qed.

Lemma extent_relabel m rs : extent <$> relabel m rs = extent <$> rs.
Proof.
  apply list_eq. intros i. rewrite !list_lookup_fmap, relabel_lookup. by destruct (rs !! i).
Qed.

(** C14: searching in collapse mode for a pattern that is not empty finds in
    every region the leftmost matches, each after the end of the one before; a
    literal matches its byte and a wildcard every byte but a line feed.
    Without a match nothing changes. When a region up to the main one has a
    match, the new regions are exactly the matches and form a well-formed
    selection. When only regions after the main one have matches the editor
    panics. *)
Theorem collapse_search_exact :
  ∃ mss, Forall2 (region_matches pat (rope_bytes (data b))) (regions (selection b)) mss ∧
    let before := concat (take (1 + Z.to_nat (main_selection (selection b))) mss) in
    (concat mss = [] → collapse_apply_search pat b = Ok (NewMode (MNormal normal_new), b)) ∧
    (before ≠ [] → ∃ b' dirty,
       collapse_apply_search pat b = Ok (ModeAndDirtyBytes (MNormal normal_new) dirty, b') ∧
       data b' = data b ∧ selection_ok (rope_len (data b)) (selection b') ∧
       extent <$> regions (selection b') = concat mss) ∧
    (concat mss ≠ [] → before = [] → ∃ p, collapse_apply_search pat b = Panic p).
Proof.
  destruct found_matches as (mss & Hmap & HF). exists mss. split; [done|]. intros before.
  unfold collapse_apply_search. rewrite pieces_ne, Hmap. cbn [mbind outcome_bind].
  rewrite (matched_length_ok _ HF). cbn [mbind outcome_bind].
  change (map_selections_buffer b _ mss) with (map_selections_buffer b collapse_closure mss).
  pose proof sel_ok as [Hm _ _ _]. pose proof plen_pos.
  destruct (collapse_runs _ _ HF (selection_ok_regions _ _ sel_ok)) as (parts & Hruns & HQ).
  destruct (map_selections_buffer_parts _ _ b _ _ _ sel_ok doc_fits Hruns) as [Hsome Hnone].
  { intros i news Hi. destruct (Forall2_lookup_r _ _ _ _ _ HQ Hi) as (r & _ & _ & Hf).
    unfold parts_flags. destruct (_ =? _); [by apply Forall_removelast|done]. }
  pose proof (Forall2_take _ _ _ (1 + Z.to_nat (main_selection sel))%nat HQ) as HQt.
  apply concat_extents in HQt. fold before in HQt.
  assert (concat mss ≠ [] → (zlen (concat mss) * plen =? 0) = false) as Hne.
  { intros Hc%zlen_pos. apply Z.eqb_neq. nia. }
  split_and!.
  - intros ->. done.
  - intros Hb. rewrite Hne by (by apply (concat_take_ne _ (1 + Z.to_nat (main_selection sel))%nat)).
    destruct Hsome as (dirty & -> & Hok'); [intros E; apply Hb; by rewrite <-HQt, E|].
    cbn [mbind outcome_bind]. eexists _, dirty. split; [done|]. cbn. split_and!; [done|done|].
    rewrite extent_relabel. by apply concat_extents.
  - intros Hc Hb. rewrite (Hne Hc). rewrite Hb in HQt. destruct Hnone as [p ->]; [by apply fmap_nil_inv in HQt|].
    by exists p.
Qed.

(** *** Split *)

Lemma split_at_flags r s e left right : split_at_region r s e = Ok (left, right) →
  (∀ x, left = Some x → is_main x = false) ∧ (∀ x, right = Some x → is_main x = false).
Proof.
  unfold split_at_region, inherit_direction. intros E.
  destruct (s <=? rmin r), (rmax r <=? e); outcome_inv; split; intros x; try done;
    intros [= <-]; by destruct (forward r).
Qed.

(** The parts of [r] around one match. *)
Lemma split_at_match r s e : 0 ≤ rmin r → rmax r < usize_max → rmin r ≤ s < e → e ≤ rmax r + 1 →
  ∃ left right, split_at_region r s (e - 1) = Ok (left, right) ∧
    match left with
    | Some l => rmin l = rmin r ∧ rmax l = s - 1 ∧ rmin r < s ∧ is_main l = false
    | None => s = rmin r
    end ∧
    match right with
    | Some x => rmin x = e ∧ rmax x = rmax r ∧ e ≤ rmax r ∧ is_main x = false
    | None => e = rmax r + 1
    end.
Proof.
  intros Hmin Hmax Hs He.
  destruct (split_at_region_parts r s (e - 1)) as (left & right & E & Hl & Hr & Hln & Hrn); [lia..|].
  exists left, right. split; [done|]. apply split_at_flags in E as [Hfl Hfr]. split.
  - destruct left as [l|]; [|by apply Hln]. specialize (Hfl l eq_refl).
    assert (s ≠ rmin r) by (intros Hs'%Hln; done). unfold in_option, in_region in Hl. pose proof (rmin_le_rmax l).
    pose proof (proj1 (Hl (rmin l)) ltac:(lia)). pose proof (proj1 (Hl (rmax l)) ltac:(lia)).
    pose proof (proj2 (Hl (rmin r)) ltac:(lia)). pose proof (proj2 (Hl (s - 1)) ltac:(lia)).
    split_and!; lia || done.
  - destruct right as [x|]; [|pose proof (proj1 Hrn eq_refl); lia]. specialize (Hfr x eq_refl).
    assert (e - 1 ≠ rmax r) by (intros Hs'%Hrn; done). unfold in_option, in_region in Hr. pose proof (rmin_le_rmax x).
    pose proof (proj1 (Hr (rmin x)) ltac:(lia)). pose proof (proj1 (Hr (rmax x)) ltac:(lia)).
    pose proof (proj2 (Hr e) ltac:(lia)). pose proof (proj2 (Hr (rmax r)) ltac:(lia)).
    split_and!; lia || done.
Qed.

Lemma parts_flags_all f news : Forall (λ x, is_main x = false) news → parts_flags f news.
Proof. unfold parts_flags. destruct f; [apply Forall_removelast|done]. Qed.

(** Comparisons with [p], one by one. *)
Ltac bool_cases p :=
  repeat match goal with
  | Hout : ∀ p, matched ?ms p = true → _ |- context [matched ?ms p] =>
      let E := fresh "E" in destruct (matched ms p) eqn:E; [pose proof (Hout p E)|]; clear E
  | |- context [?a <=? ?b] => destruct (Z.leb_spec a b)
  | |- context [?a <? ?b] => destruct (Z.ltb_spec a b)
  end; simpl; done || lia.

(** The parts of [r] between the matches: what is left of it. *)
Lemma split_region_ok ms r hi out : leftmost_matches plen occ (rmin r) hi ms →
  0 ≤ rmin r → rmax r < usize_max → hi ≤ rmax r + 1 →
  ∃ parts, split_region ms r out = Ok (out ++ parts) ∧ parts_of r parts ∧
    parts_flags (is_main r) parts ∧
    ∀ p, selected parts p = in_regionb p r && negb (matched ms p).
Proof.
  revert r out. induction ms as [|[s e] ms IH]; intros r out Hms Hmin Hmax Hhi; cbn [split_region].
  - exists [r]. pose proof (rmin_le_rmax r). split_and!; [done|split; [simpl; lia|by repeat constructor]| |].
    + unfold parts_flags. destruct (is_main r) eqn:E; [done|by repeat constructor].
    + intros p. simpl. by rewrite orb_false_r, andb_true_r.
  - apply leftmost_cons in Hms as (? & ? & _ & Hms); [|apply plen_pos].
    rewrite usub_ok by (unfold_usize; lia). cbn [mbind outcome_bind].
    destruct (split_at_match r s e) as (left & right & -> & Hl & Hr); [lia..|]. cbn [mbind outcome_bind].
    assert (∃ parts, match right with
        | Some x => split_region ms x (match left with Some l => out ++ [l] | None => out end)
        | None => Ok (match left with Some l => out ++ [l] | None => out end)
        end = Ok (match left with Some l => out ++ [l] | None => out end ++ parts) ∧
      regions_from e parts ∧ Forall (λ x, rmax x ≤ rmax r) parts ∧ Forall (λ x, is_main x = false) parts ∧
      ∀ p, selected parts p = (e <=? p) && (p <=? rmax r) && negb (matched ms p)) as (parts & -> & Hs & Hb & Hf & Hsel).
    { destruct right as [x|].
      - destruct Hr as (Hx1 & Hx2 & ? & Hxf). rewrite <-Hx1 in Hms.
        destruct (IH x (match left with Some l => out ++ [l] | None => out end) Hms) as
          (parts & -> & [Hs Hb] & Hf & Hsel); [lia..|].
        exists parts. rewrite Hx1 in *. rewrite Hx2 in Hb. rewrite Hxf in Hf. split_and!; try done.
        intros p. rewrite Hsel. unfold in_regionb. by rewrite Hx1, Hx2.
      - exists []. rewrite app_nil_r. split_and!; try done. intros p. simpl. zcases; done || lia. }
    assert (∀ p, matched ms p = true → e ≤ p) as Hout
      by (intros p Hp; pose proof (matched_outside _ _ _ _ _ _ plen_pos Hms Hp); lia).
    destruct left as [l|].
    + destruct Hl as (Hl1 & Hl2 & ? & Hlf). exists (l :: parts). rewrite <-app_assoc. split_and!; [done| | |].
      * split; [simpl; split; [lia|eapply regions_from_weaken; [|exact Hs]; lia]|constructor; [lia|done]].
      * apply parts_flags_all. by constructor.
      * intros p. simpl. rewrite Hsel. unfold in_regionb at 1 2. rewrite Hl1, Hl2. unfold in_range at 1. simpl.
        bool_cases p.
    + exists parts. split_and!; [done| | |].
      * split; [eapply regions_from_weaken; [|exact Hs]; lia|done].
      * by apply parts_flags_all.
      * intros p. rewrite Hsel. simpl. unfold in_regionb, in_range at 1. simpl.
        bool_cases p.
Qed.

(** The closure of [split_apply_search]. *)
Definition split_closure (remaining : list (list (Z * Z))) (r : SelRegion) :
    outcome (list SelRegion * list (list (Z * Z))) :=
  this ← vec_index remaining 0;
  out ← split_region this r [];
  rest ← slice_range remaining 1 (zlen remaining);
  Ok (out, rest).

Definition split_parts (r : SelRegion) (ms : list (Z * Z)) (news : list SelRegion) : Prop :=
  parts_flags (is_main r) news ∧ ∀ p, selected news p = in_regionb p r && negb (matched ms p).

Lemma split_runs rs mss : Forall2 matches rs mss → Forall (λ r, 0 ≤ rmin r ∧ rmax r ≤ rope_len (data b)) rs →
  ∃ parts, runs split_closure mss rs parts [] ∧ Forall3 split_parts rs mss parts.
Proof.
  intros HF. induction HF as [|r ms rs mss Hms _ IH]; intros Hb.
  - exists []. by repeat constructor.
  - apply Forall_cons in Hb as [Hr Hb]. destruct (IH Hb) as (parts & Hruns & HQ).
    destruct (split_region_ok ms r _ [] Hms) as (news & Hn & Hp & Hfl & Hsel); [lia|unfold_usize; lia|lia|].
    exists (news :: parts). split; [|by repeat constructor]. econstructor; [|done|exact Hruns].
    unfold split_closure. change (vec_index (ms :: mss) 0) with (Ok ms). cbn [mbind outcome_bind].
    rewrite Hn. cbn [mbind outcome_bind app]. pose proof (zlen_nonneg mss).
    rewrite slice_range_ok by (rewrite zlen_cons; lia). cbn [mbind outcome_bind].
    rewrite zslice_to_end by lia. done.
Qed.

Lemma matched_concat_cons ms mss p : matched (concat (ms :: mss)) p = matched ms p || matched (concat mss) p.
Proof. apply existsb_app. Qed.

Lemma region_matched r ms p : matches r ms → matched ms p = true → rmin r ≤ p ≤ rmax r.
Proof. intros Hms Hp. pose proof (matched_outside _ _ _ _ _ _ plen_pos Hms Hp). lia. Qed.

Lemma matches_later lo rs mss p : Forall2 matches rs mss → regions_from lo rs →
  matched (concat mss) p = true → lo ≤ p.
Proof.
  intros HF. revert lo. induction HF as [|r ms rs mss Hms _ IH]; intros lo Hs; [done|].
  destruct Hs as [? Hs]. rewrite matched_concat_cons. pose proof (rmin_le_rmax r). intros [Hp|Hp]%orb_true_iff.
  - pose proof (region_matched _ _ _ Hms Hp). lia.
  - specialize (IH _ Hs Hp). lia.
Qed.

(** The parts of the first [k] regions select what no match covers. *)
Lemma split_selected k lo rs mss parts p : Forall2 matches rs mss → Forall3 split_parts rs mss parts →
  regions_from lo rs →
  selected (concat (take k parts)) p = selected (take k rs) p && negb (matched (concat mss) p).
Proof.
  intros HF HQ. revert k lo HF. induction HQ as [|r ms news rs mss parts [_ Hsel] HQ IH]; intros k lo HF Hs.
  - by rewrite !take_nil.
  - destruct k as [|k]; [done|]. apply Forall2_cons in HF as [Hms HF]. destruct Hs as [Hr Hs].
    pose proof (region_matched _ _ p Hms) as Hin. pose proof (matches_later _ _ _ p HF Hs) as Hlater.
    rewrite matched_concat_cons. cbn [take concat]. unfold selected at 1. rewrite existsb_app. fold (selected news p).
    fold (selected (concat (take k parts)) p). rewrite Hsel, (IH k _ HF Hs).
    cbn [selected existsb]. fold (selected (take k rs) p).
    assert (selected (take k rs) p = true → rmax r + 1 ≤ p) as Hsl.
    { intros Hx. destruct (Z.le_gt_cases (rmax r + 1) p); [done|].
      rewrite (selected_before (rmax r + 1)) in Hx; [done| |lia].
      rewrite <-(take_drop k rs) in Hs. by apply regions_from_app in Hs as [? _]. }
    unfold in_regionb. destruct (matched ms p), (matched (concat mss) p), (selected (take k rs) p);
      destruct (Z.leb_spec (rmin r) p), (Z.leb_spec p (rmax r)); simpl; try done;
      exfalso; try specialize (Hin eq_refl); try specialize (Hlater eq_refl);
      try specialize (Hsl eq_refl); lia.
Qed.

(** *** Counting *)

Definition region_total (rs : list SelRegion) : Z := foldr (λ r n, rmax r - rmin r + 1 + n) 0 rs.

Lemma region_total_bound lo hi rs : regions_from lo rs → Forall (λ r, rmax r ≤ hi) rs →
  0 ≤ region_total rs ≤ Z.max 0 (hi + 1 - lo).
Proof.
  revert lo. induction rs as [|r rs IH]; intros lo Hs Hb; simpl; [lia|].
  destruct Hs as [? Hs]. apply Forall_cons in Hb as [? Hb]. specialize (IH _ Hs Hb).
  pose proof (rmin_le_rmax r). lia.
Qed.

Lemma region_total_nonneg rs : 0 ≤ region_total rs.
Proof.
  induction rs as [|r rs IH]; simpl; [done|]. pose proof (rmin_le_rmax r). fold (region_total rs). lia.
Qed.

Lemma sum_regions rs acc : 0 ≤ acc → Forall (λ r, 0 ≤ rmin r) rs →
  acc + region_total rs ≤ usize_max →
  foldM (λ acc r, n ← rlen r; uadd acc n) acc rs = Ok (acc + region_total rs).
Proof.
  revert acc. induction rs as [|r rs IH]; intros acc Hacc Hf Hmax; cbn [foldM region_total foldr] in *.
  - by rewrite Z.add_0_r.
  - apply Forall_cons in Hf as [? Hf]. fold (region_total rs) in *. pose proof (rmin_le_rmax r).
    pose proof (region_total_nonneg rs).
    unfold rlen. rewrite usub_ok by (unfold_usize; lia). cbn [mbind outcome_bind].
    rewrite uadd_ok by (unfold_usize; lia). cbn [mbind outcome_bind].
    rewrite uadd_ok by (unfold_usize; lia). cbn [mbind outcome_bind].
    rewrite IH by (done || lia). f_equal. lia.
Qed.

Lemma len_bytes_ok : len_bytes sel = Ok (region_total (regions sel)).
Proof.
  pose proof sel_ok as [_ Hs Hb _]. pose proof (region_total_bound _ _ _ Hs Hb).
  pose proof (rope_len_bytes (data b)). pose proof (zlen_nonneg doc).
  unfold len_bytes. rewrite sum_regions; [done|done| |unfold_usize; lia].
  eapply Forall_impl; [by apply selection_ok_regions|]. simpl. lia.
Qed.

(** All selected positions are matched exactly when the lengths agree. *)
Lemma matches_full lo rs mss : Forall2 matches rs mss → regions_from lo rs →
  zlen (concat mss) * plen ≤ region_total rs ∧
  (zlen (concat mss) * plen = region_total rs ↔
    ∀ p, selected rs p = true → matched (concat mss) p = true).
Proof.
  intros HF. revert lo. induction HF as [|r ms rs mss Hms HF IH]; intros lo Hs; [done|].
  destruct Hs as [_ Hs]. destruct (IH _ Hs) as [Hle Heq]. pose proof (rmin_le_rmax r).
  destruct (leftmost_full _ _ _ _ (rmax r + 1) _ plen_pos Hms) as [Hle1 Heq1]; [lia..|].
  cbn [concat region_total foldr]. fold (region_total rs). rewrite zlen_app, Z.mul_add_distr_r.
  split; [lia|]. split.
  - intros Hall p. rewrite (matched_concat_cons ms mss). cbn [selected existsb]. fold (selected rs p).
    unfold in_regionb. intros [Hp|Hp]%orb_true_iff; apply orb_true_iff.
    + left. apply Heq1; lia.
    + right. apply Heq; [lia|done].
  - intros Hall. rewrite (proj2 Heq1), (proj2 Heq); [lia|..].
    + intros p Hp. specialize (Hall p). rewrite (matched_concat_cons ms mss) in Hall.
      cbn [selected existsb] in Hall. fold (selected rs p) in Hall. rewrite Hp, orb_true_r in Hall.
      destruct (Z.lt_ge_cases p (rmax r + 1)); [by rewrite (selected_before _ _ _ Hs) in Hp|].
      specialize (Hall eq_refl). apply orb_true_iff in Hall as [Hm|Hm]; [|done].
      pose proof (region_matched _ _ _ Hms Hm). lia.
    + intros p Hp. specialize (Hall p). rewrite (matched_concat_cons ms mss) in Hall.
      cbn [selected existsb] in Hall. unfold in_regionb in Hall.
      rewrite (proj2 (Z.leb_le (rmin r) p)), (proj2 (Z.leb_le p (rmax r))) in Hall by lia.
      specialize (Hall eq_refl). apply orb_true_iff in Hall as [Hm|Hm]; [done|].
      pose proof (matches_later _ _ _ _ HF Hs Hm). lia.
Qed.

Lemma selected_take k rs p : selected (take k rs) p = true → selected rs p = true.
Proof.
  intros Hp. rewrite <-(take_drop k rs). unfold selected in *. by rewrite existsb_app, Hp.
Qed.

Lemma selected_nil rs : (∀ p, selected rs p = false) → rs = [].
Proof.
  destruct rs as [|r rs]; [done|]. intros Hs. specialize (Hs (rmin r)). simpl in Hs.
  unfold in_regionb in Hs. pose proof (rmin_le_rmax r).
  rewrite (proj2 (Z.leb_le (rmin r) (rmin r))), (proj2 (Z.leb_le _ (rmax r))) in Hs by lia. done.
Qed.

(** C13: searching in split mode for a pattern that is not empty finds in every
    region the leftmost matches; a literal matches its byte and a wildcard every
    byte but a line feed. When they cover the whole selection
    nothing changes. When something of the regions up to the main one is not
    matched, exactly the unmatched positions stay selected, in a well-formed
    selection. When the regions up to the main one are matched entirely but
    later ones are not, the editor panics. *)
Theorem split_search_exact :
  ∃ mss, Forall2 (region_matches pat (rope_bytes (data b))) (regions (selection b)) mss ∧
    let until_main := take (1 + Z.to_nat (main_selection (selection b))) (regions (selection b)) in
    let left rs p := selected rs p = true ∧ matched (concat mss) p = false in
    ((∀ p, ¬ left (regions (selection b)) p) →
       split_apply_search pat b = Ok (NewMode (MNormal normal_new), b)) ∧
    ((∃ p, left until_main p) → ∃ b' dirty,
       split_apply_search pat b = Ok (ModeAndDirtyBytes (MNormal normal_new) dirty, b') ∧
       data b' = data b ∧ selection_ok (rope_len (data b)) (selection b') ∧
       ∀ p, selected (regions (selection b')) p = true ↔ left (regions (selection b)) p) ∧
    ((∃ p, left (regions (selection b)) p) → (∀ p, ¬ left until_main p) →
       ∃ pn, split_apply_search pat b = Panic pn).
Proof.
  destruct found_matches as (mss & Hmap & HF). exists mss. split; [done|]. intros until_main left.
  unfold split_apply_search. rewrite pieces_ne, Hmap. cbn [mbind outcome_bind].
  rewrite (matched_length_ok _ HF), len_bytes_ok. cbn [mbind outcome_bind].
  change (map_selections_buffer b _ mss) with (map_selections_buffer b split_closure mss).
  pose proof sel_ok as [_ Hs _ Hfl].
  destruct (split_runs _ _ HF (selection_ok_regions _ _ sel_ok)) as (parts & Hruns & HQ).
  pose proof (λ k p, split_selected k 0 _ _ _ p HF HQ Hs) as Hsel.
  destruct (matches_full 0 _ _ HF Hs) as [_ Heq].
  destruct (map_selections_buffer_parts _ _ b _ _ _ sel_ok doc_fits Hruns) as [Hsome Hnone].
  { intros i news Hi. destruct (Forall3_lookup_r _ _ _ _ _ _ HQ Hi) as (r & ms & Hr & _ & Hf & _).
    by rewrite <-(Hfl i r Hr). }
  assert ((∃ p, left (regions sel) p) →
    (zlen (concat mss) * plen =? region_total (regions sel)) = false) as Hne.
  { intros (p & Hp & Hm). apply Z.eqb_neq. intros E. by rewrite (proj1 Heq E p Hp) in Hm. }
  assert (∀ p, left until_main p ↔
    selected (concat (take (1 + Z.to_nat (main_selection sel)) parts)) p = true) as Hbefore.
  { intros p. rewrite Hsel. unfold left, until_main. by rewrite andb_true_iff, negb_true_iff. }
  split_and!.
  - intros Hall. rewrite (proj2 (Z.eqb_eq _ _)); [done|]. apply Heq. intros p Hp.
    destruct (matched (concat mss) p) eqn:Em; [done|]. by destruct (Hall p).
  - intros (p & Hp). rewrite Hne by (exists p; split; [eapply selected_take|]; apply Hp).
    destruct Hsome as (dirty & -> & Hok').
    { apply Hbefore in Hp. by intros E; rewrite E in Hp. }
    cbn [mbind outcome_bind]. eexists _, dirty. split; [done|]. cbn [to_normal_dirty fst snd data with_selection selection].
    split_and!; [done|done|]. intros q. cbn [parts_selection regions]. rewrite selected_relabel.
    rewrite <-(take_ge parts (length parts)) by lia. rewrite Hsel, take_ge by (apply Forall3_length_lr in HQ; lia).
    unfold left. by rewrite andb_true_iff, negb_true_iff.
  - intros Hex Hall. rewrite (Hne Hex). destruct Hnone as [pn ->]; [|by exists pn].
    apply selected_nil. intros p. destruct (selected _ p) eqn:E; [|done]. by destruct (Hall p); apply Hbefore.
Qed.

End search.

(** ** The theorems at a concrete buffer *)

Definition search_buffer : @CurrentBuffer ref_rope :=
  with_selection (with_data buffer_default (ref_doc [1; 2; 1; 1; 2; 3; 1; 2]))
    (selection_of [(3, 0); (6, 8)] 1).
Definition search_pattern : Pattern := mkPattern [Literal 1; Wildcard].

Lemma split_width_partitions_witness : ∃ b' dirty,
  @map_selections_buffer true ref_rope unit search_buffer
    (λ u region, rs ← @split_width true 2 1 region; Ok (rs, u)) tt = Ok (b', dirty, tt) ∧
  selection_ok 8 (selection b') ∧
  (∀ p, selected (regions (selection b')) p = selected (regions (selection search_buffer)) p).
Proof.
  destruct (@split_width_partitions true ref_rope search_buffer 8 2 1) as (b' & dirty & Hm & Hok & Hs & _);
    [selection_ok_compute|vm_compute; done..|]. by exists b', dirty.
Defined.

Lemma split_width_zero_panics_witness :
  @split_transition true ref_rope naive_search (mkSplit (CmdCount.CSome false 0))
    (Key (mkKeyEvent (KChar 98) NONE)) (with_current_buffer search_buffer) = Panic PanicAssert.
Proof.
  apply (@split_width_zero_panics true ref_rope _ _ 1 _ search_buffer); vm_compute; done.
Defined.

Lemma collapse_search_exact_witness :
  ∃ mss, Forall2 (region_matches search_pattern [1; 2; 1; 1; 2; 3; 1; 2]) (regions (selection search_buffer)) mss ∧
    (concat (take 2 mss) ≠ [] → ∃ b' dirty,
       @collapse_apply_search true ref_rope naive_search search_pattern search_buffer =
         Ok (ModeAndDirtyBytes (MNormal normal_new) dirty, b') ∧
       extent <$> regions (selection b') = concat mss).
Proof.
  destruct (@collapse_search_exact true ref_rope ref_rope_laws naive_search naive_search_laws
    search_pattern search_buffer) as (mss & HF & _ & Hsome & _);
    [done|by repeat constructor|selection_ok_compute|vm_compute; done|].
  exists mss. split; [exact HF|]. intros Hne. destruct (Hsome Hne) as (b' & dirty & Hc & _ & _ & Hx).
  by exists b', dirty.
Defined.

Example collapse_sample : ∃ b' dirty,
  @collapse_apply_search true ref_rope naive_search search_pattern search_buffer =
    Ok (ModeAndDirtyBytes (MNormal normal_new) dirty, b') ∧
  extent <$> regions (selection b') = [(0, 2); (2, 4); (6, 8)].
Proof. eexists _, _. split; vm_compute; reflexivity. Qed.

(** The main region has no match, a later one has: the editor panics. *)
Example collapse_panics :
  @collapse_apply_search true ref_rope naive_search (mkPattern [Literal 3])
    (with_selection search_buffer (selection_of [(0, 1); (4, 6)] 0)) = Panic PanicOverflow.
Proof. vm_compute. reflexivity. Qed.

Lemma split_search_exact_witness :
  ∃ mss, Forall2 (region_matches search_pattern [1; 2; 1; 1; 2; 3; 1; 2]) (regions (selection search_buffer)) mss ∧
    ((∃ p, selected (regions (selection search_buffer)) p = true ∧ matched (concat mss) p = false) →
     ∃ b' dirty,
       @split_apply_search true ref_rope naive_search search_pattern search_buffer =
         Ok (ModeAndDirtyBytes (MNormal normal_new) dirty, b') ∧
       ∀ p, selected (regions (selection b')) p = true ↔
         selected (regions (selection search_buffer)) p = true ∧ matched (concat mss) p = false).
Proof.
  destruct (@split_search_exact true ref_rope ref_rope_laws naive_search naive_search_laws
    search_pattern search_buffer) as (mss & HF & _ & Hsome & _);
    [done|by repeat constructor|selection_ok_compute|vm_compute; done|].
  exists mss. split; [exact HF|]. intros Hex. destruct (Hsome Hex) as (b' & dirty & Hc & _ & _ & Hx).
  by exists b', dirty.
Defined.

Example split_sample : ∃ b' dirty,
  @split_apply_search true ref_rope naive_search search_pattern search_buffer =
    Ok (ModeAndDirtyBytes (MNormal normal_new) dirty, b') ∧
  extent <$> regions (selection b') = [(8, 9)].
Proof. eexists _, _. split; vm_compute; reflexivity. Qed.
