(* ===== verification/CommandTheorems.v ===== *)
(** * CommandTheorems: saving, quitting and the command prompt *)

From S2P Require Import Prelude KeyMap CmdCount Masks XiRope XiRopeRef ByteRope Selection SelectionMap.
From S2P Require Import SelectionMoves SelectionQueries SelectionExact Operations Edits History.
From S2P Require Import SelectionDelta CurrentBuffer BufferTheorems Text Mode NormalMode CommandMode.
From Stdlib Require Import Ascii String.
Local Open Scope Z_scope.

(** ** Saving *)

Section saving.
Context `{Profile} `{XiRopeLaws} `{FileSystemLaws}.

Lemma whole_rope (r : Rope) : rope_len r < two63 → slice_to_cow r (full_range r) = Ok (rope_bytes r).
Proof.
  intros Hr. pose proof (rope_len_bytes r) as Hl. pose proof (zlen_nonneg (rope_bytes r)).
  unfold full_range. rewrite slice_to_cow_bytes by (unfold_usize; lia). by rewrite zslice_full by lia.
Qed.

Lemma current_set_current (c : BuffrCollection) b b' : current c = Ok b → ∃ c', set_current c b' = Ok c' ∧
  current c' = Ok b' ∧ cur_buf_index c' = cur_buf_index c ∧
  ∀ i, i ≠ Z.to_nat (cur_buf_index c) → buf_list c' !! i = buf_list c !! i.
Proof.
  unfold current, set_current, vec_update. intros Hc. rewrite Hc. cbn [mbind outcome_bind].
  eexists. split; [done|]. cbn [buf_list cur_buf_index]. apply vec_index_Ok, zlookup_Some in Hc as [Hi _].
  split_and!; [|done|].
  - apply vec_index_Ok. unfold zlookup. rewrite (proj2 (Z.ltb_ge _ 0)) by lia.
    apply list_lookup_insert_eq. unfold zlen in Hi. lia.
  - intros i Hne. by apply list_lookup_insert_ne.
Qed.

(** C15: the write command puts exactly the bytes of the current buffer into
    the file it names (its own path without an argument), under every path that
    names this file, and touches no other file; the buffer is then clean, keeps its bytes and its path if it had one,
    and the other buffers are unchanged. When the system refuses the write
    every buffer is unchanged and the error is shown. *)
Theorem write_saves_buffer w (c : BuffrCollection) b filename p :
  current c = Ok b → rope_len (data b) < two63 →
  (if zlen filename =? 0 then path b else Some filename) = Some p →
  match fs_write w p (rope_bytes (data b)) with
  | (IoOk _, w') => ∃ c' b', write w c filename = Ok (NewMode (MNormal normal_new), c', w') ∧
      current c' = Ok b' ∧ dirty b' = false ∧ data b' = data b ∧ path b' = Some (default p (path b)) ∧
      (∀ i, i ≠ Z.to_nat (cur_buf_index c) → buf_list c' !! i = buf_list c !! i) ∧
      ∀ q, fs_contents w' q = if fs_same w p q then Some (rope_bytes (data b)) else fs_contents w q
  | (IoErr e, w') => write w c filename = Ok (write_failed e, c, w')
  end.
Proof.
  intros Hc Hfit Hp. unfold write. rewrite Hc. cbn [mbind outcome_bind].
  rewrite Hp, whole_rope by done. cbn [mbind outcome_bind].
  destruct (fs_write w p (rope_bytes (data b))) as [[[]|e] w'] eqn:E; [|done].
  destruct (current_set_current c b (update_path_if_missing (with_dirty b false) p) Hc)
    as (c' & -> & Hc' & _ & Hothers).
  eexists _, _. split; [done|]. split; [exact Hc'|]. unfold update_path_if_missing. simpl.
  destruct (path b) eqn:Epath; simpl; split_and!; try done; by apply fs_write_ok.
Qed.

(** ** Saving every buffer *)

(** A buffer and what is left of it after it was saved. *)
Definition saved (b b' : CurrentBuffer) : Prop :=
  data b' = data b ∧ path b' = path b ∧ (has_path b' = true → dirty b' = false).

(** The buffers whose path names the file of [q], in the order of the list. *)
Definition writers (w : World) (q : PathBuf) (l : list CurrentBuffer) : list CurrentBuffer :=
  filter (λ b, match path b with Some p => fs_same w p q | None => false end = true) l.

(** What the file of [q] holds when the buffers were written one after the
    other: the bytes of the last one whose path names it. *)
Definition written (w : World) (l : list CurrentBuffer) (q : PathBuf) : option bytes :=
  match last (writers w q l) with
  | Some b => Some (rope_bytes (data b))
  | None => fs_contents w q
  end.

Lemma written_cons w w1 b l p q : path b = Some p → fs_write w p (rope_bytes (data b)) = (IoOk tt, w1) →
  written w (b :: l) q = written w1 l q.
Proof.
  intros Hp Hw. pose proof (fs_write_ok _ _ _ _ Hw q) as Hc. pose proof (fs_write_same _ _ _ _ Hw) as Hs.
  assert (writers w1 q l = writers w q l) as Hl.
  { unfold writers. apply list_filter_iff. intros x. by destruct (path x); [rewrite Hs|]. }
  unfold written. rewrite Hl, Hc. unfold writers at 1. rewrite filter_cons, Hp. fold (writers w q l).
  case_decide as E; [rewrite E|apply not_true_iff_false in E; by rewrite E].
  rewrite last_cons. by destruct (last (writers w q l)).
Qed.

Lemma written_skip w b l q : path b = None → written w (b :: l) q = written w l q.
Proof. intros Hp. unfold written, writers. by rewrite filter_cons, Hp. Qed.

Lemma write_buffers_saved w l l' w' : Forall (λ b, rope_len (data b) < two63) l →
  write_buffers w l = Ok (l', w', None) →
  Forall2 saved l l' ∧ ∀ q, fs_contents w' q = written w l q.
Proof.
  revert w l' w'. induction l as [|b l IH]; intros w l' w' Hfit; cbn [write_buffers].
  - by intros [= <- <-].
  - apply Forall_cons in Hfit as [Hb Hfit]. destruct (path b) as [p|] eqn:Ep.
    + rewrite whole_rope by done. cbn [mbind outcome_bind].
      destruct (fs_write w p (rope_bytes (data b))) as [[[]|e] w1] eqn:Ew; [|by intros [=]].
      destruct (write_buffers w1 l) as [[[l1 w2] e]|] eqn:El; cbn [mbind outcome_bind]; [|done].
      intros [= <- <- ->]. destruct (IH _ _ _ Hfit El) as [Hl Hq]. split.
      * constructor; [|done]. by repeat split.
      * intros q. by rewrite Hq, (written_cons w w1 b l p).
    + destruct (write_buffers w l) as [[[l1 w2] e]|] eqn:El; cbn [mbind outcome_bind]; [|done].
      intros [= <- <- ->]. destruct (IH _ _ _ Hfit El) as [Hl Hq]. split.
      * constructor; [|done]. split_and!; [done|done|]. unfold has_path. by rewrite Ep.
      * intros q. by rewrite written_skip.
Qed.

(** A buffer whose file no later buffer names. *)
Lemma written_alone w l1 b l2 p : path b = Some p → writers w p l2 = [] →
  written w (l1 ++ b :: l2) p = Some (rope_bytes (data b)).
Proof.
  intros Hp Hl. unfold written. unfold writers in *. rewrite filter_app, filter_cons, Hp, fs_same_refl, Hl.
  rewrite decide_True by done. by rewrite last_snoc.
Qed.

Lemma write_buffers_total w l : Forall (λ b, rope_len (data b) < two63) l →
  ∃ r, write_buffers w l = Ok r.
Proof.
  revert w. induction l as [|b l IH]; intros w Hfit; cbn [write_buffers]; [eauto|].
  apply Forall_cons in Hfit as [Hb Hfit]. destruct (path b) as [p|].
  - rewrite whole_rope by done. cbn [mbind outcome_bind].
    destruct (fs_write w p _) as [[[]|e] w1]; [|eauto].
    destruct (IH w1 Hfit) as [[[l1 w2] e] ->]. simpl. eauto.
  - destruct (IH w Hfit) as [[[l1 w2] e] ->]. simpl. eauto.
Qed.

(** C16: write-and-quit never panics.  It quits only when every write
    succeeded: then each file holds the bytes of the last buffer in the list
    whose path names it, so that every buffer is saved whose file no later
    buffer names (and a buffer is lost when one does); all other files are
    untouched, and no buffer with a path is dirty.  Otherwise the editor stays
    and shows the error that stopped the loop. *)
Theorem write_quit_saves_all w (c : BuffrCollection) :
  Forall (λ b, rope_len (data b) < two63) (buf_list c) →
  ∃ t c' w', write_quit w c = Ok (t, c', w') ∧
    ((∃ e, t = write_failed e) ∨
     t = NewMode MQuitting ∧ Forall2 saved (buf_list c) (buf_list c') ∧
     (∀ q, fs_contents w' q = written w (buf_list c) q) ∧
     ∀ l1 b l2 p, buf_list c = l1 ++ b :: l2 → path b = Some p → writers w p l2 = [] →
       fs_contents w' p = Some (rope_bytes (data b))).
Proof.
  intros Hfit. unfold write_quit.
  destruct (write_buffers_total w _ Hfit) as [[[l w'] [e|]] E]; rewrite E; cbn [mbind outcome_bind].
  - eexists _, _, _. split; [done|]. left. eauto.
  - eexists _, _, _. split; [done|]. right. split; [done|].
    destruct (write_buffers_saved w _ _ _ Hfit E) as [Hs Hq]. split; [done|]. split; [done|].
    intros l1 b l2 p Hl Hp Hw. by rewrite Hq, Hl, (written_alone w l1 b l2 p).
Qed.

End saving.

(** ** Quitting *)

Section quitting.
Context `{Profile} `{XiRope} `{FileSystem}.

Abbreviation unsaved := (λ b, dirty b && has_path b).

Lemma write_buffers_clean w l l' w' : write_buffers w l = Ok (l', w', None) → existsb unsaved l' = false.
Proof.
  revert w l' w'. induction l as [|b l IH]; intros w l' w'; cbn [write_buffers].
  - by intros [= <- <-].
  - destruct (path b) as [p|] eqn:Ep.
    + destruct (slice_to_cow _ _); cbn [mbind outcome_bind]; [|done].
      destruct (fs_write w p _) as [[[]|e] w1]; [|by intros [=]].
      destruct (write_buffers w1 l) as [[[l1 w2] e]|] eqn:El; cbn [mbind outcome_bind]; [|done].
      intros [= <- <- ->]. by apply IH in El.
    + destruct (write_buffers w l) as [[[l1 w2] e]|] eqn:El; cbn [mbind outcome_bind]; [|done].
      intros [= <- <- ->]. simpl. unfold has_path at 1. rewrite Ep, andb_false_r. by apply IH in El.
Qed.

(** C17: no command line loses changes silently: whatever is typed at the
    prompt, if it makes the editor quit then either it was the forced quit or
    no buffer that has a path is dirty. *)
Theorem quit_only_when_saved self w c c' w' :
  finish self w c = Ok (NewMode MQuitting, c', w') →
  default_commands !! ztake (default (zlen (command self)) (find_space 0 (command self))) (command self)
    = Some cmd_force_quit ∨
  existsb (λ b, dirty b && has_path b) (buf_list c') = false.
Proof.
  unfold finish. destruct (default_commands !! _) as [handler|]; [|done].
  destruct handler; cbn [run_command]; [|by left|intros Hr; right..].
  - unfold quit. destruct (existsb _ _) eqn:E; [done|]. intros [= <- <-]. by right.
  - exfalso. unfold write in Hr.
    destruct (current c); cbn [mbind outcome_bind] in Hr; [|done].
    destruct (if zlen _ =? 0 then _ else _); [|done].
    destruct (slice_to_cow _ _); cbn [mbind outcome_bind] in Hr; [|done].
    destruct (fs_write _ _ _) as [[] ?]; outcome_inv.
  - unfold write_quit in Hr. outcome_inv. match goal with E : write_buffers _ _ = Ok (_, _, ?e) |- _ =>
      destruct e; [done|]; by apply write_buffers_clean in E end.
  - exfalso. unfold write_all in Hr. outcome_inv. by case_match.
  - exfalso. unfold edit_file in Hr. outcome_inv. by case_match.
  - exfalso. unfold delete_current_buffer, force_delete_current_buffer in Hr.
    outcome_inv. destruct (_ && _); outcome_inv.
  - exfalso. unfold force_delete_current_buffer in Hr. outcome_inv.
Qed.

End quitting.

(** ** The prompt *)

Section prompt.
Context `{Profile}.

(** A command line of ASCII characters with the cursor in it. *)
Definition prompt_ok (c : Command) : Prop :=
  Forall (λ b, 0 ≤ b < 128) (command c) ∧ 0 ≤ cmd_cursor c ≤ zlen (command c) ∧
  zlen (command c) < two63.

Lemma ascii_boundary s i : Forall (λ b, 0 ≤ b < 128) s → 0 ≤ i ≤ zlen s → is_char_boundary s i = true.
Proof.
  intros Hs Hi. unfold is_char_boundary. zcases; try done.
  destruct (zlookup_lt s i) as [b Hb]; [lia|]. rewrite Hb. apply zlookup_Some in Hb as [_ Hb].
  pose proof (Forall_lookup_1 _ _ _ _ Hs Hb) as Hr. cbv beta in Hr.
  by rewrite (proj2 (Z.leb_gt 128 b)) by lia.
Qed.

Lemma ascii_remove s i : Forall (λ b, 0 ≤ b < 128) s → 0 ≤ i < zlen s →
  string_remove s i = Ok (ztake i s ++ zdrop (i + 1) s).
Proof.
  intros Hs Hi. unfold string_remove. rewrite ascii_boundary by (done || lia).
  destruct (zlookup_lt s i Hi) as [b Hb]. rewrite Hb. apply zlookup_Some in Hb as [_ Hb].
  pose proof (Forall_lookup_1 _ _ _ _ Hs Hb) as Hr. cbv beta in Hr.
  unfold utf8_width. by rewrite (proj2 (Z.ltb_lt b 128)) by lia.
Qed.

Lemma remove_ok s i : Forall (λ b, 0 ≤ b < 128) s → 0 ≤ i < zlen s → zlen s < two63 →
  prompt_ok (mkCommand (ztake i s ++ zdrop (i + 1) s) i).
Proof.
  intros Hs Hi Hl. split_and!; simpl.
  - apply Forall_app. split; [by apply Forall_take|by apply Forall_drop].
  - lia.
  - autorewrite with zlen. lia.
  - autorewrite with zlen. lia.
Qed.

(** C40: editing an ASCII command line keeps the cursor within the text and
    never panics, with one exception: the delete key with the cursor at the
    end of the text always panics. Typing a character inserts it before the
    cursor, and backspace then takes it back. *)
Theorem command_prompt_ascii c :
  prompt_ok c →
  (∀ action, action ∈ [RemoveLast; CursorLeft; CursorRight] →
    ∃ r, prompt_action c action = Ok r ∧ prompt_ok (default c r)) ∧
  (if cmd_cursor c =? zlen (command c) then prompt_action c RemoveThis = Panic PanicIndex
   else ∃ c', prompt_action c RemoveThis = Ok (Some c') ∧ prompt_ok c') ∧
  ∀ ch, 0 ≤ ch < 128 → zlen (command c) + 1 < two63 →
    ∃ c', prompt_char c ch = Ok c' ∧ prompt_ok c' ∧
      command c' = ztake (cmd_cursor c) (command c) ++ [ch] ++ zdrop (cmd_cursor c) (command c) ∧
      prompt_action c' RemoveLast = Ok (Some c).
Proof.
  destruct c as [s i]. intros Hok. pose proof Hok as (Hs & Hi & Hl). cbn [command cmd_cursor] in *.
  split_and!.
  - intros action Hact.
    repeat (apply elem_of_cons in Hact as [->|Hact]); [..|by apply not_elem_of_nil in Hact];
      cbn [prompt_action command cmd_cursor].
    + destruct (Z.eqb_spec i 0); simpl; [eexists; split; [done|exact Hok]|]. rewrite usub_ok by (unfold_usize; lia).
      cbn [mbind outcome_bind]. rewrite ascii_remove by (done || lia). eexists. split; [done|].
      apply remove_ok; done || lia.
    + destruct (Z.eqb_spec i 0); simpl; [eexists; split; [done|exact Hok]|]. rewrite usub_ok by (unfold_usize; lia).
      eexists. split; [done|]. split_and!; simpl; done || lia.
    + destruct (Z.ltb_spec i (zlen s)); [|eexists; split; [done|exact Hok]]. rewrite uadd_ok by (unfold_usize; lia).
      eexists. split; [done|]. split_and!; simpl; done || lia.
  - cbn [prompt_action command cmd_cursor]. destruct (Z.eqb_spec i (zlen s)) as [->|].
    + unfold string_remove. rewrite ascii_boundary by (done || lia).
      destruct (zlookup s (zlen s)) eqn:E; [apply zlookup_Some in E; lia|done].
    + rewrite ascii_remove by (done || lia). eexists. split; [done|]. apply remove_ok; done || lia.
  - intros ch Hch Hlen. unfold prompt_char, string_insert. cbn [command cmd_cursor].
    rewrite ascii_boundary by (done || lia). cbn [mbind outcome_bind].
    rewrite uadd_ok by (unfold_usize; lia). cbn [mbind outcome_bind].
    unfold encode_utf8. rewrite (proj2 (Z.ltb_lt ch 128)) by lia.
    assert (prompt_ok (mkCommand (ztake i s ++ [ch] ++ zdrop i s) (i + 1))) as Hok'.
    { split_and!; cbn [command cmd_cursor]; autorewrite with zlen; try lia.
      repeat (apply Forall_app; split); [by apply Forall_take|by constructor|by apply Forall_drop]. }
    eexists. split; [done|]. split; [exact Hok'|]. split; [done|]. destruct Hok' as (Hs' & Hi' & _).
    cbn [prompt_action command cmd_cursor] in *. rewrite (proj2 (Z.eqb_neq (i + 1) 0)) by lia. cbn [negb].
    rewrite usub_ok by (unfold_usize; lia). cbn [mbind outcome_bind]. rewrite Z.add_simpl_r.
    rewrite ascii_remove by (done || lia). cbn [mbind outcome_bind]. do 3 f_equal.
    rewrite ztake_app, zdrop_app, zlen_ztake, Z.min_l, Z.max_r by lia.
    rewrite ztake_ge, (ztake_le0 (i - i)), app_nil_r, (zdrop_ge _ (ztake i s)) by (rewrite ?zlen_ztake; lia).
    replace (i + 1 - i) with 1 by lia. change (zdrop 1 ([ch] ++ zdrop i s)) with (zdrop i s). apply ztake_zdrop.
Qed.

End prompt.

(** ** The theorems at concrete buffers *)

Definition sample_collection : @BuffrCollection ref_rope := mkCollection [buffer_default; edited_buffer] 1.

Lemma write_saves_buffer_witness : ∃ c' b',
  @write true ref_rope map_fs sample_world sample_collection [] =
    Ok (NewMode (MNormal normal_new), c', <[sample_path := [0; 5; 6; 2; 3]]> sample_world) ∧
  current c' = Ok b' ∧ dirty b' = false.
Proof.
  destruct (@write_saves_buffer true ref_rope ref_rope_laws map_fs map_fs_laws sample_world
    sample_collection edited_buffer [] sample_path) as (c' & b' & Hw & Hc & Hd & _);
    [vm_compute; done..|]. by exists c', b'.
Defined.

Lemma write_quit_saves_all_witness : ∃ t c' w',
  @write_quit true ref_rope map_fs sample_world sample_collection = Ok (t, c', w') ∧
  ((∃ e, t = write_failed e) ∨ t = NewMode MQuitting ∧ Forall2 saved (buf_list sample_collection) (buf_list c')).
Proof.
  destruct (@write_quit_saves_all true ref_rope ref_rope_laws map_fs map_fs_laws sample_world sample_collection)
    as (t & c' & w' & Hw & Hres).
  - repeat constructor; vm_compute; done.
  - exists t, c', w'. split; [exact Hw|]. tauto.
Defined.

(** Two buffers with one path, as [:w] with the name of an open file leaves
    them: write-and-quit quits and the bytes of the first one are lost. *)
Definition shared_path : @BuffrCollection ref_rope :=
  mkCollection [sample_buffer; with_path edited_buffer (Some ([46; 47] ++ sample_path))] 0.

Example write_quit_loses_first :
  match @write_quit true ref_rope map_fs sample_world shared_path with
  | Ok (t, _, w') => t = NewMode MQuitting ∧ @fs_contents _ map_fs_laws w' sample_path = Some [0; 5; 6; 2; 3]
  | Panic _ => False
  end ∧ rope_bytes (data sample_buffer) = [0; 1; 2; 3].
Proof. vm_compute. done. Qed.

Lemma quit_only_when_saved_witness : ∃ c' w',
  @finish true ref_rope map_fs (mkCommand (str "wq") 2) sample_world sample_collection =
    Ok (NewMode MQuitting, c', w') ∧
  (default_commands !! str "wq" = Some cmd_force_quit ∨
   existsb (λ b, dirty b && has_path b) (buf_list c') = false).
Proof.
  eexists _, _. split; [vm_compute; reflexivity|].
  apply (@quit_only_when_saved true ref_rope map_fs (mkCommand (str "wq") 2) sample_world sample_collection
    _ (<[sample_path := [0; 5; 6; 2; 3]]> sample_world)). vm_compute. reflexivity.
Defined.

Lemma command_prompt_ascii_witness :
  @prompt_action true (mkCommand (str "wq") 2) RemoveThis = Panic PanicIndex.
Proof.
  apply (@command_prompt_ascii true (mkCommand (str "wq") 2)).
  repeat constructor; vm_compute; done.
Defined.
