(* ===== verification/Names.v ===== *)
(** * Names: the names that the status line shows

    [Display for State] of [src/src/cmd_count.rs], [fn name] of the modes under
    [src/src/modes/] and [CurrentBuffer::name] of [src/src/current_buffer.rs]. *)

From S2P Require Import Prelude KeyMap CmdCount Masks XiRope XiRopeRef ByteRope Selection.
From S2P Require Import Operations History CurrentBuffer Text Mode.
From Stdlib Require Import Ascii String.
Local Open Scope Z_scope.

Definition count_display (self : CmdCount.State) : bytes :=
  match self with
  | CmdCount.CNone => []
  | CmdCount.CSome true count =>
      if count =? 0 then str " (0x)" else str " (0x" ++ fmt_hex count ++ str ")"
  | CmdCount.CSome false count => str " (" ++ fmt_dec count ++ str ")"
  end.

Definition normal_name (self : Normal) : bytes := str "NORMAL" ++ count_display (count_state self).

Definition split_name (self : Split) : bytes := str "SPLIT" ++ count_display (split_count_state self).

Definition insert_name (self : Insert) : bytes :=
  match ins_mode self, ins_hex self with
  | IInsert, true => str "INSERT (hex)"
  | IInsert, false => str "INSERT (ascii)"
  | IAppend, true => str "APPEND (hex)"
  | IAppend, false => str "APPEND (ascii)"
  | IOverwrite, true => str "OVERWRITE (hex)"
  | IOverwrite, false => str "OVERWRITE (ascii)"
  end.

Definition replace_name (self : Replace) : bytes :=
  match rep_hex self, rep_hex_half self with
  | true, None => str "REPLACE (hex)"
  | false, _ => str "REPLACE (ascii)"
  | true, Some ch => str "REPLACE (hex: " ++ fmt_hex (Z.shiftr ch 4) ++ str "...)"
  end.

Definition jumpto_name (self : JumpTo) : bytes :=
  if jump_extend self then str "EXTEND" else str "JUMP".

Definition acceptor_name (a : SearchAcceptor) : bytes :=
  match a with AcceptSplit s => split_name s | AcceptCollapse => str "COLLAPSE" end.

(** The prompt shows the name of the mode that will accept the pattern. *)
Definition search_name (self : Search) : outcome bytes := a ← unwrap (next self); Ok (acceptor_name a).

(** [self.mode.name()] *)
Definition mode_name (m : Mode) : outcome bytes :=
  match m with
  | MNormal m => Ok (normal_name m)
  | MInsert m => Ok (insert_name m)
  | MReplace m => Ok (replace_name m)
  | MJumpTo m => Ok (jumpto_name m)
  | MCommand _ => Ok (str "COMMAND")
  | MSearch m => search_name m
  | MSplit m => Ok (split_name m)
  | MCollapse => Ok (str "COLLAPSE")
  | MQuitting => Ok (str "QUITTING")
  end.

Section buffer_name.
Context `{XiRope}.

(** [path.display()] replaces what is not UTF-8. *)
Definition buffer_name (self : CurrentBuffer) : bytes :=
  match path self with Some p => utf8_lossy p | None => str "*scratch*" end.

End buffer_name.

(** A search prompt has an acceptor until it hands it over. *)
Definition mode_named (m : Mode) : Prop :=
  match m with MSearch m => is_Some (next m) | _ => True end.

Lemma mode_name_ok m : mode_named m → ∃ n, mode_name m = Ok n.
Proof.
  destruct m as [| | | | |s| | |]; try (intros _; by eexists).
  intros [a Ha]. simpl in *. unfold search_name. rewrite Ha. by eexists.
Qed.
