(* ===== verification/Style.v ===== *)
(** * Style: styles and the drawing of single bytes, [src/src/hex_view/mod.rs]

    What is written to the terminal is a list of the terminal library's
    commands ([TermCmd]), in the order in which the code queues them. *)

From S2P Require Import Prelude Text.
From Stdlib Require Import Ascii String.
Local Open Scope Z_scope.

(** ** Commands of the terminal library *)

Inductive Color :=
  | CReset | CBlack | CDarkGrey | CRed | CDarkRed | CGreen | CYellow | CDarkYellow | CBlue
  | CDarkMagenta | CCyan | CWhite
  | CRgb (r g b : Z)
  | CAnsiValue (n : Z).

(** [style::ContentStyle]; a set of attributes is a bit set. *)
Record ContentStyle := mkContentStyle {
  foreground_color : option Color;
  background_color : option Color;
  attributes : Z;
}.

Definition content_new : ContentStyle := mkContentStyle None None 0.
(** [.with(c)] and [.on(c)] *)
Definition content_with (s : ContentStyle) (c : Color) : ContentStyle :=
  mkContentStyle (Some c) (background_color s) (attributes s).
Definition content_on (s : ContentStyle) (c : Color) : ContentStyle :=
  mkContentStyle (foreground_color s) (Some c) (attributes s).

Inductive ClearType := ClearAll | ClearCurrentLine | ClearUntilNewLine.

Inductive TermCmd :=
  | MoveTo (column row : Z)
  | Clear (t : ClearType)
  | Print (text : bytes)
  | PrintStyledContent (style : ContentStyle) (text : bytes)
  | SetForegroundColor (c : Color)
  | SetBackgroundColor (c : Color)
  | SetAttributes (a : Z)
  | ScrollUp (lines : Z)
  | ScrollDown (lines : Z)
  | EnterAlternateScreen | LeaveAlternateScreen | Hide | Show
  | EnableRawMode | DisableRawMode | Flush.

#[export] Instance Color_eq_dec : EqDecision Color.
Proof. solve_decision. Defined.
#[export] Instance ContentStyle_eq_dec : EqDecision ContentStyle.
Proof. solve_decision. Defined.
#[export] Instance ClearType_eq_dec : EqDecision ClearType.
Proof. solve_decision. Defined.
#[export] Instance TermCmd_eq_dec : EqDecision TermCmd.
Proof. solve_decision. Defined.

(** ** Styles *)

Definition COLOR_NULL : Color := CAnsiValue 150.
Definition COLOR_ASCII_PRINTABLE : Color := CCyan.
Definition COLOR_ASCII_WHITESPACE : Color := CGreen.
Definition COLOR_ASCII_OTHER : Color := CRgb 232 52 210.
Definition COLOR_NONASCII : Color := CYellow.

Inductive Priority := PBasic | PMark | PSelection | PCursor.

Record PrioritizedStyle := mkPrioritized { style : ContentStyle; priority : Priority }.

Record StylingCommand := mkStyling {
  sc_start : option PrioritizedStyle;
  sc_mid : option PrioritizedStyle;
  sc_end : option PrioritizedStyle;
}.

#[export] Instance Priority_eq_dec : EqDecision Priority.
Proof. solve_decision. Defined.
#[export] Instance PrioritizedStyle_eq_dec : EqDecision PrioritizedStyle.
Proof. solve_decision. Defined.
#[export] Instance StylingCommand_eq_dec : EqDecision StylingCommand.
Proof. solve_decision. Defined.

Definition styling_default : StylingCommand := mkStyling None None None.

Definition start_style (self : StylingCommand) : option ContentStyle := style <$> sc_start self.
Definition mid_style (self : StylingCommand) : option ContentStyle := style <$> sc_mid self.
Definition end_style (self : StylingCommand) : option ContentStyle := style <$> sc_end self.

Definition with_start_style (self : StylingCommand) (s : PrioritizedStyle) : StylingCommand :=
  mkStyling (Some s) (sc_mid self) (sc_end self).
Definition with_mid_style (self : StylingCommand) (s : PrioritizedStyle) : StylingCommand :=
  mkStyling (sc_start self) (Some s) (sc_end self).
Definition with_end_style (self : StylingCommand) (s : PrioritizedStyle) : StylingCommand :=
  mkStyling (sc_start self) (sc_mid self) (Some s).
Definition with_mid_to_end (self : StylingCommand) : StylingCommand :=
  mkStyling (sc_start self) None (sc_mid self).
Definition take_end_only (self : StylingCommand) : StylingCommand :=
  mkStyling None None (sc_end self).

Definition queue_style (s : ContentStyle) : list TermCmd :=
  match foreground_color s with Some fg => [SetForegroundColor fg] | None => [] end ++
  match background_color s with Some bg => [SetBackgroundColor bg] | None => [] end ++
  (if negb (attributes s =? 0) then [SetAttributes (attributes s)] else []).

(** [if let Some(cmd) = ... { queue_style(stdout, cmd)? }] *)
Definition queue_option (s : option ContentStyle) : list TermCmd :=
  match s with Some s => queue_style s | None => [] end.

Definition get_byte_color (byte : Z) : Color :=
  if byte =? 0 then COLOR_NULL
  else if is_ascii_graphic byte then COLOR_ASCII_PRINTABLE
  else if is_ascii_whitespace byte then COLOR_ASCII_WHITESPACE
  else if is_ascii byte then COLOR_ASCII_OTHER
  else COLOR_NONASCII.

Definition colorize_byte (byte : Z) (style_cmd : StylingCommand) : StylingCommand :=
  let s := default content_new (start_style style_cmd) in
  with_start_style style_cmd
    (mkPrioritized (mkContentStyle (Some (get_byte_color byte)) (background_color s) (attributes s))
       PBasic).

Section padding.
Context `{Profile}.

(** A prefix of a string of 64 spaces; the bound is a debug assertion. *)
Definition make_padding (len : Z) : outcome bytes :=
  if overflow_checks && negb (len <? 64) then Panic PanicAssert
  else slice_range (replicate 64 32) 0 len.

End padding.

(** ** Drawing *)

Definition byte_ascii_repr (b : Z) : bytes :=
  if is_ascii_graphic b || (b =? 32) then [b] else str ".".

Definition draw_hex_byte (byte : Z) (s : StylingCommand) : list TermCmd :=
  let style_cmd := colorize_byte byte s in
  queue_option (start_style style_cmd) ++
  [Print (fmt_hex (Z.shiftr byte 4))] ++
  queue_option (mid_style style_cmd) ++
  [Print (fmt_hex (Z.land byte 15))] ++
  queue_option (end_style style_cmd) ++
  [Print (str " ")].

Definition draw_ascii_byte (byte : Z) (s : StylingCommand) : list TermCmd :=
  let style_cmd := colorize_byte byte s in
  queue_option (start_style style_cmd) ++
  [Print (byte_ascii_repr byte)] ++
  queue_option (end_style style_cmd).

(** [OutputColorizer::draw]; [text] is what the argument displays as. *)
Definition draw_text (text : bytes) (s : StylingCommand) : list TermCmd :=
  queue_option (start_style s) ++ [Print text] ++ queue_option (end_style s).

(** ** Lemmas *)

(** The text that a list of commands prints. *)
Fixpoint printed (cmds : list TermCmd) : bytes :=
  match cmds with
  | [] => []
  | Print t :: cmds' | PrintStyledContent _ t :: cmds' => t ++ printed cmds'
  | _ :: cmds' => printed cmds'
  end.

Lemma printed_app c1 c2 : printed (c1 ++ c2) = printed c1 ++ printed c2.
Proof. induction c1 as [|[] c1 IH]; simpl; rewrite ?IH, <-?app_assoc; done. Qed.

Lemma printed_queue_style s : printed (queue_style s) = [].
Proof. unfold queue_style. destruct s as [[] [] a]; simpl; destruct (negb (a =? 0)); done. Qed.

Lemma printed_queue_option s : printed (queue_option s) = [].
Proof. destruct s; [apply printed_queue_style|done]. Qed.

Create Rewrite HintDb printed.
#[export] Hint Rewrite printed_app printed_queue_option : printed.

Lemma make_padding_ok `{Profile} len : 0 ≤ len < 64 → make_padding len = Ok (replicate (Z.to_nat len) 32).
Proof.
  intros Hl. unfold make_padding. rewrite (proj2 (Z.ltb_lt len 64)) by lia. rewrite andb_false_r.
  rewrite slice_range_ok by (unfold zlen; rewrite ?length_replicate; lia).
  unfold zslice, ztake, zdrop. rewrite Z.sub_0_r. change (Z.to_nat 0) with 0%nat. rewrite drop_0.
  by rewrite take_replicate, Nat.min_l by lia.
Qed.

(** The digits of a half byte. *)
Lemma fmt_hex_digit d : 0 ≤ d < 16 → fmt_hex d = [digit_char d].
Proof.
  intros Hd. unfold fmt_hex. cbn [fmt_radix]. rewrite Z.mod_small by lia.
  by rewrite (proj2 (Z.ltb_lt d 16)) by lia.
Qed.

Lemma printed_hex_byte b s : is_u8 b → printed (draw_hex_byte b s) = fmt_hex2 b ++ [32].
Proof.
  intros Hb. unfold is_u8 in Hb. unfold draw_hex_byte. autorewrite with printed. cbn [printed app].
  rewrite app_nil_r, Z.shiftr_div_pow2 by done. change 15 with (Z.ones 4). rewrite Z.land_ones by done.
  change (2 ^ 4) with 16. pose proof (Z.mod_pos_bound b 16 ltac:(done)).
  assert (0 ≤ b / 16 < 16) by (split; [apply Z.div_pos|apply Z.div_lt_upper_bound]; lia).
  by rewrite !fmt_hex_digit.
Qed.

Lemma printed_ascii_byte b s : printed (draw_ascii_byte b s) = byte_ascii_repr b.
Proof.
  unfold draw_ascii_byte. autorewrite with printed. cbn [printed app]. by rewrite !app_nil_r.
Qed.

Lemma printed_draw_text t s : printed (draw_text t s) = t.
Proof. unfold draw_text. autorewrite with printed. cbn [printed app]. by rewrite !app_nil_r. Qed.

#[export] Hint Rewrite printed_ascii_byte printed_draw_text : printed.
