(* ===== verification/ByteProperties.v ===== *)
(** * ByteProperties: the readings of the bytes under the main cursor,
    [src/src/hex_view/byte_properties.rs]

    Five lines beside the first rows: the byte and the next four bytes in
    hexadecimal and binary, as unsigned and signed integers, and as a character
    of UTF-8 and UTF-16. *)

From S2P Require Import Prelude Text Style.
From Stdlib Require Import Ascii String.
Local Open Scope Z_scope.

(** [format!("{:x?}", c)] of a character: quoted, and escaped as the tables of
    the Unicode standard say. *)
Class CharDebug := char_debug : Z → bytes.
(** The longest escape is that of a character of six hexadecimal digits. *)
Class CharDebugLaws `{CharDebug} := char_debug_len c : is_scalar c = true → zlen (char_debug c) ≤ 12.

Definition basic_style (c : Color) : StylingCommand :=
  with_start_style styling_default
    (mkPrioritized (mkContentStyle (Some c) (Some CReset) 0) PBasic).
Definition BIN_ZERO_STYLE : StylingCommand := basic_style (CAnsiValue 150).
Definition BIN_ONE_STYLE : StylingCommand := basic_style CBlue.
Definition INVALID_DATA_STYLE : StylingCommand := basic_style CRed.
Definition DEFAULT_STYLE : StylingCommand := basic_style CDarkMagenta.
Definition DEFAULT_VALUE_STYLE : StylingCommand := basic_style (CAnsiValue 150).

Definition format_binary_byte (byte : Z) : list TermCmd :=
  List.concat ((λ c, if c =? 48 then draw_text (str "0") BIN_ZERO_STYLE
                else if c =? 49 then draw_text (str "1") BIN_ONE_STYLE
                else []) <$> fmt_bin8 byte).

(** The replacement character *)
Definition REPLACEMENT : Z := 65533.

(** The loop over the prefixes of [data], from the one of [i] bytes on; [Ok] of
    the source is [inl] and [Err] is [inr]. *)
Fixpoint utf8_prefixes (fuel : nat) (data : bytes) (i : Z) : outcome (Z + Z) :=
  match fuel with
  | O => Ok (inr REPLACEMENT)
  | S fuel' =>
      s ← slice_range data 0 i;
      match decode_utf8 s with
      | Some chars => c ← unwrap (head chars); Ok (inl c)
      | None => utf8_prefixes fuel' data (i + 1)
      end
  end.

Definition utf8_into_char (data : bytes) : outcome (Z + Z) :=
  let max_char_len := if zlen data <? 4 then zlen data else 4 in
  utf8_prefixes (Z.to_nat max_char_len) data 1.

(** The loop prepends zeros until there are four bytes. *)
Definition bytes_to_4_byte_vec (data : bytes) : bytes :=
  if 4 <=? zlen data then ztake 4 data
  else replicate (4 - List.length data) 0 ++ data.

Definition utf16_into_char (data : bytes) : outcome (Z + Z) :=
  match data with
  | b0 :: b1 :: rest =>
      match decode_utf16 [from_be_bytes [b0; b1]] with
      | Some chars => c ← unwrap (head chars); Ok (inl c)
      | None =>
          match rest with
          | b2 :: b3 :: _ =>
              match decode_utf16 [from_be_bytes [b0; b1]; from_be_bytes [b2; b3]] with
              | Some chars => c ← unwrap (head chars); Ok (inl c)
              | None => Ok (inr REPLACEMENT)
              end
          | _ => Ok (inr REPLACEMENT)
          end
      end
  | _ => Ok (inr REPLACEMENT)
  end.

Record BytePropertiesFormatter := mkFormatter { bp_data : bytes; bp_line : Z }.

Definition bp_height : Z := 5.

Section formatter.
Context `{Profile} `{CharDebug}.

Definition format_char (c : Z) : bytes := if is_ascii_graphic c then [c] else char_debug c.

Definition bp_new (data : bytes) : outcome BytePropertiesFormatter :=
  if zlen data <=? 4 then Ok (mkFormatter data 0) else Panic PanicAssert.

Definition are_all_printed (self : BytePropertiesFormatter) : outcome bool :=
  h ← usub bp_height 1; Ok (h <? bp_line self).

(** The padding after a value of the first column. *)
Definition draw_padding (len : Z) : outcome (list TermCmd) :=
  n ← usub 12 len; p ← make_padding n; Ok (draw_text p DEFAULT_STYLE).

Definition draw_hex_line (first_byte : Z) (data : bytes) : list TermCmd :=
  draw_text (str "hex u8: ") DEFAULT_STYLE ++
  draw_hex_byte first_byte (colorize_byte first_byte DEFAULT_VALUE_STYLE) ++
  draw_text (str "          hex u32: ") DEFAULT_STYLE ++
  List.concat ((λ byte, draw_hex_byte byte (colorize_byte byte DEFAULT_VALUE_STYLE)) <$> data).

Definition draw_bin_line (first_byte : Z) (data : bytes) : list TermCmd :=
  draw_text (str "bin u8: ") DEFAULT_STYLE ++
  format_binary_byte first_byte ++
  draw_text (str "     bin u32: ") DEFAULT_STYLE ++
  List.concat ((λ byte, format_binary_byte byte ++ draw_text (str " ") DEFAULT_STYLE) <$> data).

(** The two lines of decimal integers. *)
Definition draw_dec_line (label1 byte_literal label2 value : bytes) : outcome (list TermCmd) :=
  p ← draw_padding (zlen byte_literal);
  Ok (draw_text label1 DEFAULT_STYLE ++
      draw_text byte_literal DEFAULT_VALUE_STYLE ++
      p ++
      draw_text label2 DEFAULT_STYLE ++
      draw_text value DEFAULT_VALUE_STYLE).

Definition draw_utf_line (data : bytes) : outcome (list TermCmd) :=
  r8 ← utf8_into_char data;
  let '(c8, len) :=
    match r8 with
    | inl c => let c := format_char c in (draw_text c DEFAULT_VALUE_STYLE, zlen c)
    | inr c => (draw_text (encode_utf8 c) INVALID_DATA_STYLE, 1)
    end in
  p ← draw_padding len;
  r16 ← utf16_into_char data;
  Ok (draw_text (str " utf-8: ") DEFAULT_STYLE ++
      c8 ++
      p ++
      draw_text (str "  utf-16: ") DEFAULT_STYLE ++
      match r16 with
      | inl c => draw_text (format_char c) DEFAULT_VALUE_STYLE
      | inr c => draw_text (encode_utf8 c) INVALID_DATA_STYLE
      end).

Definition draw_line (self : BytePropertiesFormatter) : outcome (list TermCmd * BytePropertiesFormatter) :=
  let data := bp_data self in
  let first_byte := match data with b :: _ => b | [] => 0 end in
  cmds ←
    (if bp_line self =? 0 then Ok (draw_hex_line first_byte data)
     else if bp_line self =? 1 then Ok (draw_bin_line first_byte data)
     else if bp_line self =? 2 then
       draw_dec_line (str "dec u8: ") (fmt_dec first_byte)
         (str " dec u32: ") (fmt_dec (from_be_bytes (bytes_to_4_byte_vec data)))
     else if bp_line self =? 3 then
       draw_dec_line (str "dec i8: ") (fmt_signed (as_signed 8 first_byte))
         (str " dec i32: ") (fmt_signed (as_signed 32 (from_be_bytes (bytes_to_4_byte_vec data))))
     else if bp_line self =? 4 then draw_utf_line data
     else Ok []);
  line ← uadd (bp_line self) 1;
  Ok (cmds, mkFormatter data line).

End formatter.

(** ** Reading back what was encoded *)

Lemma slice_range_prefix {A} (l1 l2 : list A) n : n = zlen l1 → slice_range (l1 ++ l2) 0 n = Ok l1.
Proof.
  intros ->. pose proof (zlen_nonneg l1). pose proof (zlen_nonneg l2).
  rewrite slice_range_ok by (rewrite ?zlen_app; lia). rewrite <-ztake_zslice, ztake_app, Z.sub_diag.
  rewrite ztake_ge, ztake_le0 by lia. by rewrite app_nil_r.
Qed.

(** One round of the loop: a prefix that does not decode, or one that does. *)
Lemma utf8_prefixes_skip fuel pre rest : decode_utf8 pre = None →
  utf8_prefixes (S fuel) (pre ++ rest) (zlen pre) = utf8_prefixes fuel (pre ++ rest) (zlen pre + 1).
Proof. intros Hd. cbn [utf8_prefixes]. rewrite slice_range_prefix by done. simpl. by rewrite Hd. Qed.

Lemma utf8_prefixes_done fuel pre rest c : decode_utf8 pre = Some [c] →
  utf8_prefixes (S fuel) (pre ++ rest) (zlen pre) = Ok (inl c).
Proof. intros Hd. cbn [utf8_prefixes]. rewrite slice_range_prefix by done. simpl. by rewrite Hd. Qed.

Lemma decode_encode_utf8 c : is_scalar c = true → decode_utf8 (encode_utf8 c) = Some [c].
Proof.
  intros Hc%is_scalar_spec. unfold encode_utf8.
  destruct (Z.ltb_spec c 128); [simpl; by rewrite (proj2 (Z.ltb_lt _ _))|].
  pose proof (Z.mod_pos_bound c 64 ltac:(done)). pose proof (Z.div_mod c 64 ltac:(done)).
  destruct (Z.ltb_spec c 2048).
  - cbn [decode_utf8]. bounds_cases. simpl. do 2 f_equal. lia.
  - pose proof (Z.mod_pos_bound (c / 64) 64 ltac:(done)). pose proof (Z.div_mod (c / 64) 64 ltac:(done)).
    rewrite Z.div_div in * by done. change (64 * 64) with 4096 in *.
    destruct (Z.ltb_spec c 65536).
    + cbn [decode_utf8]. bounds_cases; simpl; do 2 f_equal; lia.
    + pose proof (Z.mod_pos_bound (c / 4096) 64 ltac:(done)).
      pose proof (Z.div_mod (c / 4096) 64 ltac:(done)).
      rewrite Z.div_div in * by done. change (4096 * 64) with 262144 in *.
      cbn [decode_utf8]. bounds_cases; simpl; do 2 f_equal; lia.
Qed.

(** A lead byte with too few bytes after it is no text. *)
Lemma decode_short_1 b0 : 128 ≤ b0 → decode_utf8 [b0] = None.
Proof. intros. cbn [decode_utf8]. by zcases. Qed.
Lemma decode_short_2 b0 b1 : 224 ≤ b0 → decode_utf8 [b0; b1] = None.
Proof. intros. cbn [decode_utf8]. unfold in_bounds. by zcases. Qed.
Lemma decode_short_3 b0 b1 b2 : 240 ≤ b0 → decode_utf8 [b0; b1; b2] = None.
Proof. intros. cbn [decode_utf8]. unfold in_bounds. by zcases. Qed.

(** One more round of the loop over the prefixes of [l]. *)
Ltac utf8_round pre :=
  match goal with
  | |- utf8_prefixes _ ?l _ = _ =>
      rewrite (utf8_prefixes_skip _ pre (zdrop (zlen pre) l))
        by (first [apply decode_short_1|apply decode_short_2|apply decode_short_3]; lia)
  end.

Lemma utf8_prefixes_encoded c rest fuel : is_scalar c = true → (Z.to_nat (len_utf8 c) ≤ fuel)%nat →
  utf8_prefixes fuel (encode_utf8 c ++ rest) 1 = Ok (inl c).
Proof.
  intros Hc Hf. pose proof (decode_encode_utf8 c Hc) as Hd. apply is_scalar_spec in Hc.
  revert Hd Hf. unfold encode_utf8, len_utf8.
  assert (∀ k, 0 < k → 0 ≤ c / k) as Hdiv by (intros; apply Z.div_pos; lia).
  destruct (Z.ltb_spec c 128); [|destruct (Z.ltb_spec c 2048); [|destruct (Z.ltb_spec c 65536)]];
    intros Hd Hf.
  - destruct fuel as [|fuel]; [lia|]. apply (utf8_prefixes_done _ [c] rest c Hd).
  - destruct fuel as [|[|fuel]]; [lia..|]. pose proof (Hdiv 64 ltac:(done)).
    utf8_round [192 + c / 64]. apply (utf8_prefixes_done _ [_; _] rest c Hd).
  - destruct fuel as [|[|[|fuel]]]; [lia..|]. pose proof (Hdiv 4096 ltac:(done)).
    utf8_round [224 + c / 4096]. utf8_round [224 + c / 4096; 128 + (c / 64) mod 64].
    apply (utf8_prefixes_done _ [_; _; _] rest c Hd).
  - destruct fuel as [|[|[|[|fuel]]]]; [lia..|]. pose proof (Hdiv 262144 ltac:(done)).
    utf8_round [240 + c / 262144]. utf8_round [240 + c / 262144; 128 + (c / 4096) mod 64].
    utf8_round [240 + c / 262144; 128 + (c / 4096) mod 64; 128 + (c / 64) mod 64].
    apply (utf8_prefixes_done _ [_; _; _; _] rest c Hd).
Qed.

Lemma utf8_into_char_encoded c rest : is_scalar c = true →
  utf8_into_char (encode_utf8 c ++ rest) = Ok (inl c).
Proof.
  intros Hc. apply utf8_prefixes_encoded; [done|]. rewrite zlen_app, zlen_encode_utf8.
  pose proof (zlen_nonneg rest). unfold len_utf8. zcases.
Qed.

Lemma utf16_into_char_encoded c rest : is_scalar c = true →
  utf16_into_char (List.concat (be_bytes16 <$> encode_utf16 c) ++ rest) = Ok (inl c).
Proof.
  intros Hc%is_scalar_spec. unfold encode_utf16.
  assert (∀ u, from_be_bytes [u / 256; u mod 256] = u) as Hu.
  { intros u. unfold from_be_bytes. simpl. pose proof (Z.div_mod u 256 ltac:(done)). lia. }
  destruct (Z.ltb_spec c 65536); cbn [fmap list_fmap List.concat be_bytes16 app utf16_into_char]; rewrite !Hu.
  - cbn [decode_utf16]. by bounds_cases.
  - pose proof (Z.mod_pos_bound (c - 65536) 1024 ltac:(done)).
    pose proof (Z.div_mod (c - 65536) 1024 ltac:(done)).
    cbn [decode_utf16]. bounds_cases. simpl. do 2 f_equal. lia.
Qed.

(** ** Every line can be drawn *)

(** The first character of a text that decodes is a Unicode scalar value. *)
Lemma decode_utf8_head b l : is_u8 b → Forall is_u8 l → 
  decode_utf8 (b :: l) = None ∨ ∃ c cs, decode_utf8 (b :: l) = Some (c :: cs) ∧ is_scalar c = true.
Proof.
  intros Hb Hl. unfold is_u8 in Hb.
  assert (Hsome : ∀ x l', (is_scalar x = true) → 
    cons x <$> decode_utf8 l' = None ∨ ∃ c cs, cons x <$> decode_utf8 l' = Some (c :: cs) ∧ is_scalar c = true).
  { intros x l' Hx. destruct (decode_utf8 l'); simpl; [right; eauto|by left]. }
  cbn [decode_utf8]. destruct (Z.ltb_spec b 128); [apply Hsome, is_scalar_spec; lia|].
  destruct (in_bounds 194 223 b) eqn:E2; [|destruct (in_bounds 224 239 b) eqn:E3;
    [|destruct (in_bounds 240 244 b) eqn:E4; [|by left]]];
    destruct l as [|b1 [|b2 [|b3 l]]]; try (by left);
    match goal with
    | |- (if ?x then _ else _) = None ∨ _ => destruct x eqn:E; [|by left]
    end; apply Hsome, is_scalar_spec; unfold in_bounds in *; zcases; lia.
Qed.

Lemma decode_utf16_head u l : 0 ≤ u < 65536 →
  decode_utf16 (u :: l) = None ∨ ∃ c cs, decode_utf16 (u :: l) = Some (c :: cs) ∧ is_scalar c = true.
Proof.
  intros Hu.
  assert (Hsome : ∀ x l', (is_scalar x = true) →
    cons x <$> decode_utf16 l' = None ∨ ∃ c cs, cons x <$> decode_utf16 l' = Some (c :: cs) ∧ is_scalar c = true).
  { intros x l' Hx. destruct (decode_utf16 l'); simpl; [right; eauto|by left]. }
  cbn [decode_utf16]. destruct (negb (in_bounds 55296 57343 u)) eqn:E1.
  - apply Hsome, is_scalar_spec. unfold in_bounds in E1. lia.
  - destruct (in_bounds 55296 56319 u) eqn:E2; [|by left]. destruct l as [|u1 l]; [by left|].
    destruct (in_bounds 56320 57343 u1) eqn:E3; [|by left]. apply Hsome, is_scalar_spec.
    unfold in_bounds in *. lia.
Qed.

(** What [utf8_into_char] and [utf16_into_char] return on any bytes. *)
Definition char_or_replacement (r : Z + Z) : Prop :=
  match r with inl c => is_scalar c = true | inr c => c = REPLACEMENT end.

Lemma utf8_prefixes_total fuel data i : Forall is_u8 data → 1 ≤ i → i + Z.of_nat fuel ≤ zlen data + 1 →
  ∃ r, utf8_prefixes fuel data i = Ok r ∧ char_or_replacement r.
Proof.
  intros Hd. revert i. induction fuel as [|fuel IH]; intros i Hi Hf; cbn [utf8_prefixes].
  { eexists. split; [done|]. done. }
  rewrite slice_range_ok by lia. cbn [mbind outcome_bind].
  destruct (zslice 0 i data) as [|b l] eqn:E.
  { apply (f_equal zlen) in E. rewrite zlen_zslice in E by done. change (zlen []) with 0 in E. lia. }
  assert (Forall is_u8 (b :: l)) as [Hb Hl]%Forall_cons.
  { rewrite <-E. unfold zslice, ztake, zdrop. by apply Forall_take, Forall_drop. }
  destruct (decode_utf8_head b l Hb Hl) as [->|(c & cs & -> & Hc)].
  - apply IH; lia.
  - eexists. split; [done|]. done.
Qed.

Lemma utf8_into_char_total data : Forall is_u8 data →
  ∃ r, utf8_into_char data = Ok r ∧ char_or_replacement r.
Proof.
  intros Hd. unfold utf8_into_char. apply utf8_prefixes_total; [done..|].
  pose proof (zlen_nonneg data). zcases; lia.
Qed.

Lemma utf16_into_char_total data : Forall is_u8 data →
  ∃ r, utf16_into_char data = Ok r ∧ char_or_replacement r.
Proof.
  intros Hd. unfold utf16_into_char.
  destruct data as [|b0 [|b1 rest]]; [by eexists; split..|].
  apply Forall_cons in Hd as [H0 Hd]. apply Forall_cons in Hd as [H1 Hd]. unfold is_u8 in H0, H1.
  assert (0 ≤ from_be_bytes [b0; b1] < 65536) as Hu by (unfold from_be_bytes; simpl; lia).
  destruct (decode_utf16_head _ [] Hu) as [->|(c & cs & -> & Hc)]; [|by eexists; split].
  destruct rest as [|b2 [|b3 rest]]; [by eexists; split..|].
  destruct (decode_utf16_head _ [from_be_bytes [b2; b3]] Hu) as [->|(c & cs & -> & Hc)]; by eexists; split.
Qed.

(** The decimal digits of a byte. *)
Lemma fmt_dec_short n : 0 ≤ n < 1000 → 1 ≤ zlen (fmt_dec n) ≤ 3.
Proof.
  intros Hn. unfold fmt_dec. cbn [fmt_radix].
  assert (n / 10 < 100) by (apply Z.div_lt_upper_bound; lia).
  assert (n / 10 / 10 < 10) by (apply Z.div_lt_upper_bound; lia).
  zcases; unfold zlen; simpl; lia.
Qed.

Section lines.
Context `{Profile} `{CharDebugLaws}.

Lemma draw_padding_ok len : 0 ≤ len ≤ 12 → ∃ cmds, draw_padding len = Ok cmds ∧
  printed cmds = replicate (Z.to_nat (12 - len)) 32.
Proof.
  intros Hl. unfold draw_padding. rewrite usub_ok by (unfold_usize; lia). cbn [mbind outcome_bind].
  rewrite make_padding_ok by lia. cbn [mbind outcome_bind]. eexists. split; [done|].
  apply printed_draw_text.
Qed.

Lemma draw_dec_line_ok label1 lit label2 value : zlen lit ≤ 12 →
  ∃ cmds, draw_dec_line label1 lit label2 value = Ok cmds.
Proof.
  intros Hl. unfold draw_dec_line. pose proof (zlen_nonneg lit).
  destruct (draw_padding_ok (zlen lit)) as (p & -> & _); [lia|]. by eexists.
Qed.

Lemma format_char_len c : is_scalar c = true → 0 ≤ zlen (format_char c) ≤ 12.
Proof.
  intros Hc. pose proof (zlen_nonneg (format_char c)). unfold format_char in *.
  destruct (is_ascii_graphic c); [done|]. pose proof (char_debug_len c Hc). lia.
Qed.

Lemma draw_utf_line_ok data : Forall is_u8 data → ∃ cmds, draw_utf_line data = Ok cmds.
Proof.
  intros Hd. unfold draw_utf_line. destruct (utf8_into_char_total data Hd) as ([c|c] & -> & Hc);
    cbn [mbind outcome_bind char_or_replacement] in *.
  - destruct (draw_padding_ok (zlen (format_char c)) (format_char_len c Hc)) as (p & -> & _).
    destruct (utf16_into_char_total data Hd) as (r & -> & _). by eexists.
  - destruct (draw_padding_ok 1) as (p & -> & _); [lia|].
    destruct (utf16_into_char_total data Hd) as (r & -> & _). by eexists.
Qed.

(** The commands of line [line], as a function of the bytes. *)
Definition property_line (data : bytes) (line : Z) : list TermCmd :=
  match draw_line (mkFormatter data line) with Ok (cmds, _) => cmds | Panic _ => [] end.

Lemma draw_line_ok data line : Forall is_u8 data → 0 ≤ line < usize_max →
  draw_line (mkFormatter data line) = Ok (property_line data line, mkFormatter data (line + 1)).
Proof.
  intros Hd Hline. unfold property_line, draw_line. cbn [bp_data bp_line].
  set (b := match data with b :: _ => b | [] => 0 end).
  assert (is_u8 b) as Hb by (destruct Hd; [done|]; by subst b). unfold is_u8 in Hb.
  rewrite uadd_ok by (unfold_usize; lia).
  assert (∀ l1 l2 v n, 0 ≤ n < 1000 → ∃ cmds, draw_dec_line l1 (fmt_dec n) l2 v = Ok cmds) as Hdec.
  { intros. apply draw_dec_line_ok. pose proof (fmt_dec_short n). lia. }
  assert (zlen (fmt_signed (as_signed 8 b)) ≤ 12) as Hs.
  { unfold as_signed. change (2 ^ (8 - 1)) with 128. change (2 ^ 8) with 256. unfold fmt_signed.
    zcases; rewrite ?zlen_cons;
      match goal with |- context [fmt_dec ?n] => pose proof (fmt_dec_short n) end; lia. }
  destruct (line =? 0); [done|]. destruct (line =? 1); [done|].
  destruct (line =? 2); [by destruct (Hdec (str "dec u8: ") (str " dec u32: ")
    (fmt_dec (from_be_bytes (bytes_to_4_byte_vec data))) b ltac:(lia)) as (cmds & ->)|].
  destruct (line =? 3); [by destruct (draw_dec_line_ok (str "dec i8: ") _ (str " dec i32: ")
    (fmt_signed (as_signed 32 (from_be_bytes (bytes_to_4_byte_vec data)))) Hs) as (cmds & ->)|].
  destruct (line =? 4); [by destruct (draw_utf_line_ok data Hd) as (cmds & ->)|done].
Qed.

Lemma property_line_past data line : Forall is_u8 data → 5 ≤ line < usize_max → property_line data line = [].
Proof.
  intros Hd Hline. unfold property_line, draw_line. cbn [bp_data bp_line].
  rewrite !(proj2 (Z.eqb_neq line _)) by lia. cbn [mbind outcome_bind].
  by rewrite uadd_ok by (unfold_usize; lia).
Qed.

Lemma are_all_printed_ok data line : are_all_printed (mkFormatter data line) = Ok (4 <? line).
Proof. unfold are_all_printed. by rewrite usub_ok by (unfold_usize; unfold bp_height; lia). Qed.

End lines.

(** ** Claims *)

Lemma foldl_be_zeros n l : foldl (λ n b, n * 256 + b) 0 (replicate n 0 ++ l) = foldl (λ n b, n * 256 + b) 0 l.
Proof. induction n as [|n IH]; [done|exact IH]. Qed.

(** Zeros before the bytes do not change the number. *)
Lemma four_bytes_number data : zlen data ≤ 4 →
  from_be_bytes (bytes_to_4_byte_vec data) = from_be_bytes data ∧ zlen (bytes_to_4_byte_vec data) = 4.
Proof.
  intros Hl. unfold bytes_to_4_byte_vec, from_be_bytes. destruct (Z.leb_spec 4 (zlen data)).
  - rewrite ztake_ge by lia. split; [done|lia].
  - rewrite foldl_be_zeros. split; [done|]. rewrite zlen_app. unfold zlen in *. rewrite length_replicate. lia.
Qed.

(** C25: the properties read the bytes at the caret for what they are: the
    UTF-8 encoding of any character, whatever follows it, is shown as that
    character, and so is its big-endian UTF-16 encoding; on any other bytes the
    reading is a character or the replacement character, never a panic; fewer
    than four bytes are read as the number they spell. *)
Theorem properties_read_back c rest data : is_scalar c = true → Forall is_u8 data → zlen data ≤ 4 →
  utf8_into_char (encode_utf8 c ++ rest) = Ok (inl c) ∧
  utf16_into_char (List.concat (be_bytes16 <$> encode_utf16 c) ++ rest) = Ok (inl c) ∧
  (∃ r, utf8_into_char data = Ok r ∧ char_or_replacement r) ∧
  (∃ r, utf16_into_char data = Ok r ∧ char_or_replacement r) ∧
  from_be_bytes (bytes_to_4_byte_vec data) = from_be_bytes data.
Proof.
  intros Hc Hd Hl. split; [by apply utf8_into_char_encoded|]. split; [by apply utf16_into_char_encoded|].
  split; [by apply utf8_into_char_total|]. split; [by apply utf16_into_char_total|].
  by apply four_bytes_number.
Qed.

Lemma properties_read_back_witness :
  utf8_into_char (encode_utf8 128512 ++ [65]) = Ok (inl 128512) ∧
  utf16_into_char (List.concat (be_bytes16 <$> encode_utf16 128512) ++ [65]) = Ok (inl 128512).
Proof.
  destruct (properties_read_back 128512 [65] [255; 254]) as (Hu8 & Hu16 & _); [done| |done|by split].
  repeat constructor; done.
Defined.

(** ** An instance *)

(** Every character escaped by its code, which always is a possible output. *)
#[export] Instance escape_debug : CharDebug := λ c,
  [39; 92; 117; 123] ++ fmt_hex c ++ [125; 39].

#[export] Instance escape_debug_laws : CharDebugLaws.
Proof.
  intros c Hc%is_scalar_spec. unfold char_debug, escape_debug. rewrite !zlen_app.
  change (zlen [39; 92; 117; 123]) with 4. change (zlen [125; 39]) with 2.
  enough (zlen (fmt_hex c) ≤ 6) by lia. unfold fmt_hex. cbn [fmt_radix].
  assert (c / 16 < 2 ^ 17) by (apply Z.div_lt_upper_bound; lia).
  assert (c / 16 / 16 < 2 ^ 13) by (apply Z.div_lt_upper_bound; lia).
  assert (c / 16 / 16 / 16 < 2 ^ 9) by (apply Z.div_lt_upper_bound; lia).
  assert (c / 16 / 16 / 16 / 16 < 2 ^ 5) by (apply Z.div_lt_upper_bound; lia).
  assert (c / 16 / 16 / 16 / 16 / 16 < 16) by (apply Z.div_lt_upper_bound; lia).
  zcases; unfold zlen; simpl; lia.
Qed.
