(* ===== verification/Prompt.v ===== *)
(** * Prompt: the prompts of the status line, [src/src/hex_view/view.rs]

    [StatusLinePrompter::render_with_size] for the search and for the command
    prompt: what is printed and the first column that is shown, which the view
    keeps for the next time. *)

From S2P Require Import Prelude KeyMap CmdCount Masks XiRope XiRopeRef ByteRope Selection.
From S2P Require Import Operations History CurrentBuffer Text Mode CommandMode Style.
From Stdlib Require Import Ascii String.
Local Open Scope Z_scope.

(** [style::style(text).with(fg)] and [style::style(text).with(fg).on(bg)] *)
Definition styled_fg (text : bytes) (fg : Color) : TermCmd :=
  PrintStyledContent (content_with content_new fg) text.
Definition styled (text : bytes) (fg bg : Color) : TermCmd :=
  PrintStyledContent (content_on (content_with content_new fg) bg) text.

Definition angle_hex (byte : Z) : bytes := str "<" ++ fmt_hex2 byte ++ str ">".

(** [Display for MixedRepr] *)
Definition mixed_repr (byte : Z) : bytes :=
  if is_ascii_graphic byte || (byte =? 32) then [byte] else angle_hex byte.

Definition is_plain (byte : Z) : bool := is_ascii_graphic byte || (byte =? 32).

Section render.
Context `{Profile}.

(** [s[i..j]] of a string panics at positions that are no character boundary. *)
Definition str_slice (s : bytes) (i j : Z) : outcome bytes :=
  if is_char_boundary s i && is_char_boundary s j then slice_range s i j else Panic PanicIndex.

(** The first column, moved between the cursor and the length. *)
Definition clamp_start (len cursor start_column : Z) : outcome Z :=
  if len <=? start_column then usub (Z.max 1 len) 1
  else if cursor <? start_column then Ok cursor
  else Ok start_column.

(** *** The search prompt, pieces as hexadecimal bytes *)

Definition hex_piece (hex_half : option Z) (normalized_cursor i : Z) (piece : PatternPiece) :
    list TermCmd :=
  match piece with
  | Literal byte =>
      if negb (normalized_cursor =? i) then [Print (fmt_hex2 byte ++ str " ")]
      else match hex_half with
           | Some _ => [Print (fmt_hex (Z.shiftr byte 4));
                        styled (fmt_hex (Z.land byte 15)) CBlack CWhite; Print (str " ")]
           | None => [styled (fmt_hex2 byte) CBlack CWhite; Print (str " ")]
           end
  | Wildcard =>
      if negb (normalized_cursor =? i) then [styled_fg (str "** ") CDarkRed]
      else [styled (str "**") CDarkRed CWhite; Print (str " ")]
  end.

(** The loop [for (i, piece) in pieces.iter().enumerate()] *)
Fixpoint hex_pieces (hex_half : option Z) (normalized_cursor i : Z) (l : list PatternPiece) :
    list TermCmd :=
  match l with
  | [] => []
  | p :: l' => hex_piece hex_half normalized_cursor i p ++ hex_pieces hex_half normalized_cursor (i + 1) l'
  end.

Definition render_hex (self : Search) (max_width start_column : Z) : outcome (list TermCmd * Z) :=
  let ps := pieces (pattern self) in
  limit ← uadd start_column (max_width / 3);
  start_column ←
    (if limit <=? cursor self then d ← usub (cursor self) (max_width / 3); uadd d 1
     else Ok start_column);
  last ← uadd start_column (max_width / 3);
  let last_byte := Z.min (zlen ps) last in
  normalized_cursor ← usub (cursor self) start_column;
  shown ← slice_range ps start_column last_byte;
  Ok (hex_pieces (search_hex_half self) normalized_cursor 0 shown ++
      (if cursor self =? zlen ps then [styled (str "  ") CBlack CWhite; Print (str " ")] else []),
      start_column).

(** *** The search prompt, pieces as text *)

Definition piece_length (x : PatternPiece) : Z :=
  match x with
  | Wildcard => 1
  | Literal byte => if byte =? 32 then 1 else if is_ascii_graphic byte then 1 else 4
  end.

Definition text_piece (normalized_cursor i : Z) (piece : PatternPiece) : TermCmd :=
  let at_cursor := normalized_cursor =? i in
  match piece with
  | Literal byte =>
      if negb at_cursor && is_plain byte then Print [byte]
      else if negb at_cursor then styled (angle_hex byte) CBlack CDarkGrey
      else if is_plain byte then styled [byte] CBlack CWhite
      else styled (angle_hex byte) CBlack CWhite
  | Wildcard =>
      if negb at_cursor then styled_fg (str "*") CDarkRed else styled (str "*") CDarkRed CWhite
  end.

(** [lengths.iter().position(...)]: how many pieces to drop until [remaining]
    columns are free. *)
Fixpoint dropped_pieces (remaining : Z) (i : Z) (lengths : list Z) : outcome (option Z) :=
  match lengths with
  | [] => Ok None
  | x :: l =>
      r ← isub remaining x;
      if remaining <=? 0 then Ok (Some i) else dropped_pieces r (i + 1) l
  end.

(** [iter().sum()] *)
Definition usum (l : list Z) : outcome Z := foldM uadd 0 l.

(** The loop over the pieces and their lengths; it ends at the first piece
    that does not fit. *)
Fixpoint text_pieces (normalized_cursor i max_width : Z) (ps : list PatternPiece) (lengths : list Z) :
    outcome (list TermCmd) :=
  match ps, lengths with
  | p :: ps', n :: lengths' =>
      if max_width <? n then Ok []
      else
        max_width ← usub max_width n;
        rest ← text_pieces normalized_cursor (i + 1) max_width ps' lengths';
        Ok (text_piece normalized_cursor i p :: rest)
  | _, _ => Ok []
  end.

Definition render_text (self : Search) (max_width start_column : Z) : outcome (list TermCmd * Z) :=
  let ps := pieces (pattern self) in
  let at_end := cursor self =? zlen ps in
  max_width ← usub max_width (Z.b2z at_end);
  shown ← slice_range ps start_column (zlen ps);
  let lengths := piece_length <$> shown in
  k ← usub (cursor self) start_column;
  before ← slice_range lengths 0 k;
  required_length ← usum before;
  '(start_column, lengths) ←
    (if max_width <? required_length then
       delta ← usub required_length max_width;
       r ← dropped_pieces (as_isize delta) 0 lengths;
       num_dropped_pieces ← unwrap r;
       start_column ← uadd start_column num_dropped_pieces;
       Ok (start_column, zdrop num_dropped_pieces lengths)
     else Ok (start_column, lengths));
  normalized_cursor ← usub (cursor self) start_column;
  shown ← slice_range ps start_column (zlen ps);
  cmds ← text_pieces normalized_cursor 0 max_width shown lengths;
  Ok (cmds ++ (if at_end then [styled (str " ") CBlack CWhite] else []), start_column).

(** [impl StatusLinePrompter for modes::search::Search] *)
Definition search_render (self : Search) (max_width last_start_col : Z) : outcome (list TermCmd * Z) :=
  max_width ← usub max_width (zlen (str "search:"));
  start_column ← clamp_start (zlen (pieces (pattern self))) (cursor self) last_start_col;
  '(cmds, start_column) ←
    (if search_hex self then render_hex self max_width start_column
     else render_text self max_width start_column);
  Ok (styled (str "search:") CWhite CBlue :: cmds, start_column).

(** [impl StatusLinePrompter for modes::command::Command] *)
Definition command_render (self : Command) (max_width last_start_col : Z) : outcome (list TermCmd * Z) :=
  let len := zlen (command self) in
  let at_end := cmd_cursor self =? len in
  max_width ← usub max_width 1;
  start_column ← clamp_start len (cmd_cursor self) last_start_col;
  max_width ← usub max_width (Z.b2z at_end);
  required_length ← usub (cmd_cursor self) start_column;
  start_column ←
    (if max_width <? required_length then
       d ← usub required_length max_width; uadd start_column d
     else Ok start_column);
  last ← uadd start_column max_width;
  text ← str_slice (command self) start_column (Z.min len last);
  Ok ([styled (str ":") CWhite CBlue; Print text] ++
      (if at_end then [styled (str " ") CBlack CWhite] else []),
      start_column).

End render.

(** ** The prompt fits into the line *)

Lemma zlen_printed_cons c l : zlen (printed (c :: l)) = zlen (printed [c]) + zlen (printed l).
Proof. by rewrite <-zlen_app, <-printed_app. Qed.

Lemma hex_piece_width hex_half cur i p : piece_ok p → zlen (printed (hex_piece hex_half cur i p)) = 3.
Proof.
  intros Hp. destruct p as [c|]; simpl in *; [|by destruct (cur =? i)].
  unfold is_u8 in Hp. destruct (negb (cur =? i)); [done|]. destruct hex_half; [|done].
  cbn [printed styled]. rewrite Z.shiftr_div_pow2 by done. change 15 with (Z.ones 4).
  rewrite Z.land_ones by done. change (2 ^ 4) with 16. pose proof (Z.mod_pos_bound c 16 ltac:(done)).
  assert (0 ≤ c / 16 < 16) by (split; [apply Z.div_pos|apply Z.div_lt_upper_bound]; lia).
  by rewrite !fmt_hex_digit.
Qed.

Lemma hex_pieces_width hex_half cur i l : Forall piece_ok l →
  zlen (printed (hex_pieces hex_half cur i l)) = 3 * zlen l.
Proof.
  revert i. induction l as [|p l IH]; intros i Hl; [done|]. apply Forall_cons in Hl as [Hp Hl].
  cbn [hex_pieces]. rewrite printed_app, zlen_app, hex_piece_width, IH, zlen_cons by done. lia.
Qed.

Lemma piece_length_range p : 1 ≤ piece_length p ≤ 4.
Proof. destruct p as [c|]; simpl; [|lia]. zcases; lia. Qed.

Lemma text_piece_width cur i p : zlen (printed [text_piece cur i p]) = piece_length p.
Proof.
  destruct p as [c|]; simpl; [|by destruct (cur =? i)]. unfold is_plain.
  destruct (c =? 32), (is_ascii_graphic c); destruct (cur =? i); done.
Qed.

(** Lists of lengths. *)
Definition zsum (l : list Z) : Z := foldr Z.add 0 l.

Lemma zsum_app l1 l2 : zsum (l1 ++ l2) = zsum l1 + zsum l2.
Proof. induction l1 as [|x l1 IH]; [done|]. simpl. unfold zsum in *. simpl. rewrite IH. lia. Qed.

Lemma zsum_bounds l : Forall (λ x, 1 ≤ x ≤ 4) l → zlen l ≤ zsum l ≤ 4 * zlen l.
Proof.
  induction l as [|x l IH]; intros Hl; [done|]. apply Forall_cons in Hl as [Hx Hl].
  specialize (IH Hl). rewrite zlen_cons. unfold zsum in *. simpl. lia.
Qed.

Section fits.
Context `{Profile}.

Lemma usum_ok l : Forall (λ x, 1 ≤ x ≤ 4) l → 4 * zlen l ≤ usize_max → usum l = Ok (zsum l).
Proof.
  intros Hl Hfit. unfold usum.
  assert (∀ a, 0 ≤ a → a + 4 * zlen l ≤ usize_max → foldM uadd a l = Ok (a + zsum l)) as Hg;
    [|by rewrite Hg by lia].
  clear Hfit. induction l as [|x l IH]; intros a Ha Hfit; [by rewrite Z.add_0_r|].
  apply Forall_cons in Hl as [Hx Hl]. rewrite zlen_cons in Hfit. pose proof (zlen_nonneg l).
  cbn [foldM]. rewrite uadd_ok by (unfold_usize; lia). cbn [mbind outcome_bind].
  rewrite IH by (done || lia). unfold zsum. simpl. f_equal. lia.
Qed.

Lemma ztake_cons {A} k (x : A) l : 1 ≤ k → ztake k (x :: l) = x :: ztake (k - 1) l.
Proof. intros Hk. unfold ztake. replace (Z.to_nat k) with (S (Z.to_nat (k - 1))) by lia. done. Qed.

(** Enough pieces are dropped, and not all of the first [k]. *)
Lemma dropped_pieces_ok k l rem i : Forall (λ x, 1 ≤ x ≤ 4) l → - 3 ≤ rem < two63 →
  0 ≤ k ≤ zlen l → rem + 4 ≤ zsum (ztake k l) →
  ∃ n, dropped_pieces rem i l = Ok (Some (i + n)) ∧ 0 ≤ n < k ∧ rem ≤ zsum (ztake n l).
Proof.
  revert k rem i. induction l as [|x l IH]; intros k rem i Hl Hrem Hk Hsum.
  { unfold ztake in Hsum. rewrite take_nil in Hsum. unfold zsum in Hsum. simpl in Hsum. lia. }
  apply Forall_cons in Hl as [Hx Hl]. rewrite zlen_cons in Hk.
  destruct (Z.le_gt_cases k 0) as [|Hk0].
  { rewrite ztake_le0 in Hsum by lia. unfold zsum in Hsum. simpl in Hsum. lia. }
  rewrite ztake_cons in Hsum by lia. change (zsum (x :: ztake (k - 1) l)) with (x + zsum (ztake (k - 1) l)) in Hsum.
  cbn [dropped_pieces]. rewrite isub_ok by (unfold_usize; lia). cbn [mbind outcome_bind].
  destruct (Z.leb_spec rem 0).
  - exists 0. rewrite Z.add_0_r. split; [done|]. split; [lia|]. done.
  - destruct (IH (k - 1) (rem - x) (i + 1)) as (n & Hd & Hn & Hs); [done|lia..|].
    exists (n + 1). rewrite Hd. split; [do 2 f_equal; lia|]. split; [lia|].
    rewrite ztake_cons, Z.add_simpl_r by lia. change (zsum (x :: ztake n l)) with (x + zsum (ztake n l)). lia.
Qed.

Lemma text_pieces_width cur i w ps : 0 ≤ w ≤ usize_max →
  ∃ cmds, text_pieces cur i w ps (piece_length <$> ps) = Ok cmds ∧ zlen (printed cmds) ≤ w.
Proof.
  revert i w. induction ps as [|p ps IH]; intros i w Hw; [exists []; split; [done|]; change (zlen (printed [])) with 0; lia|].
  rewrite fmap_cons. cbn [text_pieces]. pose proof (piece_length_range p).
  destruct (Z.ltb_spec w (piece_length p)); [exists []; split; [done|]; change (zlen (printed [])) with 0; lia|].
  rewrite usub_ok by (unfold_usize; lia). cbn [mbind outcome_bind].
  destruct (IH (i + 1) (w - piece_length p)) as (cmds & -> & Hc); [lia|].
  eexists. split; [done|]. rewrite zlen_printed_cons, text_piece_width. lia.
Qed.

(** The first column of a prompt whose cursor did not jump. *)
Lemma clamp_start_ok len cur start : 0 ≤ cur ≤ len → 0 ≤ start → len < two63 →
  (start < len ∨ len ≤ cur + 1) →
  ∃ st, clamp_start len cur start = Ok st ∧ 0 ≤ st ≤ cur.
Proof.
  intros Hc Hs Hl Hj. unfold clamp_start. destruct (Z.leb_spec len start).
  - rewrite usub_ok by (unfold_usize; lia). eexists. split; [done|]. lia.
  - destruct (Z.ltb_spec cur start); eexists; (split; [done|lia]).
Qed.

Lemma render_hex_fits (m : Search) w st : Forall piece_ok (pieces (pattern m)) →
  0 ≤ st ≤ cursor m → cursor m ≤ zlen (pieces (pattern m)) < two63 → 3 ≤ w < two63 →
  ∃ cmds st', render_hex m w st = Ok (cmds, st') ∧ zlen (printed cmds) ≤ w ∧
    0 ≤ st' ≤ cursor m ∧ cursor m < st' + w / 3.
Proof.
  intros Hp Hst Hcur Hw. unfold render_hex. set (ps := pieces (pattern m)) in *. set (n := w / 3).
  assert (1 ≤ n ∧ 3 * n ≤ w) as Hn.
  { subst n. pose proof (Z.div_mod w 3 ltac:(done)). pose proof (Z.mod_pos_bound w 3 ltac:(done)). lia. }
  rewrite uadd_ok by (unfold_usize; lia). cbn [mbind outcome_bind].
  assert (∃ st', (if st + n <=? cursor m then d ← usub (cursor m) n; uadd d 1 else Ok st) = Ok st' ∧
    0 ≤ st' ≤ cursor m ∧ cursor m < st' + n) as (st' & -> & Hst').
  { destruct (Z.leb_spec (st + n) (cursor m)); [|eexists; split; [done|lia]].
    rewrite usub_ok by (unfold_usize; lia). cbn [mbind outcome_bind].
    rewrite uadd_ok by (unfold_usize; lia). eexists. split; [done|lia]. }
  cbn [mbind outcome_bind]. rewrite uadd_ok by (unfold_usize; lia). cbn [mbind outcome_bind].
  rewrite usub_ok by (unfold_usize; lia). cbn [mbind outcome_bind].
  rewrite slice_range_ok by lia. cbn [mbind outcome_bind].
  eexists _, _. split; [done|]. split; [|done].
  rewrite printed_app, zlen_app, hex_pieces_width, zlen_zslice
    by (lia || (unfold zslice, ztake, zdrop; by apply Forall_take, Forall_drop)).
  destruct (Z.eqb_spec (cursor m) (zlen ps));
    [change (zlen (printed [styled (str "  ") CBlack CWhite; Print (str " ")])) with 3|
     change (zlen (printed [])) with 0]; lia.
Qed.

Lemma render_text_fits (m : Search) w st : 0 ≤ st ≤ cursor m →
  cursor m ≤ zlen (pieces (pattern m)) → 4 * zlen (pieces (pattern m)) < two63 → 5 ≤ w < two63 →
  ∃ cmds st', render_text m w st = Ok (cmds, st') ∧ zlen (printed cmds) ≤ w ∧ 0 ≤ st' ≤ cursor m.
Proof.
  intros Hst Hcur Hlen Hw. unfold render_text. set (ps := pieces (pattern m)) in *.
  set (at_end := cursor m =? zlen ps). set (mw := w - Z.b2z at_end).
  assert (4 ≤ mw ≤ w) by (subst mw; destruct at_end; simpl; lia).
  rewrite usub_ok by (unfold_usize; fold mw; lia). cbn [mbind outcome_bind]. fold mw.
  rewrite slice_range_ok by lia. cbn [mbind outcome_bind]. set (shown := zslice st (zlen ps) ps).
  assert (zlen shown = zlen ps - st) as Hshown by (subst shown; rewrite zlen_zslice by lia; lia).
  rewrite usub_ok by (unfold_usize; lia). cbn [mbind outcome_bind].
  rewrite slice_range_ok by (rewrite ?zlen_fmap; lia). cbn [mbind outcome_bind].
  rewrite <-ztake_zslice. set (lengths := piece_length <$> shown).
  assert (Forall (λ x, 1 ≤ x ≤ 4) lengths) as Hlengths.
  { apply Forall_fmap, Forall_true. intros p. apply piece_length_range. }
  assert (zlen lengths = zlen ps - st) as Hll by (subst lengths; by rewrite zlen_fmap).
  assert (zlen (ztake (cursor m - st) lengths) = cursor m - st) as Htake by (rewrite zlen_ztake; lia).
  rewrite usum_ok by (first [unfold_usize; lia|by apply Forall_take]). cbn [mbind outcome_bind].
  set (req := zsum (ztake (cursor m - st) lengths)).
  assert (0 ≤ req < two63) as Hreq.
  { pose proof (zsum_bounds (ztake (cursor m - st) lengths) ltac:(by apply Forall_take)). lia. }
  change (w - Z.b2z at_end) with mw.
  assert (∃ st', (if mw <? req then
       delta ← usub req mw; r ← dropped_pieces (as_isize delta) 0 lengths; num_dropped_pieces ← unwrap r;
       start_column ← uadd st num_dropped_pieces; Ok (start_column, zdrop num_dropped_pieces lengths)
     else Ok (st, lengths)) = Ok (st', piece_length <$> zslice st' (zlen ps) ps) ∧ st ≤ st' ≤ cursor m)
    as (st' & -> & Hst').
  { destruct (Z.ltb_spec mw req); [|eexists; split; [done|lia]].
    rewrite usub_ok by (unfold_usize; lia). cbn [mbind outcome_bind]. rewrite as_isize_small by lia.
    destruct (dropped_pieces_ok (cursor m - st) lengths (req - mw) 0) as (n & -> & Hn & _);
      [done|unfold_usize; lia|lia|fold req; lia|].
    cbn [mbind outcome_bind unwrap]. rewrite Z.add_0_l, uadd_ok by (unfold_usize; lia). cbn [mbind outcome_bind].
    exists (st + n). split; [|lia]. do 2 f_equal. subst lengths shown. unfold zdrop at 1. rewrite <-fmap_drop.
    f_equal. fold (zdrop n (zslice st (zlen ps) ps)). rewrite !zslice_to_end by lia. unfold zdrop.
    rewrite drop_drop. f_equal. lia. }
  cbn [mbind outcome_bind]. rewrite usub_ok by (unfold_usize; lia). cbn [mbind outcome_bind].
  rewrite slice_range_ok by lia. cbn [mbind outcome_bind].
  destruct (text_pieces_width (cursor m - st') 0 mw (zslice st' (zlen ps) ps)) as (cmds & -> & Hc);
    [unfold_usize; lia|].
  cbn [mbind outcome_bind]. eexists _, _. split; [done|]. split; [|lia].
  rewrite printed_app, zlen_app. subst mw.
  destruct at_end; [change (zlen (printed [styled (str " ") CBlack CWhite])) with 1|
    change (zlen (printed [])) with 0]; simpl in Hc; lia.
Qed.

Lemma search_prompt_fits_lemma (m : Search) width last_col : Forall piece_ok (pieces (pattern m)) →
  0 ≤ cursor m ≤ zlen (pieces (pattern m)) → 4 * zlen (pieces (pattern m)) < two63 → 12 ≤ width < two63 →
  0 ≤ last_col → (last_col < zlen (pieces (pattern m)) ∨ zlen (pieces (pattern m)) ≤ cursor m + 1) →
  ∃ cmds col, search_render m width last_col = Ok (cmds, col) ∧ zlen (printed cmds) ≤ width ∧
    0 ≤ col ≤ cursor m ∧ (search_hex m = true → cursor m < col + (width - 7) / 3).
Proof.
  intros Hp Hcur Hlen Hw Hlast Hj. unfold search_render. change (zlen (str "search:")) with 7.
  rewrite usub_ok by (unfold_usize; lia). cbn [mbind outcome_bind].
  destruct (clamp_start_ok (zlen (pieces (pattern m))) (cursor m) last_col) as (st & -> & Hst);
    [lia..|done|]. cbn [mbind outcome_bind]. destruct (search_hex m).
  - destruct (render_hex_fits m (width - 7) st) as (cmds & st' & -> & Hc & Hs); [done|lia..|].
    eexists _, _. split; [done|]. rewrite zlen_printed_cons. change (zlen (printed [_])) with 7.
    split; [lia|]. split; [lia|]. lia.
  - destruct (render_text_fits m (width - 7) st) as (cmds & st' & -> & Hc & Hs); [lia..|].
    eexists _, _. split; [done|]. rewrite zlen_printed_cons. change (zlen (printed [_])) with 7.
    split; [lia|]. split; [lia|done].
Qed.

(** C26: the search prompt fits into a line of at least twelve columns: it is
    drawn without a panic, prints at most as many characters as the line is
    wide, and starts at or before the cursor; in hexadecimal the piece at the
    cursor is among those that are shown.  The column of the last drawing has to
    lie within the pattern unless the cursor is at its last piece or its end. *)
Theorem search_prompt_fits (m : Search) width last_col : Forall piece_ok (pieces (pattern m)) →
  0 ≤ cursor m ≤ zlen (pieces (pattern m)) → 4 * zlen (pieces (pattern m)) < two63 → 12 ≤ width < two63 →
  0 ≤ last_col → (last_col < zlen (pieces (pattern m)) ∨ zlen (pieces (pattern m)) ≤ cursor m + 1) →
  ∃ cmds col, search_render m width last_col = Ok (cmds, col) ∧ zlen (printed cmds) ≤ width ∧
    0 ≤ col ≤ cursor m ∧ (search_hex m = true → cursor m < col + (width - 7) / 3).
Proof. apply search_prompt_fits_lemma. Qed.

End fits.

Definition sample_search (hex : bool) : Search :=
  mkSearch (mkPattern [Literal 65; Wildcard; Literal 255; Literal 10; Literal 0; Literal 66]) 5 hex None
    (Some AcceptCollapse).

Lemma search_prompt_fits_witness : ∃ cmds col, @search_render true (sample_search true) 14 0 = Ok (cmds, col) ∧
  zlen (printed cmds) ≤ 14 ∧ 0 ≤ col ≤ 5 ∧ (true = true → 5 < col + (14 - 7) / 3).
Proof.
  apply (search_prompt_fits (sample_search true) 14 0); try (vm_compute; done).
  - repeat constructor; vm_compute; done.
  - left. vm_compute. done.
Defined.
