(* ===== verification/View.v ===== *)
(** * View: the state of the view and what it draws, [src/src/hex_view/view.rs]

    The functions that only read the view ([&self]) are functions of its state
    that return the commands they queue; those that change it run in the monad
    [M] over the view, the outside world and the commands queued so far.
    Queueing commands for the terminal does not fail. *)

From S2P Require Import Prelude KeyMap CmdCount Masks XiRope XiRopeRef ByteRope Selection.
From S2P Require Import Operations History CurrentBuffer Text Mode Names Style ByteProperties Prompt.
From Stdlib Require Import Ascii String.
Local Open Scope Z_scope.

(** [terminal::size()] and [event::read()] of the terminal library. *)
Class Terminal `{FileSystem} := {
  term_size : World → io (Z * Z);
  event_read : World → io Event * World;
}.

(** U+2502 and U+E0B2 *)
Definition VERTICAL : bytes := [226; 148; 130].
Definition LEFTARROW : bytes := [238; 130; 178].

(** The indices of a range, and those of [range.step_by(step)]. *)
Definition range_list (s e : Z) : list Z := seqZ s (e - s).
Definition step_by (s e step : Z) : list Z :=
  (λ k, s + k * step) <$> seqZ 0 ((Z.max 0 (e - s) + step - 1) / step).

Section view.
Context `{Profile} `{XiRope} `{Terminal} `{CharDebug}.

Record HexView := mkView {
  buffr_collection : BuffrCollection;
  size : Z * Z;
  bytes_per_line : Z;
  start_offset : Z;
  last_visible_rows : Z;
  last_visible_prompt_col : Z;
  mode : Mode;
  info : option bytes;
}.

Definition with_collection (v : HexView) (c : BuffrCollection) : HexView :=
  mkView c (size v) (bytes_per_line v) (start_offset v) (last_visible_rows v)
    (last_visible_prompt_col v) (mode v) (info v).
Definition with_size (v : HexView) (s : Z * Z) : HexView :=
  mkView (buffr_collection v) s (bytes_per_line v) (start_offset v) (last_visible_rows v)
    (last_visible_prompt_col v) (mode v) (info v).
Definition set_bytes_per_line (v : HexView) (bpl : Z) : HexView :=
  mkView (buffr_collection v) (size v) bpl (start_offset v) (last_visible_rows v)
    (last_visible_prompt_col v) (mode v) (info v).
Definition with_start (v : HexView) (s : Z) : HexView :=
  mkView (buffr_collection v) (size v) (bytes_per_line v) s (last_visible_rows v)
    (last_visible_prompt_col v) (mode v) (info v).
Definition with_rows (v : HexView) (n : Z) : HexView :=
  mkView (buffr_collection v) (size v) (bytes_per_line v) (start_offset v) n
    (last_visible_prompt_col v) (mode v) (info v).
Definition with_prompt_col (v : HexView) (n : Z) : HexView :=
  mkView (buffr_collection v) (size v) (bytes_per_line v) (start_offset v) (last_visible_rows v)
    n (mode v) (info v).
Definition with_mode (v : HexView) (m : Mode) : HexView :=
  mkView (buffr_collection v) (size v) (bytes_per_line v) (start_offset v) (last_visible_rows v)
    (last_visible_prompt_col v) m (info v).
Definition with_info (v : HexView) (i : option bytes) : HexView :=
  mkView (buffr_collection v) (size v) (bytes_per_line v) (start_offset v) (last_visible_rows v)
    (last_visible_prompt_col v) (mode v) i.

(** [terminal::size().unwrap()] *)
Definition with_buffr_collection (w : World) (c : BuffrCollection) : outcome HexView :=
  match term_size w with
  | IoOk s => Ok (mkView c s 16 0 0 0 (MNormal normal_new) None)
  | IoErr _ => Panic PanicUnwrap
  end.

(** ** Rows *)

Definition draw_hex_row (styled_bytes : list (Z * StylingCommand)) : list TermCmd :=
  List.concat ((λ '(byte, style_cmd), draw_hex_byte byte style_cmd) <$> styled_bytes).
Definition draw_ascii_row (styled_bytes : list (Z * StylingCommand)) : list TermCmd :=
  List.concat ((λ '(byte, style_cmd), draw_ascii_byte byte style_cmd) <$> styled_bytes).

Definition draw_separator : list TermCmd := [SetForegroundColor CWhite; Print (VERTICAL ++ str " ")].

Definition is_valid_offset (self : HexView) (offset : Z) : outcome bool :=
  b ← current (buffr_collection self); Ok (offset <? rope_len (data b)).

(** The two errors of [offset_to_row]. *)
Inductive RowError := BeforeVisibleArea | OutsideVisibleArea.

Definition offset_to_row (self : HexView) (offset : Z) : outcome (Z + RowError) :=
  if offset <? start_offset self then Ok (inr BeforeVisibleArea)
  else
    d ← usub offset (start_offset self);
    row ← udiv d (bytes_per_line self);
    Ok (if snd (size self) <=? row then inr OutsideVisibleArea else inl (as_u16 row)).

(** The columns that a row of [n] bytes leaves free. *)
Definition missing_bytes (self : HexView) (bs : bytes) : outcome Z :=
  if zlen bs =? 0 then Ok (bytes_per_line self)
  else d ← usub (bytes_per_line self) (zlen bs); urem d (bytes_per_line self).

Definition draw_row (self : HexView) (bs : bytes) (offset : Z) (mark_commands : list StylingCommand)
    (end_style : option StylingCommand) (byte_properties : BytePropertiesFormatter) :
    outcome (list TermCmd * BytePropertiesFormatter) :=
  row ← offset_to_row self offset;
  match row with
  | inr _ => Ok ([], byte_properties)
  | inl row_num =>
      m ← missing_bytes self bs;
      padding_length ← umul m 3;
      '(end_hex, padding_length) ←
        match end_style with
        | Some style_cmd =>
            p ← usub padding_length 2;
            Ok (draw_text (str " ") (with_mid_to_end style_cmd) ++
                draw_text (str " ") (take_end_only style_cmd), p)
        | None => Ok ([], padding_length)
        end;
      padding_hex ← make_padding padding_length;
      m ← missing_bytes self bs;
      padding_length ← uadd m 1;
      '(end_ascii, padding_length) ←
        match end_style with
        | Some style_cmd =>
            p ← usub padding_length 1;
            Ok (draw_text (str " ") (take_end_only style_cmd), p)
        | None => Ok ([], padding_length)
        end;
      padding_ascii ← make_padding padding_length;
      '(line, byte_properties) ← draw_line byte_properties;
      Ok ([MoveTo 0 row_num; Print (str " ")] ++
          draw_hex_row (zip bs mark_commands) ++
          end_hex ++
          [Print padding_hex] ++ draw_separator ++
          draw_ascii_row (zip bs mark_commands) ++
          end_ascii ++
          [Print padding_ascii] ++ draw_separator ++
          line ++
          [Clear ClearUntilNewLine], byte_properties)
  end.

Definition visible_bytes (self : HexView) : outcome (Z * Z) :=
  b ← current (buffr_collection self);
  past ← uadd (rope_len (data b)) 1;
  rows ← u16sub (snd (size self)) 1;
  n ← umul rows (bytes_per_line self);
  e ← uadd (start_offset self) n;
  Ok (start_offset self, Z.min past e).

(** ** Styles of bytes *)

Definition default_style : PrioritizedStyle :=
  mkPrioritized (content_on (content_with content_new CWhite) CReset) PBasic.
Definition active_selection_style : PrioritizedStyle :=
  mkPrioritized (content_on (content_with content_new CBlack) (CRgb 110 97 16)) PSelection.
Definition inactive_selection_style : PrioritizedStyle :=
  mkPrioritized (content_on (content_with content_new CBlack) CDarkGrey) PSelection.
Definition active_caret_style : PrioritizedStyle :=
  mkPrioritized (content_on (content_with content_new (CAnsiValue 16)) (CRgb 107 108 128)) PCursor.
Definition inactive_caret_style : PrioritizedStyle :=
  mkPrioritized (content_on (content_with content_new CBlack) CDarkGrey) PCursor.
Definition empty_caret_style : PrioritizedStyle :=
  mkPrioritized (content_on content_new CGreen) PCursor.

Definition region_style (r : SelRegion) : PrioritizedStyle :=
  if is_main r then active_selection_style else inactive_selection_style.
Definition caret_style (r : SelRegion) : PrioritizedStyle :=
  if is_main r then active_caret_style else inactive_caret_style.

(** The command of one byte for the first region that is left: the first part
    of a round of the loop. *)
Definition mark_region (half_cursor : bool) (i : Z) (r : SelRegion)
    (command_stack : list PrioritizedStyle) (cmd : StylingCommand) :
    outcome (StylingCommand * list PrioritizedStyle) :=
  '(command_stack, cmd) ←
    (if rmin r =? i then
       let command_stack := command_stack ++ [region_style r] in
       top ← unwrap (last command_stack);
       Ok (command_stack, with_start_style cmd top)
     else Ok (command_stack, cmd));
  cmd ←
    (if caret r =? i then
       base_style ← unwrap (last command_stack);
       Ok (if half_cursor then
             if i =? rmin r then with_end_style (with_mid_style cmd (caret_style r)) base_style
             else with_mid_style (with_start_style cmd base_style) (caret_style r)
           else with_end_style (with_start_style cmd (caret_style r)) base_style)
     else Ok cmd);
  cmd ←
    (if rmax r =? i then
       n ← usub (zlen command_stack) 2;
       below ← vec_index command_stack n;
       Ok (with_end_style cmd below)
     else Ok cmd);
  Ok (cmd, command_stack).

(** The second part: the styles are set again at the start of a line and reset
    at its end. *)
Definition mark_line (bytes_per_line i : Z) (command_stack : list PrioritizedStyle) (cmd : StylingCommand) :
    outcome StylingCommand :=
  rem ← urem i bytes_per_line;
  if (rem =? 0) && (match start_style cmd with None => true | Some _ => false end) then
    top ← unwrap (last command_stack);
    Ok (with_start_style cmd top)
  else
    i1 ← uadd i 1;
    rem ← urem i1 bytes_per_line;
    Ok (if rem =? 0 then with_end_style cmd default_style else cmd).

(** The loop [for i in visible]: every index is visited once, its command
    starts as the default one and is final after its round. *)
Fixpoint mark_loop (half_cursor : bool) (bytes_per_line : Z) (is_ : list Z)
    (selected_regions : list SelRegion) (command_stack : list PrioritizedStyle) :
    outcome (list StylingCommand) :=
  match is_ with
  | [] => Ok []
  | i :: is' =>
      '(cmd, command_stack) ←
        match selected_regions with
        | r :: _ => mark_region half_cursor i r command_stack styling_default
        | [] => Ok (styling_default, command_stack)
        end;
      cmd ← mark_line bytes_per_line i command_stack cmd;
      let '(selected_regions, command_stack) :=
        match selected_regions with
        | r :: rs => if rmax r =? i then (rs, removelast command_stack) else (selected_regions, command_stack)
        | [] => (selected_regions, command_stack)
        end in
      rest ← mark_loop half_cursor bytes_per_line is' selected_regions command_stack;
      Ok (cmd :: rest)
  end.

Definition mark_commands (self : HexView) (visible : Z * Z) : outcome (list StylingCommand) :=
  b ← current (buffr_collection self);
  selected_regions ← regions_in_range (selection b) (fst visible) (snd visible);
  let command_stack :=
    match selected_regions with
    | r :: _ => if rmin r <? fst visible then [default_style; region_style r] else [default_style]
    | [] => [default_style]
    end in
  mark_loop (has_half_cursor (mode self)) (bytes_per_line self)
    (range_list (fst visible) (snd visible)) selected_regions command_stack.

(** ** The status line *)

Definition selections_text (s : Selection) : outcome bytes :=
  n ← uadd (main_selection s) 1;
  Ok (str " " ++ fmt_dec (selection_len s) ++ str " sels (" ++ fmt_dec n ++ str ") ").

Definition position_text (b : CurrentBuffer) : outcome bytes :=
  if negb (rope_is_empty (data b)) then
    o ← main_cursor_offset (selection b);
    n ← usub (rope_len (data b)) 1;
    Ok (str " " ++ fmt_hex o ++ str "/" ++ fmt_hex n ++ str " ")
  else Ok (str " empty ").

Definition calculate_powerline_length (self : HexView) : outcome Z :=
  b ← current (buffr_collection self);
  name ← mode_name (mode self);
  sels ← selections_text (selection b);
  pos ← position_text b;
  length ← uadd 0 1;
  n ← uadd 2 (zlen (buffer_name b));
  length ← uadd length n;
  length ← (if dirty b then uadd length 3 else Ok length);
  length ← uadd length 1;
  n ← uadd 2 (zlen name);
  length ← uadd length n;
  length ← uadd length 1;
  length ← uadd length (zlen sels);
  length ← uadd length 1;
  uadd length (zlen pos).

Definition draw_statusline_here (self : HexView) : outcome (list TermCmd) :=
  b ← current (buffr_collection self);
  name ← mode_name (mode self);
  sels ← selections_text (selection b);
  pos ← position_text b;
  Ok [styled_fg LEFTARROW CRed;
      styled (str " " ++ buffer_name b ++ (if dirty b then str "[+]" else []) ++ str " ") CWhite CRed;
      styled LEFTARROW CDarkYellow CRed;
      styled (str " " ++ name ++ str " ") (CAnsiValue 16) CDarkYellow;
      styled LEFTARROW CWhite CDarkYellow;
      styled sels (CAnsiValue 16) CWhite;
      styled LEFTARROW CBlue CWhite;
      styled pos CWhite CBlue].

(** The last visible column of the prompt is a [Cell]: the second result. *)
Definition draw_statusline_self (self : HexView) : outcome (list TermCmd * Z) :=
  line_length ← calculate_powerline_length self;
  place ←
    match info self with
    | Some info =>
        last_row ← u16sub (snd (size self)) 1;
        col ← u16sub (fst (size self)) (as_u16 line_length);
        Ok [MoveTo 0 last_row; Clear ClearCurrentLine; styled info CWhite CBlue;
            MoveTo col (snd (size self))]
    | None =>
        col ← u16sub (fst (size self)) (as_u16 line_length);
        Ok [MoveTo col (snd (size self)); Clear ClearCurrentLine]
    end;
  here ← draw_statusline_here self;
  prompt ←
    match mode self with
    | MSearch m => r ← search_render m (fst (size self)) (last_visible_prompt_col self); Ok (Some r)
    | MCommand m => r ← command_render m (fst (size self)) (last_visible_prompt_col self); Ok (Some r)
    | _ => Ok None
    end;
  Ok (match prompt with
      | Some (cmds, new_col) => (place ++ here ++ [MoveTo 0 (snd (size self))] ++ cmds, new_col)
      | None => (place ++ here, last_visible_prompt_col self)
      end).

Definition overflow_style (half_cursor : bool) (s : OverflowSelectionStyle) : StylingCommand :=
  with_end_style
    match s with
    | CursorTail | Cursor =>
        if half_cursor then with_mid_style styling_default empty_caret_style
        else with_start_style styling_default empty_caret_style
    | Tail => styling_default
    end default_style.

Definition overflow_cursor_style (self : HexView) : outcome (option StylingCommand) :=
  b ← current (buffr_collection self);
  s ← overflow_sel_style b;
  Ok (option_map (overflow_style (has_half_cursor (mode self))) s).

(** ** The visible rows *)

(** The main region in range, and the up to four bytes from its caret on. *)
Definition current_bytes (self : HexView) (visible : Z * Z) (visible_bytes_cow : bytes) : outcome bytes :=
  b ← current (buffr_collection self);
  rs ← regions_in_range (selection b) (fst visible) (snd visible);
  match List.find is_main rs with
  | Some v =>
      start ← usub (caret v) (fst visible);
      start4 ← uadd start 4;
      slice_range visible_bytes_cow start
        (if zlen visible_bytes_cow <? start4 then zlen visible_bytes_cow else start4)
  | None => Ok []
  end.

(** The loop of [draw] over the visible rows. *)
Fixpoint draw_all_rows (self : HexView) (start_index : Z) (visible_bytes_cow : bytes)
    (marks : list StylingCommand) (is_ : list Z) (byte_properties : BytePropertiesFormatter) :
    outcome (list TermCmd * BytePropertiesFormatter) :=
  match is_ with
  | [] => Ok ([], byte_properties)
  | i :: is' =>
      normalized_i ← usub i start_index;
      e ← uadd normalized_i (bytes_per_line self);
      let normalized_end := Z.min (zlen visible_bytes_cow) e in
      bs ← slice_range visible_bytes_cow normalized_i normalized_end;
      ms ← slice_range marks normalized_i normalized_end;
      row_end ← uadd i (bytes_per_line self);
      b ← current (buffr_collection self);
      end_style ← (if rope_len (data b) <? row_end then overflow_cursor_style self else Ok None);
      '(cmds, byte_properties) ← draw_row self bs i ms end_style byte_properties;
      '(rest, byte_properties) ← draw_all_rows self start_index visible_bytes_cow marks is' byte_properties;
      Ok (cmds ++ rest, byte_properties)
  end.

(** The loop of [draw_rows] over the visible rows: the ones that are not
    [selected] are skipped. *)
Fixpoint draw_visible_rows (self : HexView) (selected : Z → outcome bool) (start_index : Z)
    (visible_bytes_cow : bytes) (marks : list StylingCommand) (is_ : list Z)
    (byte_properties : BytePropertiesFormatter) : outcome (list TermCmd * BytePropertiesFormatter) :=
  match is_ with
  | [] => Ok ([], byte_properties)
  | i :: is' =>
      sel ← selected i;
      '(cmds, byte_properties) ←
        (if (sel : bool) then
           normalized_i ← usub i start_index;
           e ← uadd normalized_i (bytes_per_line self);
           let normalized_end := Z.min (zlen visible_bytes_cow) e in
           bs ← slice_range visible_bytes_cow normalized_i normalized_end;
           ms ← slice_range marks normalized_i normalized_end;
           row_end ← uadd i (bytes_per_line self);
           b ← current (buffr_collection self);
           end_style ← (if rope_len (data b) <? row_end then overflow_cursor_style self else Ok None);
           draw_row self bs i ms end_style byte_properties
         else Ok ([], byte_properties));
      '(rest, byte_properties) ←
        draw_visible_rows self selected start_index visible_bytes_cow marks is' byte_properties;
      Ok (cmds ++ rest, byte_properties)
  end.

(** [while !byte_properties.are_all_printed()]: rows without bytes. *)
Fixpoint fill_rows (fuel : nat) (self : HexView) (offset : Z) (byte_properties : BytePropertiesFormatter) :
    outcome (list TermCmd) :=
  match fuel with
  | O => Panic PanicFuel
  | S fuel' =>
      all_printed ← are_all_printed byte_properties;
      if (all_printed : bool) then Ok []
      else
        '(cmds, byte_properties) ← draw_row self [] offset [] None byte_properties;
        offset ← uadd offset (bytes_per_line self);
        rest ← fill_rows fuel' self offset byte_properties;
        Ok (cmds ++ rest)
  end.

(** The first offset after the visible rows. *)
Definition fill_offset (self : HexView) (end_index : Z) : outcome Z :=
  a ← udiv end_index (bytes_per_line self);
  r ← urem end_index (bytes_per_line self);
  a ← (if r =? 0 then Ok a else uadd a 1);
  umul a (bytes_per_line self).

(** Rounds after which the [while] loop is past the last row of the screen: if
    it has not ended by then, its offset only grows until it overflows. *)
Definition fill_fuel (self : HexView) : nat :=
  Z.to_nat (start_offset self / Z.max 1 (bytes_per_line self) + snd (size self) + 7).

(** [draw], from [self.visible_bytes()] to the end of the [while] loop. *)
Definition draw_window_fuel (fuel : nat) (self : HexView) : outcome (list TermCmd) :=
  visible ← visible_bytes self;
  b ← current (buffr_collection self);
  cow ← slice_to_cow (data b) (iv_new (fst visible) (snd visible));
  marks ← mark_commands self visible;
  cur ← current_bytes self visible cow;
  byte_properties ← bp_new cur;
  _ ← (if bytes_per_line self =? 0 then Panic PanicAssert else Ok tt);
  '(rows, byte_properties) ←
    draw_all_rows self (fst visible) cow marks
      (step_by (fst visible) (snd visible) (bytes_per_line self)) byte_properties;
  offset ← fill_offset self (snd visible);
  rest ← fill_rows fuel self offset byte_properties;
  Ok (rows ++ rest).

Definition draw_window (self : HexView) : outcome (list TermCmd) := draw_window_fuel (fill_fuel self) self.

(** [draw_rows], from [self.visible_bytes()] to its end. *)
Definition draw_visible_fuel (fuel : nat) (self : HexView) (selected : Z → outcome bool) :
    outcome (list TermCmd) :=
  visible ← visible_bytes self;
  b ← current (buffr_collection self);
  cow ← slice_to_cow (data b) (iv_new (fst visible) (snd visible));
  marks ← mark_commands self visible;
  cur ← current_bytes self visible cow;
  byte_properties ← bp_new cur;
  _ ← (if bytes_per_line self =? 0 then Panic PanicAssert else Ok tt);
  '(rows, byte_properties) ←
    draw_visible_rows self selected (fst visible) cow marks
      (step_by (fst visible) (snd visible) (bytes_per_line self)) byte_properties;
  offset ← fill_offset self (snd visible);
  rest ← fill_rows fuel self offset byte_properties;
  Ok (rows ++ rest).

Definition draw_visible (self : HexView) (selected : Z → outcome bool) : outcome (list TermCmd) :=
  draw_visible_fuel (fill_fuel self) self selected.

End view.
