(* ===== verification/EventLoop.v ===== *)
(** * EventLoop: drawing, scrolling and the event loop,
    [src/src/hex_view/view.rs], and the start of the program,
    [src/src/bin/tofu.rs]

    The functions that change the view, in the monad [M]: a panic ends the
    program, an error of the system is returned to the caller, and either way
    what was queued for the terminal stays queued. *)

From S2P Require Import Prelude KeyMap CmdCount Masks XiRope XiRopeRef ByteRope Selection.
From S2P Require Import Operations History CurrentBuffer Text Mode NormalMode SearchMode Modes.
From S2P Require Import Names Style ByteProperties Prompt View.
From Stdlib Require Import Ascii String.
Local Open Scope char_scope.
Local Open Scope Z_scope.

Section monad.
Context `{XiRope} `{FileSystem}.

Record VState := mkVState { vs_view : HexView; vs_world : World; vs_out : list TermCmd }.

Definition M (A : Type) : Type := VState → outcome (io A * VState).

#[export] Instance M_ret : MRet M := λ A a s, Ok (IoOk a, s).
#[export] Instance M_bind : MBind M := λ A B k m s,
  '(r, s) ← m s;
  match r with IoOk a => k a s | IoErr e => Ok (IoErr e, s) end.

Definition lift {A} (o : outcome A) : M A := λ s, a ← o; Ok (IoOk a, s).
Definition get_self : M HexView := λ s, Ok (IoOk (vs_view s), s).
Definition get_world : M World := λ s, Ok (IoOk (vs_world s), s).
Definition set_self (v : HexView) : M unit := λ s, Ok (IoOk tt, mkVState v (vs_world s) (vs_out s)).
Definition set_world (w : World) : M unit := λ s, Ok (IoOk tt, mkVState (vs_view s) w (vs_out s)).
Definition queue (cmds : list TermCmd) : M unit := λ s,
  Ok (IoOk tt, mkVState (vs_view s) (vs_world s) (vs_out s ++ cmds)).
(** [?] on a result of the system *)
Definition try_io {A} (r : io A) : M A := λ s, Ok (r, s).

End monad.

(** [/] of [isize] *)
Definition idiv (a b : Z) : outcome Z :=
  if b =? 0 then Panic PanicDivZero
  else if (a =? isize_min) && (b =? -1) then Panic PanicOverflow
  else Ok (Z.quot a b).

Section event_loop.
Context `{Profile} `{XiRope} `{Terminal} `{CharDebug} `{SearchLib}.

Definition current_buffer : M CurrentBuffer :=
  self ← get_self; lift (current (buffr_collection self)).
(** [*self.buffr_collection.current_mut() = b] *)
Definition update_current (b : CurrentBuffer) : M unit :=
  self ← get_self;
  c ← lift (set_current (buffr_collection self) b);
  set_self (with_collection self c).
Definition set_start (o : Z) : M unit := self ← get_self; set_self (with_start self o).

(** [self.buffr_collection.current_mut().load_next_chunk(chunk_size)] *)
Definition load_chunk (chunk_size : Z) : M bool :=
  w ← get_world;
  b ← current_buffer;
  let '(r, b) := load_next_chunk w b chunk_size in
  _ ← update_current b;
  try_io r.

(** [terminal::size().unwrap_or((80, 23))], then
    [(height as usize - 1) * 16] *)
Definition screen_chunk (w : World) : outcome Z :=
  let '(_, height) := match term_size w with IoOk s => s | IoErr _ => (80, 23) end in
  rows ← usub height 1;
  umul rows 16.
Definition screen_chunk_size : M Z := w ← get_world; lift (screen_chunk w).

(** ** The window on the file *)

Definition should_trim_buffer : M bool :=
  chunk_size ← screen_chunk_size;
  buffer_threshold ← lift (umul chunk_size 3);
  b ← current_buffer;
  mret (buffer_threshold <? rope_len (data b)).

Definition is_near_bottom : M bool :=
  self ← get_self;
  b ← current_buffer;
  visible_rows ← lift (usub (snd (size self)) 2);
  n ← lift (umul visible_rows (bytes_per_line self));
  current_view_end ← lift (uadd (start_offset self) n);
  let total_buffer_bytes := rope_len (data b) in
  rest ← lift (usub total_buffer_bytes current_view_end);
  mret (rest <? total_buffer_bytes / 10).

Definition is_near_top : M bool :=
  self ← get_self;
  b ← current_buffer;
  mret (start_offset self <? rope_len (data b) / 10).

Definition add_chunk_to_bottom (chunk_size : Z) : M unit :=
  w ← get_world;
  b ← current_buffer;
  match path b with
  | Some p =>
      let current_data_len := rope_len (data b) in
      next_chunk ← try_io (fs_read_at w p current_data_len chunk_size);
      if 0 <? zlen next_chunk then
        let delta := chunk_delta current_data_len next_chunk current_data_len in
        update_current (with_data b (rope_apply_delta (data b) delta))
      else mret tt
  | None => mret tt
  end.

Definition add_chunk_to_top (chunk_size : Z) : M unit :=
  w ← get_world;
  self ← get_self;
  b ← current_buffer;
  match path b with
  | Some p =>
      let start_pos := usize_saturating_sub (start_offset self) chunk_size in
      prev_chunk ← try_io (fs_read_at w p start_pos chunk_size);
      if 0 <? zlen prev_chunk then
        let delta := chunk_delta 0 prev_chunk (rope_len (data b)) in
        _ ← update_current (with_data b (rope_apply_delta (data b) delta));
        set_start start_pos
      else mret tt
  | None => mret tt
  end.

(** [iter_chunks(s..e).flat_map(...).collect()] and a rope of one leaf of it. *)
Definition one_leaf (r : Rope) (s e : Z) : outcome Rope :=
  chunks ← extend_chunks (chunk_fuel r) (iter_chunks r (iv_new s e)) [];
  Ok (mkRope (tb_build (if zlen chunks =? 0 then tb_new else tb_push_leaf tb_new chunks))).

(** [chunk_size == 0 || total_len <= chunk_size * 2] *)
Definition too_small (chunk_size total_len : Z) : outcome bool :=
  if chunk_size =? 0 then Ok true else n ← umul chunk_size 2; Ok (total_len <=? n).

Definition trim_buffer_bottom (chunk_size : Z) : M unit :=
  b ← current_buffer;
  let total_len := rope_len (data b) in
  small ← lift (too_small chunk_size total_len);
  if (small : bool) then mret tt
  else
    keep_len ← lift (usub total_len chunk_size);
    if 0 <? keep_len then
      rope ← lift (one_leaf (data b) 0 keep_len);
      _ ← update_current (with_data b rope);
      self ← get_self;
      o ← lift (uadd (start_offset self) chunk_size);
      set_start o
    else mret tt.

Definition trim_buffer_top (chunk_size : Z) : M unit :=
  b ← current_buffer;
  let total_len := rope_len (data b) in
  small ← lift (too_small chunk_size total_len);
  if (small : bool) then mret tt
  else if chunk_size <? total_len then
    rope ← lift (one_leaf (data b) chunk_size total_len);
    _ ← update_current (with_data b rope);
    self ← get_self;
    set_start (usize_saturating_sub (start_offset self) chunk_size)
  else mret tt.

Definition manage_buffer : M unit :=
  let chunk_size := 368 in
  near_bottom ← is_near_bottom;
  _ ← (if (near_bottom : bool) then
         _ ← add_chunk_to_bottom chunk_size; trim_buffer_top chunk_size
       else mret tt);
  near_top ← is_near_top;
  if (near_top : bool) then
    _ ← add_chunk_to_top chunk_size; trim_buffer_bottom chunk_size
  else mret tt.

(** ** Drawing *)

Definition ensure_visible_data : M unit :=
  self ← get_self;
  visible ← lift (visible_bytes self);
  b ← current_buffer;
  if rope_len (data b) <? snd visible then
    _ ← load_chunk 64; mret tt
  else mret tt.

Definition draw_statusline : M unit :=
  self ← get_self;
  r ← lift (draw_statusline_self self);
  _ ← queue (fst r);
  set_self (with_prompt_col self (snd r)).

(** [invalidated_rows.contains(&self.offset_to_row(i).unwrap())] *)
Definition row_invalidated (self : HexView) (invalidated_rows : gset Z) (i : Z) : outcome bool :=
  row ← offset_to_row self i;
  match row with
  | inl row => Ok (bool_decide (row ∈ invalidated_rows))
  | inr _ => Panic PanicUnwrap
  end.

Definition draw_rows (invalidated_rows : gset Z) : M unit :=
  _ ← ensure_visible_data;
  self ← get_self;
  cmds ← lift (draw_visible self (row_invalidated self invalidated_rows));
  queue cmds.

Definition draw : M unit :=
  _ ← ensure_visible_data;
  _ ← queue [MoveTo 0 0; Clear ClearAll];
  self ← get_self;
  cmds ← lift (draw_window self);
  _ ← queue cmds;
  visible ← lift (visible_bytes self);
  n ← lift (usub (snd visible) (fst visible));
  n ← lift (uadd n (bytes_per_line self));
  n ← lift (usub n 1);
  new_full_rows ← lift (udiv n (bytes_per_line self));
  _ ← (if negb (new_full_rows =? last_visible_rows self) then set_self (with_rows self new_full_rows)
       else mret tt);
  draw_statusline.

(** ** Scrolling *)

(** The rows [s..e], as a set. *)
Definition rows_between (s e : Z) : gset Z := list_to_set (range_list s e).

Definition scroll_down (line_count : Z) : M unit :=
  _ ← screen_chunk_size;
  self ← get_self;
  n ← lift (umul line_count 16);
  next_position ← lift (uadd (start_offset self) n);
  visible_rows ← lift (u16sub (snd (size self)) 1);
  n ← lift (umul visible_rows 16);
  _ ← lift (uadd next_position n);
  n ← lift (umul (snd (size self)) (bytes_per_line self));
  next_visible_end ← lift (uadd next_position n);
  b ← current_buffer;
  let current_size := rope_len (data b) in
  go_on ←
    (if current_size <? next_visible_end then
       loaded ← load_chunk 64;
       if (loaded : bool) then
         _ ← should_trim_buffer;
         should_trim ← should_trim_buffer;
         _ ← (if (should_trim : bool) then
                chunk_size ← screen_chunk_size;
                if 0 <? chunk_size then trim_buffer_top chunk_size else mret tt
              else mret tt);
         mret true
       else mret (negb (current_size <=? next_position))
     else mret true);
  if negb (go_on : bool) then mret tt
  else
    b ← current_buffer;
    let final_size := rope_len (data b) in
    if final_size <=? next_position then mret tt
    else
      _ ← set_start next_position;
      max_rows ← lift (u16sub (snd (size self)) 1);
      if max_rows <? line_count then draw
      else
        row ← lift (u16sub (snd (size self)) 2);
        _ ← queue [ScrollUp (as_u16 line_count); MoveTo 0 row; Clear ClearCurrentLine];
        first ← lift (u16sub max_rows (as_u16 line_count));
        draw_rows (rows_between first (row + 1) ∪ rows_between 0 (as_u16 bp_height)).

Definition scroll_up (line_count : Z) : M unit :=
  self ← get_self;
  n ← lift (umul 16 line_count);
  if start_offset self <? n then mret tt
  else
    o ← lift (usub (start_offset self) n);
    _ ← set_start o;
    max_rows ← lift (u16sub (snd (size self)) 1);
    if max_rows <? line_count then draw
    else
      _ ← queue [ScrollDown (as_u16 line_count); MoveTo 0 max_rows; Clear ClearCurrentLine];
      n ← lift (uadd line_count bp_height);
      draw_rows (rows_between 0 (as_u16 n)).

Definition maybe_update_offset : M unit :=
  self ← get_self;
  b ← current_buffer;
  if rope_is_empty (data b) then set_start 0
  else
    main_cursor_offset ← lift (main_cursor_offset (selection b));
    visible ← lift (visible_bytes self);
    delta ←
      (if main_cursor_offset <? fst visible then
         d ← lift (isub (as_isize main_cursor_offset) (as_isize (fst visible)));
         mret (Some d)
       else if snd visible <=? main_cursor_offset then
         last ← lift (isub (as_isize (snd visible)) 1);
         d ← lift (isub (as_isize main_cursor_offset) last);
         mret (Some d)
       else mret None);
    let bpl := as_isize (bytes_per_line self) in
    match (delta : option Z) with
    | None => mret tt
    | Some delta =>
        if delta <? 0 then
          n ← lift (isub delta bpl);
          n ← lift (iadd n 1);
          line_delta ← lift (idiv n bpl);
          scroll_up (as_usize (Z.abs line_delta))
        else
          n ← lift (iadd delta bpl);
          n ← lift (isub n 1);
          line_delta ← lift (idiv n bpl);
          scroll_down (as_usize line_delta)
    end.

Definition maybe_update_offset_and_draw : M unit :=
  self ← get_self;
  b ← current_buffer;
  main_cursor_offset ← lift (main_cursor_offset (selection b));
  visible ← lift (visible_bytes self);
  _ ← (if main_cursor_offset <? fst visible then
         r ← lift (urem main_cursor_offset (bytes_per_line self));
         o ← lift (usub main_cursor_offset r);
         set_start o
       else if snd visible <=? main_cursor_offset then
         rows ← lift (usub (snd (size self)) 1);
         bytes_per_screen ← lift (umul rows (bytes_per_line self));
         r ← lift (urem main_cursor_offset (bytes_per_line self));
         o ← lift (usub main_cursor_offset r);
         o ← lift (uadd o (bytes_per_line self));
         set_start (usize_saturating_sub o bytes_per_screen)
       else mret tt);
  draw.

(** ** Transitions *)

(** The rows of the visible bytes of one interval. *)
Definition interval_rows (self : HexView) (visible : Interval) (x : Interval) : outcome (list Z) :=
  let intersection := iv_intersect visible x in
  mapM_outcome
    (λ byte, d ← usub byte (start_offset self); row ← udiv d (bytes_per_line self); Ok (as_u16 row))
    (if iv_is_empty intersection then []
     else range_list (iv_start intersection) (iv_end intersection)).

Definition transition_dirty_bytes (dirty_bytes : DirtyBytes) : M unit :=
  match dirty_bytes with
  | ChangeInPlace intervals =>
      _ ← maybe_update_offset;
      self ← get_self;
      visible ← lift (visible_bytes self);
      rows ← lift (mapM_outcome (interval_rows self (iv_new (fst visible) (snd visible))) intervals);
      draw_rows (list_to_set (List.concat rows) ∪ rows_between 0 (as_u16 bp_height))
  | ChangeLength => maybe_update_offset_and_draw
  end.

Definition set_mode (m : Mode) : M unit := self ← get_self; set_self (with_mode self m).
Definition set_info (i : option bytes) : M unit := self ← get_self; set_self (with_info self i).

Definition view_transition (t : ModeTransition) : M unit :=
  _ ← set_info None;
  match t with
  | TNone => mret tt
  | TDirtyBytes dirty_bytes => transition_dirty_bytes dirty_bytes
  | NewMode m => set_mode m
  | ModeAndDirtyBytes m dirty_bytes => _ ← set_mode m; transition_dirty_bytes dirty_bytes
  | ModeAndInfo m i => _ ← set_mode m; set_info (Some i)
  end.

(** Every region moved by one row. *)
Definition move_regions (direction : Direction) : M unit :=
  self ← get_self;
  b ← current_buffer;
  r ← lift (map_regions b (λ region,
        simple_move region direction (bytes_per_line self) (rope_len (data b)) 1));
  update_current (fst r).

Definition handle_event_default (event : Event) : M unit :=
  match event with
  | Resize x y =>
      self ← get_self;
      _ ← set_self (with_size self (x, y));
      draw
  | Key e =>
      if decide (e = mkKeyEvent (KChar (chr "e")) CONTROL) then
        chunk_size ← screen_chunk_size;
        _ ← load_chunk chunk_size;
        _ ← move_regions Down;
        _ ← scroll_down 1;
        draw
      else if decide (e = mkKeyEvent (KChar (chr "y")) CONTROL) then
        _ ← move_regions Up;
        _ ← scroll_up 1;
        draw
      else mret tt
  | Mouse => mret tt
  end.

(** ** The loop *)

(** One event: the mode handles it, or else the view does. *)
Definition handle_event (evt : Event) : M unit :=
  self ← get_self;
  w ← get_world;
  '(t, c, w) ← lift (mode_transition (mode self) evt (bytes_per_line self) w (buffr_collection self));
  _ ← set_world w;
  _ ← set_self (with_collection self c);
  _ ← match t with
      | Some t => view_transition t
      | None => handle_event_default evt
      end;
  _ ← draw_statusline;
  queue [Flush].

(** [event::read()?] *)
Definition read_event : M Event :=
  w ← get_world;
  let '(r, w) := event_read w in
  _ ← set_world w;
  try_io r.

(** The loop for at most [fuel] events. *)
Fixpoint event_loop (fuel : nat) : M unit :=
  match fuel with
  | O => lift (Panic PanicFuel)
  | S fuel' =>
      self ← get_self;
      if negb (takes_input (mode self)) then mret tt
      else
        evt ← read_event;
        _ ← handle_event evt;
        event_loop fuel'
  end.

Definition run_event_loop (fuel : nat) : M unit :=
  _ ← queue [EnterAlternateScreen; Hide; Flush];
  _ ← draw;
  _ ← queue [EnableRawMode; Flush];
  _ ← event_loop fuel;
  queue [Style.Show; LeaveAlternateScreen; Flush; DisableRawMode].

(** ** The start of the program *)

(** [current_buffer.resize(chunk_size, 0)], one read and [truncate]. *)
Definition open_collection (w : World) (filename : option PathBuf) : outcome BuffrCollection :=
  match filename with
  | Some filename =>
      chunk_size ← screen_chunk w;
      match fs_read_at w filename 0 chunk_size with
      | IoOk contents =>
          b ← from_data_and_path contents (Some filename);
          Ok (with_current_buffer b)
      | IoErr _ => Panic PanicUnwrap
      end
  | None => Ok collection_new
  end.

(** [main]: the result of the loop is unwrapped. *)
Definition main (fuel : nat) (w : World) (filename : option PathBuf) : outcome VState :=
  c ← open_collection w filename;
  view ← with_buffr_collection w c;
  '(r, s) ← run_event_loop fuel (mkVState view w []);
  match r with IoOk _ => Ok s | IoErr _ => Panic PanicUnwrap end.

End event_loop.
