(* ===== verification/ViewMarks.v ===== *)
(** * ViewMarks: the styles of the visible bytes

    [HexView::mark_commands] walks over the visible bytes with the list of
    regions that are left and a stack of styles.  It computes what a function
    of one byte and the region that holds it says. *)

From S2P Require Import Prelude KeyMap CmdCount Masks XiRope XiRopeRef ByteRope Selection SelectionMap.
From S2P Require Import SelectionMoves SelectionQueries.
From S2P Require Import Operations History CurrentBuffer BufferTheorems Text Mode Names Style.
From S2P Require Import ByteProperties Prompt View.
Local Open Scope Z_scope.

(** ** The reference *)

(** The region that holds the byte [i]. *)
Definition region_at (rs : list SelRegion) (i : Z) : option SelRegion :=
  List.find (λ r, (rmin r <=? i) && (i <=? rmax r)) rs.

(** The style of the byte [i] in a region: the start of the region and of a
    line set the style of the region, its end and the end of a line set the
    default style, and the caret has a style of its own, on the second half of
    the byte when half a byte was typed. *)
Definition byte_mark (half_cursor : bool) (bytes_per_line i : Z) (r : option SelRegion) : StylingCommand :=
  let is_at (f : SelRegion → Z) := match r with Some r => f r =? i | None => false end in
  let inner := match r with Some r => region_style r | None => default_style end in
  let caret_style := match r with Some r => caret_style r | None => default_style end in
  mkStyling
    (if is_at caret && negb half_cursor then Some caret_style
     else if is_at rmin || is_at caret || (i mod bytes_per_line =? 0) then Some inner
     else None)
    (if is_at caret && half_cursor then Some caret_style else None)
    (if is_at rmax || ((i + 1) mod bytes_per_line =? 0) then Some default_style
     else if is_at caret && (negb half_cursor || is_at rmin) then Some inner
     else None).

(** ** One byte *)

Lemma region_at_before lo rs i : regions_from lo rs → i < lo → region_at rs i = None.
Proof.
  revert lo. induction rs as [|r rs IH]; intros lo Hs Hi; [done|]. destruct Hs as [Hlo Hs].
  pose proof (rmin_le_rmax r). unfold region_at. cbn [List.find].
  rewrite (proj2 (Z.leb_gt (rmin r) i)) by lia. apply (IH (rmax r + 1)); [done|lia].
Qed.

(** The stack of styles before the byte [i]. *)
Definition stack_at (rs : list SelRegion) (i : Z) : list PrioritizedStyle :=
  match rs with
  | r :: _ => if rmin r <? i then [default_style; region_style r] else [default_style]
  | [] => [default_style]
  end.

Lemma succ_mod i n : 2 ≤ n → i mod n = 0 → (i + 1) mod n ≠ 0.
Proof.
  intros Hn Hi. rewrite Zplus_mod, Hi, (Z.mod_small 1 n), Z.add_0_l, Z.mod_small by lia. lia.
Qed.

Section marks.
Context `{Profile}.

Lemma mark_line_spec bpl i stack top cmd : 2 ≤ bpl → 0 ≤ i < usize_max → last stack = Some top →
  mark_line bpl i stack cmd = Ok (mkStyling
    (if (i mod bpl =? 0) && (match sc_start cmd with None => true | _ => false end) then Some top
     else sc_start cmd)
    (sc_mid cmd)
    (if (i + 1) mod bpl =? 0 then Some default_style else sc_end cmd)).
Proof.
  intros Hb Hi Ht. unfold mark_line. rewrite urem_ok by lia. cbn [mbind outcome_bind].
  assert ((match start_style cmd with None => true | Some _ => false end) =
          (match sc_start cmd with None => true | Some _ => false end)) as ->.
  { unfold start_style. by destruct (sc_start cmd). }
  destruct (Z.eqb_spec (i mod bpl) 0) as [Hm|Hm].
  - pose proof (succ_mod i bpl Hb Hm) as Hs. destruct cmd as [[s|] m e]; cbn [andb sc_start].
    + rewrite uadd_ok by (unfold_usize; lia). cbn [mbind outcome_bind]. rewrite urem_ok by lia.
      cbn [mbind outcome_bind]. by rewrite (proj2 (Z.eqb_neq _ _) Hs).
    + rewrite Ht. cbn. by rewrite (proj2 (Z.eqb_neq _ _) Hs).
  - cbn [andb]. rewrite uadd_ok by (unfold_usize; lia). cbn [mbind outcome_bind]. rewrite urem_ok by lia.
    cbn [mbind outcome_bind]. destruct cmd as [s m e]. by destruct ((i + 1) mod bpl =? 0).
Qed.

(** One round of the loop, with a region that does not end before [i]. *)
Lemma mark_round half bpl i r rs : 2 ≤ bpl → 0 ≤ i < usize_max → i ≤ rmax r → ∃ cmd stack,
  mark_region half i r (stack_at (r :: rs) i) styling_default = Ok (cmd, stack) ∧
  mark_line bpl i stack cmd = Ok (byte_mark half bpl i (if rmin r <=? i then Some r else None)) ∧
  stack = stack_at (r :: rs) (i + 1).
Proof.
  intros Hb Hi Hr. pose proof (rmin_le_rmax r) as Hmm.
  assert (rmin r ≤ caret r ≤ rmax r) as Hc by region_lia.
  unfold mark_region, stack_at. destruct (Z.eqb_spec (rmin r) i) as [e|Hmin].
  - rewrite e, Z.ltb_irrefl, (proj2 (Z.ltb_lt i (i + 1))), (proj2 (Z.leb_le i i)) by lia.
    cbn [mbind outcome_bind last app unwrap]. rewrite Z.eqb_refl.
    assert (∀ x, usub (zlen [default_style; x]) 2 = Ok 0) as Hu by (intros; by rewrite usub_ok).
    destruct (Z.eqb_spec (caret r) i) as [ec|Hcar], (Z.eqb_spec (rmax r) i) as [em|Hmax], half;
      cbn [mbind outcome_bind last app unwrap]; rewrite ?Hu; cbn [mbind outcome_bind];
      (eexists _, _; split; [reflexivity|]; split; [|reflexivity];
       erewrite mark_line_spec by (done || reflexivity); cbn; unfold byte_mark;
       rewrite ?e, ?ec, ?em, ?Z.eqb_refl, ?(proj2 (Z.eqb_neq _ _) Hcar), ?(proj2 (Z.eqb_neq _ _) Hmax);
       cbn; rewrite ?andb_false_r; by destruct ((i + 1) mod bpl =? 0)).
  - cbn [mbind outcome_bind]. destruct (Z.ltb_spec (rmin r) i).
    + rewrite (proj2 (Z.ltb_lt (rmin r) (i + 1))), (proj2 (Z.leb_le (rmin r) i)) by lia.
      assert (∀ x, usub (zlen [default_style; x]) 2 = Ok 0) as Hu by (intros; by rewrite usub_ok).
      destruct (Z.eqb_spec (caret r) i) as [ec|Hcar], (Z.eqb_spec (rmax r) i) as [em|Hmax], half;
        cbn [mbind outcome_bind last app unwrap]; rewrite ?Hu, ?(proj2 (Z.eqb_neq i (rmin r))) by lia;
        cbn [mbind outcome_bind];
        (eexists _, _; split; [reflexivity|]; split; [|reflexivity];
         erewrite mark_line_spec by (done || reflexivity); cbn; unfold byte_mark;
         rewrite ?ec, ?em, ?Z.eqb_refl, ?(proj2 (Z.eqb_neq _ _) Hcar), ?(proj2 (Z.eqb_neq _ _) Hmax),
           ?(proj2 (Z.eqb_neq _ _) Hmin);
         cbn; rewrite ?andb_false_r; destruct (i mod bpl =? 0), ((i + 1) mod bpl =? 0); done).
    + rewrite (proj2 (Z.ltb_ge (rmin r) (i + 1))), (proj2 (Z.leb_gt (rmin r) i)) by lia.
      rewrite (proj2 (Z.eqb_neq (caret r) i)), (proj2 (Z.eqb_neq (rmax r) i)) by lia.
      cbn [mbind outcome_bind]. eexists _, _. split; [reflexivity|]. split; [|reflexivity].
      erewrite mark_line_spec by (done || reflexivity). cbn. unfold byte_mark.
      destruct (i mod bpl =? 0); done.
Qed.

(** ** The loop *)

Lemma mark_loop_spec half bpl n i rs lo : 2 ≤ bpl → 0 ≤ i → i + Z.of_nat n ≤ usize_max →
  regions_from lo rs → match rs with r :: _ => i ≤ rmax r | [] => True end →
  mark_loop half bpl (seqZ i (Z.of_nat n)) rs (stack_at rs i) =
    Ok ((λ j, byte_mark half bpl j (region_at rs j)) <$> seqZ i (Z.of_nat n)).
Proof.
  intros Hb. revert i rs lo. induction n as [|n IH]; intros i rs lo Hi Hn Hs Hr; [done|].
  rewrite seqZ_cons by lia. replace (Z.pred (Z.of_nat (S n))) with (Z.of_nat n) by lia.
  cbn [mark_loop fmap list_fmap]. destruct rs as [|r rs].
  - cbn [mbind outcome_bind stack_at]. erewrite mark_line_spec by (done || lia).
    cbn [mbind outcome_bind]. change [default_style] with (stack_at [] (Z.succ i)).
    rewrite (IH (Z.succ i) [] lo) by (done || lia). cbn.
    do 2 f_equal. unfold byte_mark. cbn. by rewrite andb_true_r.
  - destruct (mark_round half bpl i r rs Hb ltac:(lia) Hr) as (cmd & stack & Hm & Hl & Hst).
    rewrite Hm. cbn [mbind outcome_bind]. rewrite Hl. cbn [mbind outcome_bind].
    destruct Hs as [Hlo Hs]. pose proof (rmin_le_rmax r).
    assert (region_at (r :: rs) i = if rmin r <=? i then Some r else None) as ->.
    { unfold region_at. cbn [List.find]. rewrite (proj2 (Z.leb_le i (rmax r))), andb_true_r by done.
      destruct (Z.leb_spec (rmin r) i); [done|]. apply (region_at_before (rmax r + 1)); [done|lia]. }
    destruct (Z.eqb_spec (rmax r) i) as [em|Hmax].
    + assert (removelast stack = stack_at rs (Z.succ i)) as ->.
      { rewrite Hst. cbn [stack_at]. rewrite (proj2 (Z.ltb_lt (rmin r) (i + 1))) by lia.
        destruct rs as [|r' rs']; [done|]. cbn [stack_at]. destruct Hs as [Hs' _].
        by rewrite (proj2 (Z.ltb_ge (rmin r') (Z.succ i))) by lia. }
      rewrite (IH (Z.succ i) rs _ ltac:(lia) ltac:(lia) Hs)
        by (destruct rs as [|r' rs']; [done|]; destruct Hs; pose proof (rmin_le_rmax r'); lia).
      cbn. do 2 f_equal. apply list_fmap_ext. intros k j Hj. f_equal. apply lookup_seqZ in Hj as [-> _].
      unfold region_at. cbn [List.find]. by rewrite (proj2 (Z.leb_gt _ (rmax r))), andb_false_r by lia.
    + rewrite Hst. change (i + 1) with (Z.succ i). by rewrite (IH (Z.succ i) (r :: rs) lo) by (done || lia).
Qed.

(** ** Marks *)

Lemma region_at_touching lo rs start end_ i : regions_from lo rs → start ≤ i ≤ end_ →
  region_at (touching start end_ rs) i = region_at rs i.
Proof.
  revert lo. induction rs as [|r rs IH]; intros lo Hs Hi; [done|]. destruct Hs as [Hlo Hs].
  unfold touching. rewrite filter_cons. case_decide as Hd.
  - unfold region_at. cbn [List.find]. destruct (_ && _); [done|]. by apply (IH (rmax r + 1)).
  - etransitivity; [by apply (IH (rmax r + 1))|]. unfold region_at. cbn [List.find].
    destruct (Z.leb_spec (rmin r) i), (Z.leb_spec i (rmax r)); try done. lia.
Qed.

Lemma touching_from lo rs start end_ : regions_from lo rs →
  ∃ lo', regions_from lo' (touching start end_ rs) ∧
    match touching start end_ rs with r :: _ => start ≤ rmax r | [] => True end.
Proof.
  assert (∀ lo rs, regions_from lo rs → regions_from lo (touching start end_ rs)) as Hf.
  { intros lo' rs'. revert lo'. induction rs' as [|r rs' IH]; intros lo' Hs; [done|].
    destruct Hs as [Hlo Hs]. unfold touching. rewrite filter_cons. case_decide.
    - split; [done|]. by apply IH.
    - apply (regions_from_weaken (rmax r + 1)); [|by apply IH]. pose proof (rmin_le_rmax r). lia. }
  intros Hs. exists lo. split; [by apply Hf|].
  destruct (touching start end_ rs) as [|r l] eqn:E; [done|].
  assert (r ∈ touching start end_ rs) as Hin by (rewrite E; left).
  apply list_elem_of_filter in Hin. lia.
Qed.

Context `{XiRope}.

Lemma mark_commands_spec (v : HexView) b max_size s e : current (buffr_collection v) = Ok b →
  selection_ok max_size (selection b) → zlen (regions (selection b)) < usize_max →
  2 ≤ bytes_per_line v → 0 ≤ s ≤ e → e ≤ usize_max →
  mark_commands v (s, e) =
    Ok ((λ i, byte_mark (has_half_cursor (mode v)) (bytes_per_line v) i
                (region_at (regions (selection b)) i)) <$> range_list s e).
Proof.
  intros Hc Hok Hlen Hbpl Hse He. unfold mark_commands. rewrite Hc. cbn [mbind outcome_bind fst snd].
  rewrite (regions_in_range_touching max_size) by (done || lia). cbn [mbind outcome_bind].
  pose proof (sel_sorted _ _ Hok) as Hs.
  destruct (touching_from _ _ s e Hs) as (lo & Hfrom & Hfirst).
  unfold range_list. replace (e - s) with (Z.of_nat (Z.to_nat (e - s))) by lia.
  etransitivity; [apply (mark_loop_spec _ _ _ _ _ lo); (done || lia)|].
  f_equal. apply list_fmap_ext. intros k j Hj. apply lookup_seqZ in Hj as [-> Hk].
  f_equal. by apply (region_at_touching 0); [|lia].
Qed.

End marks.
