(* ===== verification/ViewRows.v ===== *)
(** * ViewRows: what the rows of the screen show

    The screen as a function of the document, the selection and the window:
    [screen_row] is one row, and drawing the window queues exactly these rows,
    all of them or the invalidated ones. *)

From S2P Require Import Prelude KeyMap CmdCount Masks XiRope XiRopeRef ByteRope Selection SelectionMap.
From S2P Require Import SelectionMoves SelectionQueries SelectionExact SelectionParts SelectionTheorems.
From S2P Require Import Operations History CurrentBuffer BufferTheorems Text Mode Names Style.
From S2P Require Import ByteProperties Prompt View EventLoop ViewMarks.
From Stdlib Require Import Ascii String.
Local Open Scope Z_scope.

(** ** Ranges *)

Lemma range_list_lookup s e k : range_list s e !! k = 
  if decide (Z.of_nat k < e - s) then Some (s + Z.of_nat k) else None.
Proof.
  unfold range_list. case_decide.
  - by apply lookup_seqZ.
  - apply lookup_seqZ_ge. lia.
Qed.

Lemma zlen_range_list s e : zlen (range_list s e) = Z.max 0 (e - s).
Proof. unfold zlen, range_list. rewrite length_seqZ. lia. Qed.

Lemma zslice_lookup {A} (l : list A) s e k : 0 ≤ s → 
  zslice s e l !! k = if decide (Z.of_nat k < e - s) then l !! (Z.to_nat s + k)%nat else None.
Proof.
  intros Hs. unfold zslice, ztake, zdrop. case_decide.
  - rewrite lookup_take_lt by lia. apply lookup_drop.
  - apply lookup_take_ge. lia.
Qed.

(** A slice of the values of [f] on a range is the values on a subrange. *)
Lemma zslice_fmap_range {A} (f : Z → A) s e i j : 0 ≤ i → 
  zslice i j (f <$> range_list s e) = f <$> range_list (s + i) (Z.min e (s + j)).
Proof.
  intros Hi. apply list_eq. intros k. rewrite zslice_lookup, !list_lookup_fmap, !range_list_lookup by done.
  repeat case_decide; simpl; try done; try lia. do 2 f_equal. lia.
Qed.

(** A list is the values of its lookup function. *)
Lemma zslice_range (l : bytes) s e : 0 ≤ s → 
  zslice s e l = (λ p, default 0 (zlookup l p)) <$> range_list s (Z.min e (zlen l)).
Proof.
  intros Hs. apply list_eq. intros k. rewrite zslice_lookup, list_lookup_fmap, range_list_lookup by done.
  unfold zlookup, zlen. repeat case_decide; simpl; try done; try lia.
  - rewrite (proj2 (Z.ltb_ge (s + Z.of_nat k) 0)) by lia. replace (Z.to_nat (s + Z.of_nat k)) with (Z.to_nat s + k)%nat by lia.
    destruct (l !! _) eqn:E; [done|]. apply lookup_ge_None in E. lia.
  - apply lookup_ge_None. lia.
Qed.

Lemma zip_fmap_range {A B} (f : Z → A) (g : Z → B) l : zip (f <$> l) (g <$> l) = (λ p, (f p, g p)) <$> l.
Proof. induction l as [|x l IH]; [done|]. rewrite !fmap_cons. simpl. by rewrite IH. Qed.

(** ** One row *)

(** The commands of a row: [sb] are its bytes with their styles, [es] the style
    of the position after the last byte, [props] the properties beside it. *)
Definition row_cmds (bpl row : Z) (sb : list (Z * StylingCommand)) (es : option StylingCommand)
    (props : list TermCmd) : list TermCmd :=
  let free := bpl - zlen sb in
  [MoveTo 0 row; Print (str " ")] ++
  draw_hex_row sb ++
  match es with
  | Some c => draw_text (str " ") (with_mid_to_end c) ++ draw_text (str " ") (take_end_only c) ++
      [Print (replicate (Z.to_nat (3 * free - 2)) 32)]
  | None => [Print (replicate (Z.to_nat (3 * free)) 32)]
  end ++
  draw_separator ++
  draw_ascii_row sb ++
  match es with
  | Some c => draw_text (str " ") (take_end_only c) ++ [Print (replicate (Z.to_nat free) 32)]
  | None => [Print (replicate (Z.to_nat (free + 1)) 32)]
  end ++
  draw_separator ++
  props ++
  [Clear ClearUntilNewLine].

(** The text of a row: the bytes in hexadecimal and as characters, both padded
    to the width of a full row. *)
Definition row_text (bpl : Z) (bs : bytes) (props : bytes) : bytes :=
  str " " ++ List.concat ((λ b, fmt_hex2 b ++ [32]) <$> bs) ++
  replicate (Z.to_nat (3 * (bpl - zlen bs))) 32 ++ VERTICAL ++ str " " ++
  List.concat (byte_ascii_repr <$> bs) ++
  replicate (Z.to_nat (bpl - zlen bs + 1)) 32 ++ VERTICAL ++ str " " ++ props.

Lemma printed_concat (l : list (list TermCmd)) : printed (List.concat l) = List.concat (printed <$> l).
Proof. induction l as [|c l IH]; simpl; [done|]. by rewrite printed_app, IH. Qed.

Lemma printed_hex_row sb : Forall is_u8 sb.*1 → 
  printed (draw_hex_row sb) = List.concat ((λ b, fmt_hex2 b ++ [32]) <$> sb.*1).
Proof.
  unfold draw_hex_row. rewrite printed_concat. induction sb as [|[b c] sb IH]; [done|].
  rewrite !fmap_cons. intros [Hb Hsb]%Forall_cons. cbn [List.concat fst] in *.
  rewrite printed_hex_byte by done. by rewrite IH.
Qed.

Lemma printed_ascii_row sb : printed (draw_ascii_row sb) = List.concat (byte_ascii_repr <$> sb.*1).
Proof.
  unfold draw_ascii_row. rewrite printed_concat. induction sb as [|[b c] sb IH]; [done|].
  rewrite !fmap_cons. cbn [List.concat fst]. by rewrite printed_ascii_byte, IH.
Qed.

Lemma printed_row bpl row sb es props : Forall is_u8 sb.*1 → zlen sb ≤ bpl → 
  (is_Some es → zlen sb < bpl) → 
  printed (row_cmds bpl row sb es props) = row_text bpl sb.*1 (printed props).
Proof.
  intros Hsb Hlen Hes. unfold row_cmds, row_text, draw_separator.
  rewrite (zlen_fmap fst). set (free := bpl - zlen sb).
  assert (∀ n, 32 :: replicate (Z.to_nat n) 32 = replicate (Z.to_nat (n + 1)) 32 ∨ n < 0) as Hrep.
  { intros n. destruct (Z.le_gt_cases 0 n); [left|by right].
    by replace (Z.to_nat (n + 1)) with (S (Z.to_nat n)) by lia. }
  destruct es as [c|].
  - specialize (Hes ltac:(eauto)). autorewrite with printed. rewrite printed_hex_row, printed_ascii_row by done.
    cbn [printed app str]. 
    destruct (Hrep (3 * free - 2)) as [H1|]; [|lia]. destruct (Hrep (3 * free - 1)) as [H2|]; [|lia].
    destruct (Hrep free) as [H3|]; [|lia].
    replace (3 * free - 2 + 1) with (3 * free - 1) in H1 by lia.
    replace (3 * free - 1 + 1) with (3 * free) in H2 by lia.
    change (Z.of_N (N_of_ascii " ")) with 32. rewrite <-H2, <-H1, <-H3, ?app_nil_r, <-?app_assoc.
    done.
  - autorewrite with printed. rewrite printed_hex_row, printed_ascii_row by done.
    cbn [printed app]. rewrite ?app_nil_r, <-?app_assoc. done.
Qed.

Section draw_row.
Context `{Profile} `{XiRope} `{CharDebugLaws}.

Lemma missing_bytes_ok (v : HexView) bs : 0 < bytes_per_line v < usize_max → zlen bs ≤ bytes_per_line v →
  missing_bytes v bs = Ok (bytes_per_line v - zlen bs).
Proof.
  intros Hb Hl. unfold missing_bytes. pose proof (zlen_nonneg bs).
  destruct (Z.eqb_spec (zlen bs) 0) as [->|]; [by rewrite Z.sub_0_r|].
  rewrite usub_ok by (unfold_usize; lia). cbn [mbind outcome_bind]. rewrite urem_ok by lia.
  by rewrite Z.mod_small by lia.
Qed.

Lemma offset_to_row_ok (v : HexView) row : 0 < bytes_per_line v → 0 ≤ start_offset v → 
  0 ≤ row < snd (size v) → snd (size v) < 65536 → start_offset v + row * bytes_per_line v ≤ usize_max → 
  offset_to_row v (start_offset v + row * bytes_per_line v) = Ok (inl row).
Proof.
  intros Hb Hs Hr Hh Hfit. unfold offset_to_row. rewrite (proj2 (Z.ltb_ge _ _)) by nia.
  rewrite usub_ok by (unfold_usize; nia). cbn [mbind outcome_bind]. rewrite udiv_ok by lia.
  cbn [mbind outcome_bind]. rewrite Z.add_simpl_l, Z.div_mul by lia.
  rewrite (proj2 (Z.leb_gt _ _)) by lia. by rewrite as_u16_small by (unfold is_u16; lia).
Qed.

Lemma draw_row_ok (v : HexView) bs ms es row cur line : 
  2 ≤ bytes_per_line v ≤ 21 → 0 ≤ start_offset v → 0 ≤ row < snd (size v) → snd (size v) < 65536 → 
  start_offset v + row * bytes_per_line v ≤ usize_max → zlen bs ≤ bytes_per_line v → zlen ms = zlen bs →
  (is_Some es → zlen bs < bytes_per_line v) → Forall is_u8 cur → 0 ≤ line < usize_max → 
  draw_row v bs (start_offset v + row * bytes_per_line v) ms es (mkFormatter cur line) =
    Ok (row_cmds (bytes_per_line v) row (zip bs ms) es (property_line cur line), mkFormatter cur (line + 1)).
Proof.
  intros Hb Hs Hr Hh Hfit Hbs Hms Hes Hcur Hline. pose proof (zlen_nonneg bs).
  unfold draw_row. rewrite offset_to_row_ok by lia. cbn [mbind outcome_bind].
  assert (zlen (zip bs ms) = zlen bs) as Hz by (unfold zlen in *; rewrite length_zip_with; lia).
  rewrite missing_bytes_ok by (unfold_usize; lia). cbn [mbind outcome_bind]. rewrite umul_ok by (unfold_usize; lia). cbn [mbind outcome_bind].
  unfold row_cmds. rewrite Hz, (Z.mul_comm 3). destruct es as [c|].
  - specialize (Hes ltac:(eauto)). rewrite usub_ok by (unfold_usize; lia). cbn [mbind outcome_bind].
    rewrite make_padding_ok by lia. cbn [mbind outcome_bind].
    rewrite uadd_ok by (unfold_usize; lia). cbn [mbind outcome_bind].
    rewrite usub_ok by (unfold_usize; lia). cbn [mbind outcome_bind].
    rewrite make_padding_ok, Z.add_simpl_r by lia. cbn [mbind outcome_bind].
    rewrite draw_line_ok by done. cbn [mbind outcome_bind]. do 2 f_equal. by rewrite <-!app_assoc.
  - cbn [mbind outcome_bind]. rewrite make_padding_ok by lia. cbn [mbind outcome_bind].
    rewrite uadd_ok by (unfold_usize; lia). cbn [mbind outcome_bind].
    rewrite make_padding_ok by lia. cbn [mbind outcome_bind].
    by rewrite draw_line_ok by done.
Qed.

End draw_row.

(** ** The window *)

(** The window is on the document, which is shorter than [isize::MAX] bytes, and
    starts at a row. *)
Record window_ok `{XiRope} (v : HexView) (b : CurrentBuffer) : Prop := {
  vo_current : current (buffr_collection v) = Ok b;
  vo_bpl : 2 ≤ bytes_per_line v ≤ 21;
  vo_height : 2 ≤ snd (size v) < 65536;
  vo_aligned : start_offset v mod bytes_per_line v = 0;
  vo_start : 0 ≤ start_offset v ≤ rope_len (data b);
  vo_len : rope_len (data b) < two63;
  vo_bytes : Forall is_u8 (rope_bytes (data b));
  vo_selection : selection_ok (rope_len (data b)) (selection b);
}.

(** The view can be drawn: the caret of the main region is in the window. *)
Record view_ok `{XiRope} (v : HexView) (b : CurrentBuffer) : Prop := {
  vo_window :> window_ok v b;
  vo_caret : ∀ c, main_cursor_offset (selection b) = Ok c →
    start_offset v ≤ c ≤ start_offset v + (snd (size v) - 1) * bytes_per_line v;
}.

(** The main region is found among the regions in range. *)
Lemma find_main max_size sel r start end_ : selection_ok max_size sel → main_region sel = Ok r →
  start ≤ rmax r → rmin r ≤ end_ → List.find is_main (touching start end_ (regions sel)) = Some r.
Proof.
  intros Hok Hr Hmax Hmin. pose proof (sel_flags _ _ Hok) as Hf.
  apply vec_index_Ok, zlookup_Some in Hr as [Hm Hr].
  assert (is_main r = true) as Hmain by (rewrite (Hf _ _ Hr); apply Z.eqb_eq; lia).
  assert (r ∈ touching start end_ (regions sel)) as Hin.
  { apply list_elem_of_filter. split; [done|]. by apply list_elem_of_lookup_2 in Hr. }
  destruct (List.find is_main (touching start end_ (regions sel))) as [r'|] eqn:E.
  - apply List.find_some in E as [Hin' Hmain']. f_equal.
    apply base.list_elem_of_In, list_elem_of_filter in Hin' as [_ [i Hi]%list_elem_of_lookup].
    rewrite (Hf _ _ Hi) in Hmain'. apply Z.eqb_eq in Hmain'.
    replace i with (Z.to_nat (main_selection sel)) in Hi by lia. congruence.
  - apply base.list_elem_of_In in Hin. pose proof (List.find_none _ _ E _ Hin). congruence.
Qed.

Section window.
Context `{Profile} `{XiRopeLaws} `{CharDebugLaws}.

(** The end of the visible bytes: one more than the document has, or the end of
    the last row above the status line. *)
Definition window_end (v : HexView) (b : CurrentBuffer) : Z :=
  Z.min (rope_len (data b) + 1) (start_offset v + (snd (size v) - 1) * bytes_per_line v).
Definition window_rows (v : HexView) (b : CurrentBuffer) : Z :=
  (window_end v b - start_offset v + bytes_per_line v - 1) / bytes_per_line v.

(** The byte at [p] with its style. *)
Definition styled_byte (v : HexView) (b : CurrentBuffer) (p : Z) : Z * StylingCommand :=
  (default 0 (zlookup (rope_bytes (data b)) p),
   byte_mark (has_half_cursor (mode v)) (bytes_per_line v) p (region_at (regions (selection b)) p)).

(** The positions of the row [j] that hold a visible byte. *)
Definition row_positions (v : HexView) (b : CurrentBuffer) (j : Z) : list Z :=
  range_list (start_offset v + j * bytes_per_line v)
    (Z.min (Z.min (window_end v b) (rope_len (data b))) (start_offset v + (j + 1) * bytes_per_line v)).

(** The up to four visible bytes from the main caret on. *)
Definition caret_bytes (v : HexView) (b : CurrentBuffer) : bytes :=
  match main_cursor_offset (selection b) with
  | Ok c => zslice c (Z.min (Z.min (window_end v b) (rope_len (data b))) (c + 4)) (rope_bytes (data b))
  | Panic _ => []
  end.

(** The style after the last byte of the row [j], in the row where the document
    ends. *)
Definition row_end_style (v : HexView) (b : CurrentBuffer) (j : Z) : option StylingCommand :=
  if (j <? window_rows v b) && (rope_len (data b) <? start_offset v + (j + 1) * bytes_per_line v)
  then match overflow_cursor_style v with Ok es => es | Panic _ => None end
  else None.

Definition screen_row (v : HexView) (b : CurrentBuffer) (j : Z) : list TermCmd :=
  row_cmds (bytes_per_line v) j (styled_byte v b <$> row_positions v b j) (row_end_style v b j)
    (property_line (caret_bytes v b) j).

Context (v : HexView) (b : CurrentBuffer) (Hw : window_ok v b).

Let s := start_offset v.
Let e := window_end v b.
Let len := rope_len (data b).
Let bpl := bytes_per_line v.
Let R := window_rows v b.

Lemma window_bounds : 0 ≤ s < e ∧ e ≤ len + 1 ∧ s ≤ len < two63 ∧ 2 ≤ bpl ≤ 21 ∧
  e - s ≤ (snd (size v) - 1) * bpl ∧ 2 ≤ snd (size v) < 65536.
Proof.
  destruct Hw as [_ Hb Hh _ Hs Hl _ _]. subst s e len bpl. unfold window_end in *. nia.
Qed.

Lemma window_rows_bounds : 0 < R < snd (size v) ∧ (R - 1) * bpl < e - s ≤ R * bpl.
Proof.
  pose proof window_bounds as (? & ? & ? & ? & ? & ?).
  assert (R = (e - s + bpl - 1) / bpl) as HR by done.
  pose proof (Z.div_mod (e - s + bpl - 1) bpl ltac:(lia)).
  pose proof (Z.mod_pos_bound (e - s + bpl - 1) bpl ltac:(lia)). rewrite <-HR in *. nia.
Qed.

Lemma step_by_window : step_by s e bpl = (λ k, s + k * bpl) <$> seqZ 0 R.
Proof.
  pose proof window_bounds as (? & ? & ? & ? & ? & ?).
  unfold step_by, R, window_rows. by rewrite Z.max_r by (subst s e; lia).
Qed.

Lemma visible_bytes_ok : visible_bytes v = Ok (s, e).
Proof.
  pose proof window_bounds as (? & ? & ? & ? & ? & ?). destruct Hw as [Hc _ _ _ _ _ _ _].
  unfold visible_bytes. rewrite Hc. cbn [mbind outcome_bind].
  rewrite uadd_ok by (unfold_usize; subst len; lia). cbn [mbind outcome_bind].
  rewrite u16sub_ok by lia. cbn [mbind outcome_bind].
  rewrite umul_ok by (unfold_usize; subst bpl; nia). cbn [mbind outcome_bind].
  rewrite uadd_ok by (unfold_usize; subst bpl s; nia). done.
Qed.

Lemma regions_fit : zlen (regions (selection b)) < usize_max.
Proof.
  destruct Hw as [_ _ _ _ _ Hl _ Hok].
  pose proof (regions_count 0 _ _ (sel_sorted _ _ Hok) (sel_bounded _ _ Hok)).
  unfold_usize. pose proof window_bounds. subst len. lia.
Qed.

Let cow := zslice s e (rope_bytes (data b)).
Let marks := (λ i, byte_mark (has_half_cursor (mode v)) bpl i (region_at (regions (selection b)) i))
               <$> range_list s e.

Lemma window_len : len = zlen (rope_bytes (data b)).
Proof. apply rope_len_bytes. Qed.

Lemma zlen_cow : zlen cow = Z.min e len - s.
Proof.
  pose proof window_bounds as (? & ? & ? & ? & ? & ?). subst cow.
  rewrite zlen_zslice, <-window_len by lia. lia.
Qed.

Lemma cow_ok : slice_to_cow (data b) (iv_new s e) = Ok cow.
Proof.
  pose proof window_bounds as (? & ? & ? & ? & ? & ?).
  rewrite iv_new_spec by lia. apply slice_to_cow_bytes; unfold_usize; subst len; lia.
Qed.

Lemma marks_ok : mark_commands v (s, e) = Ok marks.
Proof.
  pose proof window_bounds as (? & ? & ? & ? & ? & ?). pose proof regions_fit.
  destruct Hw as [Hc _ _ _ _ _ _ Hok]. apply (mark_commands_spec v b len); try done; subst bpl; unfold_usize; lia.
Qed.

End window.

(** ** Drawing the window *)

Section drawing.
Context `{Profile} `{XiRopeLaws} `{CharDebugLaws}.
Context (v : HexView) (b : CurrentBuffer) (Hv : view_ok v b).

Let s := start_offset v.
Let e := window_end v b.
Let len := rope_len (data b).
Let bpl := bytes_per_line v.
Let R := window_rows v b.
Let cow := zslice s e (rope_bytes (data b)).
Let marks := (λ i, byte_mark (has_half_cursor (mode v)) bpl i (region_at (regions (selection b)) i))
               <$> range_list s e.
Let cur := caret_bytes v b.

(** The lemmas on the window, in the names of this section. *)
Lemma bounds : 0 ≤ s < e ∧ e ≤ len + 1 ∧ s ≤ len < two63 ∧ 2 ≤ bpl ≤ 21 ∧
  e - s ≤ (snd (size v) - 1) * bpl ∧ 2 ≤ snd (size v) < 65536.
Proof. exact (window_bounds v b Hv). Qed.
Lemma rows_bounds : 0 < R < snd (size v) ∧ (R - 1) * bpl < e - s ≤ R * bpl.
Proof. exact (window_rows_bounds v b Hv). Qed.
Lemma cow_len : zlen cow = Z.min e len - s.
Proof. exact (zlen_cow v b Hv). Qed.
Lemma visible_is : visible_bytes v = Ok (s, e).
Proof. exact (visible_bytes_ok v b Hv). Qed.
Lemma cow_is : slice_to_cow (data b) (iv_new s e) = Ok cow.
Proof. exact (cow_ok v b Hv). Qed.
Lemma marks_are : mark_commands v (s, e) = Ok marks.
Proof. exact (marks_ok v b Hv). Qed.
Lemma steps_are : step_by s e bpl = (λ k, s + k * bpl) <$> seqZ 0 R.
Proof. exact (step_by_window v b Hv). Qed.

Lemma current_bytes_ok : current_bytes v (s, e) cow = Ok cur ∧ zlen cur ≤ 4 ∧ Forall is_u8 cur.
Proof.
  pose proof bounds as (? & ? & ? & ? & ? & ?). pose proof (regions_fit v b Hv). pose proof cow_len as Hcow.
  destruct (vo_window _ _ Hv) as [Hc _ _ _ _ _ Hu8 Hok]. pose proof (vo_caret _ _ Hv) as Hcar. pose proof (sel_main_range _ _ Hok) as Hm.
  destruct (zlookup_lt _ _ Hm) as [r Hr].
  assert (main_region (selection b) = Ok r) as Hmain by by apply vec_index_Ok.
  assert (main_cursor_offset (selection b) = Ok (caret r)) as Hoff by (by apply main_cursor_offset_main).
  assert (caret r ≤ len) as Hrl.
  { pose proof (sel_bounded _ _ Hok) as Hb. apply zlookup_Some in Hr as [_ Hr].
    pose proof (Forall_lookup_1 _ _ _ _ Hb Hr). region_lia. }
  assert (s ≤ caret r ≤ e) as Hin.
  { specialize (Hcar _ Hoff). subst s e len. unfold window_end in *. lia. }
  assert (cur = zslice (caret r) (Z.min (Z.min e len) (caret r + 4)) (rope_bytes (data b))) as Hcur.
  { subst cur. unfold caret_bytes. by rewrite Hoff. }
  split_and!.
  - unfold current_bytes. rewrite Hc. cbn [mbind outcome_bind fst snd].
    rewrite (regions_in_range_touching len) by (done || lia). cbn [mbind outcome_bind].
    assert (rmin r ≤ caret r ≤ rmax r) by region_lia. rewrite (find_main len _ r) by (done || lia). rewrite usub_ok by (unfold_usize; lia). cbn [mbind outcome_bind].
    rewrite uadd_ok by (unfold_usize; lia). cbn [mbind outcome_bind]. rewrite Hcow.
    assert ((if Z.min e len - s <? caret r - s + 4 then Z.min e len - s else caret r - s + 4) =
            Z.min (Z.min e len) (caret r + 4) - s) as ->.
    { destruct (Z.ltb_spec (Z.min e len - s) (caret r - s + 4)); lia. }
    rewrite slice_range_ok by (rewrite ?Hcow; lia). f_equal. rewrite Hcur. subst cow.
    rewrite (zslice_range _ s), zslice_fmap_range, zslice_range by lia. f_equal. f_equal; [lia|].
    rewrite <-(window_len b). lia.
  - rewrite Hcur, zlen_zslice by lia. lia.
  - rewrite Hcur. unfold zslice, ztake, zdrop. by apply Forall_take, Forall_drop.
Qed.

Lemma overflow_cursor_style_ok : ∃ es, overflow_cursor_style v = Ok es.
Proof.
  destruct (vo_window _ _ Hv) as [Hc _ _ _ _ _ _ Hok]. unfold overflow_cursor_style. rewrite Hc. cbn [mbind outcome_bind].
  unfold overflow_sel_style. pose proof (sel_main_range _ _ Hok).
  destruct (last (regions (selection b))) as [r|] eqn:E; [by eexists|].
  apply last_None in E. rewrite E in *. change (zlen []) with 0 in *. lia.
Qed.

(** The data of the row [k] that the loop takes out of the window. *)
Lemma row_data k : 0 ≤ k < R →
  slice_range cow (k * bpl) (Z.min (zlen cow) (k * bpl + bpl)) =
    Ok ((λ p, default 0 (zlookup (rope_bytes (data b)) p)) <$> row_positions v b k) ∧
  slice_range marks (k * bpl) (Z.min (zlen cow) (k * bpl + bpl)) =
    Ok ((λ i, byte_mark (has_half_cursor (mode v)) bpl i (region_at (regions (selection b)) i))
          <$> row_positions v b k) ∧
  0 ≤ zlen (row_positions v b k) ≤ bpl ∧
  (len < s + (k + 1) * bpl → zlen (row_positions v b k) < bpl).
Proof.
  intros Hk. pose proof bounds as (? & ? & ? & ? & ? & ?). pose proof rows_bounds.
  pose proof cow_len as Hcow. pose proof (zlen_nonneg (row_positions v b k)).
  assert (0 ≤ k * bpl) by nia. assert (k * bpl ≤ (R - 1) * bpl) by nia.
  assert (zlen marks = e - s) as Hmarks by (subst marks; rewrite zlen_fmap, zlen_range_list; lia).
  assert (row_positions v b k = range_list (s + k * bpl) (Z.min (Z.min e len) (s + (k * bpl + bpl)))) as Hp.
  { unfold row_positions. f_equal. fold s bpl e len. f_equal. lia. }
  split_and!.
  - rewrite slice_range_ok by lia. f_equal. rewrite Hp, Hcow. subst cow.
    rewrite (zslice_range (rope_bytes _)), zslice_fmap_range by lia. f_equal. f_equal.
    rewrite <-(window_len b). lia.
  - rewrite slice_range_ok by lia. f_equal. rewrite Hp. subst marks.
    rewrite zslice_fmap_range by lia. f_equal. f_equal. lia.
  - done.
  - rewrite Hp, zlen_range_list. lia.
  - intros Hend. rewrite Hp, zlen_range_list. lia.
Qed.

(** The line of properties in the row [k]: five lines in the first rows. *)
Definition line_for (k line : Z) : Prop := (k ≤ 5 → line = k) ∧ (5 ≤ k → 5 ≤ line).

Lemma property_line_for k line : line_for k line → 0 ≤ k < usize_max → 0 ≤ line < usize_max →
  property_line cur line = property_line cur k.
Proof.
  intros [Hlt Hge] Hk Hl. destruct current_bytes_ok as (_ & _ & Hu).
  destruct (Z.le_gt_cases k 4); [by rewrite Hlt by lia|].
  by rewrite !property_line_past by (done || lia).
Qed.

(** One row of the loop. *)
Lemma draw_one_row k line : 0 ≤ k < R → line_for k line → 0 ≤ line < usize_max - 1 →
  (normalized_i ← usub (s + k * bpl) s;
   e' ← uadd normalized_i bpl;
   bs ← slice_range cow normalized_i (Z.min (zlen cow) e');
   ms ← slice_range marks normalized_i (Z.min (zlen cow) e');
   row_end ← uadd (s + k * bpl) bpl;
   b' ← current (buffr_collection v);
   end_style ← (if rope_len (data b') <? row_end then overflow_cursor_style v else Ok None);
   draw_row v bs (s + k * bpl) ms end_style (mkFormatter cur line)) =
  Ok (screen_row v b k, mkFormatter cur (line + 1)).
Proof.
  intros Hk Hline Hl. pose proof bounds as (? & ? & ? & ? & ? & ?).
  pose proof rows_bounds as [HR1 HR2].
  destruct (row_data k Hk) as (Hbs & Hms & Hn & Hend). destruct current_bytes_ok as (_ & _ & Hu).
  assert (k * bpl ≤ (R - 1) * bpl) by nia. assert (0 ≤ k * bpl) by nia.
  rewrite usub_ok by (unfold_usize; lia). cbn [mbind outcome_bind]. rewrite Z.add_simpl_l.
  rewrite (uadd_ok (k * bpl)) by (unfold_usize; lia). cbn [mbind outcome_bind]. rewrite Hbs. cbn [mbind outcome_bind].
  rewrite Hms. cbn [mbind outcome_bind]. rewrite uadd_ok by (unfold_usize; lia). cbn [mbind outcome_bind].
  rewrite (vo_current _ _ Hv). cbn [mbind outcome_bind].
  assert (s + k * bpl + bpl = s + (k + 1) * bpl) as -> by lia.
  assert ((if rope_len (data b) <? s + (k + 1) * bpl then overflow_cursor_style v else Ok None) =
          Ok (row_end_style v b k)) as ->.
  { unfold row_end_style. fold s bpl R. rewrite (proj2 (Z.ltb_lt k R)) by lia. cbn [andb].
    destruct overflow_cursor_style_ok as (es & ->). by destruct (_ <? _). }
  cbn [mbind outcome_bind].
  assert (is_Some (row_end_style v b k) → zlen (row_positions v b k) < bpl) as Hes.
  { unfold row_end_style. destruct (_ && _) eqn:E; [|by intros [? ?]].
    intros _. apply Hend. apply andb_true_iff in E as [_ E]. fold s bpl len in E. lia. }
  unfold s at 1, bpl at 1. rewrite draw_row_ok by (fold s bpl; rewrite ?zlen_fmap; first [unfold_usize; lia|assumption]).
  unfold screen_row. rewrite (property_line_for k line) by first [unfold_usize; lia|exact Hline].
  do 3 f_equal. apply zip_fmap_range.
Qed.

Lemma draw_visible_rows_ok selected (sel : Z → bool) n k line :
  (∀ j, 0 ≤ j < R → selected (s + j * bpl) = Ok (sel j)) → (∀ j, 0 ≤ j < 5 → sel j = true) →
  0 ≤ k → k + Z.of_nat n ≤ R → line_for k line → 0 ≤ line ≤ k →
  ∃ line', draw_visible_rows v selected s cow marks ((λ k, s + k * bpl) <$> seqZ k (Z.of_nat n))
             (mkFormatter cur line) =
      Ok (List.concat ((λ j, if sel j then screen_row v b j else []) <$> seqZ k (Z.of_nat n)),
          mkFormatter cur line') ∧ line_for (k + Z.of_nat n) line' ∧ 0 ≤ line' ≤ k + Z.of_nat n.
Proof.
  intros Hsel H5. revert k line. induction n as [|n IH]; intros k line Hk Hn Hline Hl.
  { exists line. rewrite Z.add_0_r. done. }
  pose proof bounds as (? & ? & ? & ? & ? & ?). pose proof rows_bounds as [HR1 HR2].
  rewrite seqZ_cons by lia. replace (Z.pred (Z.of_nat (S n))) with (Z.of_nat n) by lia.
  rewrite !fmap_cons. cbn [draw_visible_rows List.concat].
  rewrite Hsel by lia. cbn [mbind outcome_bind].
  replace (k + Z.of_nat (S n)) with (Z.succ k + Z.of_nat n) by lia. destruct (sel k) eqn:Ek.
  - pose proof (draw_one_row k line ltac:(lia) Hline ltac:(unfold_usize; lia)) as Hrow.
    cbv iota. fold bpl. rewrite Hrow. cbn [mbind outcome_bind].
    destruct (IH (Z.succ k) (line + 1)) as (line' & -> & HL); [lia|lia| |lia|].
    { unfold line_for in *. lia. }
    cbn [mbind outcome_bind]. by eexists.
  - cbn [mbind outcome_bind]. destruct (IH (Z.succ k) line) as (line' & -> & HL); [lia|lia| |lia|].
    { assert (5 ≤ k) by (destruct (Z.le_gt_cases 5 k); [done|]; rewrite H5 in Ek by lia; done).
      unfold line_for in *. lia. }
    cbn [mbind outcome_bind]. by eexists.
Qed.

(** Rows below the window have no bytes. *)
Lemma screen_row_below k : R ≤ k → screen_row v b k = row_cmds bpl k [] None (property_line cur k).
Proof.
  intros Hk. pose proof bounds as (? & ? & ? & ? & ? & ?). pose proof rows_bounds as [HR1 HR2].
  unfold screen_row. assert (row_positions v b k = []) as ->.
  { apply zlen_0. unfold row_positions. rewrite zlen_range_list. fold s bpl e len. nia. }
  unfold row_end_style. fold R. by rewrite (proj2 (Z.ltb_ge k R)) by lia.
Qed.

Lemma fill_rows_ok fuel k line : 5 ≤ snd (size v) → R ≤ k → line_for k line → 0 ≤ line ≤ k →
  (Z.to_nat (6 - k) ≤ fuel)%nat → (1 ≤ fuel)%nat →
  fill_rows fuel v (s + k * bpl) (mkFormatter cur line) =
    Ok (List.concat (screen_row v b <$> seqZ k (5 - k))).
Proof.
  intros Hsize. pose proof bounds as (? & ? & ? & ? & ? & ?).
  pose proof rows_bounds as [HR1 HR2]. destruct current_bytes_ok as (_ & _ & Hu). revert k line.
  induction fuel as [|fuel IH]; intros k line Hk Hline Hl Hfuel Hone; [lia|].
  cbn [fill_rows]. rewrite are_all_printed_ok. cbn [mbind outcome_bind].
  destruct (Z.le_gt_cases 5 k) as [Hge|Hge].
  { rewrite (proj2 (Z.ltb_lt 4 line)) by (destruct Hline; lia).
    by rewrite seqZ_nil by lia. }
  assert (line = k) as -> by (destruct Hline; lia).
  rewrite (proj2 (Z.ltb_ge 4 k)) by lia. assert (0 ≤ k * bpl ≤ 4 * 21) by nia.
  pose proof (draw_row_ok v [] [] None k cur k) as Hrow. fold s bpl in Hrow.
  rewrite Hrow by (change (@zlen Z []) with 0; change (@zlen StylingCommand []) with 0;
    first [unfold_usize; lia|assumption|by intros [? ?]]).
  cbn [mbind outcome_bind]. rewrite uadd_ok by (unfold_usize; lia). cbn [mbind outcome_bind].
  fold bpl. replace (s + k * bpl + bpl) with (s + (k + 1) * bpl) by lia.
  rewrite IH; [|lia| |lia..].
  - cbn [mbind outcome_bind]. rewrite (seqZ_cons k) by lia. rewrite fmap_cons. cbn [List.concat].
    rewrite screen_row_below by lia. do 5 f_equal; lia.
  - unfold line_for in *. lia.
Qed.

Lemma fill_offset_ok : fill_offset v e = Ok (s + R * bpl).
Proof.
  pose proof bounds as (? & ? & ? & ? & ? & ?). pose proof rows_bounds as [HR1 HR2].
  pose proof (vo_aligned _ _ Hv) as Ha. fold s bpl in Ha.
  pose proof (Z.div_mod s bpl ltac:(lia)) as Hs. rewrite Ha in Hs. set (q := s / bpl) in *.
  pose proof (Z.div_mod e bpl ltac:(lia)) as He. pose proof (Z.mod_pos_bound e bpl ltac:(lia)) as Hmod.
  assert (2 ≤ bpl) as Hbpl by lia. rewrite Z.add_0_r in Hs.
  unfold fill_offset. fold bpl. rewrite udiv_ok by lia. cbn [mbind outcome_bind].
  rewrite urem_ok by lia. cbn [mbind outcome_bind].
  destruct (Z.eqb_spec (e mod bpl) 0) as [E|E]; cbn [mbind outcome_bind].
  - assert (e / bpl = q + R) as ->
      by (rewrite E, Z.add_0_r in He; clear - He Hs HR2 Hbpl; nia).
    rewrite umul_ok; [f_equal; lia|]. unfold_usize. replace ((q + R) * bpl) with (s + R * bpl) by lia. nia.
  - assert (e / bpl = q + R - 1) as -> by (clear - He Hs HR2 Hbpl Hmod E; nia).
    assert (0 ≤ q) by (apply Z.div_pos; lia). assert (q ≤ s) by nia.
    rewrite uadd_ok by (unfold_usize; lia). cbn [mbind outcome_bind].
    replace (q + R - 1 + 1) with (q + R) by lia.
    rewrite umul_ok; [f_equal; lia|]. unfold_usize. replace ((q + R) * bpl) with (s + R * bpl) by lia. nia.
Qed.

(** Everything before the [while] loop. *)
Lemma draw_visible_head fuel selected (sel : Z → bool) :
  (∀ j, 0 ≤ j < R → selected (s + j * bpl) = Ok (sel j)) → (∀ j, 0 ≤ j < 5 → sel j = true) →
  ∃ line, line_for R line ∧ 0 ≤ line ≤ R ∧ draw_visible_fuel fuel v selected =
    rest ← fill_rows fuel v (s + R * bpl) (mkFormatter cur line);
    Ok (List.concat ((λ j, if sel j then screen_row v b j else []) <$> seqZ 0 R) ++ rest).
Proof.
  intros Hsel Hfive. pose proof bounds as (? & ? & ? & ? & ? & ?).
  pose proof rows_bounds as [HR1 HR2]. destruct current_bytes_ok as (Hcur & Hcur4 & Hu).
  destruct (draw_visible_rows_ok selected sel (Z.to_nat R) 0 0 Hsel Hfive) as (line & Hrows & HL1 & HL2);
    [lia|lia|by split|lia|].
  rewrite Z2Nat.id, Z.add_0_l in * by lia. exists line. split; [done|]. split; [lia|].
  unfold draw_visible_fuel. rewrite visible_is. cbn [mbind outcome_bind].
  rewrite (vo_current _ _ Hv). cbn [mbind outcome_bind fst snd]. rewrite cow_is. cbn [mbind outcome_bind].
  rewrite marks_are. cbn [mbind outcome_bind]. rewrite Hcur. cbn [mbind outcome_bind].
  unfold bp_new. rewrite (proj2 (Z.leb_le (zlen cur) 4)) by done. cbn [mbind outcome_bind]. fold bpl.
  rewrite (proj2 (Z.eqb_neq bpl 0)) by lia. cbn [mbind outcome_bind]. rewrite steps_are.
  rewrite Hrows. cbn [mbind outcome_bind]. by rewrite fill_offset_ok.
Qed.

(** The commands that are queued for the window: the selected rows that hold
    visible bytes, and below them the rows that only hold properties. *)
Lemma draw_visible_ok selected (sel : Z → bool) : 5 ≤ snd (size v) →
  (∀ j, 0 ≤ j < R → selected (s + j * bpl) = Ok (sel j)) → (∀ j, 0 ≤ j < 5 → sel j = true) →
  draw_visible v selected =
    Ok (List.concat ((λ j, if sel j then screen_row v b j else []) <$> seqZ 0 R) ++
        List.concat (screen_row v b <$> seqZ R (5 - R))).
Proof.
  intros Hsize Hsel Hfive. pose proof bounds as (? & ? & ? & ? & ? & ?).
  pose proof rows_bounds as [HR1 HR2].
  destruct (draw_visible_head (fill_fuel v) selected sel Hsel Hfive) as (line & HL1 & HL2 & Hd).
  unfold draw_visible. rewrite Hd, fill_rows_ok; [done|lia|lia|done|lia|..]; unfold fill_fuel; fold s bpl;
    rewrite Z.max_r by lia; pose proof (Z.div_pos s bpl); lia.
Qed.

(** [draw] goes over all rows. *)
Lemma draw_all_rows_all start_index vb ms is_ bp :
  draw_all_rows v start_index vb ms is_ bp = draw_visible_rows v (λ _, Ok true) start_index vb ms is_ bp.
Proof.
  revert bp. induction is_ as [|i is' IH]; intros bp; [done|].
  cbn [draw_all_rows draw_visible_rows mbind outcome_bind].
  do 7 (match goal with |- (?m ≫= _) = _ => destruct m as [?|] end; cbn [mbind outcome_bind]; [|done]).
  destruct (draw_row _ _ _ _ _ _) as [[cmds bp']|]; cbn [mbind outcome_bind]; [|done]. by rewrite IH.
Qed.

Lemma draw_window_all fuel : draw_window_fuel fuel v = draw_visible_fuel fuel v (λ _, Ok true).
Proof.
  unfold draw_window_fuel, draw_visible_fuel.
  do 7 (match goal with |- (?m ≫= _) = _ => destruct m as [?|] end; cbn [mbind outcome_bind]; [|done]).
  by rewrite draw_all_rows_all.
Qed.

(** ** Screens without room for the properties *)

(** Below the last row nothing is drawn, so that the loop does not end. *)
Lemma fill_rows_out fuel offset line : 0 ≤ line ≤ 4 → s ≤ offset → snd (size v) * bpl ≤ offset - s →
  offset + Z.of_nat fuel * bpl ≤ usize_max →
  fill_rows fuel v offset (mkFormatter cur line) = Panic PanicFuel.
Proof.
  pose proof bounds as (? & ? & ? & ? & ? & ?). intros Hl. revert offset.
  induction fuel as [|fuel IH]; intros offset Ho Hrow Hfit; [done|].
  cbn [fill_rows]. rewrite are_all_printed_ok. cbn [mbind outcome_bind].
  rewrite (proj2 (Z.ltb_ge 4 line)) by lia. unfold draw_row, offset_to_row. fold s bpl.
  rewrite (proj2 (Z.ltb_ge offset s)) by lia. rewrite usub_ok by (unfold_usize; lia). cbn [mbind outcome_bind].
  rewrite udiv_ok by lia. cbn [mbind outcome_bind].
  rewrite (proj2 (Z.leb_le (snd (size v)) _)) by (apply Z.div_le_lower_bound; lia).
  cbn [mbind outcome_bind]. rewrite uadd_ok by (unfold_usize; lia). cbn [mbind outcome_bind].
  by rewrite IH by lia.
Qed.

Lemma fill_rows_small fuel k : snd (size v) ≤ 4 → R ≤ k ≤ snd (size v) →
  s + (k + Z.of_nat fuel) * bpl ≤ usize_max →
  fill_rows fuel v (s + k * bpl) (mkFormatter cur k) = Panic PanicFuel.
Proof.
  intros Hsize. pose proof bounds as (? & ? & ? & ? & ? & ?).
  pose proof rows_bounds as [HR1 HR2]. destruct current_bytes_ok as (_ & _ & Hu). revert k.
  induction fuel as [|fuel IH]; intros k Hk Hfit; [done|].
  assert (0 ≤ k * bpl) by nia.
  destruct (Z.eq_dec k (snd (size v))) as [->|Hne]; [apply fill_rows_out; lia|].
  cbn [fill_rows]. rewrite are_all_printed_ok. cbn [mbind outcome_bind].
  rewrite (proj2 (Z.ltb_ge 4 k)) by lia.
  pose proof (draw_row_ok v [] [] None k cur k) as Hrow. fold s bpl in Hrow.
  rewrite Hrow by (change (@zlen Z []) with 0; change (@zlen StylingCommand []) with 0;
    first [unfold_usize; lia|assumption|by intros [? ?]]).
  cbn [mbind outcome_bind]. fold bpl. rewrite uadd_ok by (unfold_usize; lia). cbn [mbind outcome_bind].
  replace (s + k * bpl + bpl) with (s + (k + 1) * bpl) by lia. by rewrite IH by lia.
Qed.

Lemma draw_window_out fuel : snd (size v) ≤ 4 →
  s + (snd (size v) + Z.of_nat fuel) * bpl ≤ usize_max →
  draw_window_fuel fuel v = Panic PanicFuel.
Proof.
  intros Hsize Hfit. rewrite draw_window_all. pose proof bounds as (? & ? & ? & ? & ? & ?).
  pose proof rows_bounds as [HR1 HR2].
  destruct (draw_visible_head fuel (λ _, Ok true) (λ _, true)) as (line & HL1 & HL2 & ->); [done..|].
  assert (line = R) as -> by (destruct HL1; lia).
  by rewrite fill_rows_small by (lia || nia).
Qed.

End drawing.
