(* ===== verification/ViewTheorems.v ===== *)
(** * ViewTheorems: drawing the window, whole and in parts *)

From S2P Require Import Prelude KeyMap CmdCount Masks XiRope XiRopeRef ByteRope Selection SelectionMap.
From S2P Require Import SelectionMoves SelectionQueries SelectionExact SelectionParts SelectionTheorems.
From S2P Require Import Operations History CurrentBuffer BufferTheorems DirtyBytes Text Mode Names Style.
From S2P Require Import ByteProperties Prompt View EventLoop ViewMarks ViewRows.
From Stdlib Require Import Ascii String.
Local Open Scope Z_scope.

(** ** Rows and intervals *)

Lemma as_u16_row d bpl rows : 0 < bpl → 0 ≤ d < rows * bpl → rows ≤ 65536 → as_u16 (d / bpl) = d / bpl.
Proof.
  intros Hb Hd Hr. apply as_u16_small. unfold is_u16.
  split; [apply Z.div_pos; lia|apply Z.div_lt_upper_bound; nia].
Qed.

Lemma mapM_outcome_each {A B} (f : A → outcome B) l (P : A → B → Prop) :
  (∀ x, x ∈ l → ∃ y, f x = Ok y ∧ P x y) → ∃ ys, mapM_outcome f l = Ok ys ∧ Forall2 P l ys.
Proof.
  induction l as [|x l IH]; intros Hf; [by exists []|].
  destruct (Hf x) as (y & Hy & HP); [left|]. destruct IH as (ys & Hys & HPs).
  { intros z Hz. apply Hf. by right. }
  exists (y :: ys). simpl. rewrite Hy. simpl. rewrite Hys. split; [done|]. by constructor.
Qed.

Lemma elem_of_range_list p s e : p ∈ range_list s e ↔ s ≤ p < e.
Proof. unfold range_list. rewrite elem_of_seqZ. lia. Qed.

Lemma elem_of_rows_between p s e : p ∈ rows_between s e ↔ s ≤ p < e.
Proof. unfold rows_between. rewrite elem_of_list_to_set. apply elem_of_range_list. Qed.

Lemma concat_filter {A B} (P : A → Prop) `{∀ x, Decision (P x)} (f : A → list B) l :
  List.concat ((λ x, if bool_decide (P x) then f x else []) <$> l) = List.concat (f <$> filter P l).
Proof.
  induction l as [|x l IH]; [done|]. rewrite filter_cons, fmap_cons. cbn [List.concat]. rewrite IH.
  destruct (decide (P x)); [by rewrite bool_decide_true|by rewrite bool_decide_false].
Qed.

Lemma seqZ_max_split n k : 0 ≤ n → seqZ 0 (Z.max n k) = seqZ 0 n ++ seqZ n (k - n).
Proof.
  intros Hn. destruct (Z.le_gt_cases k n).
  - rewrite (seqZ_nil _ (k - n)), app_nil_r by lia. by rewrite Z.max_l by lia.
  - rewrite Z.max_r by lia. replace k with (n + (k - n)) at 1 by lia. by rewrite seqZ_app by lia.
Qed.

Lemma filter_all {A} (P : A → Prop) `{∀ x, Decision (P x)} (l : list A) :
  (∀ x, x ∈ l → P x) → filter P l = l.
Proof.
  induction l as [|x l IH]; intros Hl; [done|]. rewrite filter_cons_True by (apply Hl; left).
  f_equal. apply IH. intros y Hy. apply Hl. by right.
Qed.

Section theorems.
Context `{Profile} `{XiRopeLaws} `{CharDebugLaws}.

(** The rows of the visible positions of an interval. *)
Lemma interval_rows_ok (v : HexView) b x : view_ok v b →
  ∃ l, interval_rows v (iv_new (start_offset v) (window_end v b)) x = Ok l ∧
    ∀ p, start_offset v ≤ p < window_end v b → iv_in p x →
      (p - start_offset v) / bytes_per_line v ∈ l.
Proof.
  intros Hv. pose proof (window_bounds v b Hv) as (? & ? & ? & ? & ? & ?).
  set (s := start_offset v) in *. set (e := window_end v b) in *. set (bpl := bytes_per_line v) in *.
  unfold interval_rows. fold s bpl. rewrite iv_new_spec, iv_is_empty_spec by lia.
  set (i := iv_intersect (mkInterval s e) x).
  assert (∀ p, iv_start i ≤ p < iv_end i ↔ s ≤ p < e ∧ iv_in p x) as Hi
    by (intros p; apply iv_intersect_spec).
  assert (∀ p, p ∈ (if iv_end i <=? iv_start i then [] else range_list (iv_start i) (iv_end i)) ↔
            s ≤ p < e ∧ iv_in p x) as Hin.
  { intros p. rewrite <-Hi. destruct (Z.leb_spec (iv_end i) (iv_start i)).
    - rewrite elem_of_nil. lia.
    - apply elem_of_range_list. }
  eexists. split.
  { apply (mapM_outcome_Ok _ (λ p, (p - s) / bpl)). intros p [Hp _]%Hin.
    rewrite usub_ok by (unfold_usize; lia). cbn [mbind outcome_bind]. rewrite udiv_ok by lia.
    cbn [mbind outcome_bind]. f_equal. apply (as_u16_row _ _ (snd (size v) - 1)); lia. }
  intros p Hp Hx. apply list_elem_of_fmap. exists p. split; [done|]. by apply Hin.
Qed.

Lemma intervals_rows_ok (v : HexView) b ivs : view_ok v b →
  ∃ rows, mapM_outcome (interval_rows v (iv_new (start_offset v) (window_end v b))) ivs = Ok rows ∧
    ∀ p, start_offset v ≤ p < window_end v b → covered ivs p →
      (p - start_offset v) / bytes_per_line v ∈ List.concat rows.
Proof.
  intros Hv. destruct (mapM_outcome_each (interval_rows v (iv_new (start_offset v) (window_end v b))) ivs
    (λ x l, ∀ p, start_offset v ≤ p < window_end v b → iv_in p x →
      (p - start_offset v) / bytes_per_line v ∈ l)) as (rows & Hr & HF).
  { intros x _. by apply interval_rows_ok. }
  exists rows. split; [done|]. intros p Hp (x & Hx & Hpx).
  apply list_elem_of_lookup in Hx as [k Hk]. destruct (Forall2_lookup_l _ _ _ _ _ HF Hk) as (l & Hl & HP).
  apply base.list_elem_of_In, in_concat. exists l. split.
  - by apply base.list_elem_of_In, (list_elem_of_lookup_2 _ k).
  - by apply base.list_elem_of_In, HP.
Qed.

(** ** What does not change outside of the intervals *)

(** The region that holds the end of the document is the last one. *)
Lemma region_at_end len sel r : selection_ok len sel → last (regions sel) = Some r →
  region_at (regions sel) len = if decide (caret r = len ∨ tail r = len) then Some r else None.
Proof.
  intros [_ Hs Hb _] Hl. revert Hs Hb. generalize 0 at 1 as lo.
  induction (regions sel) as [|x rs IH]; [done|]. intros lo [Hlo Hs] [Hx Hb]%Forall_cons.
  unfold region_at. cbn [List.find]. destruct rs as [|y rs].
  - simpl in Hl. simplify_eq. case_decide; region_lia; try done.
  - destruct (Z.leb_spec len (rmax x)).
    + destruct Hs as [Hy _]. apply Forall_cons in Hb as [Hy' _]. pose proof (rmin_le_rmax y). lia.
    + rewrite andb_false_r. by apply (IH Hl (rmax x + 1)).
Qed.

Lemma overflow_same (v v' : HexView) b b' : view_ok v b → view_ok v' b' → data b = data b' →
  has_half_cursor (mode v) = has_half_cursor (mode v') →
  region_at (regions (selection b)) (rope_len (data b)) =
    region_at (regions (selection b')) (rope_len (data b)) →
  overflow_cursor_style v = overflow_cursor_style v'.
Proof.
  intros Hv Hv' Hd Hh Hr. unfold overflow_cursor_style.
  rewrite (vo_current _ _ Hv), (vo_current _ _ Hv'). cbn [mbind outcome_bind]. rewrite <-Hh. f_equal.
  pose proof (vo_selection _ _ Hv) as Hok. pose proof (vo_selection _ _ Hv') as Hok'. rewrite <-Hd in Hok'.
  unfold overflow_sel_style. rewrite <-Hd. set (len := rope_len (data b)) in *.
  pose proof (sel_main_range _ _ Hok). pose proof (sel_main_range _ _ Hok').
  destruct (last (regions (selection b))) as [r|] eqn:El.
  2: { apply last_None in El. rewrite El in *. change (zlen []) with 0 in *. lia. }
  destruct (last (regions (selection b'))) as [r'|] eqn:El'.
  2: { apply last_None in El'. rewrite El' in *. change (zlen []) with 0 in *. lia. }
  rewrite (region_at_end len _ r), (region_at_end len _ r') in Hr by done. cbn [unwrap mbind outcome_bind].
  f_equal. repeat case_decide; simplify_eq; [done|].
  by rewrite !(proj2 (Z.eqb_neq _ _)) by tauto.
Qed.

Lemma screen_row_same (v v' : HexView) b b' j : view_ok v b → view_ok v' b' →
  start_offset v' = start_offset v → size v' = size v → bytes_per_line v' = bytes_per_line v →
  has_half_cursor (mode v) = has_half_cursor (mode v') → data b' = data b →
  5 ≤ j < window_rows v b →
  (∀ p, start_offset v ≤ p < window_end v b → (p - start_offset v) / bytes_per_line v = j →
     region_at (regions (selection b)) p = region_at (regions (selection b')) p) →
  screen_row v b j = screen_row v' b' j.
Proof.
  intros Hv Hv' Hstart Hsize Hbpl Hhalf Hdata Hj Hsame.
  pose proof (window_bounds v b Hv) as (? & ? & ? & ? & ? & ?).
  pose proof (window_rows_bounds v b Hv) as [HR1 HR2].
  assert (window_end v' b' = window_end v b) as He by (unfold window_end; by rewrite Hstart, Hsize, Hbpl, Hdata).
  assert (window_rows v' b' = window_rows v b) as HR by (unfold window_rows; by rewrite He, Hstart, Hbpl).
  assert (row_positions v' b' j = row_positions v b j) as Hpos
    by (unfold row_positions; by rewrite He, Hstart, Hbpl, Hdata).
  destruct (current_bytes_ok v b Hv) as (_ & _ & Hu). destruct (current_bytes_ok v' b' Hv') as (_ & _ & Hu').
  assert (0 ≤ j * bytes_per_line v) by nia.
  unfold screen_row. rewrite Hpos, Hbpl, !property_line_past by (assumption || (unfold_usize; lia)). f_equal.
  - apply list_fmap_ext. intros i p Hp. apply list_elem_of_lookup_2 in Hp.
    unfold row_positions in Hp. rewrite elem_of_range_list in Hp.
    unfold styled_byte. rewrite Hdata, Hhalf, Hbpl, Hsame; [done|lia|].
    symmetry. apply (Z.div_unique _ _ _ (p - start_offset v - j * bytes_per_line v)); lia.
  - unfold row_end_style. rewrite HR, Hdata, Hstart, Hbpl.
    destruct (_ && _) eqn:E; [|done]. apply andb_true_iff in E as [_ E%Z.ltb_lt].
    rewrite (overflow_same v v' b b' Hv Hv'); [done|done|done|].
    assert (window_end v b = rope_len (data b) + 1) as He1.
    { unfold window_end in *. nia. }
    apply Hsame; [lia|]. symmetry.
    apply (Z.div_unique _ _ _ (rope_len (data b) - start_offset v - j * bytes_per_line v)); nia.
Qed.

(** Rows that are not invalidated are as they were. *)
Lemma valid_rows_same (v v' : HexView) b b' ivs : view_ok v b → view_ok v' b' →
  start_offset v' = start_offset v → size v' = size v → bytes_per_line v' = bytes_per_line v →
  has_half_cursor (mode v) = has_half_cursor (mode v') → data b' = data b →
  (∀ p, ¬ covered ivs p → region_at (regions (selection b)) p = region_at (regions (selection b')) p) →
  ∃ rows, mapM_outcome (interval_rows v' (iv_new (start_offset v') (window_end v' b'))) ivs = Ok rows ∧
    ∀ j, 0 ≤ j < window_rows v b →
      j ∉ (list_to_set (List.concat rows) ∪ rows_between 0 (as_u16 bp_height) : gset Z) →
      screen_row v b j = screen_row v' b' j.
Proof.
  intros Hv Hv' Hstart Hsize Hbpl Hhalf Hdata Hsame.
  destruct (intervals_rows_ok v' b' ivs Hv') as (rows & Hr & Hcov). exists rows. split; [done|].
  intros j Hj [Hnot H5]%not_elem_of_union. rewrite elem_of_rows_between in H5. rewrite elem_of_list_to_set in Hnot.
  change (as_u16 bp_height) with 5 in H5. apply screen_row_same; try done; [lia|].
  intros p Hp Hrow. apply Hsame. intros Hc. apply Hnot.
  assert (window_end v' b' = window_end v b) as He by (unfold window_end; by rewrite Hstart, Hsize, Hbpl, Hdata).
  rewrite <-Hrow, <-Hstart, <-Hbpl. apply Hcov; [|done]. by rewrite He, Hstart.
Qed.

(** ** The commands of drawing *)

Lemma draw_window_rows (v : HexView) b : view_ok v b → 5 ≤ snd (size v) →
  draw_window v = Ok (List.concat (screen_row v b <$> seqZ 0 (Z.max (window_rows v b) 5))).
Proof.
  intros Hv Hsize. pose proof (window_rows_bounds v b Hv).
  transitivity (draw_visible v (λ _, Ok true)); [apply draw_window_all|].
  rewrite (draw_visible_ok v b Hv _ (λ _, true)) by done. f_equal.
  by rewrite <-concat_app, <-fmap_app, seqZ_max_split by lia.
Qed.

Lemma draw_invalidated_rows (v : HexView) b (invalidated_rows : gset Z) : view_ok v b →
  5 ≤ snd (size v) → rows_between 0 5 ⊆ invalidated_rows →
  draw_visible v (row_invalidated v invalidated_rows) =
    Ok (List.concat (screen_row v b <$>
      filter (λ j, j ∈ invalidated_rows) (seqZ 0 (Z.max (window_rows v b) 5)))).
Proof.
  intros Hv Hsize Hsub. pose proof (window_bounds v b Hv) as (? & ? & ? & ? & ? & ?).
  pose proof (window_rows_bounds v b Hv) as [HR1 HR2].
  assert (∀ j, 0 ≤ j < 5 → j ∈ invalidated_rows) as Hfive.
  { intros j Hj. apply Hsub, elem_of_rows_between, Hj. }
  rewrite seqZ_max_split by lia.
  rewrite (draw_visible_ok v b Hv _ (λ j, bool_decide (j ∈ invalidated_rows))); [|done|..].
  - f_equal. rewrite filter_app, fmap_app, concat_app. f_equal.
    + apply concat_filter.
    + rewrite filter_all; [done|]. intros j Hj%elem_of_seqZ. apply Hfive. lia.
  - intros j Hj. unfold row_invalidated. rewrite offset_to_row_ok by (unfold_usize; nia). done.
  - intros j Hj. by apply bool_decide_true, Hfive.
Qed.

(** ** Claims *)

(** C11: the styles of the visible bytes, computed in one pass with a list
    of remaining regions and a stack of styles, are those of a function of one
    byte and the region that holds it: regions are coloured from their first to
    their last byte, the style is set again at the start of every line and
    reset at its end, and the caret has its own style. *)
Theorem mark_commands_reference (v : HexView) b max_size s e :
  current (buffr_collection v) = Ok b → selection_ok max_size (selection b) →
  zlen (regions (selection b)) < usize_max →
  2 ≤ bytes_per_line v → 0 ≤ s ≤ e → e ≤ usize_max →
  mark_commands v (s, e) =
    Ok ((λ i, byte_mark (has_half_cursor (mode v)) (bytes_per_line v) i
                (region_at (regions (selection b)) i)) <$> range_list s e).
Proof. apply mark_commands_spec. Qed.

(** C3: drawing a window of at least five rows that lies on the document and
    holds the main caret does not panic and ends, after at most five rows below
    the document; it queues one row after the other, and the row [j] shows the
    bytes of the document from [start_offset + j * bytes_per_line] on in
    hexadecimal and as characters, padded to full width, and beside the first
    five rows the properties of the bytes at the main caret. With fewer rows, or
    a caret below the window, drawing does not end or panics. *)
Theorem draw_shows_window (v : HexView) b : view_ok v b → 5 ≤ snd (size v) →
  let rows := Z.max (window_rows v b) 5 in
  draw_window v = Ok (List.concat (screen_row v b <$> seqZ 0 rows)) ∧
  ∀ j, 0 ≤ j < rows →
    printed (screen_row v b j) =
      row_text (bytes_per_line v)
        (zslice (start_offset v + j * bytes_per_line v)
           (Z.min (window_end v b) (start_offset v + (j + 1) * bytes_per_line v)) (rope_bytes (data b)))
        (printed (property_line (caret_bytes v b) j)).
Proof.
  intros Hv Hsize rows. pose proof (window_bounds v b Hv) as (? & ? & ? & ? & ? & ?).
  pose proof (window_rows_bounds v b Hv) as [HR1 HR2]. split.
  - by apply draw_window_rows.
  - intros j Hj. unfold screen_row. assert (0 ≤ j * bytes_per_line v) by nia.
    assert (zlen (row_positions v b j) ≤ bytes_per_line v) as Hlen.
    { unfold row_positions. rewrite zlen_range_list. lia. }
    assert ((styled_byte v b <$> row_positions v b j).*1 =
      zslice (start_offset v + j * bytes_per_line v)
        (Z.min (window_end v b) (start_offset v + (j + 1) * bytes_per_line v)) (rope_bytes (data b))) as Hb.
    { rewrite zslice_range, <-list_fmap_compose by lia. unfold row_positions. f_equal. f_equal.
      rewrite <-rope_len_bytes. lia. }
    rewrite printed_row, Hb; [done|..].
    + rewrite Hb. unfold zslice, ztake, zdrop. apply Forall_take, Forall_drop, (vo_bytes _ _ Hv).
    + by rewrite zlen_fmap.
    + rewrite zlen_fmap. unfold row_end_style. destruct (_ && _) eqn:E; [|by intros [? ?]].
      intros _. apply andb_true_iff in E as [_ E%Z.ltb_lt].
      unfold row_positions. rewrite zlen_range_list. lia.
Qed.

(** C20: drawing only invalidated rows, which always include the first five,
    queues for each of them exactly the commands that drawing the whole window
    queues for it, and nothing for the other rows of the document. *)
Theorem draw_rows_equals_draw (v : HexView) b (invalidated_rows : gset Z) : view_ok v b →
  5 ≤ snd (size v) → rows_between 0 5 ⊆ invalidated_rows →
  let rows := Z.max (window_rows v b) 5 in
  draw_window v = Ok (List.concat (screen_row v b <$> seqZ 0 rows)) ∧
  draw_visible v (row_invalidated v invalidated_rows) =
    Ok (List.concat (screen_row v b <$> filter (λ j, j ∈ invalidated_rows) (seqZ 0 rows))).
Proof.
  intros Hv Hsize Hsub rows. split; [by apply draw_window_rows|by apply draw_invalidated_rows].
Qed.

(** C21: on a terminal of at most four rows drawing the window does not end:
    the loop that draws the rest of the properties skips rows below the screen
    without counting them, and goes on until the offset overflows [usize]. *)
Theorem small_screen_never_drawn (v : HexView) b fuel : view_ok v b → snd (size v) ≤ 4 →
  start_offset v + (snd (size v) + Z.of_nat fuel) * bytes_per_line v ≤ usize_max →
  draw_window_fuel fuel v = Panic PanicFuel.
Proof. intros Hv. by apply (draw_window_out v b). Qed.

End theorems.

(** ** The theorems at concrete views *)

Definition sample_doc : bytes := (λ n, (3 * Z.of_nat n) mod 256) <$> seq 0 100.
Definition sample_buffer (sel : Selection) : @CurrentBuffer ref_rope :=
  with_selection (with_data buffer_default (ref_doc sample_doc)) sel.
Definition sample_view (height start : Z) (sel : Selection) : @HexView ref_rope :=
  mkView (with_current_buffer (sample_buffer sel)) (80, height) 16 start 0 0 (MNormal normal_new) None.

Definition two_regions : Selection := selection_of [(20, 17); (40, 90)] 0.
Definition one_cursor : Selection := selection_of [(33, 33)] 0.

(** The conditions of [view_ok] at a closed view. *)
Ltac window_ok_compute :=
  split; [reflexivity|vm_compute; done|vm_compute; done|reflexivity|vm_compute; done|vm_compute; done
         |unfold is_u8; apply (bool_decide_unpack _); vm_compute; done|selection_ok_compute].
Ltac view_ok_compute := split; [window_ok_compute|intros ? [= <-]; vm_compute; done].

Lemma mark_commands_reference_witness : ∃ l,
  @mark_commands true ref_rope (sample_view 8 16 two_regions) (16, 100) = Ok l ∧ zlen l = 84.
Proof.
  eexists. split.
  - apply (mark_commands_reference (sample_view 8 16 two_regions) (sample_buffer two_regions) 100);
      [reflexivity|selection_ok_compute|vm_compute; done..].
  - reflexivity.
Defined.

Lemma draw_shows_window_witness : ∃ cmds,
  @draw_window true ref_rope escape_debug (sample_view 8 16 two_regions) = Ok cmds.
Proof.
  eexists. apply (draw_shows_window (sample_view 8 16 two_regions) (sample_buffer two_regions));
    [view_ok_compute|vm_compute; done].
Defined.

Lemma draw_rows_equals_draw_witness : ∃ cmds,
  @draw_visible true ref_rope escape_debug (sample_view 8 16 two_regions)
    (@row_invalidated true ref_rope (sample_view 8 16 two_regions) (rows_between 0 5)) = Ok cmds.
Proof.
  eexists. apply (draw_rows_equals_draw (sample_view 8 16 two_regions) (sample_buffer two_regions));
    [view_ok_compute|vm_compute; done|done].
Defined.

Lemma small_screen_never_drawn_witness :
  @draw_window_fuel true ref_rope escape_debug 1000 (sample_view 4 16 one_cursor) = Panic PanicFuel.
Proof.
  apply (small_screen_never_drawn (sample_view 4 16 one_cursor) (sample_buffer one_cursor));
    [view_ok_compute|vm_compute; done..].
Defined.
