(* ===== verification/StatusLine.v ===== *)
(** * StatusLine: where the status line starts and ends

    The line starts [calculate_powerline_length] columns before the right edge
    and takes as many columns as [draw_statusline_here] prints characters; the
    two differ when the name of the buffer is not ASCII.  A character is taken
    to fill one column. *)

From S2P Require Import Prelude KeyMap CmdCount Masks XiRope XiRopeRef ByteRope Selection SelectionMap.
From S2P Require Import SelectionMoves SelectionQueries SelectionExact SelectionParts SelectionTheorems.
From S2P Require Import Operations History CurrentBuffer BufferTheorems Text Mode CommandMode CommandTheorems.
From S2P Require Import Names Style.
From S2P Require Import ByteProperties Prompt View EventLoop ViewMarks ViewRows.
From Stdlib Require Import Ascii String.
Local Open Scope Z_scope.

(** ** The length of names and numbers *)

Lemma fmt_radix_len fuel base n acc : zlen (fmt_radix fuel base n acc) ≤ Z.of_nat fuel + zlen acc.
Proof.
  revert n acc. induction fuel as [|fuel IH]; intros n acc; cbn [fmt_radix]; [lia|].
  destruct (n <? base); [rewrite zlen_cons; lia|].
  specialize (IH (n / base) (digit_char (n mod base) :: acc)). rewrite zlen_cons in IH. lia.
Qed.

Lemma fmt_dec_len n : 0 ≤ zlen (fmt_dec n) ≤ 20.
Proof. split; [apply zlen_nonneg|]. apply (fmt_radix_len 20 10 n []). Qed.
Lemma fmt_hex_len n : 0 ≤ zlen (fmt_hex n) ≤ 20.
Proof. split; [apply zlen_nonneg|]. apply (fmt_radix_len 20 16 n []). Qed.

Lemma count_display_len s : 0 ≤ zlen (count_display s) ≤ 25.
Proof.
  split; [apply zlen_nonneg|]. unfold count_display. destruct s as [|[] count].
  - done.
  - destruct (count =? 0); [done|]. rewrite !zlen_app. pose proof (fmt_hex_len count).
    change (zlen (str " (0x")) with 4. change (zlen (str ")")) with 1. lia.
  - rewrite !zlen_app. pose proof (fmt_dec_len count).
    change (zlen (str " (")) with 2. change (zlen (str ")")) with 1. lia.
Qed.

Lemma mode_name_len m n : mode_name m = Ok n → 0 ≤ zlen n ≤ 40.
Proof.
  intros Hn. split; [apply zlen_nonneg|].
  assert (∀ s, zlen (split_name s) ≤ 40) as Hsplit.
  { intros s. unfold split_name. rewrite zlen_app. pose proof (count_display_len (split_count_state s)).
    change (zlen (str "SPLIT")) with 5. lia. }
  destruct m as [m|m|m|m|m|m|m| |]; simpl in Hn; try injection Hn as <-; try done.
  - unfold normal_name. rewrite zlen_app. pose proof (count_display_len (count_state m)).
    change (zlen (str "NORMAL")) with 6. lia.
  - unfold insert_name. by destruct (ins_mode m), (ins_hex m).
  - unfold replace_name. destruct (rep_hex m), (rep_hex_half m) as [ch|]; try done.
    rewrite !zlen_app. pose proof (fmt_hex_len (Z.shiftr ch 4)).
    change (zlen (str "REPLACE (hex: ")) with 14. change (zlen (str "...)")) with 4. lia.
  - unfold jumpto_name. by destruct (jump_extend m).
  - unfold search_name in Hn. destruct (next m) as [[s|]|]; simpl in Hn; simplify_eq; [apply Hsplit|done].
Qed.

Lemma Ok_inj {A} (x y : A) : Ok x = Ok y → x = y.
Proof. congruence. Qed.

(** All texts but the name of the buffer are ASCII. *)
Ltac ascii_tac :=
  match goal with
  | |- ascii_text (_ ++ _) => apply ascii_app; ascii_tac
  | |- ascii_text (fmt_dec _) => apply fmt_dec_ascii
  | |- ascii_text (fmt_hex _) => apply fmt_hex_ascii
  | |- ascii_text (str _) => ascii_literal
  | |- ascii_text [] => constructor
  | H : _ |- _ => apply H
  end.

Lemma ascii_count_display s : ascii_text (count_display s).
Proof. unfold count_display. destruct s as [|[] count]; [|destruct (count =? 0)|]; ascii_tac. Qed.

Lemma ascii_mode_name m n : mode_name m = Ok n → ascii_text n.
Proof.
  pose proof ascii_count_display as Hcount.
  assert (∀ s, ascii_text (split_name s)) as Hsplit by (intros s; unfold split_name; ascii_tac).
  intros Hn. destruct m as [m|m|m|m|m|m|m| |]; cbn [mode_name] in Hn;
    try (apply Ok_inj in Hn as <-; first [apply Hsplit|ascii_tac]; fail).
  - apply Ok_inj in Hn as <-. unfold normal_name. ascii_tac.
  - apply Ok_inj in Hn as <-. unfold insert_name. destruct (ins_mode m), (ins_hex m); ascii_tac.
  - apply Ok_inj in Hn as <-. unfold replace_name. destruct (rep_hex m), (rep_hex_half m) as [ch|]; ascii_tac.
  - apply Ok_inj in Hn as <-. unfold jumpto_name. destruct (jump_extend m); ascii_tac.
  - unfold search_name in Hn. destruct (next m) as [[s|]|]; [..|done];
      cbn [unwrap mbind outcome_bind acceptor_name] in Hn; apply Ok_inj in Hn as <-; [apply Hsplit|ascii_tac].
Qed.

(** ** The columns of the status line *)

(** What is printed between the fixed parts. *)
Record status_texts `{Profile} `{XiRope} (v : HexView) (b : CurrentBuffer) (name sels pos : bytes) : Prop := {
  st_current : current (buffr_collection v) = Ok b;
  st_name : mode_name (mode v) = Ok name;
  st_sels : selections_text (selection b) = Ok sels;
  st_pos : position_text b = Ok pos;
}.

Section status.
Context `{Profile} `{XiRopeLaws}.

(** The columns that the line takes: every arrow takes one. *)
Definition status_width (b : CurrentBuffer) (name sels pos : bytes) : Z :=
  8 + zlen (buffer_name b) + (if dirty b then 3 else 0) + zlen name + zlen sels + zlen pos.

Lemma status_texts_ok (v : HexView) b : current (buffr_collection v) = Ok b → mode_named (mode v) →
  rope_len (data b) < two63 → selection_ok (rope_len (data b)) (selection b) →
  ∃ name sels pos, status_texts v b name sels pos ∧ 0 ≤ zlen name ≤ 40 ∧
    0 ≤ zlen sels ≤ 60 ∧ 0 ≤ zlen pos ≤ 60.
Proof.
  intros Hc Hn Hl Hok. destruct (mode_name_ok _ Hn) as (name & Hname).
  pose proof (rope_len_bytes (data b)) as Hlen. pose proof (zlen_nonneg (rope_bytes (data b))).
  pose proof (regions_count 0 _ _ (sel_sorted _ _ Hok) (sel_bounded _ _ Hok) ltac:(lia)).
  pose proof (sel_main_range _ _ Hok) as Hm. destruct (zlookup_lt _ _ Hm) as [r Hr].
  assert (∃ sels, selections_text (selection b) = Ok sels ∧ 0 ≤ zlen sels ≤ 60) as (sels & Hs & Hsl).
  { unfold selections_text. rewrite uadd_ok by (unfold_usize; lia). cbn [mbind outcome_bind]. eexists.
    split; [done|]. rewrite !zlen_app. pose proof (fmt_dec_len (selection_len (selection b))).
    pose proof (fmt_dec_len (main_selection (selection b) + 1)).
    change (zlen (str " ")) with 1. change (zlen (str " sels (")) with 7. change (zlen (str ") ")) with 2. lia. }
  assert (∃ pos, position_text b = Ok pos ∧ 0 ≤ zlen pos ≤ 60) as (pos & Hp & Hpl).
  { unfold position_text. destruct (rope_is_empty (data b)) eqn:E; cbn [negb]; [by eexists|].
    unfold rope_is_empty in E. apply Z.eqb_neq in E. change (node_len _) with (rope_len (data b)) in E.
    unfold main_cursor_offset, vec_index. rewrite Hr. cbn [mbind outcome_bind].
    rewrite usub_ok by (unfold_usize; lia). cbn [mbind outcome_bind]. eexists. split; [done|].
    rewrite !zlen_app. pose proof (fmt_hex_len (caret r)). pose proof (fmt_hex_len (rope_len (data b) - 1)).
    change (zlen (str " ")) with 1. change (zlen (str "/")) with 1. lia. }
  exists name, sels, pos. split; [by split|]. split; [by apply (mode_name_len (mode v))|]. done.
Qed.

Context (v : HexView) (b : CurrentBuffer) (name sels pos : bytes) (Ht : status_texts v b name sels pos).

Lemma powerline_length_ok : status_width b name sels pos < two63 →
  calculate_powerline_length v = Ok (status_width b name sels pos).
Proof.
  intros Hw. destruct Ht as [Hc Hn Hs Hp]. unfold calculate_powerline_length.
  rewrite Hc. cbn [mbind outcome_bind]. rewrite Hn. cbn [mbind outcome_bind].
  rewrite Hs. cbn [mbind outcome_bind]. rewrite Hp. cbn [mbind outcome_bind]. unfold status_width in *.
  pose proof (zlen_nonneg (buffer_name b)). pose proof (zlen_nonneg name).
  pose proof (zlen_nonneg sels). pose proof (zlen_nonneg pos).
  destruct (dirty b); repeat (rewrite uadd_ok by (unfold_usize; lia); cbn [mbind outcome_bind]); f_equal; lia.
Qed.

(** Every arrow is one character. *)
Lemma statusline_here_ok : ∃ cmds, draw_statusline_here v = Ok cmds ∧
  char_count (printed cmds) =
    status_width b name sels pos - (zlen (buffer_name b) - char_count (buffer_name b)).
Proof.
  destruct Ht as [Hc Hn Hs Hp].
  assert (ascii_text sels) as Has.
  { unfold selections_text in Hs. destruct (uadd _ _); [|done]. cbn [mbind outcome_bind] in Hs.
    apply Ok_inj in Hs as <-. ascii_tac. }
  assert (ascii_text pos) as Hap.
  { unfold position_text in Hp. destruct (negb _); [|apply Ok_inj in Hp as <-; ascii_tac].
    destruct (main_cursor_offset _); [|done]. cbn [mbind outcome_bind] in Hp.
    destruct (usub _ _); [|done]. cbn [mbind outcome_bind] in Hp. apply Ok_inj in Hp as <-. ascii_tac. }
  pose proof (ascii_mode_name _ _ Hn) as Han. unfold draw_statusline_here.
  rewrite Hc. cbn [mbind outcome_bind]. rewrite Hn. cbn [mbind outcome_bind].
  rewrite Hs. cbn [mbind outcome_bind]. rewrite Hp. cbn [mbind outcome_bind]. eexists. split; [done|].
  cbn [printed styled styled_fg]. rewrite !char_count_app. unfold status_width.
  rewrite (ascii_char_count name), (ascii_char_count sels), (ascii_char_count pos) by done.
  change (char_count LEFTARROW) with 1. change (char_count (str " ")) with 1. change (char_count []) with 0.
  destruct (dirty b); [change (char_count (str "[+]")) with 3|change (char_count []) with 0]; lia.
Qed.

End status.

(** ** The whole line *)

(** The prompt of the mode fits into the line. *)
Definition prompt_fits `{XiRope} (v : HexView) : Prop :=
  let jumped len cur := last_visible_prompt_col v < len ∨ len ≤ cur + 1 in
  match mode v with
  | MSearch m => Forall piece_ok (pieces (pattern m)) ∧ 0 ≤ cursor m ≤ zlen (pieces (pattern m)) ∧
      4 * zlen (pieces (pattern m)) < two63 ∧ 12 ≤ fst (size v) ∧ 0 ≤ last_visible_prompt_col v ∧
      jumped (zlen (pieces (pattern m))) (cursor m)
  | MCommand m => prompt_ok m ∧ 2 ≤ fst (size v) ∧ 0 ≤ last_visible_prompt_col v ∧
      jumped (zlen (command m)) (cmd_cursor m)
  | _ => True
  end.

Section whole_line.
Context `{Profile} `{XiRopeLaws}.

Lemma command_render_ok (m : Command) w last_col : prompt_ok m → 2 ≤ w < two63 → 0 ≤ last_col →
  (last_col < zlen (command m) ∨ zlen (command m) ≤ cmd_cursor m + 1) →
  ∃ cmds col, command_render m w last_col = Ok (cmds, col) ∧ zlen (printed cmds) ≤ w ∧
    0 ≤ col ≤ cmd_cursor m.
Proof.
  intros (Hascii & Hcur & Hlen) Hw Hlast Hj. unfold command_render. set (len := zlen (command m)) in *.
  set (at_end := cmd_cursor m =? len). rewrite usub_ok by (unfold_usize; lia). cbn [mbind outcome_bind].
  destruct (clamp_start_ok len (cmd_cursor m) last_col) as (st & -> & Hst); [lia..|done|].
  cbn [mbind outcome_bind]. assert (0 ≤ Z.b2z at_end ≤ 1) by (destruct at_end; simpl; lia).
  rewrite usub_ok by (unfold_usize; lia). cbn [mbind outcome_bind]. set (mw := w - 1 - Z.b2z at_end).
  rewrite usub_ok by (unfold_usize; lia). cbn [mbind outcome_bind]. change (w - 1 - Z.b2z at_end) with mw.
  assert (∃ st', (if mw <? cmd_cursor m - st then d ← usub (cmd_cursor m - st) mw; uadd st d else Ok st) = Ok st' ∧
    0 ≤ st' ≤ cmd_cursor m) as (st' & -> & Hst').
  { destruct (Z.ltb_spec mw (cmd_cursor m - st)); [|eexists; split; [done|lia]].
    rewrite usub_ok by (unfold_usize; lia). cbn [mbind outcome_bind].
    rewrite uadd_ok by (unfold_usize; lia). eexists. split; [done|lia]. }
  cbn [mbind outcome_bind]. rewrite uadd_ok by (unfold_usize; lia). cbn [mbind outcome_bind].
  unfold str_slice. rewrite !ascii_boundary by (done || fold len; lia). cbn [andb].
  rewrite slice_range_ok by (fold len; lia). cbn [mbind outcome_bind].
  eexists _, _. split; [done|]. split; [|lia].
  rewrite printed_app, zlen_app. cbn [printed styled]. rewrite !zlen_app, zlen_zslice by lia.
  change (zlen (str ":")) with 1. change (zlen []) with 0.
  destruct at_end; [change (zlen (printed [styled (str " ") CBlack CWhite])) with 1|
    change (zlen (printed [])) with 0]; simpl in mw; lia.
Qed.

Lemma prompt_ok_render (v : HexView) : prompt_fits v → fst (size v) < 65536 →
  ∃ p, match mode v with
    | MSearch m => r ← search_render m (fst (size v)) (last_visible_prompt_col v); Ok (Some r)
    | MCommand m => r ← command_render m (fst (size v)) (last_visible_prompt_col v); Ok (Some r)
    | _ => Ok None
    end = Ok p ∧ match p with Some (_, col) => 0 ≤ col | None => True end.
Proof.
  intros Hp Hw. unfold prompt_fits in Hp. destruct (mode v) as [m|m|m|m|m|m|m| |]; try (by eexists; split).
  - destruct Hp as (? & ? & ? & ?).
    destruct (command_render_ok m (fst (size v)) (last_visible_prompt_col v)) as (cmds & col & -> & _ & ?);
      [done|unfold_usize; lia|done|done|]. eexists. split; [done|]. simpl. lia.
  - destruct Hp as (Hpc & Hcur & Hlen & Hwid & Hlast & Hj).
    destruct (search_prompt_fits_lemma m (fst (size v)) (last_visible_prompt_col v)) as (cmds & col & -> & _ & ? & _);
      [done|done|done|unfold_usize; lia|done|done|]. eexists. split; [done|]. simpl. lia.
Qed.

(** The line fits: its texts and the prompt. *)
Definition status_fits (v : HexView) (b : CurrentBuffer) : Prop :=
  (∃ name sels pos, status_texts v b name sels pos ∧ status_width b name sels pos ≤ fst (size v)) ∧
  1 ≤ snd (size v) < 65536 ∧ fst (size v) < 65536 ∧ 0 ≤ last_visible_prompt_col v ∧ prompt_fits v.

Lemma statusline_self_ok (v : HexView) b : status_fits v b →
  ∃ cmds col, draw_statusline_self v = Ok (cmds, col) ∧ 0 ≤ col.
Proof.
  intros ((name & sels & pos & Ht & Hw) & Hh & Hwid & Hcol & Hp).
  assert (0 ≤ status_width b name sels pos) by (unfold status_width;
    pose proof (zlen_nonneg (buffer_name b)); pose proof (zlen_nonneg name); pose proof (zlen_nonneg sels);
    pose proof (zlen_nonneg pos); destruct (dirty b); lia).
  destruct (statusline_here_ok v b name sels pos Ht) as (here & Hhere & _).
  unfold draw_statusline_self. rewrite (powerline_length_ok v b name sels pos Ht) by (unfold_usize; lia).
  cbn [mbind outcome_bind]. rewrite as_u16_small by (unfold is_u16; lia).
  destruct (prompt_ok_render v Hp Hwid) as (p & Hprompt & Hp0).
  destruct (info v); rewrite ?(u16sub_ok (snd (size v))) by lia; cbn [mbind outcome_bind];
    rewrite u16sub_ok by lia; cbn [mbind outcome_bind]; rewrite Hhere; cbn [mbind outcome_bind];
    rewrite Hprompt; cbn [mbind outcome_bind]; destruct p as [[cmds col]|]; eexists _, _; by split.
Qed.

(** Where the line is put, below the message of the last command if there is
    one. *)
Definition line_place (v : HexView) (col : Z) : list TermCmd :=
  match info v with
  | Some i => [MoveTo 0 (snd (size v) - 1); Clear ClearCurrentLine; styled i CWhite CBlue;
               MoveTo col (snd (size v))]
  | None => [MoveTo col (snd (size v)); Clear ClearCurrentLine]
  end.

(** The prompt of the search and command modes, with the column it starts at. *)
Definition line_prompt (v : HexView) : outcome (list TermCmd * Z) :=
  match mode v with
  | MSearch m =>
      '(cmds, col) ← search_render m (fst (size v)) (last_visible_prompt_col v);
      Ok (MoveTo 0 (snd (size v)) :: cmds, col)
  | MCommand m =>
      '(cmds, col) ← command_render m (fst (size v)) (last_visible_prompt_col v);
      Ok (MoveTo 0 (snd (size v)) :: cmds, col)
  | _ => Ok ([], last_visible_prompt_col v)
  end.

Lemma line_prompt_ok (v : HexView) : prompt_fits v → fst (size v) < 65536 →
  ∃ prompt col, line_prompt v = Ok (prompt, col).
Proof.
  intros Hp Hw. destruct (prompt_ok_render v Hp Hw) as (p & Hr & _). unfold line_prompt.
  destruct (mode v); try (by eexists _, _).
  - destruct (command_render _ _ _) as [[cmds col]|]; [by eexists _, _|done].
  - destruct (search_render _ _ _) as [[cmds col]|]; [by eexists _, _|done].
Qed.

(** The line in three parts, wherever it starts. *)
Lemma statusline_parts (v : HexView) width here prompt col : 1 ≤ snd (size v) < 65536 →
  calculate_powerline_length v = Ok width → 0 ≤ width < 65536 → draw_statusline_here v = Ok here →
  line_prompt v = Ok (prompt, col) →
  draw_statusline_self v =
    (start ← u16sub (fst (size v)) width; Ok (line_place v start ++ here ++ prompt, col)).
Proof.
  intros Hh Hl Hw Hhere Hp. unfold draw_statusline_self, line_place. rewrite Hl. cbn [mbind outcome_bind].
  rewrite as_u16_small by (unfold is_u16; lia).
  assert (∀ place, (prompt ← match mode v with
      | MSearch m => r ← search_render m (fst (size v)) (last_visible_prompt_col v); Ok (Some r)
      | MCommand m => r ← command_render m (fst (size v)) (last_visible_prompt_col v); Ok (Some r)
      | _ => Ok None
      end; Ok (match prompt with
      | Some (cmds, new_col) => (place ++ here ++ [MoveTo 0 (snd (size v))] ++ cmds, new_col)
      | None => (place ++ here, last_visible_prompt_col v)
      end)) = Ok (place ++ here ++ prompt, col)) as Hrest.
  { intros place. unfold line_prompt in Hp.
    destruct (mode v); try (injection Hp as <- <-; cbn [mbind outcome_bind]; by rewrite app_nil_r).
    - destruct (command_render _ _ _) as [[cmds c]|]; [|done]. by injection Hp as <- <-.
    - destruct (search_render _ _ _) as [[cmds c]|]; [|done]. by injection Hp as <- <-. }
  destruct (info v); [rewrite (u16sub_ok (snd (size v))) by lia; cbn [mbind outcome_bind]|];
    (destruct (u16sub (fst (size v)) width); cbn [mbind outcome_bind]; [|done]);
    rewrite Hhere; cbn [mbind outcome_bind]; apply Hrest.
Qed.

(** C24: where the status line is drawn, exactly: it starts as many columns
    before the right edge as the computed length says, and it prints that many
    characters less the bytes of the buffer's name that do not start a
    character.  With an ASCII name it therefore ends at the right edge, with
    any other name it ends too far to the left.  On a terminal narrower than
    the computed length the subtraction of the columns panics with overflow
    checks and wraps around to a column far right without.  The prompt of the
    mode has to fit into the line, and the name is shorter than 65000 bytes. *)
Theorem statusline_placed (v : HexView) b :
  current (buffr_collection v) = Ok b → mode_named (mode v) → rope_len (data b) < two63 →
  selection_ok (rope_len (data b)) (selection b) → zlen (buffer_name b) < 65000 →
  0 ≤ fst (size v) < 65536 → 1 ≤ snd (size v) < 65536 → prompt_fits v →
  ∃ width here prompt col, calculate_powerline_length v = Ok width ∧ draw_statusline_here v = Ok here ∧
    line_prompt v = Ok (prompt, col) ∧
    char_count (printed here) = width - (zlen (buffer_name b) - char_count (buffer_name b)) ∧
    draw_statusline_self v =
      if width <=? fst (size v) then Ok (line_place v (fst (size v) - width) ++ here ++ prompt, col)
      else if overflow_checks then Panic PanicOverflow
      else Ok (line_place v (65536 + fst (size v) - width) ++ here ++ prompt, col).
Proof.
  intros Hc Hn Hl Hok Hname Hwid Hh Hp.
  destruct (status_texts_ok v b Hc Hn Hl Hok) as (name & sels & pos & Ht & ? & ? & ?).
  pose proof (zlen_nonneg (buffer_name b)).
  assert (0 ≤ status_width b name sels pos < 65536) as Hw by (unfold status_width; destruct (dirty b); lia).
  pose proof (powerline_length_ok v b name sels pos Ht ltac:(unfold_usize; lia)) as Hlen.
  destruct (statusline_here_ok v b name sels pos Ht) as (here & Hhere & Hprinted).
  destruct (line_prompt_ok v Hp ltac:(lia)) as (prompt & col & Hprompt).
  exists (status_width b name sels pos), here, prompt, col. split_and!; try done.
  rewrite (statusline_parts v _ here prompt col Hh Hlen Hw Hhere Hprompt). unfold u16sub.
  destruct (Z.leb_spec (status_width b name sels pos) (fst (size v))).
  - rewrite (proj2 (Z.leb_le 0 _)), (proj2 (Z.ltb_lt _ 65536)) by lia. done.
  - rewrite (proj2 (Z.leb_gt 0 _)) by lia. cbn [andb]. destruct overflow_checks; [done|]. cbn [mbind outcome_bind].
    do 5 f_equal. rewrite <-(Z.mod_small (65536 + fst (size v) - status_width b name sels pos) 65536) by lia.
    rewrite <-(Z_mod_plus_full (fst (size v) - status_width b name sels pos) 1). f_equal. lia.
Qed.

End whole_line.

(** ** The theorem at a concrete view *)

(** A path with one character of two bytes: the line ends one column before the
    right edge. *)
Definition named_view (width : Z) (m : Mode) : @HexView ref_rope :=
  mkView (with_current_buffer (with_path buffer_default (Some (encode_utf8 233)))) (width, 24) 16 0 0 0 m None.

Lemma statusline_placed_witness : ∃ width here prompt col,
  @calculate_powerline_length true ref_rope (named_view 80 (MCommand (mkCommand (str "wq") 2))) = Ok width ∧
  char_count (printed here) = width - 1 ∧
  @draw_statusline_self true ref_rope (named_view 80 (MCommand (mkCommand (str "wq") 2))) =
    Ok ([MoveTo (80 - width) 24; Clear ClearCurrentLine] ++ here ++ prompt, col).
Proof.
  destruct (@statusline_placed true ref_rope ref_rope_laws
    (named_view 80 (MCommand (mkCommand (str "wq") 2)))
    (with_path buffer_default (Some (encode_utf8 233))))
    as (width & here & prompt & col & Hl & _ & _ & Hcount & Hs);
    [reflexivity|exact I|vm_compute; done|selection_ok_compute|vm_compute; done|vm_compute; done|vm_compute; done| |].
  - split; [repeat constructor; vm_compute; done|]. vm_compute. split; [done|]. split; [done|by right].
  - exists width, here, prompt, col. split; [exact Hl|]. split; [exact Hcount|].
    vm_compute in Hl. injection Hl as <-. exact Hs.
Defined.
