(* ===== verification/Window.v ===== *)
(** * Window: loading, drawing and following the caret

    The functions of the view that change its state, run from a state in which
    the window lies on the document. *)

From S2P Require Import Prelude KeyMap CmdCount Masks XiRope XiRopeRef ByteRope Selection SelectionMap.
From S2P Require Import SelectionMoves SelectionQueries SelectionExact SelectionParts SelectionTheorems.
From S2P Require Import Operations History CurrentBuffer BufferTheorems DirtyBytes Text Mode.
From S2P Require Import CommandMode CommandTheorems Names Style.
From S2P Require Import ByteProperties Prompt View EventLoop ViewMarks ViewRows ViewTheorems StatusLine.
From Stdlib Require Import Ascii String.
Local Open Scope Z_scope.

(** ** Running the monad *)

Section run.
Context `{XiRope} `{FileSystem}.

Lemma bind_ok {A B} (m : M A) (k : A → M B) s a s' : m s = Ok (IoOk a, s') → (m ≫= k) s = k a s'.
Proof. intros Hm. unfold mbind, M_bind. by rewrite Hm. Qed.
Lemma bind_err {A B} (m : M A) (k : A → M B) s e s' : m s = Ok (IoErr e, s') → (m ≫= k) s = Ok (IoErr e, s').
Proof. intros Hm. unfold mbind, M_bind. by rewrite Hm. Qed.
Lemma bind_panic {A B} (m : M A) (k : A → M B) s p : m s = Panic p → (m ≫= k) s = Panic p.
Proof. intros Hm. unfold mbind, M_bind. by rewrite Hm. Qed.
Lemma bind_lift {A B} (o : outcome A) (k : A → M B) s a : o = Ok a → (lift o ≫= k) s = k a s.
Proof. intros ->. done. Qed.
Lemma bind_self {B} (k : HexView → M B) s : (get_self ≫= k) s = k (vs_view s) s.
Proof. done. Qed.
Lemma bind_world {B} (k : World → M B) s : (get_world ≫= k) s = k (vs_world s) s.
Proof. done. Qed.
Lemma bind_queue {B} cmds (k : unit → M B) v w out :
  (queue cmds ≫= k) (mkVState v w out) = k tt (mkVState v w (out ++ cmds)).
Proof. done. Qed.
Lemma bind_set {B} v' (k : unit → M B) v w out :
  (set_self v' ≫= k) (mkVState v w out) = k tt (mkVState v' w out).
Proof. done. Qed.
Lemma bind_set_start {B} o (k : unit → M B) v w out :
  (set_start o ≫= k) (mkVState v w out) = k tt (mkVState (with_start v o) w out).
Proof. done. Qed.
Lemma bind_ret {A B} (a : A) (k : A → M B) s : (mret a ≫= k) s = k a s.
Proof. done. Qed.
Lemma bind_current {B} (k : CurrentBuffer → M B) v w out b : current (buffr_collection v) = Ok b →
  (current_buffer ≫= k) (mkVState v w out) = k b (mkVState v w out).
Proof. intros Hc. apply bind_ok. unfold current_buffer. rewrite bind_self. unfold lift. simpl. by rewrite Hc. Qed.

(** [current_buffer] is replaced. *)
Lemma update_current_ok v w out b b' : current (buffr_collection v) = Ok b →
  ∃ c', set_current (buffr_collection v) b' = Ok c' ∧ current c' = Ok b' ∧
    update_current b' (mkVState v w out) = Ok (IoOk tt, mkVState (with_collection v c') w out).
Proof.
  intros Hc. destruct (current_set_current _ b b' Hc) as (c' & Hs & Hc' & _).
  exists c'. split; [done|]. split; [done|]. unfold update_current. rewrite bind_self.
  by rewrite (bind_lift _ _ _ c').
Qed.

End run.

(** Run the next steps whose results are known. *)
Ltac mrun :=
  repeat first
    [ rewrite bind_self; cbn [vs_view vs_world vs_out]
    | rewrite bind_world; cbn [vs_view vs_world vs_out]
    | rewrite bind_queue | rewrite bind_set | rewrite bind_set_start | rewrite bind_ret ].

(** The next step is checked arithmetic that stays in range. *)
Ltac marith :=
  first
    [ erewrite bind_lift; [|apply uadd_ok; unfold_usize; lia]
    | erewrite bind_lift; [|apply usub_ok; unfold_usize; lia]
    | erewrite bind_lift; [|apply umul_ok; unfold_usize; lia]
    | erewrite bind_lift; [|apply u16sub_ok; lia]
    | erewrite bind_lift; [|apply udiv_ok; lia]
    | erewrite bind_lift; [|apply urem_ok; lia] ].

(** ** Loading what the window shows *)

(** The contents of files are bytes. *)
Definition files_ok `{FileSystemLaws} (w : World) : Prop :=
  ∀ p c, fs_contents w p = Some c → Forall is_u8 c.

Section loading.
Context `{Profile} `{XiRopeLaws} `{FileSystemLaws} `{CharDebugLaws}.

(** The state after [ensure_visible_data]: nothing was missing, or one chunk of
    at most 64 bytes was asked for. *)
Inductive loaded (w : World) (v : HexView) (b : CurrentBuffer) : io unit → HexView → CurrentBuffer → Prop :=
  | loaded_enough : window_end v b ≤ rope_len (data b) → loaded w v b (IoOk tt) v b
  | loaded_chunk r b1 c1 : rope_len (data b) < window_end v b → load_next_chunk w b 64 = (r, b1) →
      set_current (buffr_collection v) b1 = Ok c1 → current c1 = Ok b1 →
      loaded w v b (match r with IoOk _ => IoOk tt | IoErr e => IoErr e end) (with_collection v c1) b1.

Lemma load_chunk_run n v w out b r b1 c1 : current (buffr_collection v) = Ok b →
  load_next_chunk w b n = (r, b1) → set_current (buffr_collection v) b1 = Ok c1 →
  load_chunk n (mkVState v w out) = Ok (r, mkVState (with_collection v c1) w out).
Proof.
  intros Hc Hl Hs. unfold load_chunk. mrun. rewrite (bind_current _ _ _ _ b) by done.
  rewrite Hl. erewrite bind_ok; [done|]. unfold update_current. mrun. by rewrite (bind_lift _ _ _ c1).
Qed.

Lemma ensure_visible_data_ok (v : HexView) b w out : window_ok v b →
  ∃ r v1 b1, loaded w v b r v1 b1 ∧
    ensure_visible_data (mkVState v w out) = Ok (r, mkVState v1 w out).
Proof.
  intros Hw. pose proof (vo_current _ _ Hw) as Hc. unfold ensure_visible_data. mrun.
  rewrite (bind_lift _ _ _ _ (visible_bytes_ok v b Hw)), (bind_current _ _ _ _ b) by done. cbn [snd].
  destruct (Z.ltb_spec (rope_len (data b)) (window_end v b)).
  - destruct (load_next_chunk w b 64) as [r b1] eqn:El.
    destruct (current_set_current _ b b1 Hc) as (c1 & Hs & Hc1 & _).
    exists (match r with IoOk _ => IoOk tt | IoErr e => IoErr e end), (with_collection v c1), b1.
    split; [by constructor|]. pose proof (load_chunk_run 64 v w out b r b1 c1 Hc El Hs) as Hr.
    destruct r; [by rewrite (bind_ok _ _ _ _ _ Hr)|by rewrite (bind_err _ _ _ _ _ Hr)].
  - exists (IoOk tt), v, b. split; [by constructor|]. done.
Qed.

(** Loading appends bytes of the file. *)
Lemma load_next_chunk_appends w b n r b1 : files_ok w → 0 ≤ n → load_next_chunk w b n = (r, b1) →
  ∃ ext, rope_bytes (data b1) = rope_bytes (data b) ++ ext ∧ Forall is_u8 ext ∧ zlen ext ≤ n ∧
    selection b1 = selection b.
Proof.
  intros Hf Hn. unfold load_next_chunk. pose proof (rope_len_bytes (data b)) as Hlen.
  pose proof (zlen_nonneg (rope_bytes (data b))).
  assert (∃ ext, rope_bytes (data b) = rope_bytes (data b) ++ ext ∧ Forall is_u8 ext ∧ zlen ext ≤ n ∧
    selection b = selection b) as Hsame by (exists []; by rewrite app_nil_r).
  destruct (path b) as [p|]; [|by intros [= <- <-]]. destruct (fs_len w p); [|by intros [= <- <-]].
  destruct (fs_read_at w p (rope_len (data b)) n) as [chunk|] eqn:Er; [|by intros [= <- <-]].
  destruct (0 <? zlen chunk); [|by intros [= <- <-]]. intros [= <- <-]. exists chunk. simpl.
  rewrite chunk_append_bytes. apply fs_read_at_ok in Er as (c & Hc & Hr & Hrn & _); [|lia..].
  split; [done|]. split; [|done]. rewrite Hr. unfold zslice, ztake, zdrop.
  apply Forall_take, Forall_drop, (Hf p c Hc).
Qed.

Lemma loaded_window_ok w v b r v1 b1 : files_ok w → window_ok v b → rope_len (data b) < two63 - 64 →
  loaded w v b r v1 b1 →
  window_ok v1 b1 ∧ start_offset v1 = start_offset v ∧ size v1 = size v ∧ bytes_per_line v1 = bytes_per_line v ∧
  mode v1 = mode v ∧ selection b1 = selection b ∧
  ∃ ext, rope_bytes (data b1) = rope_bytes (data b) ++ ext.
Proof.
  intros Hf Hw Hlen [Henough|r' b' c' Hless Hl Hs Hc'].
  { split_and!; try done. exists []. by rewrite app_nil_r. }
  destruct (load_next_chunk_appends w b 64 r' b' Hf ltac:(done) Hl) as (ext & Hext & Hu8 & H64 & Hsel).
  pose proof (rope_len_bytes (data b)) as Hl0. pose proof (rope_len_bytes (data b')) as Hl1.
  rewrite Hext, zlen_app in Hl1. pose proof (zlen_nonneg ext). destruct Hw as [Hc Hb Hh Ha Hst Hln Hu Hok].
  split_and!; try done; [|by exists ext]. split; try done; simpl.
  - lia.
  - lia.
  - rewrite Hext. by apply Forall_app.
  - rewrite Hsel. destruct Hok as [Hm Hso Hbo Hfl]. split; try done.
    eapply Forall_impl; [exact Hbo|]. simpl. lia.
Qed.

Lemma loaded_view_ok w v b r v1 b1 : files_ok w → view_ok v b → rope_len (data b) < two63 - 64 →
  loaded w v b r v1 b1 → view_ok v1 b1.
Proof.
  intros Hf [Hw Hcar] Hlen Hld.
  destruct (loaded_window_ok w v b r v1 b1 Hf Hw Hlen Hld) as (Hw1 & Hst & Hsz & Hbpl & _ & Hsel & _).
  split; [done|]. rewrite Hst, Hsz, Hbpl, Hsel. done.
Qed.

(** ** Drawing *)

Definition all_rows (v : HexView) (b : CurrentBuffer) : list TermCmd :=
  List.concat (screen_row v b <$> seqZ 0 (Z.max (window_rows v b) 5)).

Lemma draw_statusline_run (v : HexView) b w out : status_fits v b →
  ∃ status col, draw_statusline_self v = Ok (status, col) ∧
    draw_statusline (mkVState v w out) =
      Ok (IoOk tt, mkVState (with_prompt_col v col) w (out ++ status)) ∧ 0 ≤ col.
Proof.
  intros Hst. destruct (statusline_self_ok v b Hst) as (status & col & Hs & Hcol). exists status, col.
  split; [done|]. split; [|done]. unfold draw_statusline. mrun. by rewrite (bind_lift _ _ _ (status, col)).
Qed.

Lemma status_fits_with_rows (v : HexView) b n : status_fits v b → status_fits (with_rows v n) b.
Proof.
  intros ((name & sels & pos & [Hc Hn Hs Hp] & Hw) & Hrest). split; [|done].
  exists name, sels, pos. split; [by split|done].
Qed.

(** The view and the output after [draw]: the screen is cleared, all rows are
    queued, the number of rows is kept and the status line of that view is
    queued after them. *)
Definition drawn (v1 : HexView) (b1 : CurrentBuffer) (w : World) (out : list TermCmd) (s : VState) : Prop :=
  let v2 := with_rows v1 (window_rows v1 b1) in
  ∃ status col, draw_statusline_self v2 = Ok (status, col) ∧
    s = mkVState (with_prompt_col v2 col) w (out ++ [MoveTo 0 0; Clear ClearAll] ++ all_rows v1 b1 ++ status).

(** What [draw] does from a state that can be drawn. *)
Lemma draw_run (v : HexView) b w out : view_ok v b → rope_len (data b) < two63 - 64 → files_ok w →
  5 ≤ snd (size v) → (∀ r v1 b1, loaded w v b r v1 b1 → status_fits v1 b1) →
  ∃ r v1 b1, loaded w v b r v1 b1 ∧
    match r with
    | IoErr e => draw (mkVState v w out) = Ok (IoErr e, mkVState v1 w out)
    | IoOk _ => ∃ s, draw (mkVState v w out) = Ok (IoOk tt, s) ∧ drawn v1 b1 w out s
    end.
Proof.
  intros Hv Hlen Hf Hsize Hstatus.
  destruct (ensure_visible_data_ok v b w out Hv) as (r & v1 & b1 & Hld & Hens).
  exists r, v1, b1. split; [done|]. unfold draw.
  pose proof (loaded_view_ok w v b r v1 b1 Hf Hv Hlen Hld) as Hv1.
  destruct (loaded_window_ok w v b r v1 b1 Hf Hv Hlen Hld) as (_ & Hst & Hsz & Hbpl & _).
  destruct r as [[]|e]; [|by rewrite (bind_err _ _ _ _ _ Hens)].
  rewrite (bind_ok _ _ _ _ _ Hens). mrun.
  rewrite (bind_lift _ _ _ _ (draw_window_rows v1 b1 Hv1 ltac:(rewrite Hsz; lia))). mrun.
  rewrite (bind_lift _ _ _ _ (visible_bytes_ok v1 b1 Hv1)). cbn [fst snd].
  pose proof (window_bounds v1 b1 Hv1) as (? & ? & ? & ? & ? & ?).
  do 4 marith.
  match goal with |- context [negb (?n =? _)] => change n with (window_rows v1 b1) end.
  set (v2 := with_rows v1 (window_rows v1 b1)).
  destruct (draw_statusline_run v2 b1 w ((out ++ [MoveTo 0 0; Clear ClearAll]) ++ all_rows v1 b1)
    (status_fits_with_rows v1 b1 (window_rows v1 b1) (Hstatus _ _ _ Hld))) as (status & col & Hs & Hd & _).
  rewrite <-!app_assoc in Hd. eexists. split; [|by exists status, col].
  destruct (Z.eqb_spec (window_rows v1 b1) (last_visible_rows v1)) as [E|_]; cbn [negb]; mrun.
  - assert (v2 = v1) as Hv2 by (unfold v2; rewrite E; by destruct v1). refine (eq_trans _ Hd).
    by rewrite Hv2, <-!app_assoc.
  - rewrite <-!app_assoc. exact Hd.
Qed.

(** ** Following the caret *)

(** Where the window starts so that the position [c] is in it. *)
Definition follow_start (v : HexView) (b : CurrentBuffer) (c : Z) : Z :=
  let bpl := bytes_per_line v in
  if c <? start_offset v then c - c mod bpl
  else if window_end v b <=? c then Z.max 0 (c - c mod bpl + bpl - (snd (size v) - 1) * bpl)
  else start_offset v.

(** The state before the window was moved: the window may start past the end of
    a document that was shortened. *)
Record before_follow (v : HexView) (b : CurrentBuffer) : Prop := {
  bf_window : window_ok (with_start v 0) b;
  bf_aligned : start_offset v mod bytes_per_line v = 0;
  bf_start : 0 ≤ start_offset v < two63;
}.

Lemma visible_bytes_any (v : HexView) b : before_follow v b → visible_bytes v = Ok (start_offset v, window_end v b).
Proof.
  intros [[Hc Hb Hh _ _ Hl _ _] _ Hs]. simpl in *. pose proof (rope_len_bytes (data b)).
  pose proof (zlen_nonneg (rope_bytes (data b))). unfold visible_bytes. rewrite Hc. cbn [mbind outcome_bind].
  assert (0 ≤ (snd (size v) - 1) * bytes_per_line v ≤ 65536 * 21) by nia.
  rewrite uadd_ok by (unfold_usize; lia). cbn [mbind outcome_bind]. rewrite u16sub_ok by lia.
  cbn [mbind outcome_bind]. rewrite umul_ok by (unfold_usize; lia). cbn [mbind outcome_bind].
  rewrite uadd_ok by (unfold_usize; lia). done.
Qed.

Lemma main_caret_range len sel c : selection_ok len sel → main_cursor_offset sel = Ok c → 0 ≤ c ≤ len.
Proof.
  intros Hok Hc. unfold main_cursor_offset, vec_index in Hc. destruct (zlookup _ _) as [r|] eqn:E; [|done].
  injection Hc as <-. apply zlookup_Some in E as [_ E].
  pose proof (regions_from_lookup _ _ _ _ (sel_sorted _ _ Hok) E).
  pose proof (Forall_lookup_1 _ _ _ _ (sel_bounded _ _ Hok) E). region_lia.
Qed.

Lemma follow_start_ok (v : HexView) b c : before_follow v b → main_cursor_offset (selection b) = Ok c →
  view_ok (with_start v (follow_start v b c)) b ∧
  follow_start v b c ≤ c < follow_start v b c + (snd (size v) - 1) * bytes_per_line v.
Proof.
  intros [[Hcb Hb Hh _ _ Hl Hu Hok] Ha Hs] Hc. simpl in *.
  pose proof (main_caret_range _ _ _ Hok Hc) as Hcr.
  assert (follow_start v b c mod bytes_per_line v = 0 ∧ 0 ≤ follow_start v b c ≤ c ∧
    c < follow_start v b c + (snd (size v) - 1) * bytes_per_line v) as (Hal & Hst & Hend).
  { unfold follow_start, window_end. set (bpl := bytes_per_line v) in *. set (h := snd (size v)) in *.
    set (s := start_offset v) in *. set (len := rope_len (data b)) in *.
    pose proof (Z.mod_pos_bound c bpl ltac:(lia)). pose proof (Z.div_mod c bpl ltac:(lia)) as Hdm.
    assert (c - c mod bpl = (c / bpl) * bpl) as Hrow by lia. assert (0 ≤ c / bpl) by (apply Z.div_pos; lia).
    destruct (Z.ltb_spec c s).
    - rewrite Hrow, Z.mod_mul by lia. split; [done|]. nia.
    - destruct (Z.leb_spec (Z.min (len + 1) (s + (h - 1) * bpl)) c); [|split; [done|lia]].
      rewrite Hrow. replace (c / bpl * bpl + bpl - (h - 1) * bpl) with ((c / bpl - h + 2) * bpl) by lia.
      destruct (Z.le_gt_cases 0 (c / bpl - h + 2)).
      + rewrite Z.max_r by nia. rewrite Z.mod_mul by lia. split; [done|]. nia.
      + rewrite Z.max_l by nia. split; [by rewrite Z.mod_0_l by lia|]. nia. }
  split; [|lia]. split; [split|]; try done; simpl; [lia|]. intros c' Hc'. assert (c' = c) as -> by congruence. lia.
Qed.

Lemma update_offset_run (v : HexView) b c w out : before_follow v b →
  main_cursor_offset (selection b) = Ok c →
  maybe_update_offset_and_draw (mkVState v w out) =
    draw (mkVState (with_start v (follow_start v b c)) w out).
Proof.
  intros Hbf Hc. pose proof (visible_bytes_any v b Hbf) as Hvis.
  destruct Hbf as [[Hcb Hb Hh _ _ Hl Hu Hok] Ha Hs]. simpl in *.
  pose proof (main_caret_range _ _ _ Hok Hc) as Hcr.
  pose proof (Z.mod_pos_bound c (bytes_per_line v) ltac:(lia)).
  pose proof (Z.mod_le c (bytes_per_line v) ltac:(lia) ltac:(lia)).
  unfold maybe_update_offset_and_draw. mrun. rewrite (bind_current _ _ _ _ b) by done.
  rewrite (bind_lift _ _ _ _ Hc), (bind_lift _ _ _ _ Hvis). cbn [fst snd]. unfold follow_start.
  destruct (Z.ltb_spec c (start_offset v)).
  - erewrite bind_ok; [done|]. do 2 marith. done.
  - destruct (Z.leb_spec (window_end v b) c).
    + assert (0 ≤ (snd (size v) - 1) * bytes_per_line v ≤ 65536 * 21) by nia.
      erewrite bind_ok; [done|]. do 5 marith. done.
    + mrun. by destruct v.
Qed.

Context {HT : Terminal}.

(** C10: on a terminal of at least five rows whose status line fits, after a
    change of the length of the document the window is moved to the main caret:
    it starts at a row boundary and the caret is in one of its rows. When the
    window needs bytes that are not loaded one chunk is read; an error of that
    read is returned with nothing queued. Otherwise the screen is cleared, every
    row of the window, as it is then, is queued, [last_visible_rows] becomes
    their number, and after the rows exactly the commands of [draw_statusline]
    for that view are queued, whose prompt column is kept. *)
Theorem edit_redraws_at_caret (v : HexView) b c w out : before_follow v b →
  main_cursor_offset (selection b) = Ok c →
  rope_len (data b) < two63 - 64 → files_ok w → 5 ≤ snd (size v) →
  (∀ r v1 b1, loaded w (with_start v (follow_start v b c)) b r v1 b1 → status_fits v1 b1) →
  follow_start v b c mod bytes_per_line v = 0 ∧
  follow_start v b c ≤ c < follow_start v b c + (snd (size v) - 1) * bytes_per_line v ∧
  ∃ r v1 b1, loaded w (with_start v (follow_start v b c)) b r v1 b1 ∧
    match r with
    | IoErr e => transition_dirty_bytes ChangeLength (mkVState v w out) = Ok (IoErr e, mkVState v1 w out)
    | IoOk _ => ∃ s, transition_dirty_bytes ChangeLength (mkVState v w out) = Ok (IoOk tt, s) ∧ drawn v1 b1 w out s
    end.
Proof.
  intros Hbf Hc Hlen Hf Hsize Hstatus. destruct (follow_start_ok v b c Hbf Hc) as [Hv Hin].
  split; [exact (vo_aligned _ _ Hv)|]. split; [done|].
  unfold transition_dirty_bytes. rewrite (update_offset_run v b c w out Hbf Hc).
  by apply (draw_run (with_start v (follow_start v b c)) b).
Qed.

(** ** Resizing *)

Lemma current_bytes_panics (v : HexView) b r cow : window_ok v b → main_region (selection b) = Ok r →
  rmin r ≤ window_end v b < caret r → zlen cow ≤ window_end v b - start_offset v →
  current_bytes v (start_offset v, window_end v b) cow = Panic PanicIndex.
Proof.
  intros Hw Hr Hcar Hcow. pose proof (window_bounds v b Hw) as (? & ? & ? & ? & ? & ?).
  pose proof (regions_fit v b Hw) as Hfit. destruct Hw as [Hc _ _ _ _ _ _ Hok].
  assert (rmin r ≤ caret r ≤ rmax r) by region_lia.
  pose proof (main_caret_range _ _ _ Hok (main_cursor_offset_main _ _ Hr)).
  unfold current_bytes. rewrite Hc. cbn [mbind outcome_bind fst snd].
  rewrite (regions_in_range_touching (rope_len (data b))) by (done || lia). cbn [mbind outcome_bind].
  rewrite (find_main (rope_len (data b)) _ r) by (done || lia).
  rewrite usub_ok by (unfold_usize; lia). cbn [mbind outcome_bind].
  rewrite uadd_ok by (unfold_usize; lia). cbn [mbind outcome_bind].
  rewrite (proj2 (Z.ltb_lt (zlen cow) _)) by lia. unfold slice_range.
  by rewrite (proj2 (Z.leb_gt _ (zlen cow))), andb_false_r by lia.
Qed.

(** C23: making the terminal smaller panics when the main region begins in
    the smaller window and its caret is below it: the bytes at the caret are
    sliced out of the visible ones. *)
Theorem resize_panics (v : HexView) b r w out x y : window_ok (with_size v (x, y)) b →
  main_region (selection b) = Ok r →
  rmin r ≤ window_end (with_size v (x, y)) b < caret r →
  handle_event_default (Resize x y) (mkVState v w out) = Panic PanicIndex.
Proof.
  intros Hw Hr Hcar. set (v' := with_size v (x, y)) in *.
  pose proof (window_bounds v' b Hw) as (? & ? & ? & ? & ? & ?).
  pose proof (main_caret_range _ _ _ (vo_selection _ _ Hw) (main_cursor_offset_main _ _ Hr)).
  unfold handle_event_default. mrun. fold v'. unfold draw.
  destruct (ensure_visible_data_ok v' b w out Hw) as (r' & v1 & b1 & Hld & Hens).
  destruct Hld as [_|? ? ? Hless]; [|lia]. rewrite (bind_ok _ _ _ _ _ Hens). mrun.
  apply bind_panic. unfold lift, draw_window, draw_window_fuel. rewrite (visible_bytes_ok v' b Hw).
  cbn [mbind outcome_bind fst snd]. rewrite (vo_current _ _ Hw). cbn [mbind outcome_bind].
  rewrite (cow_ok v' b Hw). cbn [mbind outcome_bind]. rewrite (marks_ok v' b Hw). cbn [mbind outcome_bind].
  rewrite (current_bytes_panics v' b r); [done|done|done|done|].
  rewrite zlen_cow by done. lia.
Qed.

(** ** Trimming *)

Lemma zdrop_ztake {A} k n (l : list A) : 0 ≤ k ≤ n → zdrop k (ztake n l) = zslice k n l.
Proof.
  intros Hk. unfold zslice, ztake, zdrop. rewrite take_drop_commute. do 2 f_equal. lia.
Qed.

Lemma one_leaf_bytes (r : Rope) s e : 0 ≤ s ≤ e → e ≤ rope_len r → rope_len r ≤ usize_max →
  ∃ r', one_leaf r s e = Ok r' ∧ rope_bytes r' = zslice s e (rope_bytes r).
Proof.
  intros Hs He Hr. destruct (iter_chunks_at r s e) as (pre & leaf & post & Hat & Hpost); [lia|].
  unfold one_leaf. rewrite iv_new_spec by lia.
  rewrite (extend_chunks_at _ _ _ _ _ _ _ _ Hat) by first [done|simpl; lia|unfold chunk_fuel; lia].
  cbn [mbind outcome_bind app iter_chunks ci_end iv_end]. eexists. split; [done|]. unfold rope_bytes at 1. cbn [rope_node].
  rewrite tb_build_bytes. set (chunk := zslice s e (rope_bytes r)). fold (zlen chunk).
  destruct (Z.eqb_spec (zlen chunk) 0) as [E|]; [|by rewrite tb_push_leaf_bytes, tb_new_bytes].
  apply zlen_0 in E. by rewrite E, tb_new_bytes.
Qed.

Lemma trim_buffer_top_run k v w out b : current (buffr_collection v) = Ok b →
  0 < k → 2 * k < rope_len (data b) < two63 →
  ∃ rope c1, trim_buffer_top k (mkVState v w out) =
      Ok (IoOk tt, mkVState (with_start (with_collection v c1) (Z.max 0 (start_offset v - k))) w out) ∧
    current c1 = Ok (with_data b rope) ∧ rope_bytes rope = zdrop k (rope_bytes (data b)).
Proof.
  intros Hc Hk Hlen. pose proof (rope_len_bytes (data b)) as Hl.
  destruct (one_leaf_bytes (data b) k (rope_len (data b))) as (rope & Hone & Hbytes); [lia..|unfold_usize; lia|].
  destruct (update_current_ok v w out b (with_data b rope) Hc) as (c1 & _ & Hc1 & Hup).
  exists rope, c1. split; [|split; [done|]].
  - unfold trim_buffer_top. rewrite (bind_current _ _ _ _ b) by done.
    erewrite bind_lift; [|unfold too_small; rewrite (proj2 (Z.eqb_neq k 0)) by lia;
      rewrite umul_ok by (unfold_usize; lia); reflexivity].
    rewrite (proj2 (Z.leb_gt (rope_len (data b)) (k * 2))) by lia.
    rewrite (proj2 (Z.ltb_lt k (rope_len (data b)))) by lia.
    rewrite (bind_lift _ _ _ _ Hone), (bind_ok _ _ _ _ _ Hup). mrun. done.
  - rewrite Hbytes. by rewrite zslice_to_end by lia.
Qed.

(** C22: trimming the buffer breaks the next load: the bytes at the start are
    dropped, but the next chunk is still read from the file at the length of the
    buffer, so that bytes the buffer already holds are appended again and the
    ones that follow are not: the buffer is no longer a part of the file. *)
Theorem trim_then_load_repeats (v : HexView) b w out p file k n :
  current (buffr_collection v) = Ok b → path b = Some p → fs_contents w p = Some file →
  rope_bytes (data b) = ztake (rope_len (data b)) file →
  0 < k → 2 * k < rope_len (data b) < two63 → 0 < n →
  ∃ b1 c1, trim_buffer_top k (mkVState v w out) =
      Ok (IoOk tt, mkVState (with_start (with_collection v c1) (Z.max 0 (start_offset v - k))) w out) ∧
    current c1 = Ok b1 ∧
    ∀ more b2, load_next_chunk w b1 n = (IoOk more, b2) →
     ∃ m, 0 < m ≤ n ∧ rope_bytes (data b2) =
       zslice k (rope_len (data b)) file ++ zslice (rope_len (data b) - k) (rope_len (data b) - k + m) file.
Proof.
  intros Hc Hp Hfile Hpre Hk Hlen Hn.
  destruct (trim_buffer_top_run k v w out b Hc Hk Hlen) as (rope & c1 & Hrun & Hc1 & Hbytes).
  exists (with_data b rope), c1. split; [done|]. split; [done|]. intros more b2 Hload.
  pose proof (rope_len_bytes (data b)) as Hl. rewrite Hpre, zlen_ztake in Hl. pose proof (zlen_nonneg file).
  assert (zdrop k (rope_bytes (data b)) = zslice k (rope_len (data b)) file) as Hkept.
  { rewrite Hpre. apply zdrop_ztake. lia. }
  assert (rope_len rope = rope_len (data b) - k) as Hlr
    by (rewrite rope_len_bytes, Hbytes, Hkept, zlen_zslice by lia; lia).
  unfold load_next_chunk in Hload. simpl in Hload. rewrite Hp in Hload. destruct (fs_len w p); [|done].
  rewrite Hlr in Hload. destruct (fs_read_at w p _ n) as [r|] eqn:Er; [|done].
  apply fs_read_at_ok in Er as (c & Hc' & Hr & Hrn & Hend); [|lia..]. simplify_eq.
  assert (0 < zlen r) as Hpos by (pose proof (zlen_nonneg r); destruct (Z.eq_dec (zlen r) 0); [|lia];
    destruct Hend; lia).
  rewrite (proj2 (Z.ltb_lt 0 (zlen r))) in Hload by done. injection Hload as _ <-. exists (zlen r).
  split; [lia|]. simpl. rewrite <-Hlr. rewrite chunk_append_bytes, Hbytes, Hkept. f_equal. by rewrite Hlr.
Qed.

End loading.

(** ** An instance: files, the size of the terminal and the events to come *)

Record script := mkScript { sc_files : gmap PathBuf bytes; sc_size : Z * Z; sc_events : list Event }.
Definition with_files (w : script) (f : gmap PathBuf bytes) : script := mkScript f (sc_size w) (sc_events w).

#[export] Instance script_fs : FileSystem := {|
  World := script;
  fs_len w := @fs_len map_fs (sc_files w);
  fs_read_at w := @fs_read_at map_fs (sc_files w);
  fs_read w := @fs_read map_fs (sc_files w);
  fs_write w p l := (IoOk tt, with_files w (<[plain_path p := l]> (sc_files w)));
  fs_canonicalize w := @fs_canonicalize map_fs (sc_files w);
  io_error_display := @io_error_display map_fs;
|}.

#[export] Instance script_fs_laws : FileSystemLaws.
Proof.
  refine {| fs_contents := λ (w : @World script_fs) p, @fs_contents _ map_fs_laws (sc_files w) p;
            fs_same := λ (w : @World script_fs), @fs_same _ map_fs_laws (sc_files w) |}; simpl.
  - intros w. apply (@fs_read_at_ok _ map_fs_laws).
  - intros w. apply (@fs_read_ok _ map_fs_laws).
  - intros w p. apply (@fs_same_refl _ map_fs_laws (sc_files w)).
  - intros w p l w' [= <-]. by apply (@fs_write_ok _ map_fs_laws (sc_files w) p l).
  - done.
Defined.

(** [event::read] fails when there are no more events. *)
#[export] Instance script_terminal : Terminal := {|
  term_size := λ w : @World script_fs, IoOk (sc_size w);
  event_read := λ w : @World script_fs,
    match sc_events w with
    | e :: l => (IoOk e, mkScript (sc_files w) (sc_size w) l)
    | [] => (IoErr 4, w)
    end;
|}.

(** ** The theorems at concrete states *)

Definition empty_world : @World script_fs := mkScript ∅ (80, 24) [].

(** The window starts past the end of the document. *)
Definition shortened_view : @HexView ref_rope := sample_view 8 160 one_cursor.

Lemma edit_redraws_at_caret_witness : ∃ r v1 b1,
  loaded empty_world (with_start shortened_view 32) (sample_buffer one_cursor) r v1 b1.
Proof.
  destruct (@edit_redraws_at_caret true ref_rope ref_rope_laws script_fs script_fs_laws escape_debug
    escape_debug_laws script_terminal shortened_view (sample_buffer one_cursor) 33 empty_world [])
    as (_ & _ & r & v1 & b1 & Hld & _); [|reflexivity|vm_compute; done| |vm_compute; done| |by exists r, v1, b1].
  - split; [window_ok_compute|reflexivity|vm_compute; done].
  - intros p c. simpl. by rewrite lookup_empty.
  - change (follow_start _ _ _) with 32. intros r v1 b1 [|r' b' c' _ Hl Hs _].
    + split; [|vm_compute; done]. eexists _, _, _. split; [split; reflexivity|vm_compute; done].
    + change (load_next_chunk _ _ _) with (@IoOk bool false, sample_buffer one_cursor) in Hl.
      injection Hl as <- <-.
      change (set_current _ _) with (Ok (with_current_buffer (sample_buffer one_cursor))) in Hs.
      injection Hs as <-.
      split; [|vm_compute; done]. eexists _, _, _. split; [split; reflexivity|vm_compute; done].
Defined.

Lemma resize_panics_witness :
  @handle_event_default true ref_rope script_fs script_terminal escape_debug (Resize 80 6)
    (mkVState (sample_view 24 0 (selection_of [(99, 0)] 0)) empty_world []) = Panic PanicIndex.
Proof.
  apply (resize_panics _ (sample_buffer (selection_of [(99, 0)] 0)) (mkSelRegion 99 0 true));
    [window_ok_compute|reflexivity|vm_compute; done].
Defined.

Definition long_file : bytes := (λ n, Z.of_nat n mod 256) <$> seq 0 150.
Definition file_world : @World script_fs := mkScript {[ str "f" := long_file ]} (80, 3) [].
(** The first 70 bytes of the file are loaded. *)
Definition file_buffer : @CurrentBuffer ref_rope :=
  with_path (with_data buffer_default (ref_doc (ztake 70 long_file))) (Some (str "f")).
Definition file_view : @HexView ref_rope :=
  mkView (with_current_buffer file_buffer) (80, 3) 16 16 0 0 (MNormal normal_new) None.

Lemma trim_then_load_repeats_witness : ∃ b1 c1,
  @trim_buffer_top true ref_rope script_fs 32 (mkVState file_view file_world []) =
    Ok (IoOk tt, mkVState (with_start (with_collection file_view c1) 0) file_world []) ∧
  current c1 = Ok b1 ∧
  ∀ more b2, @load_next_chunk ref_rope script_fs file_world b1 64 = (IoOk more, b2) →
    ∃ m, 0 < m ≤ 64 ∧ rope_bytes (data b2) =
      zslice 32 (rope_len (data file_buffer)) long_file ++
      zslice (rope_len (data file_buffer) - 32) (rope_len (data file_buffer) - 32 + m) long_file.
Proof.
  apply (@trim_then_load_repeats true ref_rope ref_rope_laws script_fs script_fs_laws
    file_view file_buffer file_world [] (str "f") long_file 32 64);
    [reflexivity|reflexivity|vm_compute; reflexivity|vm_compute; reflexivity|vm_compute; done..].
Defined.
