(* ===== verification/Redraw.v ===== *)
(** * Redraw: what the screen shows after a change in place

    A change that keeps the length of the document is not followed by a full
    drawing: [transition_dirty_bytes] redraws the rows of the reported intervals
    and the first five. Here the screen is modelled, the commands of
    [transition_dirty_bytes] are run on it, and the rows it then shows are
    compared with those of the new state. *)

From S2P Require Import Prelude KeyMap CmdCount Masks XiRope XiRopeRef ByteRope Selection SelectionMap.
From S2P Require Import SelectionMoves SelectionQueries SelectionExact SelectionParts SelectionTheorems.
From S2P Require Import Operations History CurrentBuffer BufferTheorems DirtyBytes Text Mode.
From S2P Require Import NormalMode CommandMode CommandTheorems Names Style.
From S2P Require Import ByteProperties Prompt View EventLoop ViewMarks ViewRows ViewTheorems StatusLine Window.
From Stdlib Require Import Ascii String.
Local Open Scope Z_scope.

(** ** The screen *)

(** What a row shows, as the commands it was written with since the cursor was
    last moved to its first column. The rows of the view end with
    [Clear(UntilNewLine)], so that nothing of what a row held before is left. *)
Definition Screen : Type := Z → list TermCmd.

(** A command that writes to the row of the cursor. *)
Definition in_row (c : TermCmd) : bool :=
  match c with
  | Print _ | PrintStyledContent _ _ | SetForegroundColor _ | SetBackgroundColor _ | SetAttributes _
  | Clear ClearUntilNewLine => true
  | _ => false
  end.

(** The commands run with the cursor in [row]. *)
Fixpoint paint (row : Z) (cmds : list TermCmd) (scr : Screen) : Screen :=
  match cmds with
  | [] => scr
  | c :: cmds' =>
      match c with
      | MoveTo column r =>
          paint r cmds' (λ j, if j =? r then (if column =? 0 then [c] else scr r ++ [c]) else scr j)
      | Clear ClearAll => paint row cmds' (λ _, [])
      | Clear ClearCurrentLine => paint row cmds' (λ j, if j =? row then [] else scr j)
      | ScrollUp n => paint row cmds' (λ j, scr (j + n))
      | ScrollDown n => paint row cmds' (λ j, if j <? n then [] else scr (j - n))
      | _ => paint row cmds' (if in_row c then λ j, if j =? row then scr row ++ [c] else scr j else scr)
      end
  end.

(** A line starts at the first column of its row and stays in it. *)
Definition is_line (row : Z) (cmds : list TermCmd) : Prop :=
  ∃ rest, cmds = MoveTo 0 row :: rest ∧ Forall in_row rest.

#[export] Instance paint_proper row cmds :
  Proper (pointwise_relation Z eq ==> pointwise_relation Z eq) (paint row cmds).
Proof.
  revert row. induction cmds as [|c cmds IH]; intros row scr scr' Hs; [done|].
  destruct c as [| []| | | | | | | | | | | | | |]; cbn [paint in_row]; apply IH;
    intros j; rewrite ?Hs; repeat case_match; by rewrite ?Hs.
Qed.

Lemma paint_in_row row rest cmds scr : Forall in_row rest →
  pointwise_relation Z eq (paint row (rest ++ cmds) scr)
    (paint row cmds (λ j, if j =? row then scr row ++ rest else scr j)).
Proof.
  intros Hrest. revert scr. induction Hrest as [|c rest Hc _ IH]; intros scr; cbn [app].
  - apply paint_proper. intros j. rewrite app_nil_r. by destruct (Z.eqb_spec j row) as [->|].
  - destruct c as [| []| | | | | | | | | | | | | |]; try done; cbn [paint in_row]; rewrite IH;
      apply paint_proper; intros j; rewrite Z.eqb_refl, <-app_assoc; by destruct (j =? row).
Qed.

Lemma paint_line row r l cmds scr : is_line r l →
  pointwise_relation Z eq (paint row (l ++ cmds) scr) (paint r cmds (λ j, if j =? r then l else scr j)).
Proof.
  intros (rest & -> & Hrest). cbn [app paint]. rewrite paint_in_row by done.
  apply paint_proper. intros j. rewrite !Z.eqb_refl. by destruct (j =? r).
Qed.

(** Lines replace what their rows showed. *)
Lemma paint_lines (f : Z → list TermCmd) js : (∀ j, is_line j (f j)) → ∀ row scr j,
  paint row (List.concat (f <$> js)) scr j = if decide (j ∈ js) then f j else scr j.
Proof.
  intros Hf. induction js as [|k js IH]; intros row scr j.
  - by rewrite decide_False by apply not_elem_of_nil.
  - rewrite fmap_cons. cbn [List.concat]. rewrite (paint_line row k (f k) _ scr (Hf k) j), IH.
    destruct (Z.eqb_spec j k) as [->|Hne].
    + rewrite (decide_True (P := k ∈ k :: js)) by left. by case_decide.
    + apply decide_ext. rewrite elem_of_cons. tauto.
Qed.

(** ** The rows of the view are lines *)

Create HintDb in_row.
#[export] Hint Resolve Forall_app_2 Forall_nil_2 Forall_cons_2 : in_row.

Lemma in_row_option s : Forall in_row (queue_option s).
Proof. destruct s as [[[] [] a]|]; cbn; [..|done]; destruct (a =? 0); repeat constructor. Qed.
#[export] Hint Resolve in_row_option : in_row.

Lemma in_row_text t s : Forall in_row (draw_text t s).
Proof. unfold draw_text. auto with in_row. Qed.
Lemma in_row_hex_byte x s : Forall in_row (draw_hex_byte x s).
Proof. unfold draw_hex_byte. auto 10 with in_row. Qed.
Lemma in_row_ascii_byte x s : Forall in_row (draw_ascii_byte x s).
Proof. unfold draw_ascii_byte. auto with in_row. Qed.
#[export] Hint Resolve in_row_text in_row_hex_byte in_row_ascii_byte : in_row.

Lemma in_row_concat {A} (f : A → list TermCmd) l : (∀ x, Forall in_row (f x)) →
  Forall in_row (List.concat (f <$> l)).
Proof. intros Hf. induction l as [|x l IH]; [done|]. rewrite fmap_cons. cbn [List.concat]. auto with in_row. Qed.

Lemma in_row_binary x : Forall in_row (format_binary_byte x).
Proof. apply in_row_concat. intros c. repeat case_match; auto with in_row. Qed.
#[export] Hint Resolve in_row_concat in_row_binary : in_row.

Section rows.
Context `{Profile} `{XiRopeLaws} `{CharDebugLaws}.

Lemma in_row_padding n p : draw_padding n = Ok p → Forall in_row p.
Proof. unfold draw_padding. intros. outcome_inv. auto with in_row. Qed.
#[local] Hint Resolve in_row_padding : in_row.

Lemma in_row_result a cmds : Forall in_row a → Ok a = Ok cmds → Forall in_row cmds.
Proof. by intros Ha [= <-]. Qed.

Lemma in_row_dec l1 x l2 y cmds : draw_dec_line l1 x l2 y = Ok cmds → Forall in_row cmds.
Proof.
  unfold draw_dec_line. destruct (draw_padding _) eqn:E; [|done]. apply in_row_result. eauto 10 with in_row.
Qed.

Lemma in_row_utf data cmds : draw_utf_line data = Ok cmds → Forall in_row cmds.
Proof.
  unfold draw_utf_line. destruct (utf8_into_char data) as [r8|]; [|done]. cbn [mbind outcome_bind].
  set (m := match r8 with inl _ => _ | inr _ => _ end).
  assert (Forall in_row (fst m)) as Hm by (destruct r8; cbn; auto with in_row). destruct m as [c8 len].
  destruct (draw_padding len) eqn:E; [|done]. cbn [mbind outcome_bind].
  destruct (utf16_into_char data) as [r16|]; [|done]. apply in_row_result.
  destruct r16; eauto 10 with in_row.
Qed.

Lemma in_row_properties data line : Forall in_row (property_line data line).
Proof.
  unfold property_line, draw_line. cbn [bp_line bp_data]. 
  destruct (uadd _ _); [|by match goal with |- context [?m ≫= _] => destruct m end].
  destruct (line =? 0); [cbn [mbind outcome_bind]; unfold draw_hex_line; auto 10 with in_row|].
  destruct (line =? 1); [cbn [mbind outcome_bind]; unfold draw_bin_line; auto 10 with in_row|].
  destruct (line =? 2); [by destruct (draw_dec_line _ _ _ _) eqn:E; [eapply in_row_dec|]|].
  destruct (line =? 3); [by destruct (draw_dec_line _ _ _ _) eqn:E; [eapply in_row_dec|]|].
  destruct (line =? 4); [by destruct (draw_utf_line _) eqn:E; [eapply in_row_utf|]|done].
Qed.
#[local] Hint Resolve in_row_properties : in_row.

Lemma screen_row_line (v : HexView) b j : is_line j (screen_row v b j).
Proof.
  eexists. split; [reflexivity|]. unfold draw_hex_row, draw_ascii_row, draw_separator.
  repeat first [apply Forall_app_2 | apply in_row_concat; intros [] | case_match | constructor]; auto with in_row.
Qed.

(** ** A change in place *)

(** The first rows of the screen show the window. *)
Definition shows (scr : Screen) (v : HexView) (b : CurrentBuffer) : Prop :=
  ∀ j, 0 ≤ j < Z.max (window_rows v b) 5 → scr j = screen_row v b j.

(** A row that the document fills to its end. *)
Definition row_full (v : HexView) (b : CurrentBuffer) (j : Z) : Prop :=
  start_offset v + (j + 1) * bytes_per_line v ≤ rope_len (data b).

(** The view before and after a change in place. *)
Record same_window (v v' : HexView) : Prop := {
  sw_start : start_offset v' = start_offset v;
  sw_size : size v' = size v;
  sw_bpl : bytes_per_line v' = bytes_per_line v;
  sw_half : has_half_cursor (mode v) = has_half_cursor (mode v');
}.

(** A full row does not depend on what follows in the document. *)
Lemma full_row_extended (v v1 : HexView) b b1 ext j : view_ok v b → view_ok v1 b1 →
  same_window v v1 → selection b1 = selection b → rope_bytes (data b1) = rope_bytes (data b) ++ ext →
  5 ≤ j < window_rows v b → row_full v b j → screen_row v b j = screen_row v1 b1 j.
Proof.
  intros Hv Hv1 [Hst Hsz Hbpl Hhalf] Hsel Hext Hj Hfull. unfold row_full in Hfull.
  pose proof (window_bounds v b Hv) as (? & ? & ? & ? & ? & ?).
  pose proof (window_rows_bounds v b Hv) as [HR1 HR2].
  pose proof (rope_len_bytes (data b)) as Hl. pose proof (rope_len_bytes (data b1)) as Hl1.
  rewrite Hext, zlen_app in Hl1. pose proof (zlen_nonneg ext).
  assert (0 ≤ j * bytes_per_line v) by nia.
  assert (start_offset v + (j + 1) * bytes_per_line v ≤
    start_offset v + (snd (size v) - 1) * bytes_per_line v) by nia.
  destruct (current_bytes_ok v b Hv) as (_ & _ & Hu). destruct (current_bytes_ok v1 b1 Hv1) as (_ & _ & Hu1).
  unfold screen_row. rewrite Hbpl, !property_line_past by (assumption || (unfold_usize; lia)).
  assert (row_positions v1 b1 j = row_positions v b j) as Hpos.
  { unfold row_positions, window_end. rewrite Hst, Hsz, Hbpl. f_equal. lia. }
  rewrite Hpos. f_equal.
  - apply list_fmap_ext. intros i p Hp. apply list_elem_of_lookup_2 in Hp.
    unfold row_positions in Hp. rewrite elem_of_range_list in Hp.
    unfold styled_byte. rewrite Hsel, Hbpl, Hhalf, Hext. f_equal. f_equal. unfold zlookup.
    by rewrite lookup_app_l by (unfold zlen in *; lia).
  - unfold row_end_style. rewrite Hst, Hbpl, !(proj2 (Z.ltb_ge _ (_ + _))) by lia. by rewrite !andb_false_r.
Qed.

Context `{FileSystemLaws} {HT : Terminal}.

(** The main caret is above the end of the last row. *)
Definition caret_inside (v : HexView) (b : CurrentBuffer) : Prop :=
  ∀ c, main_cursor_offset (selection b) = Ok c → c < start_offset v + (snd (size v) - 1) * bytes_per_line v.

Lemma maybe_update_offset_inside (v : HexView) b w out : view_ok v b → caret_inside v b →
  maybe_update_offset (mkVState v w out) = Ok (IoOk tt, mkVState v w out).
Proof.
  intros Hv Hin. pose proof (vo_current _ _ Hv) as Hc. pose proof (vo_start _ _ Hv).
  unfold maybe_update_offset. mrun. rewrite (bind_current _ _ _ _ b) by done.
  unfold rope_is_empty. change (node_len (rope_node (data b))) with (rope_len (data b)).
  destruct (Z.eqb_spec (rope_len (data b)) 0) as [E|_].
  - unfold set_start. mrun. assert (start_offset v = 0) as E' by lia.
    destruct v. cbn in E'. by subst.
  - pose proof (vo_selection _ _ Hv) as Hok. destruct (zlookup_lt _ _ (sel_main_range _ _ Hok)) as [r Hr%vec_index_Ok].
    pose proof (main_cursor_offset_main _ r Hr) as Hcar.
    pose proof (main_caret_range _ _ _ Hok Hcar). pose proof (vo_caret _ _ Hv _ Hcar). pose proof (Hin _ Hcar).
    rewrite (bind_lift _ _ _ _ Hcar), (bind_lift _ _ _ _ (visible_bytes_ok v b Hv)). cbn [fst snd].
    rewrite (proj2 (Z.ltb_ge (caret r) _)) by lia.
    rewrite (proj2 (Z.leb_gt (window_end v b) _)) by (unfold window_end; lia). by mrun.
Qed.

(** What [draw_rows] queues: the invalidated rows, as they are after the load. *)
Lemma draw_rows_run (v : HexView) b (inv : gset Z) w out : view_ok v b → rope_len (data b) < two63 - 64 →
  files_ok w → 5 ≤ snd (size v) → rows_between 0 5 ⊆ inv →
  ∃ r v1 b1, loaded w v b r v1 b1 ∧
    match r with
    | IoErr e => draw_rows inv (mkVState v w out) = Ok (IoErr e, mkVState v1 w out)
    | IoOk _ => draw_rows inv (mkVState v w out) = Ok (IoOk tt, mkVState v1 w
        (out ++ List.concat (screen_row v1 b1 <$> filter (λ j, j ∈ inv) (seqZ 0 (Z.max (window_rows v1 b1) 5)))))
    end.
Proof.
  intros Hv Hlen Hf Hsize Hsub.
  destruct (ensure_visible_data_ok v b w out Hv) as (r & v1 & b1 & Hld & Hens).
  exists r, v1, b1. split; [done|]. unfold draw_rows.
  pose proof (loaded_view_ok w v b r v1 b1 Hf Hv Hlen Hld) as Hv1.
  destruct (loaded_window_ok w v b r v1 b1 Hf Hv Hlen Hld) as (_ & _ & Hsz & _).
  destruct r as [[]|e]; [|by rewrite (bind_err _ _ _ _ _ Hens)].
  rewrite (bind_ok _ _ _ _ _ Hens). mrun.
  by rewrite (bind_lift _ _ _ _ (draw_invalidated_rows v1 b1 inv Hv1 ltac:(rewrite Hsz; lia) Hsub)).
Qed.

(** The rows that are right after the invalidated ones were painted. *)
Lemma painted_rows (v v' v1 : HexView) b b' b1 (inv : gset Z) ext row scr j :
  view_ok v b → view_ok v' b' → view_ok v1 b1 → same_window v v' → same_window v' v1 →
  data b' = data b → selection b1 = selection b' → rope_bytes (data b1) = rope_bytes (data b') ++ ext →
  rows_between 0 5 ⊆ inv →
  (∀ j, 0 ≤ j < window_rows v b → j ∉ inv → screen_row v b j = screen_row v' b' j) →
  shows scr v b → 0 ≤ j < Z.max (window_rows v1 b1) 5 → data b1 = data b' ∨ j ∈ inv ∨ row_full v b j →
  paint row (List.concat (screen_row v1 b1 <$>
    filter (λ j, j ∈ inv) (seqZ 0 (Z.max (window_rows v1 b1) 5)))) scr j = screen_row v1 b1 j.
Proof.
  intros Hv Hv' Hv1 Hsw Hsw1 Hd Hsel Hext Hsub Hvalid Hscr Hj Hcase.
  rewrite (paint_lines (screen_row v1 b1)) by apply screen_row_line.
  destruct (decide (j ∈ inv)) as [Hin|Hnot].
  { rewrite decide_True; [done|]. apply list_elem_of_filter. rewrite elem_of_seqZ. split; [done|lia]. }
  rewrite decide_False by (intros [? _]%list_elem_of_filter; done).
  assert (5 ≤ j) by (destruct (Z.le_gt_cases 5 j); [done|]; destruct Hnot; apply Hsub, elem_of_rows_between; lia).
  pose proof Hsw as [Hst Hsz Hbpl Hhalf]. pose proof Hsw1 as [Hst1 Hsz1 Hbpl1 Hhalf1].
  assert (window_rows v' b' = window_rows v b) as HR'.
  { unfold window_rows, window_end. by rewrite Hst, Hsz, Hbpl, Hd. }
  destruct Hcase as [Hd1|[?|Hfull]]; [|done|].
  - assert (window_rows v1 b1 = window_rows v' b') as HR1.
    { unfold window_rows, window_end. by rewrite Hst1, Hsz1, Hbpl1, Hd1. }
    rewrite Hscr, Hvalid by (done || lia). apply screen_row_same; try done; [lia|].
    intros. by rewrite Hsel.
  - assert (j < window_rows v b).
    { pose proof (window_bounds v b Hv) as (? & ? & ? & ? & ? & ?).
      pose proof (window_rows_bounds v b Hv) as [_ HR]. pose proof (window_rows_bounds v1 b1 Hv1) as [HR1 _].
      rewrite Hsz1, Hsz in HR1. unfold row_full in Hfull.
      assert (start_offset v + (j + 1) * bytes_per_line v ≤ window_end v b) by (unfold window_end; nia). nia. }
    rewrite Hscr, Hvalid by (done || lia).
    apply (full_row_extended v' v1 b' b1 ext); try done; [lia|].
    unfold row_full. by rewrite Hst, Hbpl, Hd.
Qed.

(** C4: on a terminal of at least five rows that shows the state before a
    change in place, with the main caret inside the window before and after it:
    when the bytes are the same and regions differ only inside of the reported
    intervals, [transition_dirty_bytes] does not move the window and queues
    commands after which the screen shows every row of the new state. When the
    window is not loaded to its end, [draw_rows] first loads one chunk: an error
    of that is returned with nothing queued, and after a load that added bytes
    the first five rows, the rows of the intervals and the rows that were full
    before show the document as it is then; about the rows that the load filled
    nothing is said, they are not drawn. *)
Theorem incremental_redraw_complete (v v' : HexView) b b' ivs w out : view_ok v b → view_ok v' b' →
  same_window v v' → caret_inside v' b' → data b' = data b →
  (∀ p, ¬ covered ivs p → region_at (regions (selection b)) p = region_at (regions (selection b')) p) →
  5 ≤ snd (size v) → rope_len (data b) < two63 - 64 → files_ok w →
  ∃ r v1 b1, loaded w v' b' r v1 b1 ∧
    match r with
    | IoErr e => transition_dirty_bytes (ChangeInPlace ivs) (mkVState v' w out) = Ok (IoErr e, mkVState v1 w out)
    | IoOk _ => ∃ cmds,
        transition_dirty_bytes (ChangeInPlace ivs) (mkVState v' w out) =
          Ok (IoOk tt, mkVState v1 w (out ++ cmds)) ∧
        ∀ row scr, shows scr v b →
          (data b1 = data b' → shows (paint row cmds scr) v1 b1) ∧
          ∀ j, 0 ≤ j < Z.max (window_rows v1 b1) 5 →
            j < 5 ∨ row_full v b j ∨
              (∃ p, covered ivs p ∧ start_offset v ≤ p < window_end v b ∧
                 (p - start_offset v) / bytes_per_line v = j) →
            paint row cmds scr j = screen_row v1 b1 j
    end.
Proof.
  intros Hv Hv' Hsw Hin Hd Hsame Hsize Hlen Hf. pose proof Hsw as [Hst Hsz Hbpl Hhalf].
  destruct (intervals_rows_ok v' b' ivs Hv') as (rows & Hrows & Hcov).
  destruct (valid_rows_same v v' b b' ivs Hv Hv' Hst Hsz Hbpl Hhalf Hd Hsame) as (rows' & Hrows' & Hvalid).
  assert (rows' = rows) as -> by congruence.
  set (inv := list_to_set (List.concat rows) ∪ rows_between 0 (as_u16 bp_height) : gset Z) in *.
  assert (rows_between 0 5 ⊆ inv) as Hsub by apply union_subseteq_r.
  destruct (draw_rows_run v' b' inv w out Hv' ltac:(by rewrite Hd) Hf ltac:(by rewrite Hsz) Hsub)
    as (r & v1 & b1 & Hld & Hdraw).
  exists r, v1, b1. split; [done|].
  pose proof (loaded_view_ok w v' b' r v1 b1 Hf Hv' ltac:(by rewrite Hd) Hld) as Hv1.
  destruct (loaded_window_ok w v' b' r v1 b1 Hf Hv' ltac:(by rewrite Hd) Hld)
    as (_ & Hst1 & Hsz1 & Hbpl1 & Hm1 & Hsel1 & ext & Hext).
  assert (same_window v' v1) as Hsw1 by (split; congruence).
  assert (transition_dirty_bytes (ChangeInPlace ivs) (mkVState v' w out) = draw_rows inv (mkVState v' w out)) as ->.
  { unfold transition_dirty_bytes. rewrite (bind_ok _ _ _ _ _ (maybe_update_offset_inside v' b' w out Hv' Hin)).
    mrun. rewrite (bind_lift _ _ _ _ (visible_bytes_ok v' b' Hv')). cbn [fst snd].
    by rewrite (bind_lift _ _ _ _ Hrows). }
  destruct r as [[]|e]; [|done]. eexists. split; [exact Hdraw|]. intros row scr Hscr.
  pose proof (λ j, painted_rows v v' v1 b b' b1 inv ext row scr j Hv Hv' Hv1 Hsw Hsw1 Hd Hsel1 Hext Hsub
    Hvalid Hscr) as Hp.
  split; [intros Hd1 j Hj; apply Hp; auto|]. intros j Hj Hcase. apply Hp; [done|]. right.
  destruct Hcase as [Hj5|[Hfull|(p & Hp1 & Hp2 & <-)]]; [left|by right|left].
  - apply Hsub, elem_of_rows_between. lia.
  - apply elem_of_union_l, elem_of_list_to_set. rewrite <-Hst, <-Hbpl. apply Hcov; [|done].
    unfold window_end in *. by rewrite Hst, Hsz, Hbpl, Hd.
Qed.

End rows.

(** ** At concrete states *)

Definition cursor_at (n : Z) : Selection := selection_of [(n, n)] 0.

(** The cursor moves from the last row to the third one. *)
Lemma incremental_redraw_complete_witness : ∃ cmds,
  @transition_dirty_bytes true ref_rope script_fs script_terminal escape_debug
    (ChangeInPlace [mkInterval 33 34; mkInterval 90 91])
    (mkVState (sample_view 7 0 (cursor_at 33)) empty_world []) =
      Ok (IoOk tt, mkVState (sample_view 7 0 (cursor_at 33)) empty_world cmds) ∧
  ∀ row scr, @shows true ref_rope escape_debug scr (sample_view 7 0 (cursor_at 90)) (sample_buffer (cursor_at 90)) →
    @shows true ref_rope escape_debug (paint row cmds scr) (sample_view 7 0 (cursor_at 33)) (sample_buffer (cursor_at 33)).
Proof.
  destruct (@incremental_redraw_complete true ref_rope ref_rope_laws escape_debug escape_debug_laws
    script_fs script_fs_laws script_terminal
    (sample_view 7 0 (cursor_at 90)) (sample_view 7 0 (cursor_at 33))
    (sample_buffer (cursor_at 90)) (sample_buffer (cursor_at 33))
    [mkInterval 33 34; mkInterval 90 91] empty_world []) as (r & v1 & b1 & Hld & Hrun);
    [view_ok_compute|view_ok_compute|split; reflexivity|intros ? [= <-]; vm_compute; done|reflexivity|
    |vm_compute; done|vm_compute; done|intros p c; simpl; by rewrite lookup_empty|].
  - intros p Hp. rewrite !covered_cons in Hp. unfold iv_in in Hp. simpl in Hp.
    unfold region_at, rmin, rmax. simpl. zcases; simpl; zcases; try done; tauto || (exfalso; apply Hp; lia).
  - destruct Hld as [_|? ? ? Hless]; [|by vm_compute in Hless].
    destruct Hrun as (cmds & Hrun & Hshow). exists cmds. split; [exact Hrun|].
    intros row scr Hscr. by apply Hshow.
Defined.

(** A file of which 70 bytes are loaded, in a window of nine rows. *)
Definition part_view (sel : Selection) : @HexView ref_rope :=
  mkView (with_current_buffer (with_selection file_buffer sel)) (80, 10) 16 0 5 0 (MNormal normal_new) None.

(** The rows that commands start, in order. *)
Definition rows_drawn (cmds : list TermCmd) : list Z :=
  omap (λ c, match c with MoveTo _ r => Some r | _ => None end) cmds.

(** After a move of the cursor in the first row [draw_rows] loads 64 bytes, so
    that the document fills nine rows, but only the first five are drawn. *)
Example load_while_redrawing_is_not_shown :
  match @transition_dirty_bytes true ref_rope script_fs script_terminal escape_debug
    (ChangeInPlace [mkInterval 0 1; mkInterval 1 2]) (mkVState (part_view (cursor_at 1)) file_world []) with
  | Ok (IoOk tt, s) =>
      match current (buffr_collection (vs_view s)) with
      | Ok b1 => rope_len (data b1) = 134 ∧ window_rows (vs_view s) b1 = 9 ∧ rows_drawn (vs_out s) = [0; 1; 2; 3; 4]
      | Panic _ => False
      end
  | _ => False
  end.
Proof. vm_compute. done. Qed.
