(* ===== verification/Program.v ===== *)
(** * Program: the invariant of the window, opening, saving and quitting *)

From S2P Require Import Prelude KeyMap CmdCount Masks XiRope XiRopeRef ByteRope Selection SelectionMap.
From S2P Require Import SelectionMoves SelectionQueries SelectionExact SelectionParts SelectionTheorems.
From S2P Require Import Operations History CurrentBuffer BufferTheorems DirtyBytes Text Mode NormalMode.
From S2P Require Import SearchMode CommandMode Modes Matches SearchTheorems CommandTheorems Names Style ByteProperties Prompt View.
From S2P Require Import EventLoop ViewMarks ViewRows ViewTheorems StatusLine Window.
From Stdlib Require Import Ascii String.
Local Open Scope char_scope.
Local Open Scope Z_scope.

(** ** The window starts at a row *)

(** Rows have sixteen bytes and the window starts at one. *)
Definition aligned `{XiRope} (v : HexView) : Prop :=
  bytes_per_line v = 16 ∧ start_offset v mod 16 = 0.

Section aligned.
Context `{Profile} `{XiRope} `{Terminal} `{CharDebug} `{SearchLib}.

(** Whatever [m] does, it keeps the window aligned; its result satisfies [P]. *)
Definition keeps {A} (m : M A) (P : A → Prop) : Prop :=
  ∀ s, aligned (vs_view s) →
    match m s with
    | Ok (IoOk a, s') => aligned (vs_view s') ∧ P a
    | Ok (IoErr _, s') => aligned (vs_view s')
    | Panic _ => True
    end.

Definition any {A} (_ : A) : Prop := True.

Lemma keeps_bind {A B} (m : M A) (k : A → M B) P Q :
  keeps m P → (∀ a, P a → keeps (k a) Q) → keeps (m ≫= k) Q.
Proof.
  intros Hm Hk s Hs. specialize (Hm s Hs). unfold mbind, M_bind. destruct (m s) as [[[a|e] s']|p]; simpl.
  - destruct Hm as [Hs' HP]. by apply Hk.
  - done.
  - done.
Qed.

Lemma keeps_weaken {A} (m : M A) P : keeps m P → keeps m any.
Proof. intros Hm s Hs. specialize (Hm s Hs). destruct (m s) as [[[a|e] s']|p]; [|done..]. by destruct Hm. Qed.

Lemma keeps_lift {A} (o : outcome A) (P : A → Prop) : (∀ a, o = Ok a → P a) → keeps (lift o) P.
Proof. intros Ho s Hs. unfold lift. destruct o; simpl; [|done]. split; [done|by apply Ho]. Qed.
Lemma keeps_lift_any {A} (o : outcome A) : keeps (lift o) any.
Proof. by apply keeps_lift. Qed.
Lemma keeps_self : keeps get_self aligned.
Proof. intros s Hs. done. Qed.
Lemma keeps_world : keeps get_world any.
Proof. intros s Hs. done. Qed.
Lemma keeps_set_world w : keeps (set_world w) any.
Proof. intros s Hs. done. Qed.
Lemma keeps_set v : aligned v → keeps (set_self v) any.
Proof. intros Hv s Hs. done. Qed.
Lemma keeps_queue cmds : keeps (queue cmds) any.
Proof. intros s Hs. done. Qed.
Lemma keeps_try {A} (r : io A) : keeps (try_io r) any.
Proof. intros s Hs. destruct r; done. Qed.
Lemma keeps_ret {A} (a : A) : keeps (mret a) any.
Proof. intros s Hs. done. Qed.

(** *** Multiples of sixteen *)

Lemma mod16_wrap z : z mod 16 = 0 → (z mod two64) mod 16 = 0.
Proof.
  intros Hz. pose proof (Z.div_mod z two64 ltac:(done)) as Hd. unfold two64 in *.
  pose proof (Z.div_mod z 16 ltac:(done)) as Hd'. rewrite Hz in Hd'.
  replace (z mod 18446744073709551616) with
    ((z / 16 - 1152921504606846976 * (z / 18446744073709551616)) * 16) by lia.
  by apply Z.mod_mul.
Qed.

Lemma uwrap_mod16 z r : uwrap z = Ok r → z mod 16 = 0 → r mod 16 = 0.
Proof.
  unfold uwrap. intros Hw Hz. destruct (_ && _); [by simplify_eq|].
  destruct overflow_checks; simplify_eq. by apply mod16_wrap.
Qed.

Lemma uadd_mod16 a b r : uadd a b = Ok r → a mod 16 = 0 → b mod 16 = 0 → r mod 16 = 0.
Proof. intros Hr Ha Hb. apply (uwrap_mod16 _ _ Hr). rewrite Z.add_mod, Ha, Hb by done. done. Qed.
Lemma usub_mod16 a b r : usub a b = Ok r → a mod 16 = 0 → b mod 16 = 0 → r mod 16 = 0.
Proof. intros Hr Ha Hb. apply (uwrap_mod16 _ _ Hr). rewrite Zminus_mod, Ha, Hb by done. done. Qed.
Lemma umul_mod16 a r : umul a 16 = Ok r → r mod 16 = 0.
Proof. intros Hr. apply (uwrap_mod16 _ _ Hr). by apply Z.mod_mul. Qed.
Lemma saturating_mod16 a b : a mod 16 = 0 → b mod 16 = 0 → usize_saturating_sub a b mod 16 = 0.
Proof.
  intros Ha Hb. unfold usize_saturating_sub. destruct (Z.max_spec 0 (a - b)) as [[_ ->]|[_ ->]]; [|done].
  rewrite Zminus_mod, Ha, Hb. done.
Qed.

(** *** The functions of the view *)

Lemma keeps_set_start o : o mod 16 = 0 → keeps (set_start o) any.
Proof. intros Ho. eapply keeps_bind; [apply keeps_self|]. intros v [Hb _]. by apply keeps_set. Qed.
Lemma keeps_current : keeps current_buffer any.
Proof. eapply keeps_bind; [apply keeps_self|]. intros v _. apply keeps_lift_any. Qed.
Lemma keeps_update b : keeps (update_current b) any.
Proof.
  eapply keeps_bind; [apply keeps_self|]. intros v Hv. eapply keeps_bind; [apply keeps_lift_any|].
  intros c _. by apply keeps_set.
Qed.
Lemma keeps_load n : keeps (load_chunk n) any.
Proof.
  eapply keeps_bind; [apply keeps_world|]. intros w _. eapply keeps_bind; [apply keeps_current|].
  intros b _. destruct (load_next_chunk w b n) as [r b']. eapply keeps_bind; [apply keeps_update|].
  intros _ _. apply keeps_try.
Qed.
Lemma keeps_screen_chunk : keeps screen_chunk_size (λ n, n mod 16 = 0).
Proof.
  eapply keeps_bind; [apply keeps_world|]. intros w _. apply keeps_lift. intros n. unfold screen_chunk.
  destruct (match term_size w with IoOk s => s | IoErr _ => (80, 23) end) as [x h].
  destruct (usub h 1); [|done]. apply umul_mod16.
Qed.

End aligned.

(** Walk through a function that keeps the window aligned. *)
Ltac keeps_direct :=
  first [ apply keeps_self | apply keeps_world | apply keeps_queue | apply keeps_try | apply keeps_ret
        | apply keeps_current | apply keeps_update | apply keeps_load | apply keeps_screen_chunk
        | apply keeps_set_world | apply keeps_lift_any
        | eassumption ].
Ltac keeps_base := first [ keeps_direct | eapply keeps_weaken; keeps_direct ].
Ltac keeps_step :=
  match goal with
  | |- keeps (if ?x then _ else _) _ => destruct x
  | |- keeps (match ?x with _ => _ end) _ => destruct x
  | |- keeps (let '(_, _) := ?x in _) _ => destruct x
  | |- keeps (_ ≫= _) _ => eapply keeps_bind; [keeps_base|intros ? ?]
  | |- keeps _ _ => keeps_base
  end.

Section aligned_view.
Context `{Profile} `{XiRope} `{Terminal} `{CharDebug} `{SearchLib}.

Lemma keeps_trim_top k : k mod 16 = 0 → keeps (trim_buffer_top k) any.
Proof.
  intros Hk. unfold trim_buffer_top. repeat keeps_step.
  apply keeps_set_start, saturating_mod16; [|done].
  match goal with Ha : aligned _ |- _ => apply Ha end.
Qed.

Lemma keeps_should_trim : keeps should_trim_buffer any.
Proof. unfold should_trim_buffer. repeat keeps_step. Qed.

Lemma keeps_ensure : keeps ensure_visible_data any.
Proof. unfold ensure_visible_data. repeat keeps_step. Qed.

Lemma keeps_status : keeps draw_statusline any.
Proof.
  unfold draw_statusline. repeat keeps_step. apply keeps_set.
  match goal with Ha : aligned _ |- _ => exact Ha end.
Qed.

Lemma keeps_draw_rows rows : keeps (draw_rows rows) any.
Proof. pose proof keeps_ensure. unfold draw_rows. repeat keeps_step. Qed.

Lemma keeps_draw : keeps draw any.
Proof.
  pose proof keeps_ensure. pose proof keeps_status. unfold draw. repeat keeps_step.
  eapply keeps_bind; [|intros ? ?; eassumption]. instantiate (1 := any).
  destruct (negb _); [apply keeps_set|apply keeps_ret].
  match goal with Ha : aligned _ |- _ => exact Ha end.
Qed.

Lemma keeps_scroll_up n : keeps (scroll_up n) any.
Proof.
  pose proof keeps_draw. pose proof keeps_draw_rows. unfold scroll_up.
  eapply keeps_bind; [apply keeps_self|]. intros v [Hb Hs].
  eapply keeps_bind; [apply (keeps_lift _ (λ r, r mod 16 = 0)); intros r; unfold umul; rewrite Z.mul_comm; apply umul_mod16|].
  intros k Hk. destruct (_ <? _); [apply keeps_ret|].
  eapply keeps_bind; [apply (keeps_lift _ (λ r, r mod 16 = 0)); intros r Hr; by apply (usub_mod16 _ _ _ Hr)|].
  intros o Ho. eapply keeps_bind; [by apply keeps_set_start|]. intros _ _. repeat keeps_step. auto.
Qed.

Lemma keeps_scroll_down n : keeps (scroll_down n) any.
Proof.
  pose proof keeps_draw. pose proof keeps_draw_rows. pose proof keeps_should_trim. unfold scroll_down.
  eapply keeps_bind; [apply keeps_screen_chunk|]. intros _ _.
  eapply keeps_bind; [apply keeps_self|]. intros v [Hb Hs].
  eapply keeps_bind; [apply (keeps_lift _ (λ r, r mod 16 = 0)); intros r; apply umul_mod16|]. intros k Hk.
  eapply keeps_bind; [apply (keeps_lift _ (λ r, r mod 16 = 0)); intros r Hr; by apply (uadd_mod16 _ _ _ Hr)|].
  intros next Hnext. do 6 keeps_step.
  eapply keeps_bind.
  { instantiate (1 := any). destruct (_ <? _); [|apply keeps_ret].
    eapply keeps_bind; [apply keeps_load|]. intros [] _; [|apply keeps_ret].
    do 2 keeps_step. eapply keeps_bind; [|intros; apply keeps_ret]. instantiate (1 := any).
    match goal with |- keeps (if ?x then _ else _) _ => destruct x end; [|apply keeps_ret].
    eapply keeps_bind; [apply keeps_screen_chunk|]. intros chunk Hchunk.
    destruct (0 <? chunk); [by apply keeps_trim_top|apply keeps_ret]. }
  intros go_on _. destruct (negb go_on); [apply keeps_ret|].
  eapply keeps_bind; [apply keeps_current|]. intros b _. destruct (_ <=? _); [apply keeps_ret|].
  eapply keeps_bind; [by apply keeps_set_start|]. intros _ _. repeat keeps_step. auto.
Qed.

Lemma keeps_maybe_update : keeps maybe_update_offset any.
Proof.
  pose proof keeps_scroll_down. pose proof keeps_scroll_up. unfold maybe_update_offset.
  eapply keeps_bind; [apply keeps_self|]. intros v [Hb Hs].
  eapply keeps_bind; [apply keeps_current|]. intros b _.
  destruct (rope_is_empty (data b)); [by apply keeps_set_start|].
  do 2 keeps_step. eapply keeps_bind; [instantiate (1 := any); repeat keeps_step|].
  intros [delta|] _; [|apply keeps_ret]. destruct (delta <? 0); repeat keeps_step; auto.
Qed.

Lemma keeps_update_and_draw : keeps maybe_update_offset_and_draw any.
Proof.
  pose proof keeps_draw. unfold maybe_update_offset_and_draw.
  eapply keeps_bind; [apply keeps_self|]. intros v [Hb Hs]. rewrite Hb.
  do 3 keeps_step. eapply keeps_bind; [|intros; eassumption]. instantiate (1 := any).
  match goal with |- context [urem ?c 16] => rename c into caret_ end.
  assert (∀ r o, urem caret_ 16 = Ok r → usub caret_ r = Ok o → o mod 16 = 0) as Hrow.
  { intros r o Hr Ho. rewrite urem_ok in Hr by done. injection Hr as <-. apply (uwrap_mod16 _ _ Ho).
    rewrite Zminus_mod, Zmod_mod, Z.sub_diag. done. }
  destruct (_ <? _).
  - eapply keeps_bind; [apply (keeps_lift _ (λ r, urem caret_ 16 = Ok r)); done|]. intros r Hr.
    eapply keeps_bind; [apply (keeps_lift _ (λ o, o mod 16 = 0)); intros o Ho; by apply (Hrow r o)|]. intros o Ho. by apply keeps_set_start.
  - destruct (_ <=? _); [|apply keeps_ret].
    keeps_step. eapply keeps_bind; [apply (keeps_lift _ (λ r, r mod 16 = 0)); intros r'; apply umul_mod16|].
    intros screen Hscreen.
    eapply keeps_bind; [apply (keeps_lift _ (λ r, urem caret_ 16 = Ok r)); done|]. intros r Hr.
    eapply keeps_bind; [apply (keeps_lift _ (λ o, o mod 16 = 0)); intros o Ho; by apply (Hrow r o)|]. intros o Ho.
    eapply keeps_bind; [apply (keeps_lift _ (λ o, o mod 16 = 0)); intros o' Ho'; by apply (uadd_mod16 _ _ _ Ho')|].
    intros o' Ho'. by apply keeps_set_start, saturating_mod16.
Qed.

Lemma keeps_dirty d : keeps (transition_dirty_bytes d) any.
Proof.
  pose proof keeps_maybe_update. pose proof keeps_update_and_draw. pose proof keeps_draw_rows.
  destruct d; simpl; [|done]. repeat keeps_step. auto.
Qed.

Lemma keeps_set_mode m : keeps (set_mode m) any.
Proof. eapply keeps_bind; [apply keeps_self|]. intros v Hv. by apply keeps_set. Qed.
Lemma keeps_set_info i : keeps (set_info i) any.
Proof. eapply keeps_bind; [apply keeps_self|]. intros v Hv. by apply keeps_set. Qed.

Lemma keeps_transition t : keeps (view_transition t) any.
Proof.
  pose proof keeps_dirty. pose proof keeps_set_mode. pose proof keeps_set_info. unfold view_transition.
  eapply keeps_bind; [apply keeps_set_info|]. intros _ _. destruct t; try (auto; apply keeps_ret);
    (eapply keeps_bind; [apply keeps_set_mode|]); intros; auto.
Qed.

Lemma keeps_move d : keeps (move_regions d) any.
Proof. unfold move_regions. repeat keeps_step. Qed.

Lemma keeps_default evt : keeps (handle_event_default evt) any.
Proof.
  pose proof keeps_draw. pose proof keeps_move. pose proof keeps_scroll_down. pose proof keeps_scroll_up.
  destruct evt as [e|x y|]; simpl; [|eapply keeps_bind; [apply keeps_self|]; intros v Hv;
    eapply keeps_bind; [by apply keeps_set|]; auto|apply keeps_ret].
  destruct (decide _); [|destruct (decide _); [|apply keeps_ret]]; repeat (keeps_step || (eapply keeps_bind; [auto|intros])); auto.
Qed.

Lemma keeps_event evt : keeps (handle_event evt) any.
Proof.
  pose proof keeps_default. pose proof keeps_transition. pose proof keeps_status. unfold handle_event.
  eapply keeps_bind; [apply keeps_self|]. intros v Hv. keeps_step.
  eapply keeps_bind; [apply keeps_lift_any|]. intros [[t c] w] _. keeps_step. eapply keeps_bind; [by apply keeps_set|]. intros _ _.
  eapply keeps_bind; [instantiate (1 := any); destruct t; auto|]. intros _ _. repeat keeps_step.
Qed.

End aligned_view.

(** ** Claims *)

Section program.
Context `{Profile} `{XiRope} `{Terminal} `{CharDebug} `{SearchLib}.

(** C12: the window always starts at a multiple of sixteen bytes and rows have
    sixteen bytes: so it is when the view is created, and handling any event
    keeps it so, whether it ends well or with an error of the system, and
    whether or not arithmetic wraps around. *)
Theorem window_stays_aligned :
  (∀ w c v, with_buffr_collection w c = Ok v → aligned v) ∧
  (∀ evt s r s', handle_event evt s = Ok (r, s') → aligned (vs_view s) → aligned (vs_view s')) ∧
  (∀ fuel s r s', event_loop fuel s = Ok (r, s') → aligned (vs_view s) → aligned (vs_view s')).
Proof.
  assert (∀ A (m : M A) s r s', keeps m any → m s = Ok (r, s') → aligned (vs_view s) → aligned (vs_view s')) as Hk.
  { intros A m s r s' Hm Hr Hs. specialize (Hm s Hs). rewrite Hr in Hm. destruct r; [by destruct Hm|done]. }
  split_and!.
  - unfold with_buffr_collection. intros w c v Hv. destruct (term_size w); [|done]. by injection Hv as <-.
  - intros evt s r s'. apply Hk, keeps_event.
  - intros fuel s r s'. apply Hk. induction fuel as [|fuel IH]; simpl; [by apply keeps_lift|].
    eapply keeps_bind; [apply keeps_self|]. intros v _. destruct (negb _); [apply keeps_ret|].
    eapply keeps_bind.
    { instantiate (1 := any). unfold read_event. keeps_step. destruct (event_read a). repeat keeps_step. }
    intros evt _. eapply keeps_bind; [apply keeps_event|]. by intros.
Qed.

End program.

(** ** Opening and saving *)

Section saving.
Context `{Profile} `{XiRopeLaws} `{FileSystemLaws} {HT : Terminal}.

(** C19: opening a file and saving it without an edit cuts it off: only the
    first chunk, at most as many bytes as the rows of the terminal show, is read
    when the file is opened, and the write command writes exactly these bytes
    over the file. *)
Theorem open_then_write_truncates w p file x height contents :
  term_size w = IoOk (x, height) → 1 ≤ height < 65536 → fs_contents w p = Some file →
  fs_read_at w p 0 ((height - 1) * 16) = IoOk contents →
  ∃ c, open_collection w (Some p) = Ok c ∧
    contents = ztake (zlen contents) file ∧ zlen contents ≤ (height - 1) * 16 ∧
    match fs_write w p contents with
    | (IoOk _, w') => ∃ c', write w c [] = Ok (NewMode (MNormal normal_new), c', w') ∧
        fs_contents w' p = Some contents ∧ ∀ q, fs_same w p q = false → fs_contents w' q = fs_contents w q
    | (IoErr e, w') => write w c [] = Ok (write_failed e, c, w')
    end.
Proof.
  intros Hsize Hh Hfile Hread. unfold open_collection, screen_chunk. rewrite Hsize.
  rewrite usub_ok by (unfold_usize; lia). cbn [mbind outcome_bind].
  rewrite umul_ok by (unfold_usize; lia). cbn [mbind outcome_bind]. rewrite Hread.
  apply fs_read_at_ok in Hread as (file' & Hfile' & Hc & Hlen & _); [|lia..].
  assert (file' = file) as -> by congruence. rewrite Z.add_0_l, <-ztake_zslice in Hc.
  unfold from_data_and_path. destruct (rope_from_vec_bytes contents) as (rope & Hrope & Hbytes).
  rewrite Hrope. cbn [mbind outcome_bind]. eexists. split; [done|]. split; [done|]. split; [done|].
  set (b := mkBuffer (Some p) rope selection_new ∅ false history_new 0).
  assert (rope_len (data b) < two63) as Hfit.
  { rewrite rope_len_bytes. cbn [data b]. rewrite Hbytes. unfold_usize. lia. }
  unfold write. change (current (with_current_buffer b)) with (Ok b). cbn [mbind outcome_bind].
  change (zlen [] =? 0) with true. cbn [path b]. rewrite whole_rope by done. cbn [mbind outcome_bind data b].
  rewrite Hbytes. destruct (fs_write w p contents) as [[[]|e] w'] eqn:E; [|done].
  destruct (current_set_current (with_current_buffer b) b (update_path_if_missing (with_dirty b false) p) eq_refl)
    as (c' & -> & _). eexists. split; [done|]. pose proof (fs_write_ok _ _ _ _ E) as Hw. split.
  - by rewrite Hw, fs_same_refl.
  - intros q Hq. by rewrite Hw, Hq.
Qed.

End saving.

Lemma open_then_write_truncates_witness : ∃ c,
  @open_collection true ref_rope script_fs script_terminal file_world (Some (str "f")) = Ok c ∧
  ztake 32 long_file = ztake (zlen (ztake 32 long_file)) long_file ∧ zlen (ztake 32 long_file) ≤ (3 - 1) * 16.
Proof.
  destruct (@open_then_write_truncates true ref_rope ref_rope_laws script_fs script_fs_laws script_terminal
    file_world (str "f") long_file 80 3 (ztake 32 long_file)) as (c & Hc & Ht & Hl & _);
    [reflexivity|done|vm_compute; reflexivity|vm_compute; reflexivity|]. by exists c.
Defined.

(** ** Quitting *)

Lemma set_current_same `{XiRope} (c : BuffrCollection) b : current c = Ok b → set_current c b = Ok c.
Proof.
  unfold current, set_current, vec_update. intros Hc. rewrite Hc. cbn [mbind outcome_bind].
  apply vec_index_Ok, zlookup_Some in Hc as [_ Hc]. rewrite list_insert_id by done. by destruct c.
Qed.

Section quitting.
Context `{Profile} `{XiRopeLaws} `{FileSystem} {HT : Terminal} `{CharDebug} `{SearchLib}.

(** The next events are [evts], and after them the world is [w']. *)
Fixpoint reads (w : World) (evts : list Event) (w' : World) : Prop :=
  match evts with
  | [] => w = w'
  | e :: evts' => ∃ w1, event_read w = (IoOk e, w1) ∧ reads w1 evts' w'
  end.

(** Room for the status line with a mode name of at most eight letters. *)
Record status_room (v : HexView) (b : CurrentBuffer) (sels pos : bytes) : Prop := {
  sr_current : current (buffr_collection v) = Ok b;
  sr_sels : selections_text (selection b) = Ok sels;
  sr_pos : position_text b = Ok pos;
  sr_width : status_width b (str "QUITTING") sels pos ≤ fst (size v) < 65536;
  sr_height : 1 ≤ snd (size v) < 65536;
  sr_col : 0 ≤ last_visible_prompt_col v;
}.

Lemma status_room_fits v b sels pos m name : status_room v b sels pos → mode_name m = Ok name →
  zlen name ≤ 8 → match m with MCommand c => prompt_ok c ∧ cmd_cursor c = zlen (command c) | MSearch _ => False | _ => True end →
  status_fits (with_mode (with_info v None) m) b.
Proof.
  intros [Hc Hs Hp Hw Hh Hcol] Hn Hl Hm. unfold status_width in Hw. change (zlen (str "QUITTING")) with 8 in Hw.
  pose proof (zlen_nonneg (buffer_name b)). pose proof (zlen_nonneg sels). pose proof (zlen_nonneg pos).
  split; [|split; [done|]; split; [simpl; lia|]; split; [done|]].
  - exists name, sels, pos. split; [by split|]. unfold status_width. simpl. lia.
  - unfold prompt_fits. simpl. destruct m; try done. destruct Hm as [Hok Hend]. split; [done|].
    split; [destruct (dirty b); lia|]. split; [done|]. right. lia.
Qed.

(** One event that changes the mode and nothing else. *)
Lemma mode_event evt m name v b w w1 out sels pos : status_room v b sels pos →
  mode_transition (mode v) evt (bytes_per_line v) w (buffr_collection v) =
    Ok (Some (NewMode m), buffr_collection v, w1) →
  mode_name m = Ok name → zlen name ≤ 8 →
  match m with MCommand c => prompt_ok c ∧ cmd_cursor c = zlen (command c) | MSearch _ => False | _ => True end →
  ∃ v' out', handle_event evt (mkVState v w out) = Ok (IoOk tt, mkVState v' w1 out') ∧
    mode v' = m ∧ status_room v' b sels pos ∧ buffr_collection v' = buffr_collection v.
Proof.
  intros Hr Ht Hn Hl Hm. unfold handle_event. mrun.
  rewrite (bind_lift _ _ _ _ Ht). 
  change (set_world w1 ≫= ?k) with (λ s, k tt (mkVState (vs_view s) w1 (vs_out s))). cbv beta. cbn [vs_view vs_out].
  rewrite bind_set.
  destruct (draw_statusline_run (with_mode (with_info v None) m) b w1 out) as (status & col & _ & Hd & Hcol).
  { by apply (status_room_fits v b sels pos m name). }
  assert (view_transition (NewMode m) (mkVState (with_collection v (buffr_collection v)) w1 out) =
    Ok (IoOk tt, mkVState (with_mode (with_info v None) m) w1 out)) as Hvt by (by destruct v).
  rewrite (bind_ok _ _ _ _ _ Hvt), (bind_ok _ _ _ _ _ Hd).
  eexists _, _. split; [reflexivity|]. split; [done|]. destruct Hr as [Hc Hs Hp Hw Hh _]. by split.
Qed.

Lemma event_loop_step n v w w1 out evt s' : takes_input (mode v) = true → event_read w = (IoOk evt, w1) →
  handle_event evt (mkVState v w1 out) = Ok (IoOk tt, s') →
  event_loop (S n) (mkVState v w out) = event_loop n s'.
Proof.
  intros Hm He Hh. cbn [event_loop]. mrun. rewrite Hm. cbn [negb].
  rewrite (bind_ok read_event _ _ evt (mkVState v w1 out)); [by rewrite (bind_ok _ _ _ _ _ Hh)|].
  unfold read_event. mrun. by rewrite He.
Qed.

Definition enter : Event := Key (mkKeyEvent KEnter NONE).

Lemma colon_opens_prompt (m : Normal) bpl w c b : current c = Ok b →
  mode_transition (MNormal m) (key_char ":") bpl w c = Ok (Some (NewMode (MCommand command_new)), c, w).
Proof.
  intros Hc. unfold mode_transition, NormalMode.transition. rewrite Hc. cbn [mbind outcome_bind].
  change (CmdCount.transition (count_state m) (key_char ":")) with (Ok NotHandled). cbn [mbind outcome_bind].
  change (event_to_action NormalMode.default_maps (key_char ":")) with (Some ACommandMode).
  cbn [mbind outcome_bind perform_action mode_action]. by rewrite (set_current_same c b).
Qed.

(** C18: the editor can always be left: in normal mode, whatever was edited,
    and on a terminal that is wide enough for the status line and the prompt,
    the four keys of [:q!] and the enter key lead out of the event loop, with
    every buffer and file as it was. *)
Theorem force_quit_ends_loop v b m w w' out sels pos fuel : mode v = MNormal m →
  status_room v b sels pos → reads w [key_char ":"; key_char "q"; key_char "!"; enter] w' → (5 ≤ fuel)%nat →
  ∃ v' out', event_loop fuel (mkVState v w out) = Ok (IoOk tt, mkVState v' w' out') ∧
    mode v' = MQuitting ∧ buffr_collection v' = buffr_collection v.
Proof.
  intros Hm Hr (w1 & Hev1 & w2 & Hev2 & w3 & Hev3 & w4 & Hev4 & <-) Hfuel.
  do 5 (destruct fuel as [|fuel]; [lia|]).
  pose proof (sr_current _ _ _ _ Hr) as Hc.
  destruct (mode_event (key_char ":") (MCommand command_new) (str "COMMAND") v b w1 w1 out sels pos)
    as (v1 & out1 & E1 & M1 & R1 & C1); [done| |done|done|done|].
  { rewrite Hm. by apply (colon_opens_prompt m _ _ _ b). }
  rewrite (event_loop_step _ _ _ _ _ _ _ ltac:(by rewrite Hm) Hev1 E1).
  destruct (mode_event (key_char "q") (MCommand (mkCommand (str "q") 1)) (str "COMMAND") v1 b w2 w2 out1 sels pos)
    as (v2 & out2 & E2 & M2 & R2 & C2); [done|by rewrite M1|done|done| |].
  { split; [|done]. split; [repeat constructor; done|]. vm_compute. done. }
  rewrite (event_loop_step _ _ _ _ _ _ _ ltac:(by rewrite M1) Hev2 E2).
  destruct (mode_event (key_char "!") (MCommand (mkCommand (str "q!") 2)) (str "COMMAND") v2 b w3 w3 out2 sels pos)
    as (v3 & out3 & E3 & M3 & R3 & C3); [done|by rewrite M2|done|done| |].
  { split; [|done]. split; [repeat constructor; done|]. vm_compute. done. }
  rewrite (event_loop_step _ _ _ _ _ _ _ ltac:(by rewrite M2) Hev3 E3).
  destruct (mode_event enter MQuitting (str "QUITTING") v3 b w4 w4 out3 sels pos)
    as (v4 & out4 & E4 & M4 & R4 & C4); [done|by rewrite M3|done|done|done|].
  rewrite (event_loop_step _ _ _ _ _ _ _ ltac:(by rewrite M3) Hev4 E4).
  exists v4, out4. split; [|split; [done|congruence]]. cbn [event_loop]. mrun. by rewrite M4.
Qed.

End quitting.

(** ** The theorems at concrete states *)

Definition status_view (width : Z) (m : Mode) : @HexView ref_rope :=
  mkView collection_new (width, 24) 16 0 0 0 m None.

Definition resized : outcome (io unit * VState) :=
  @handle_event true ref_rope script_fs script_terminal escape_debug naive_search (Resize 90 30)
    (mkVState (status_view 80 (MNormal normal_new)) empty_world []).

Lemma window_stays_aligned_witness :
  match resized with Ok (_, s') => aligned (vs_view s') | Panic _ => False end.
Proof.
  assert (match resized with Ok _ => true | Panic _ => false end = true) as Hok by (vm_compute; reflexivity).
  destruct resized as [[r s']|p] eqn:E; [|discriminate Hok].
  exact (proj1 (proj2 (@window_stays_aligned true ref_rope script_fs script_terminal escape_debug naive_search))
    _ _ r s' E (conj eq_refl eq_refl)).
Defined.

Definition quit_world : @World script_fs :=
  mkScript ∅ (80, 24) [key_char ":"; key_char "q"; key_char "!"; enter].

Lemma force_quit_ends_loop_witness : ∃ v' out',
  @event_loop true ref_rope script_fs script_terminal escape_debug naive_search 5
    (mkVState (sample_view 24 0 one_cursor) quit_world []) =
  Ok (IoOk tt, mkVState v' (mkScript ∅ (80, 24) []) out') ∧ mode v' = MQuitting.
Proof.
  destruct (@force_quit_ends_loop true ref_rope script_fs script_terminal escape_debug naive_search
    (sample_view 24 0 one_cursor) (sample_buffer one_cursor) normal_new quit_world (mkScript ∅ (80, 24) []) []
    (str " 1 sels (1) ") (str " 21/63 ") 5) as (v' & out' & He & Hq & _); [reflexivity| | |lia|exists v', out'; exact (conj He Hq)].
  - split; try reflexivity; vm_compute; done.
  - repeat (eexists; split; [reflexivity|]). reflexivity.
Defined.
