(* ===== verification/ModeTheorems.v ===== *)
(** * ModeTheorems: what the modes guarantee

    Edits are pending only while the editor is in insert mode; the delete
    command end to end. *)

From S2P Require Import Prelude KeyMap CmdCount Masks XiRope XiRopeRef ByteRope Selection SelectionMap.
From S2P Require Import SelectionMoves SelectionQueries SelectionExact Operations Edits History.
From S2P Require Import SelectionDelta CurrentBuffer BufferTheorems DirtyBytes Text Mode.
From S2P Require Import NormalMode InsertMode ReplaceMode JumpToMode SearchMode CommandMode Modes.
From S2P Require Import Matches SearchTheorems.
From Stdlib Require Import Ascii.
Local Open Scope Z_scope.

(** ** Pending edits *)

Definition is_insert (m : Mode) : Prop := match m with MInsert _ => True | _ => False end.

(** The mode after a transition, as the view installs it. *)
Definition mode_after (m : Mode) (t : option ModeTransition) : Mode :=
  match t with
  | Some (NewMode m') | Some (ModeAndDirtyBytes m' _) | Some (ModeAndInfo m' _) => m'
  | _ => m
  end.

Section pending.
Context `{Profile} `{XiRope} `{FileSystem} `{SearchLib}.

Abbreviation partial b := (hist_partial (history b)).

(** Only the current buffer has pending edits, and only in insert mode. *)
Definition pending_ok (m : Mode) (c : BuffrCollection) : Prop :=
  ∀ i b, buf_list c !! i = Some b → partial b ≠ None → Z.of_nat i = cur_buf_index c ∧ is_insert m.

Lemma pending_current m c b : pending_ok m c → current c = Ok b → ¬ is_insert m → partial b = None.
Proof.
  intros Hp Hc Hm. unfold current in Hc. apply vec_index_Ok, zlookup_Some in Hc as [_ Hc].
  destruct (partial b) eqn:E; [|done]. destruct (Hp _ _ Hc); [by rewrite E|done].
Qed.

Lemma pending_update m m' c b b' c' : pending_ok m c → current c = Ok b → set_current c b' = Ok c' →
  (partial b' ≠ None → is_insert m') → pending_ok m' c'.
Proof.
  intros Hp Hc Hs Hb i x. unfold set_current, vec_update, current in *. rewrite Hc in Hs. simpl in Hs.
  injection Hs as <-. simpl. apply vec_index_Ok, zlookup_Some in Hc as [Hi Hc].
  destruct (decide (i = Z.to_nat (cur_buf_index c))) as [->|Hne].
  - rewrite list_lookup_insert_eq by (unfold zlen in Hi; lia). intros [= <-] Hx. split; [lia|auto].
  - rewrite list_lookup_insert_ne by done. intros Hx Hpx. destruct (Hp _ _ Hx Hpx) as [He _]. lia.
Qed.

Lemma pending_none m m' c : pending_ok m c → ¬ is_insert m → pending_ok m' c.
Proof. intros Hp Hm i b Hi Hb. by destruct (Hp i b Hi Hb). Qed.

Ltac not_pending m := apply (pending_none m); [assumption|exact id].

(** In a mode other than insert mode no buffer has pending edits. *)
Lemma pending_all m c : ¬ is_insert m → pending_ok m c ↔ Forall (λ b, partial b = None) (buf_list c).
Proof.
  intros Hm. rewrite Forall_lookup. split.
  - intros Hp i b Hi. destruct (partial b) eqn:E; [|done]. destruct (Hp i b Hi); [by rewrite E|done].
  - intros Hf i b Hi Hb. by rewrite (Hf i b Hi) in Hb.
Qed.

(** What does not touch the pending edits. *)
Lemma map_selections_buffer_partial {S} b (f : S → SelRegion → outcome (list SelRegion * S)) s b' d s' :
  map_selections_buffer b f s = Ok (b', d, s') → partial b' = partial b.
Proof. unfold map_selections_buffer. intros E. outcome_inv. done. Qed.

Lemma map_regions_partial b f b' d : map_regions b f = Ok (b', d) → partial b' = partial b.
Proof.
  unfold map_regions. intros E. outcome_inv. by apply map_selections_buffer_partial in E0.
Qed.

Lemma apply_delta_partial b d b' dirty : apply_delta b d = Ok (b', dirty) → partial b' = partial b.
Proof. unfold apply_delta. intros E. outcome_inv. done. Qed.

Lemma yank_partial b reg b' : yank_selections b reg = Ok b' → partial b' = partial b.
Proof. unfold yank_selections. intros E. destruct (rope_is_empty _); outcome_inv; done. Qed.

Lemma undo_partial b : partial (perform_undo b).1 = partial b.
Proof. unfold perform_undo, undo. by destruct (hist_undo (history b)) as [|[? ?] ?]. Qed.

Lemma redo_partial b : partial (perform_redo b).1 = partial b.
Proof. unfold perform_redo, redo. by destruct (hist_redo (history b)) as [|[? ?] ?]. Qed.

Lemma modify_sels_partial b f b' d : modify_sels_in_place b f = Ok (b', d) → partial b' = partial b.
Proof. unfold modify_sels_in_place. intros E. outcome_inv. done. Qed.

Lemma switch_main_partial b f b' d : switch_main_sel b f = Ok (b', d) → partial b' = partial b.
Proof. unfold switch_main_sel. intros E. outcome_inv. done. Qed.

(** Split monadic code that returned into its steps and its branches. *)
Ltac outcome_cases :=
  repeat (outcome_inv;
    match goal with
    | H : (if ?b then _ else _) = Ok _ |- _ => let E := fresh "E" in destruct b eqn:E
    | H : match ?o with Some _ => _ | None => _ end = Ok _ |- _ => let E := fresh "E" in destruct o eqn:E
    end); outcome_inv.

Ltac partial_inv :=
  repeat match goal with
  | H : map_regions _ _ = Ok (_, _) |- _ => apply map_regions_partial in H
  | H : map_selections_buffer _ _ _ = Ok (_, _, _) |- _ => apply map_selections_buffer_partial in H
  | H : apply_delta _ _ = Ok (_, _) |- _ => apply apply_delta_partial in H
  | H : yank_selections _ _ = Ok _ |- _ => apply yank_partial in H
  | H : remove_selection _ _ = Ok (_, _) |- _ => unfold remove_selection in H; apply modify_sels_partial in H
  | H : retain_selection _ _ = Ok (_, _) |- _ => unfold retain_selection in H; apply modify_sels_partial in H
  | H : buffer_select_next _ _ = Ok (_, _) |- _ => unfold buffer_select_next in H; apply switch_main_partial in H
  | H : buffer_select_prev _ _ = Ok (_, _) |- _ => unfold buffer_select_prev in H; apply switch_main_partial in H
  end; simpl in *; try congruence.

Lemma normal_partial self action b bpl t b' :
  NormalMode.perform_action self action b bpl = Ok (t, b') → partial b' = partial b.
Proof.
  unfold NormalMode.perform_action, select_action, edit_action, mode_action.
  destruct action; intros E;
    try (pose proof (undo_partial b); destruct (perform_undo b) as [? []]);
    try (pose proof (redo_partial b); destruct (perform_redo b) as [? []]);
    try (destruct (count_state self) as [|? count]; try destruct (0 <? count));
    unfold to_normal_dirty, to_dirty in *; outcome_cases; partial_inv.
Qed.

Lemma search_partial acceptor pat b t b' : apply_search acceptor pat b = Ok (t, b') → partial b' = partial b.
Proof.
  unfold apply_search, split_apply_search, collapse_apply_search, to_normal_dirty.
  destruct acceptor; intros E; outcome_cases; partial_inv.
Qed.

Lemma replace_partial self ch b t b' : ReplaceMode.replace_char self ch b = Ok (t, b') → partial b' = partial b.
Proof.
  unfold ReplaceMode.replace_char, replace_with, to_normal_dirty. intros E. outcome_cases; partial_inv.
Qed.

(** Insert mode stays in insert mode until it commits. *)
Lemma hex_insertion_mode key b mode half t b' :
  transition_hex_insertion key b mode half = Ok (Some t, b') → ∃ m, mode_after MCollapse (Some t) = MInsert m.
Proof.
  unfold transition_hex_insertion. intros E. outcome_cases; simpl; eauto.
Qed.

Lemma insert_pending self action b bpl t b' :
  InsertMode.perform_action self action b bpl = Ok (t, b') →
  is_insert (mode_after (MInsert self) (Some t)) ∨ partial b' = None.
Proof.
  unfold InsertMode.perform_action, to_dirty. destruct action; intros E; outcome_cases; simpl; auto.
  right. unfold commit_delta, commit_partial. simpl. by destruct (partial b) as [[? ?]|] eqn:Ep.
Qed.

(** The commands touch no history except that of new buffers. *)
Lemma write_buffers_partial w l l' w' e : write_buffers w l = Ok (l', w', e) →
  Forall (λ b, partial b = None) l → Forall (λ b, partial b = None) l'.
Proof.
  revert w l' w' e. induction l as [|b l IH]; intros w l' w' e; cbn [write_buffers].
  - intros [= <- <- <-]. done.
  - intros E [Hb Hl]%Forall_cons.
    destruct (path b); [destruct (slice_to_cow _ _); [|done]; simpl in E;
      destruct (fs_write w _ _) as [[] w1]|]; simpl in E; outcome_inv; constructor; eauto.
Qed.

Lemma collection_update_partial c b c' : set_current c b = Ok c' → partial b = None →
  Forall (λ b, partial b = None) (buf_list c) → Forall (λ b, partial b = None) (buf_list c').
Proof.
  unfold set_current, vec_update. intros E Hb Hc. outcome_inv. simpl. by apply Forall_insert.
Qed.

Lemma current_partial c b : current c = Ok b → Forall (λ b, partial b = None) (buf_list c) → partial b = None.
Proof.
  intros [_ Hb]%vec_index_Ok%zlookup_Some Hc. by apply (Forall_lookup_1 _ _ _ _ Hc Hb).
Qed.

Lemma delete_current_partial c c' : delete_current c = Ok c' →
  Forall (λ b, partial b = None) (buf_list c) → Forall (λ b, partial b = None) (buf_list c').
Proof.
  unfold delete_current, vec_remove. intros E Hc. outcome_inv. simpl.
  destruct (_ =? 0); [by repeat constructor|].
  apply Forall_app. split; [by apply Forall_take|by apply Forall_drop].
Qed.

Lemma switch_partial w c filename r c' : switch_current_buffer w c filename = Ok (r, c') →
  Forall (λ b, partial b = None) (buf_list c) → Forall (λ b, partial b = None) (buf_list c').
Proof.
  unfold switch_current_buffer, from_data_and_path. intros E Hc.
  destruct (fs_canonicalize w filename); [|by outcome_inv].
  destruct (find_path _ _ _ _) as [[]|]; [by outcome_inv| |by outcome_inv].
  destruct (fs_read w filename); [|by outcome_inv]. outcome_inv. simpl.
  apply Forall_app. split; [done|by repeat constructor].
Qed.

Lemma write_partial w c filename t c' w' : write w c filename = Ok (t, c', w') →
  Forall (λ b, partial b = None) (buf_list c) →
  Forall (λ b, partial b = None) (buf_list c') ∧ ¬ is_insert (mode_after MCollapse (Some t)).
Proof.
  unfold write. intros E Hc. destruct (current c) as [b|] eqn:Hb; simpl in E; [|done].
  destruct (if zlen filename =? 0 then path b else Some filename) as [p|];
    [|outcome_inv; split; [done|exact id]].
  destruct (slice_to_cow _ _); simpl in E; [|done].
  destruct (fs_write w p _) as [[] w1]; [|outcome_inv; split; [done|exact id]].
  outcome_inv. split; [|exact id].
  eapply collection_update_partial; [done| |done]. pose proof (current_partial _ _ Hb Hc).
  unfold update_path_if_missing. simpl. by destruct (path b).
Qed.

Lemma command_partial handler w c rest t c' w' : run_command handler w c rest = Ok (t, c', w') →
  Forall (λ b, partial b = None) (buf_list c) →
  Forall (λ b, partial b = None) (buf_list c') ∧ ¬ is_insert (mode_after MCollapse (Some t)).
Proof.
  intros E Hc. destruct handler; simpl in E; [| | by apply write_partial in E|..];
    unfold quit, force_quit, write_quit, write_all, edit_file, delete_current_buffer,
      force_delete_current_buffer in E; outcome_cases; (split; [|repeat case_match; exact id]); try done;
    eauto using write_buffers_partial, delete_current_partial, switch_partial.
Qed.

(** A mode other than insert mode that changes the current buffer but not its
    pending edits. *)
Lemma pending_keep m m' c b b' c' : ¬ is_insert m → pending_ok m c → current c = Ok b →
  partial b' = partial b → set_current c b' = Ok c' → pending_ok m' c'.
Proof.
  intros Hm Hp Hc Hb Hs. eapply pending_update; [done..|].
  by rewrite Hb, (pending_current _ _ _ Hp Hc Hm).
Qed.

Lemma pending_normal m evt bpl c t c' : pending_ok (MNormal m) c →
  NormalMode.transition m evt c bpl = Ok (t, c') → pending_ok (mode_after (MNormal m) t) c'.
Proof.
  intros Hp E. unfold NormalMode.transition in E.
  destruct (current c) as [b|] eqn:Hb; simpl in E; [|done].
  destruct (CmdCount.transition _ _) as [[|s]|]; simpl in E; [| |done].
  - destruct (event_to_action _ _) as [action|]; outcome_inv.
    + eapply (pending_keep (MNormal m)); [exact id|done|done|by eapply normal_partial|done].
    + not_pending (MNormal m).
  - outcome_inv. not_pending (MNormal m).
Qed.

Lemma pending_insert m evt bpl c t c' : pending_ok (MInsert m) c →
  InsertMode.transition m evt c bpl = Ok (t, c') → pending_ok (mode_after (MInsert m) t) c'.
Proof.
  intros Hp E. unfold InsertMode.transition in E.
  destruct (current c) as [b|] eqn:Hb; simpl in E; [|done].
  destruct (event_to_action _ _) as [action|].
  - outcome_inv. match goal with Ha : InsertMode.perform_action _ _ _ _ = _ |- _ =>
      apply insert_pending in Ha end.
    eapply pending_update; [done..|]. tauto.
  - destruct evt as [[[key| | | | | | | | |] mods]| |]; try (outcome_inv; done).
    destruct (negb _); [by outcome_inv|]. destruct (ins_hex m).
    + outcome_inv. match goal with Ha : transition_hex_insertion _ _ _ _ = Ok (?o, _) |- _ =>
        destruct o as [t'|]; [apply hex_insertion_mode in Ha as [m' Ha]|] end.
      * eapply pending_update; [done..|]. intros _. destruct t'; simpl in *; by simplify_eq.
      * eapply pending_update; [done..|]. done.
    + unfold transition_ascii_insertion, to_dirty in E. destruct (ins_mode m); outcome_inv;
        (eapply pending_update; [done..|done]).
Qed.

Lemma pending_command m evt w c t c' w' : pending_ok (MCommand m) c →
  CommandMode.transition m evt w c = Ok (t, c', w') → pending_ok (mode_after (MCommand m) t) c'.
Proof.
  intros Hp E. unfold CommandMode.transition in E.
  destruct (event_to_action _ _) as [action|].
  - destruct action; outcome_inv; try (not_pending (MCommand m)).
    unfold finish in *. destruct (default_commands !! _) as [h|].
    + match goal with Hr : run_command _ _ _ _ = Ok _ |- _ => apply command_partial in Hr as [Hc Hi];
        [|by apply (pending_all (MCommand m) _ id)] end.
      match goal with |- pending_ok (mode_after _ (Some ?x)) _ => destruct x end;
        (apply pending_all; [exact Hi || exact id|exact Hc]).
    + outcome_inv. not_pending (MCommand m).
  - destruct evt as [[[key| | | | | | | | |] mods]| |];
      try (outcome_inv; not_pending (MCommand m)).
    destruct (negb _); outcome_inv; not_pending (MCommand m).
Qed.

Lemma pending_others m evt c t c' : pending_ok m c → ¬ is_insert m →
  match m with
  | MReplace r => ReplaceMode.transition r evt c = Ok (t, c')
  | MJumpTo j => ∃ bpl, JumpToMode.transition j evt c bpl = Ok (t, c')
  | MSearch s => SearchMode.transition s evt c = Ok (t, c')
  | MSplit s => split_transition s evt c = Ok (t, c')
  | _ => False
  end → pending_ok (mode_after m t) c'.
Proof.
  intros Hp Hm E. destruct m as [| |r|j| |s|s| |]; try done.
  - unfold ReplaceMode.transition in E. destruct (current c) as [b|] eqn:Hb; simpl in E; [|done].
    destruct evt as [[[key| | | | | | | | |] mods]| |];
      try (outcome_inv; not_pending (MReplace r)).
    outcome_inv. eapply (pending_keep (MReplace r)); [done|done|done| |done].
    match goal with Ha : match event_to_action _ _ with _ => _ end = Ok _ |- _ =>
      destruct (event_to_action _ _) as [[]|]; [|destruct (negb _)] end.
    + unfold replace_with, to_normal_dirty in *. outcome_inv. partial_inv.
    + by outcome_inv.
    + by eapply replace_partial.
  - destruct E as [bpl E]. unfold JumpToMode.transition in E.
    destruct (current c) as [b|] eqn:Hb; simpl in E; [|done].
    destruct (event_to_action _ _) as [d|].
    + unfold to_normal_dirty in E. destruct (jump_extend j); outcome_inv; simpl in *; outcome_inv;
        (eapply (pending_keep (MJumpTo j)); [done|done|done|by eapply map_regions_partial|done]).
    + destruct evt; outcome_inv; not_pending (MJumpTo j).
  - unfold SearchMode.transition in E. destruct (event_to_action _ _) as [action|].
    + outcome_inv. destruct action; outcome_inv; try (not_pending (MSearch s));
        try (case_match; outcome_inv; not_pending (MSearch s)).
      eapply (pending_keep (MSearch s)); [done|done|done|by eapply search_partial|done].
    + destruct evt as [[[key| | | | | | | | |] mods]| |];
        try (outcome_inv; not_pending (MSearch s)).
      destruct (negb _); [outcome_inv; not_pending (MSearch s)|].
      outcome_inv. case_match; outcome_inv; not_pending (MSearch s).
  - unfold split_transition in E. destruct (current c) as [b|] eqn:Hb; simpl in E; [|done].
    destruct (CmdCount.transition _ _) as [[|st]|]; simpl in E; [| |done].
    + destruct (event_to_action _ _) as [action|].
      * outcome_inv. eapply (pending_keep (MSplit s)); [done|done|done| |done].
        destruct action; simpl in *; outcome_inv; unfold to_normal_dirty in *; partial_inv.
        match goal with Ha : split_apply_search _ _ = Ok _ |- _ =>
          by apply (search_partial (AcceptSplit s)) in Ha end.
      * destruct evt; outcome_inv; not_pending (MSplit s).
    + outcome_inv. not_pending (MSplit s).
Qed.

(** C8: edits are pending only while the editor is in insert mode: every mode
    handles every event in such a way that, once the new mode is installed,
    pending edits exist at most in the current buffer and only if that mode is
    insert mode. So final edits, undo and redo never meet pending edits. *)
Theorem pending_only_in_insert m evt bytes_per_line w c t c' w' :
  pending_ok m c → mode_transition m evt bytes_per_line w c = Ok (t, c', w') →
  pending_ok (mode_after m t) c'.
Proof.
  intros Hp E. destruct m as [m|m|m|m|m|m|m| |]; unfold mode_transition in E; try done.
  - outcome_inv. by eapply pending_normal.
  - outcome_inv. by eapply pending_insert.
  - outcome_inv. eapply (pending_others (MReplace m)); [done|exact id|done].
  - outcome_inv. eapply (pending_others (MJumpTo m)); [done|exact id|]. by exists bytes_per_line.
  - apply pending_command in E; done.
  - outcome_inv. eapply (pending_others (MSearch m)); [done|exact id|done].
  - outcome_inv. eapply (pending_others (MSplit m)); [done|exact id|done].
  - outcome_inv. unfold collapse_transition in *. outcome_inv. done.
Qed.

End pending.

(** ** The delete command *)

Section delete.
Context `{Profile} `{XiRopeLaws}.

Lemma rope_is_empty_spec (r : Rope) : rope_is_empty r = true → rope_bytes r = [].
Proof. intros E%Z.eqb_eq. apply zlen_0. by rewrite <-rope_len_bytes. Qed.

(** Without bytes every region is the cursor at the start. *)
Lemma empty_document_cursors (base : Rope) sel : rope_bytes base = [] →
  selection_ok (rope_len base) sel → Forall (λ r, caret r = tail r) (regions sel).
Proof.
  intros He Hok. apply Forall_forall. intros r Hr%(regions_range _ _ Hok).
  rewrite rope_len_bytes, He in Hr. unfold zlen in Hr. region_lia.
Qed.
(** C9: the delete command never panics on a well-formed selection. The
    register receives the bytes of every region, the document keeps exactly the
    bytes outside of all regions in their order, and the selection is well
    formed for the shorter document and consists of cursors only. *)
Theorem delete_command self reg b bytes_per_line :
  selection_ok (rope_len (data b)) (selection b) → rope_len (data b) < two63 →
  ∃ t b', NormalMode.perform_action self (ADelete reg) b bytes_per_line = Ok (t, b') ∧
    registers b' !! reg =
      Some ((λ r, zslice (rmin r) (rmax r + 1) (rope_bytes (data b))) <$> regions (selection b)) ∧
    rope_bytes (data b') = unselected (regions (selection b)) 0 (rope_bytes (data b)) ∧
    selection_ok (rope_len (data b')) (selection b') ∧
    Forall (λ r, caret r = tail r) (regions (selection b')).
Proof.
  intros Hok Hfit. cbn -[yank_selections]. rewrite yank_contents by done. cbn.
  destruct (rope_is_empty (data b)) eqn:He; cbn.
  - apply rope_is_empty_spec in He. eexists _, _. split; [done|]. cbn.
    rewrite lookup_insert_eq, He. split_and!; try done. by apply (empty_document_cursors (data b)).
  - destruct (deletion_selection (data b) (selection b) Hok Hfit) as (d & sel' & Hd & Hb & Hs & Hok' & Hc).
    rewrite Hd. cbn. unfold apply_delta. cbn. rewrite Hs. cbn.
    eexists _, _. split; [done|]. cbn. rewrite lookup_insert_eq. by split_and!.
Qed.

End delete.

(** ** The theorems at a concrete buffer *)

(** An [x] typed in insert mode, with a pending edit before it. *)
Lemma pending_only_in_insert_witness : ∃ t c' w',
  @mode_transition true ref_rope map_fs naive_search (MInsert (mkInsert IInsert false None))
    (Key (mkKeyEvent (KChar 120) NONE)) 16 sample_world (with_current_buffer typed_buffer) = Ok (t, c', w') ∧
  pending_ok (mode_after (MInsert (mkInsert IInsert false None)) t) c'.
Proof.
  eexists _, _, _. split; [vm_compute; reflexivity|].
  apply (@pending_only_in_insert true ref_rope map_fs naive_search (MInsert (mkInsert IInsert false None))
    (Key (mkKeyEvent (KChar 120) NONE)) 16 sample_world (with_current_buffer typed_buffer) _ _ sample_world).
  - intros [|i] b Hb _; [split; done|by destruct i].
  - vm_compute. reflexivity.
Defined.

Lemma delete_command_witness : ∃ t b',
  @NormalMode.perform_action true ref_rope normal_new (ADelete 34)
    (with_selection sample_buffer (selection_of [(0, 1); (4, 3)] 0)) 16 = Ok (t, b') ∧
  registers b' !! 34 = Some [[0; 1]; [3]] ∧ rope_bytes (data b') = [2].
Proof.
  destruct (@delete_command true ref_rope ref_rope_laws normal_new 34
    (with_selection sample_buffer (selection_of [(0, 1); (4, 3)] 0)) 16) as (t & b' & Ha & Hr & Hb & _);
    [selection_ok_compute|vm_compute; reflexivity|]. by exists t, b'.
Defined.
